(* ===== verification/_CoqProject ===== *)
-Q . S2P
Prelude.v
Types.v
Paths.v
Signals.v
Graph.v
Config.v
Traversal.v
Fork.v
Connections.v
WorkerProcess.v
RemoteProto.v
Capnp.v
Schema.v
SchemaNodes.v
SchemaCheck.v
SchemaLaws.v
Wire.v
Eval.v
Flake.v
Worker.v
LocalProcess.v
RemoteWorker.v
RemoteStart.v
JsonWire.v
Scheduler.v
Pool.v
Coordination.v
Shutdown.v
Session.v
Evaluation.v
Typing.v
Watch.v
SessionCache.v
Daemon.v
Lifecycle.v
Args.v
Client.v
Program.v
CoreTests.v
CommandTests.v
