(* ===== verification/Prelude.v ===== *)
(** * Evix: a verification library

    Evix evaluates a Nix flake or expression with a pool of workers and streams
    one event per attribute. This library models its program logic, follows the
    Rust sources definition by definition, and proves what makes it correct.
    Paths below are relative to [src/crates/].

    ** The program

    A _session_ ([evix/src/session.rs]) starts one _run_. The run's coordinator
    ([evix/src/async_master.rs]) owns a queue of attribute paths and gives them,
    one at a time, to idle workers. A _worker_ ([evix/src/worker.rs]) is a local
    process, a fork of the first local process ([evix/src/fork.rs]) or a process
    behind a TCP server ([evix/src/remote_worker.rs]); it evaluates the attribute
    ([evix/src/eval.rs]) and answers, over a Cap'n Proto protocol
    ([evix/src/remote_proto.rs]), with a derivation, an attribute set or an
    error. An attribute set puts its children on the coordinator's queue. Events
    reach the caller in the order in which the coordinator handles them; the
    derivations are kept as the session's _warm graph_ ([evix/src/state.rs]),
    which queries and diffs use. The _daemon_ ([evix-daemon/src/]) shares warm
    sessions between clients: a bounded registry of sessions keyed by input and
    configuration, and for each one the output of its first evaluation, to be
    replayed. The _command line_ ([evix-cli/src/]) turns arguments into a plan and
    runs it in its own process or through the daemon.

    ** The files

    In dependency order; each models the source named with it.

    - [Prelude.v]: Rust's [Result] and [Option] combinators, record updates,
      64-bit [usize] with its wrap-around, string and list facts, and the
      tactics and hints that the other files share.
    - [Types.v]: [evix-protocol/src/lib.rs], the data of events, filters and
      daemon requests.
    - [Paths.v]: what the sources use of [std::path].
    - [Signals.v]: descriptors, signal handlers, the shutdown pipe and the
      standard streams, [evix-daemon/src/lib.rs].
    - [Graph.v]: [evix/src/state.rs].
    - [Config.v]: [evix/src/config.rs], [worker_config.rs],
      [evix-protocol/src/serde_config.rs] and the checks that
      [async_master.rs] makes of a configuration.
    - [Traversal.v]: no source: the specification of a run, a machine that
      visits announced paths in any order, and the sequential reference
      [traverse].
    - [Fork.v]: [evix/src/fork.rs], slots and when to fork.
    - [Connections.v]: [evix/src/fork.rs], the slots' environment variable, and
      the streams and Nix daemon connections of a forked worker.
    - [WorkerProcess.v]: the settings file and the captured standard error of
      [evix/src/worker_process.rs].
    - [RemoteProto.v]: [evix/src/remote_proto.rs] and
      [evix/schema/worker.capnp].
    - [Capnp.v]: no source: what the generated accessors use of the Cap'n Proto
      library, as classes of operations and laws, with a model of them.
    - [Schema.v]: the accessors of [evix/src/generated/worker_capnp.rs] that
      [remote_proto.rs] calls, and its tests of pointers, in a module per struct.
    - [SchemaNodes.v]: the encoded nodes and tables of the same file.
    - [SchemaCheck.v]: a reader of encoded nodes, after the published encoding
      and [schema.capnp] of Cap'n Proto, [evix/schema/worker.capnp] as declared,
      and the agreement of the schema, the tables and the accessors.
    - [SchemaLaws.v]: no source: what this agreement means for setters and
      getters.
    - [Wire.v]: [remote_proto.rs] again, through these accessors, and that it
      implements [RemoteProto.v].
    - [Eval.v]: [evix/src/eval.rs].
    - [Flake.v]: the inputs of [evix/src/worker.rs], flake locks and the
      worker's set-up.
    - [Worker.v]: the loop of [evix/src/worker.rs] and the protocol side of
      [worker_process.rs].
    - [LocalProcess.v]: the start, attachment and end of worker processes,
      [worker_process.rs].
    - [RemoteWorker.v], [RemoteStart.v]: [evix/src/remote_worker.rs], its
      conversation, and its accept loop and connections.
    - [JsonWire.v]: [evix/src/json.rs].
    - [Scheduler.v]: [evix/src/async_master.rs].
    - [Pool.v], [Coordination.v]: the theorems about [Scheduler.v].
    - [Shutdown.v]: the end of a run in [async_master.rs], after its
      coordinator has returned.
    - [Session.v]: [evix/src/session.rs], [error.rs], [run.rs] and the
      evaluation loop of [watch.rs].
    - [Evaluation.v]: no source: the coordinator, workers, evaluator and session
      put together.
    - [Typing.v]: no source: what well-typed Nix values and well-formed events
      are, and that the definitions above preserve it.
    - [Watch.v]: the paths of a watch and its start, [evix/src/watch.rs].
    - [SessionCache.v]: [evix-daemon/src/session_cache.rs] and
      [connection_limit.rs].
    - [Daemon.v]: requests, handlers and socket of [evix-daemon/src/lib.rs].
    - [Lifecycle.v]: its accept loop, start-up, launcher and clean-up, and
      [evix-daemon/src/bin/evixd.rs].
    - [Args.v]: [evix-cli/src/args.rs].
    - [Client.v]: [evix-cli/src/main.rs].
    - [Program.v]: the two programs as a whole: the entry points of
      [evix/src/lib.rs], the start of a run in [async_master.rs] and [main] of
      [evix-cli/src/main.rs].
    - [CoreTests.v], [CommandTests.v]: the unit tests beside these sources, under
      their names, decided on the model: first those of [evix] and
      [evix-protocol], then those of the command line and the daemon.

    Sequential code is a function on explicit state, in the error monad [result]
    where the source uses [?]. The concurrent part is [Scheduler.step]: a state
    [Sys] holds the coordinator's phase, its scheduler, the slot of every worker
    (its task and its inbox), the shared message channel and the cancel
    flag, and a step is one action of one party, so that a reachable state is
    any interleaving. What a worker may answer is the relation [answers], and
    what the event sink answers the function [on_event], of which nothing is
    assumed except where a theorem says so.

    Code of other packages is an argument or an interface: Nix values, stores and
    evaluators are the classes [NixApi] ([Eval.v]) and [NixState] ([Flake.v]),
    the flake bindings the record [FlakeApi] ([Flake.v]), the messages of the Cap'n
    Proto library the classes [Capnp] and [CapnpLaws] ([Capnp.v]), the conversation
    with a spawned worker the class [Transport] ([Scheduler.v]). Answers of system calls are arguments too.

    ** What the theorems show

    - The coordinator ([Coordination.v]). Every reachable state refines the
      abstract traversal; a completed run emits exactly the events of the
      sequential reference, each announced path once, whatever the pool and the
      interleaving and also when workers fail; every run is finite; the count of
      active items is exact and never wraps; the coordinator is never blocked
      for good, never panics, and its internal errors are unreachable.
    - The end of a run ([Shutdown.v]): however the coordinator ended and its
      tasks go on, [run] returns, in a bounded number of steps and never stuck,
      and what it returns tells how the tasks ended.
    - The whole evaluation ([Evaluation.v]): a run whose workers are the loop of
      [Worker.v] behind the protocol emits the traversal of [process_attr], and
      the session's graph holds exactly its derivations.
    - The whole command ([Program.v]): what [evix eval] prints, parsed back, is
      the traversal of the value its workers were set up with from its arguments,
      and its exit status says whether the run completed.
    - Typing ([Typing.v]): whatever well-typed value is evaluated, every event a
      run sends is well-formed, so that its line parses back.
    - The pool ([Pool.v], [Scheduler.v]): worker specifications are identified by
      their position, and fork slots are handed out once.
    - The graph ([Graph.v]): recording keeps the last derivation of a path and
      all errors; a diff lists the changed entries and leads from one graph to
      the other; a filter accepts what each of its fields accepts, with the
      wildcard table deciding a declarative pattern language.
    - Configurations ([Config.v]): what is accepted, and that the conversions
      lose nothing.
    - Sessions ([Session.v]): the initial evaluation is single-use, the warm
      graph belongs to a completed run, failures are reported by every later
      operation, watch diffs stay in step with the graph.
    - The daemon ([SessionCache.v], [Daemon.v]): the registry is a bounded
      recency list, replays are what an evaluation of the same session sent,
      updates invalidate them, connections are limited and authorized, request
      lines are bounded, and no live socket or other file is replaced.
    - The daemon's life ([Signals.v], [Lifecycle.v]): the launcher's exit status
      says whether the daemon serves; a signal ends the accept loop without a
      client's help, and nothing else but an error does; handlers and
      descriptors are given back.
    - Starting workers ([LocalProcess.v], [Connections.v], [RemoteStart.v],
      [Flake.v]): a started process is a worker with the master's configuration
      and slots, and otherwise is killed; a forked one is attached by the id it
      sends and shares no connection with its parent; master and server agree on
      whether a connection serves; every worker evaluates the master's lock.
    - The command line ([Args.v], [Client.v]): the grouping of arguments accepts
      exactly its grammar and is read back; plans hold valid configurations; an
      evaluation prints the same through the daemon as without it; a truncated
      answer is an error; Nix runs locally only when it must; requests do not
      depend on the client's directory.
    - Watches ([Watch.v]): the observed paths are the input, the local flake and
      its path inputs, each once, and nothing is sent before all are observed.
    - Workers ([Eval.v], [Worker.v], [RemoteProto.v], [Wire.v], [RemoteWorker.v],
      [WorkerProcess.v]): traversal ends within its depth bound, events have the
      right class and data, master and worker agree on the conversation, messages
      are read back as written down to the bits of their structs, a remote worker starts only for the right token,
      settings files hold no include directive, captured output is bounded.
    - The schema ([SchemaCheck.v], [SchemaLaws.v]): the declared schema, the
      encoded nodes and their tables, and the accessors of the generated code
      agree; so what a setter sets its getter reads, and no setter disturbs
      another field that can be there at once.
    - JSON ([JsonWire.v]): printed events parse back to themselves.

    ** Bounds and fuel

    - [MAX_ATTR_DEPTH] is 64, as in the source. A path deeper than that gets an
      error event, so the reference traversal, whose fuel is the remaining depth,
      never runs out ([Eval.evaluation_depth_bounded]).
    - JSON conversion of metadata recurses on the remaining depth, which is the
      source's own argument.
    - The dispatch loop turns once per worker that was idle when it began, as the
      source's loop over that number does. The channels to workers hold one
      command: [Coordination.scheduler_accounting] bounds the commands sent, so
      the inboxes of the model need no bound of their own.
    - [usize] counters are 64 bits wide and wrap; pools are assumed smaller than
      that. List lengths in schema messages go through [u32::try_from], as in
      the source, and round trips are stated for lists that fit.

    ** What is not modelled

    - The bytes of messages, which the Cap'n Proto library lays out and frames, the
      other accessors of [evix/src/generated/worker_capnp.rs], which nothing calls,
      [evix/build.rs], and the text of JSON values. The reader of encoded nodes
      follows the published encoding, for messages of one segment.
    - Nix itself: its values, store and evaluator.
    - System calls themselves: each is an argument that can succeed or fail, and
      what the program does with its answer is modelled. Timers are one bit (in
      time or not); the debounce of notifications of watched files is a delay and
      is left out, and so are log messages.
    - The parser of declared arguments, which another package generates.
    - The re-exports of [evix/src/lib.rs] and the tuning of the memory allocator.
    - The integration tests ([evix/tests/], [evix-cli/tests/]), which run the
      programs against Nix, and the unit tests of parsed JSON text and of counted
      flags; the simulated runs are replayed for the first of their seeds only. *)
From stdpp Require Export base tactics gmap strings list fin_maps sorting pretty.
From Stdlib Require Export NArith Ascii.
From Stdlib Require Import Lia.

(** ** Errors as values: Rust's [Result] *)

Inductive result (E A : Type) : Type :=
  | Ok (a : A)
  | Err (e : E).
Arguments Ok {E A} _.
Arguments Err {E A} _.

#[export] Instance result_ret {E} : MRet (result E) := λ A a, Ok a.
#[export] Instance result_bind {E} : MBind (result E) := λ A B f r,
  match r with Ok a => f a | Err e => Err e end.
#[export] Instance result_fmap {E} : FMap (result E) := λ A B f r,
  match r with Ok a => Ok (f a) | Err e => Err e end.

(** [Result::map_err] *)
Definition map_err {E F A} (f : E → F) (r : result E A) : result F A :=
  match r with Ok a => Ok a | Err e => Err (f e) end.

(** [Option::ok_or] *)
Definition ok_or {E A} (e : E) (o : option A) : result E A :=
  match o with Some a => Ok a | None => Err e end.

(** [Result::ok] *)
Definition ok {E A} (r : result E A) : option A :=
  match r with Ok a => Some a | Err _ => None end.

Definition is_ok {E A} (r : result E A) : bool :=
  match r with Ok _ => true | Err _ => false end.
Definition is_err {E A} (r : result E A) : bool :=
  match r with Ok _ => false | Err _ => true end.

(** [iter().map(f).collect::<Result<Vec<_>, _>>()]: the first error wins. *)
Fixpoint collect_results {E A B} (f : A → result E B) (l : list A) : result E (list B) :=
  match l with
  | [] => Ok []
  | a :: l => b ← f a; bs ← collect_results f l; Ok (b :: bs)
  end.

(** The error reports of the code: a message built where the error arises,
    and the contexts attached on the way up, innermost first. *)
Inductive Report : Type :=
  | report (message : string)
  | context (note : string) (source : Report).

Abbreviation Result := (result Report).

Definition with_context {A} (note : string) (r : Result A) : Result A :=
  map_err (context note) r.

(** [std::io::Error]: the kinds the code tells apart. *)
Inductive IoErrorKind : Type :=
  NotFound | ConnectionRefused | Interrupted | BrokenPipe | OtherKind.

Record IoError := mkIoError { io_kind : IoErrorKind; io_report : Report }.

(** ** Machine integers: [usize] is 64 bits wide, release builds wrap *)

Definition usize_modulus : N := 2 ^ 64.
Definition usize_max : N := usize_modulus - 1.
Definition usize_wrap (n : N) : N := n `mod` usize_modulus.
Definition usize_add (a b : N) : N := usize_wrap (a + b).
Definition usize_sub (a b : N) : N := usize_wrap (a + usize_modulus - usize_wrap b).
Definition saturating_mul (a b : N) : N := N.min (a * b) usize_max.
Definition u32_max : N := 2 ^ 32 - 1.
Definition u32_try_from (n : N) : option N :=
  if (n <=? u32_max)%N then Some n else None.

(** ** Byte strings *)

(** A Rust [String] is its UTF-8 bytes, so a Rocq [string] is one byte per
    character. Separators the code splits on are ASCII, and an ASCII byte never
    occurs inside a multi-byte scalar, so splitting bytes is splitting chars. *)

Fixpoint str_chars (s : string) : list ascii :=
  match s with EmptyString => [] | String c s => c :: str_chars s end.

Fixpoint str_of_chars (l : list ascii) : string :=
  match l with [] => EmptyString | c :: l => String c (str_of_chars l) end.

Definition str_is_empty (s : string) : bool :=
  match s with EmptyString => true | _ => false end.

(** [str::len], in bytes. *)
Definition str_len (s : string) : nat := String.length s.

Definition str_eqb (a b : string) : bool := bool_decide (a = b).

(** [str::contains(char)] for an ASCII char. *)
Fixpoint str_contains (c : ascii) (s : string) : bool :=
  match s with
  | EmptyString => false
  | String d s => if decide (d = c) then true else str_contains c s
  end.

(** [str::strip_prefix] *)
Fixpoint strip_prefix (p s : string) : option string :=
  match p, s with
  | EmptyString, _ => Some s
  | String a p, String b s => if decide (a = b) then strip_prefix p s else None
  | String _ _, EmptyString => None
  end.

(** [str::starts_with] *)
Definition starts_with (p s : string) : bool :=
  match strip_prefix p s with Some _ => true | None => false end.

(** [str::split_once] on an ASCII separator. *)
Fixpoint split_once (c : ascii) (s : string) : option (string * string) :=
  match s with
  | EmptyString => None
  | String d s =>
      if decide (d = c) then Some (EmptyString, s)
      else match split_once c s with
           | Some (a, b) => Some (String d a, b)
           | None => None
           end
  end.

(** [str::split] on an ASCII separator; like Rust's it never returns no part. *)
Fixpoint str_split (c : ascii) (s : string) : list string :=
  match s with
  | EmptyString => [EmptyString]
  | String d s =>
      if decide (d = c) then EmptyString :: str_split c s
      else match str_split c s with
           | p :: ps => String d p :: ps
           | [] => [String d EmptyString]
           end
  end.

(** [slice::join] *)
Fixpoint str_join (sep : string) (l : list string) : string :=
  match l with
  | [] => EmptyString
  | [s] => s
  | s :: l => s +:+ sep +:+ str_join sep l
  end.

Definition newline : ascii := "010"%char.
Definition carriage_return : ascii := "013"%char.
Definition quote_char : ascii := "034"%char.

(** ** UTF-8: [str::chars] and [String::from_utf8] *)

(** The continuation bits of a byte, and whether a byte is a continuation. *)
Definition cont_bits (b : ascii) : N := N.land (N_of_ascii b) 63.
Definition is_cont (b : ascii) : bool := bool_decide (N.land (N_of_ascii b) 192 = 128)%N.

(** [str::chars]: the scalar values of a valid UTF-8 string. On bytes that no
    [String] holds (a truncated scalar) the decoder stops. *)
Fixpoint chars_of_bytes (l : list ascii) : list N :=
  match l with
  | [] => []
  | x :: l1 =>
      let n := N_of_ascii x in
      if (n <? 128)%N then n :: chars_of_bytes l1
      else match l1 with
      | [] => []
      | y :: l2 =>
          if (n <? 224)%N
          then N.lor (N.shiftl (N.land n 31) 6) (cont_bits y) :: chars_of_bytes l2
          else match l2 with
          | [] => []
          | z :: l3 =>
              let yz := N.lor (N.shiftl (cont_bits y) 6) (cont_bits z) in
              if (n <? 240)%N
              then N.lor (N.shiftl (N.land n 31) 12) yz :: chars_of_bytes l3
              else match l3 with
              | [] => []
              | w :: l4 =>
                  N.lor (N.shiftl (N.land n 7) 18)
                        (N.lor (N.shiftl yz 6) (cont_bits w)) :: chars_of_bytes l4
              end
          end
      end
  end.

Definition chars (s : string) : list N := chars_of_bytes (str_chars s).

(** The well-formed byte sequences of the Unicode standard (no overlong
    encodings, no surrogates, nothing above U+10FFFF). *)
Definition between (lo hi : N) (b : ascii) : bool :=
  ((lo <=? N_of_ascii b) && (N_of_ascii b <=? hi))%N.

Fixpoint utf8_valid_bytes (l : list ascii) : bool :=
  match l with
  | [] => true
  | x :: l1 =>
      if between 0 127 x then utf8_valid_bytes l1
      else match l1 with
      | [] => false
      | y :: l2 =>
          if between 194 223 x then is_cont y && utf8_valid_bytes l2
          else match l2 with
          | [] => false
          | z :: l3 =>
              if between 224 239 x then
                is_cont y && is_cont z
                && (if between 224 224 x then between 160 191 y else true)
                && (if between 237 237 x then between 128 159 y else true)
                && utf8_valid_bytes l3
              else match l3 with
              | [] => false
              | w :: l4 =>
                  between 240 244 x && is_cont y && is_cont z && is_cont w
                  && (if between 240 240 x then between 144 191 y else true)
                  && (if between 244 244 x then between 128 143 y else true)
                  && utf8_valid_bytes l4
              end
          end
      end
  end.

(** [Path::to_str] / [String::from_utf8]: a path is bytes, UTF-8 or not. *)
Definition utf8_valid (s : string) : bool := utf8_valid_bytes (str_chars s).
Definition to_str (path : string) : option string :=
  if utf8_valid path then Some path else None.

(** [char::is_whitespace]: the Unicode property White_Space. *)
Definition is_whitespace (c : N) : bool :=
  ((9 <=? c) && (c <=? 13) || (c =? 32) || (c =? 133) || (c =? 160) || (c =? 5760)
   || (8192 <=? c) && (c <=? 8202) || (c =? 8232) || (c =? 8233) || (c =? 8239)
   || (c =? 8287) || (c =? 12288))%N.

(** [str::trim().is_empty()] *)
Definition is_blank (s : string) : bool := forallb is_whitespace (chars s).

(** [str::split_whitespace().next()], as scalars. *)
Fixpoint skip_whitespace (l : list N) : list N :=
  match l with
  | [] => []
  | c :: l' => if is_whitespace c then skip_whitespace l' else l
  end.
Fixpoint take_word (l : list N) : list N :=
  match l with
  | [] => []
  | c :: l => if is_whitespace c then [] else c :: take_word l
  end.
Definition first_word (s : string) : list N := take_word (skip_whitespace (chars s)).

(** [str::trim]: the bytes of each scalar, whitespace dropped at both ends. *)
Fixpoint scalar_spans (l : list ascii) : list (list ascii) :=
  match l with
  | [] => []
  | x :: l1 =>
      if (N_of_ascii x <? 128)%N then [x] :: scalar_spans l1
      else match l1 with
      | [] => [[x]]
      | y :: l2 =>
          if (N_of_ascii x <? 224)%N then [x; y] :: scalar_spans l2
          else match l2 with
          | [] => [[x; y]]
          | z :: l3 =>
              if (N_of_ascii x <? 240)%N then [x; y; z] :: scalar_spans l3
              else match l3 with
              | [] => [[x; y; z]]
              | w :: l4 => [x; y; z; w] :: scalar_spans l4
              end
          end
      end
  end.

Definition span_is_whitespace (span : list ascii) : bool :=
  match chars_of_bytes span with [c] => is_whitespace c | _ => false end.

Fixpoint skip_spans (l : list (list ascii)) : list (list ascii) :=
  match l with
  | [] => []
  | span :: l' => if span_is_whitespace span then skip_spans l' else l
  end.

Definition str_trim (s : string) : string :=
  str_of_chars (concat (reverse (skip_spans (reverse (skip_spans (scalar_spans (str_chars s))))))).

(** ** Numbers in text *)

(** [usize::from_str]: an optional sign [+], then at least one digit, and the
    value fits 64 bits. *)
Definition digit_value (c : ascii) : option N :=
  if between 48 57 c then Some (N_of_ascii c - 48)%N else None.

Fixpoint parse_digits (acc : N) (l : list ascii) : option N :=
  match l with
  | [] => Some acc
  | c :: l =>
      d ← digit_value c;
      if (acc * 10 + d <=? usize_max)%N then parse_digits (acc * 10 + d) l else None
  end.

Definition parse_usize (s : string) : option N :=
  match str_chars s with
  | [] => None
  | c :: l =>
      if bool_decide (c = "+"%char)
      then match l with [] => None | _ => parse_digits 0 l end
      else parse_digits 0 (c :: l)
  end.

(** [Display] for the unsigned integers. *)
Definition show_N (n : N) : string := pretty n.

(** [Debug] for a [str] of printable characters: quotes around it, and a
    backslash before a quote or a backslash. *)
Fixpoint debug_escape (s : string) : string :=
  match s with
  | EmptyString => EmptyString
  | String c s =>
      if decide (c = quote_char ∨ c = "092"%char)
      then String "092" (String c (debug_escape s))
      else String c (debug_escape s)
  end.
Definition debug_str (s : string) : string :=
  String quote_char (debug_escape s +:+ String quote_char EmptyString).

(** ** Ordered maps *)

(** [BTreeMap<String, V>] is a finite map whose iteration is by ascending key;
    strings compare by bytes. *)
Definition key_le {V} (a b : string * V) : Prop := String.le a.1 b.1.
#[export] Instance key_le_dec {V} : RelDecision (@key_le V).
Proof. intros a b. unfold key_le. apply _. Defined.

Definition btree_iter {V} (m : gmap string V) : list (string * V) :=
  merge_sort key_le (map_to_list m).

(** [collect::<BTreeMap<_, _>>()]: inserting the entries one after the other. *)
Definition collect_map {V} (entries : list (string * V)) : gmap string V :=
  foldl (λ m kv, <[kv.1 := kv.2]> m) ∅ entries.

(** [Option::is_none_or] *)
Definition is_none_or {A} (p : A → bool) (o : option A) : bool :=
  match o with None => true | Some a => p a end.

(** ** Functional record update *)

(** [r <| f := v |>] is [r] with its field [f] set to [v]. A record type gives
    its eta expansion once; the update of a field is the expansion with that
    projection replaced. *)
Class EtaRecord (R : Type) := eta_record : R → R.
Class FieldUpdate {R A} (f : R → A) := update_field : (A → A) → R → R.

Ltac solve_field_update :=
  match goal with
  | |- @FieldUpdate ?R ?A ?f =>
      let e := constr:(@eta_record R _) in
      let e := eval cbv beta delta [eta_record] in e in
      let i := (match e with ?i => eval unfold i in i end) in
      let p := eval pattern f in i in
      match p with
      | ?h _ => exact (fun (g : A → A) => h (fun r => g (f r)))
      end
  end.
#[export] Hint Extern 1 (FieldUpdate _) => solve_field_update : typeclass_instances.

Arguments update_field {R A} f {_} g r /.

Notation "r <| f := v |>" := (update_field f (λ _, v) r)
  (at level 1, left associativity, format "r <| f  :=  v |>") : stdpp_scope.

(** ** Shared lemmas and automation *)

(** The rewrite rules and facts every component may use; a component exports
    its own with [#[export] Hint]. *)
Create HintDb evix.
Create Rewrite HintDb evix.

(** Booleans of the code against propositions of the specifications. *)
Lemma str_eqb_true a b : str_eqb a b = true ↔ a = b.
Proof. apply bool_decide_eq_true. Qed.

Lemma str_eqb_false a b : str_eqb a b = false ↔ a ≠ b.
Proof. apply bool_decide_eq_false. Qed.

Lemma str_eqb_refl a : str_eqb a a = true.
Proof. by apply str_eqb_true. Qed.

Lemma existsb_elem_of {A} (p : A → bool) (l : list A) :
  existsb p l = true ↔ ∃ a, a ∈ l ∧ p a = true.
Proof.
  rewrite existsb_exists. split; intros (a & ? & ?); exists a;
    by rewrite ?list_elem_of_In in *.
Qed.

Lemma forallb_elem_of {A} (p : A → bool) (l : list A) :
  forallb p l = true ↔ ∀ a, a ∈ l → p a = true.
Proof.
  rewrite forallb_forall. split; intros H a Ha; apply H; by apply list_elem_of_In.
Qed.
Lemma forallb_false {A} (p : A → bool) (l : list A) :
  forallb p l = false → ∃ a, a ∈ l ∧ p a = false.
Proof.
  induction l as [|a l IH]; simpl; [done|]. destruct (p a) eqn:Hp; simpl.
  - intros (b & ? & ?)%IH. exists b. split; [by right|done].
  - intros _. exists a. split; [by left|done].
Qed.

Lemma is_none_or_true {A} (p : A → bool) (o : option A) :
  is_none_or p o = true ↔ ∀ a, o = Some a → p a = true.
Proof. destruct o; simpl; naive_solver. Qed.

#[export] Hint Rewrite @str_eqb_true @str_eqb_false @bool_decide_eq_true
  @bool_decide_eq_false @andb_true_iff @orb_true_iff @negb_true_iff
  @andb_false_iff @orb_false_iff @negb_false_iff @existsb_elem_of @forallb_elem_of
  @is_none_or_true N.eqb_eq N.eqb_neq N.ltb_lt N.ltb_ge N.leb_le N.leb_gt : evix.

(** Turn boolean tests into propositions, everywhere. *)
Ltac bool_simpl := autorewrite with evix in *.

(** Split on the conditions and matches of the goal, one after the other. *)
Ltac case_all := repeat (case_match || case_decide); simplify_eq/=.

(** A loop [for i in 1..=n]: an invariant indexed by the last index done. *)
Lemma foldl_seq_ind {St} (f : St → nat → St) (P : nat → St → Prop) n s :
  P 0 s → (∀ i s, i < n → P i s → P (S i) (f s (S i))) → P n (foldl f s (seq 1 n)).
Proof.
  intros H0 HS. induction n as [|n IH]; [done|].
  rewrite seq_S, foldl_app; simpl. apply HS; [lia|]. apply IH. intros; apply HS; [lia|done].
Qed.

(** A fold that appends the selected elements is a filter. *)
Lemma foldl_filter {A B} (keep : A → bool) (f : A → B) (l : list A) (out : list B) :
  foldl (λ out a, if keep a then out else out ++ [f a]) out l
  = out ++ (f <$> filter (λ a, keep a = false) l).
Proof.
  revert out. induction l as [|a l IH]; intros out; simpl.
  - by rewrite app_nil_r.
  - rewrite IH, filter_cons. destruct (keep a) eqn:E; case_decide; try congruence.
    by rewrite <-(assoc_L (++)).
Qed.

(** Sequencing of fallible steps. *)
Lemma bind_ok {E A B} (f : A → result E B) (m : result E A) b :
  m ≫= f = Ok b ↔ ∃ a, m = Ok a ∧ f a = Ok b.
Proof. destruct m; simpl; naive_solver. Qed.

Lemma bind_unit_ok {E B} (m : result E unit) (k : result E B) b :
  (_ ← m; k) = Ok b ↔ m = Ok tt ∧ k = Ok b.
Proof. destruct m as [[]|]; simpl; naive_solver. Qed.

Lemma map_err_ok {E F A} (f : E → F) (r : result E A) a : map_err f r = Ok a ↔ r = Ok a.
Proof. destruct r; simpl; naive_solver. Qed.

Lemma with_context_ok {A} note (r : Result A) a : with_context note r = Ok a ↔ r = Ok a.
Proof. apply map_err_ok. Qed.

Lemma bind_pure {E A} (r : result E A) : r ≫= Ok = r.
Proof. by destruct r. Qed.

Lemma bind_fmap {E A B} (f : A → B) (r : result E A) : (a ← r; Ok (f a)) = f <$> r.
Proof. by destruct r. Qed.

Lemma fmap_ok {E A B} (f : A → B) (r : result E A) b :
  f <$> r = Ok b ↔ ∃ a, r = Ok a ∧ b = f a.
Proof. destruct r; simpl; naive_solver. Qed.

Lemma ok_or_ok {E A} (e : E) (o : option A) a : ok_or e o = Ok a ↔ o = Some a.
Proof. destruct o; simpl; naive_solver. Qed.

#[export] Hint Rewrite @map_err_ok @with_context_ok @ok_or_ok : evix.

Lemma collect_results_ok {E A B} (f : A → result E B) l bs :
  collect_results f l = Ok bs ↔ Forall2 (λ a b, f a = Ok b) l bs.
Proof.
  revert bs. induction l as [|a l IH]; intros bs; simpl.
  - split; [intros [= <-]; constructor|by intros ->%Forall2_nil_inv_l].
  - rewrite bind_ok. setoid_rewrite bind_ok. setoid_rewrite IH. split.
    + intros (b & ? & bs' & ? & [= <-]). by constructor.
    + intros (b & bs' & ? & ? & ->)%Forall2_cons_inv_l. eauto.
Qed.

Lemma collect_results_map {E A B} (f : A → result E B) (g : A → B) l :
  (∀ a, a ∈ l → f a = Ok (g a)) → collect_results f l = Ok (g <$> l).
Proof.
  intros H. apply collect_results_ok, Forall2_fmap_r, Forall_Forall2_diag, Forall_forall. auto.
Qed.

(** Take a computation that returned [Ok] apart, step by step. *)
Ltac ok_inv :=
  repeat match goal with
  | H : (_ ≫= _) = Ok _ |- _ => apply bind_ok in H as (? & ? & H)
  | H : with_context _ _ = Ok _ |- _ => apply with_context_ok in H
  | H : map_err _ _ = Ok _ |- _ => apply map_err_ok in H
  | H : ok_or _ _ = Ok _ |- _ => apply ok_or_ok in H
  | H : _ <$> _ = Ok _ |- _ => apply fmap_ok in H as (? & ? & ?)
  | H : Ok _ = Ok _ |- _ => injection H as H
  | H : Err _ = Ok _ |- _ => discriminate H
  end; simplify_eq/=.

(** Updating one element of a list, seen through a map and a fold. *)
Lemma insert_permutation {A} (l : list A) i x y :
  l !! i = Some x → ∃ rest, l ≡ₚ x :: rest ∧ <[i := y]> l ≡ₚ y :: rest.
Proof.
  intros Hi. pose proof (lookup_lt_Some _ _ _ Hi) as Hlt.
  exists (take i l ++ drop (S i) l). split.
  - rewrite Permutation_middle. by rewrite take_drop_middle.
  - rewrite insert_take_drop by done. by rewrite Permutation_middle.
Qed.

Lemma concat_insert {A B} (f : A → list B) (l : list A) i x y :
  l !! i = Some x → concat (f <$> <[i := y]> l) ++ f x ≡ₚ concat (f <$> l) ++ f y.
Proof.
  intros (rest & H1 & H2)%(insert_permutation _ _ _ y).
  rewrite H2, H1. simpl. solve_Permutation.
Qed.

Lemma sum_insert {A} (f : A → nat) (l : list A) i x y :
  l !! i = Some x → sum_list_with f (<[i := y]> l) + f x = sum_list_with f l + f y.
Proof.
  intros (rest & H1 & H2)%(insert_permutation _ _ _ y).
  rewrite (sum_list_with_Permutation_proper f _ _ H1).
  rewrite (sum_list_with_Permutation_proper f _ _ H2). simpl. lia.
Qed.

(** [simpl] unfolds the list instances of [fmap] and [omap]: fold them again. *)
Ltac fold_lists :=
  repeat match goal with
  | |- context [list_omap ?A ?B ?f ?l] => change (list_omap A B f l) with (omap f l)
  | |- context [list_fmap ?A ?B ?f ?l] => change (list_fmap A B f l) with (f <$> l)
  | H : context [list_omap ?A ?B ?f ?l] |- _ =>
      change (list_omap A B f l) with (omap f l) in H
  | H : context [list_fmap ?A ?B ?f ?l] |- _ =>
      change (list_fmap A B f l) with (f <$> l) in H
  end.

Lemma filter_all {A} (P : A → Prop) `{∀ x, Decision (P x)} (l : list A) :
  (∀ x, x ∈ l → P x) → filter P l = l.
Proof.
  induction l as [|x l IH]; intros Hl; [done|]. rewrite filter_cons, decide_True.
  - f_equal. apply IH. intros y Hy. apply Hl. by right.
  - apply Hl. by left.
Qed.

(** ** Decoding concatenated text *)

Lemma between_spec lo hi b : between lo hi b = true ↔ (lo ≤ N_of_ascii b ≤ hi)%N.
Proof. unfold between. rewrite andb_true_iff, !N.leb_le. done. Qed.

Ltac decode_step :=
  match goal with
  | |- context [(?a <? ?b)%N] =>
      first [ rewrite (proj2 (N.ltb_lt a b)) by lia | rewrite (proj2 (N.ltb_ge a b)) by lia ]
  end.

(** Text after whole scalars decodes on its own. *)
Lemma chars_of_bytes_app l k :
  utf8_valid_bytes l = true → chars_of_bytes (l ++ k) = chars_of_bytes l ++ chars_of_bytes k.
Proof.
  remember (length l) as n eqn:Hn. revert l Hn.
  induction (lt_wf n) as [n _ IH]. intros l -> Hl.
  destruct l as [|x l1]; [done|]. cbn [utf8_valid_bytes] in Hl.
  destruct (between 0 127 x) eqn:E1.
  { apply between_spec in E1. cbn [chars_of_bytes app]. repeat decode_step. simpl. f_equal.
    eapply IH; [|done|done]. simpl. lia. }
  assert (128 ≤ N_of_ascii x)%N as H1.
  { apply N.le_ngt. intros ?. apply not_true_iff_false in E1. apply E1, between_spec. lia. }
  destruct l1 as [|y l2]; [done|]. destruct (between 194 223 x) eqn:E2.
  { apply between_spec in E2. apply andb_true_iff in Hl as [_ Hl].
    cbn [chars_of_bytes app]. repeat decode_step. simpl. f_equal.
    eapply IH; [|done|done]. simpl. lia. }
  destruct l2 as [|z l3]; [done|]. destruct (between 224 239 x) eqn:E3.
  { apply between_spec in E3. apply andb_true_iff in Hl as [_ Hl].
    cbn [chars_of_bytes app]. repeat decode_step. simpl. f_equal.
    eapply IH; [|done|done]. simpl. lia. }
  destruct l3 as [|w l4]; [done|].
  rewrite !andb_true_iff in Hl. destruct Hl as [[[[[[E4 _] _] _] _] _] Hl].
  apply between_spec in E4. cbn [chars_of_bytes app]. repeat decode_step. simpl. f_equal.
  eapply IH; [|done|done]. simpl. lia.
Qed.

(** Text after text is text. *)
Lemma utf8_valid_bytes_app l k :
  utf8_valid_bytes l = true → utf8_valid_bytes (l ++ k) = utf8_valid_bytes k.
Proof.
  remember (length l) as n eqn:Hn. revert l Hn.
  induction (lt_wf n) as [n _ IH]. intros l -> Hl.
  assert (∀ l', length l' < length l → utf8_valid_bytes l' = true →
    utf8_valid_bytes (l' ++ k) = utf8_valid_bytes k) as Hrec by (intros; by eapply IH).
  clear IH. destruct l as [|x l1]; [done|]. cbn [utf8_valid_bytes app] in *.
  destruct (between 0 127 x); [apply Hrec; [simpl; lia|done]|].
  destruct l1 as [|y l2]; [done|]. cbn [app] in *.
  destruct (between 194 223 x).
  { apply andb_true_iff in Hl as [-> Hl]. apply Hrec; [simpl; lia|done]. }
  destruct l2 as [|z l3]; [done|]. cbn [app] in *.
  destruct (between 224 239 x).
  { apply andb_true_iff in Hl as [-> Hl]. apply Hrec; [simpl; lia|done]. }
  destruct l3 as [|w l4]; [done|]. cbn [app] in *.
  apply andb_true_iff in Hl as [-> Hl]. apply Hrec; [simpl; lia|done].
Qed.

Lemma str_chars_app s t : str_chars (s +:+ t) = str_chars s ++ str_chars t.
Proof. induction s as [|c s IH]; [done|]. simpl. by f_equal. Qed.

(** Spans after whole scalars are spans on their own. *)
Lemma scalar_spans_app l k :
  utf8_valid_bytes l = true → scalar_spans (l ++ k) = scalar_spans l ++ scalar_spans k.
Proof.
  remember (length l) as n eqn:Hn. revert l Hn.
  induction (lt_wf n) as [n _ IH]. intros l -> Hl.
  assert (∀ l', length l' < length l → utf8_valid_bytes l' = true →
    scalar_spans (l' ++ k) = scalar_spans l' ++ scalar_spans k) as Hrec by (intros; by eapply IH).
  clear IH. destruct l as [|x l1]; [done|]. cbn [utf8_valid_bytes] in Hl.
  destruct (between 0 127 x) eqn:E1.
  { apply between_spec in E1. cbn [scalar_spans app]. repeat decode_step. simpl. f_equal.
    apply Hrec; [simpl; lia|done]. }
  assert (128 ≤ N_of_ascii x)%N as H1.
  { apply N.le_ngt. intros ?. apply not_true_iff_false in E1. apply E1, between_spec. lia. }
  destruct l1 as [|y l2]; [done|]. destruct (between 194 223 x) eqn:E2.
  { apply between_spec in E2. apply andb_true_iff in Hl as [_ Hl].
    cbn [scalar_spans app]. repeat decode_step. simpl. f_equal. apply Hrec; [simpl; lia|done]. }
  destruct l2 as [|z l3]; [done|]. destruct (between 224 239 x) eqn:E3.
  { apply between_spec in E3. apply andb_true_iff in Hl as [_ Hl].
    cbn [scalar_spans app]. repeat decode_step. simpl. f_equal. apply Hrec; [simpl; lia|done]. }
  destruct l3 as [|w l4]; [done|].
  rewrite !andb_true_iff in Hl. destruct Hl as [[[[[[E4 _] _] _] _] _] Hl].
  apply between_spec in E4. cbn [scalar_spans app]. repeat decode_step. simpl. f_equal.
  apply Hrec; [simpl; lia|done].
Qed.

Lemma skip_spans_snoc l span :
  span_is_whitespace span = true →
  skip_spans (reverse (skip_spans (l ++ [span]))) = skip_spans (reverse (skip_spans l)).
Proof.
  intros Hspan. induction l as [|x l IH]; simpl.
  - by rewrite Hspan.
  - destruct (span_is_whitespace x); [done|].
    rewrite app_comm_cons, reverse_snoc. simpl. by rewrite Hspan.
Qed.

(** Trimming takes a final line feed away. *)
Lemma str_trim_newline s :
  utf8_valid s = true → str_trim (s +:+ String newline EmptyString) = str_trim s.
Proof.
  intros Hs. unfold str_trim. rewrite str_chars_app, scalar_spans_app by done.
  by rewrite (skip_spans_snoc _ [newline]).
Qed.

Lemma chars_app s t : utf8_valid s = true → chars (s +:+ t) = chars s ++ chars t.
Proof. intros Hs. unfold chars. rewrite str_chars_app. by apply chars_of_bytes_app. Qed.

(** Concatenation of strings is a monoid. *)
Lemma str_app_assoc (a b c : string) : (a +:+ b) +:+ c = a +:+ (b +:+ c).
Proof. induction a as [|x a IH]; [done|]. by apply (f_equal (String x)). Qed.

Lemma str_app_nil (a : string) : a +:+ EmptyString = a.
Proof. induction a as [|x a IH]; [done|]. by apply (f_equal (String x)). Qed.

(** ** Maps and their entries *)

(** A map goes over its entries in order and comes back. *)
Lemma collect_map_list {V} (entries : list (string * V)) :
  NoDup entries.*1 → collect_map entries = list_to_map entries.
Proof.
  unfold collect_map. induction entries as [|[k v] entries IH] using rev_ind; intros Hnd; [done|].
  assert (entries ++ [(k, v)] ≡ₚ (k, v) :: entries) as Hperm by solve_Permutation.
  rewrite (list_to_map_proper _ _ Hnd Hperm). rewrite Hperm in Hnd.
  apply NoDup_cons in Hnd as [_ Hnd]. rewrite foldl_app. simpl. by rewrite IH.
Qed.

Lemma btree_iter_permutation {V} (m : gmap string V) : btree_iter m ≡ₚ map_to_list m.
Proof. apply merge_sort_Permutation. Qed.

Lemma collect_map_btree {V} (m : gmap string V) : collect_map (btree_iter m) = m.
Proof.
  rewrite collect_map_list.
  - rewrite (list_to_map_proper _ (map_to_list m)), list_to_map_to_list; [done| |].
    + rewrite btree_iter_permutation. apply NoDup_fst_map_to_list.
    + apply btree_iter_permutation.
  - rewrite btree_iter_permutation. apply NoDup_fst_map_to_list.
Qed.

(** ** Numbers printed and read *)

Lemma digit_value_char d : (d < 10)%N → digit_value (pretty_N_char d) = Some d.
Proof.
  intros Hd. destruct d as [|p]; [done|].
  do 4 (destruct p as [p|p|]; [try (exfalso; lia)|try (exfalso; lia)|done]).
Qed.

Lemma parse_digits_pretty n s :
  (n ≤ usize_max)%N → parse_digits 0 (str_chars (pretty_N_go n s)) = parse_digits n (str_chars s).
Proof.
  revert s. induction (N.lt_wf_0 n) as [n _ IH]. intros s Hn.
  destruct (decide (0 < n)%N) as [Hpos|Hz].
  - rewrite pretty_N_go_step by done.
    pose proof (N.div_lt n 10 ltac:(lia) ltac:(lia)).
    pose proof (N.mod_lt n 10 ltac:(lia)).
    rewrite IH by lia. simpl. rewrite digit_value_char by lia. simpl.
    replace (n `div` 10 * 10 + n `mod` 10)%N with n by (rewrite (N.div_mod n 10) at 1; lia).
    by rewrite (proj2 (N.leb_le _ _) Hn).
  - replace n with 0%N by lia. done.
Qed.

(** Printed numbers are read back. *)
Lemma parse_usize_show n : (n ≤ usize_max)%N → parse_usize (show_N n) = Some n.
Proof.
  intros Hn. unfold show_N, pretty, pretty_N. case_decide as Hz; [by subst|].
  pose proof (parse_digits_pretty n EmptyString Hn) as Hp. unfold parse_usize.
  destruct (str_chars _) as [|c l] eqn:Hc; [by injection Hp as <-|].
  rewrite bool_decide_false; [done|]. by intros ->.
Qed.

(** A character that is no digit does not occur in a printed number. *)
Lemma show_N_contains c n : digit_value c = None → str_contains c (show_N n) = false.
Proof.
  intros Hc. unfold show_N, pretty, pretty_N. case_decide as Hz.
  { simpl. rewrite decide_False; [done|]. by intros <-. }
  clear Hz. assert (∀ s, str_contains c s = false →
    str_contains c (pretty_N_go n s) = false) as H; [|by apply H].
  induction (N.lt_wf_0 n) as [n _ IH]. intros s Hs.
  destruct (decide (0 < n)%N) as [Hpos|Hle].
  - rewrite pretty_N_go_step by done.
    pose proof (N.div_lt n 10 ltac:(lia) ltac:(lia)).
    pose proof (N.mod_lt n 10 ltac:(lia)).
    apply IH; [lia|]. simpl. rewrite decide_False; [done|]. intros Hd.
    pose proof (digit_value_char (n `mod` 10) ltac:(lia)). congruence.
  - by replace n with 0%N by lia.
Qed.
