(* ===== verification/Types.v ===== *)
(** * The shared data of the daemon protocol

    [crates/evix-protocol/src/lib.rs]: the inputs, the configuration carried by
    daemon requests with its builder, the derivations, errors and events of an
    evaluation, the query filter, and the daemon's requests and responses. *)
From S2P Require Import Prelude.

(** ** JSON values *)

(** [serde_json::Number]: [u64], negative [i64], or a finite [f64] (its bits). *)
Inductive Number : Type :=
  | PosInt (n : N)
  | NegInt (z : Z)
  | Float (bits : N).

(** [serde_json::Value]. A [Map] is a [BTreeMap]: entries by ascending key. *)
Inductive Json : Type :=
  | JNull
  | JBool (b : bool)
  | JNumber (n : Number)
  | JString (s : string)
  | JArray (items : list Json)
  | JObject (entries : list (string * Json)).

(** [Map::insert]: replace the value of a present key, else insert in order. *)
Fixpoint jmap_insert (k : string) (v : Json) (m : list (string * Json))
  : list (string * Json) :=
  match m with
  | [] => [(k, v)]
  | (k', v') :: m' =>
      if decide (k = k') then (k, v) :: m'
      else if decide (String.le k k') then (k, v) :: m
      else (k', v') :: jmap_insert k v m'
  end.

Fixpoint jmap_get (k : string) (m : list (string * Json)) : option Json :=
  match m with
  | [] => None
  | (k', v) :: m => if decide (k = k') then Some v else jmap_get k m
  end.

(** Inserting each pair in turn: [json!({..})] and [collect::<Map>()]. *)
Definition jmap_of (l : list (string * Json)) : list (string * Json) :=
  foldl (λ m kv, jmap_insert kv.1 kv.2 m) [] l.

(** [Value::get] with a string index: only an object has fields. *)
Definition json_get (k : string) (v : Json) : option Json :=
  match v with JObject m => jmap_get k m | _ => None end.

Definition as_str (v : Json) : option string :=
  match v with JString s => Some s | _ => None end.
Definition as_bool (v : Json) : option bool :=
  match v with JBool b => Some b | _ => None end.
Definition as_object (v : Json) : option (list (string * Json)) :=
  match v with JObject m => Some m | _ => None end.
Definition is_null (v : Json) : bool :=
  match v with JNull => true | _ => false end.

(** [json!] on a list of strings, and [serde_json::from_value::<Vec<String>>]. *)
Definition json_strings (l : list string) : Json := JArray (JString <$> l).
Definition json_to_strings (v : Json) : option (list string) :=
  match v with JArray l => mapM as_str l | _ => None end.

(** ** Configuration *)

Definition DAEMON_PROTOCOL_VERSION : N := 2.
Definition DEFAULT_ITEM_TIMEOUT_SECONDS : N := 30 * 60.

(** Input source for a Nix evaluation. *)
Inductive Input : Type :=
  | Flake (reference : string)
  | Expr (expr : string)
  | File (path : string).

(** Argument passed to a Nix function parameter. *)
Inductive AutoArg : Type :=
  | ArgExpr (expr : string)
  | ArgStr (value : string).

(** Remote worker pool configuration. *)
Record Remote := mkRemote {
  endpoint : string;
  systems : list string;
  remote_workers : N;
  token : option string;
}.

(** Configuration carried by daemon protocol requests. *)
Record WireConfig := mkWireConfig {
  w_input : Input;
  w_auto_args : list (string * AutoArg);
  w_force_recurse : bool;
  w_gc_roots_dir : option string;
  w_workers : N;
  w_max_memory_size : N;
  w_item_timeout_seconds : N;
  w_meta : bool;
  w_show_input_drvs : bool;
  w_override_inputs : list (string * string);
  w_nix_options : list (string * string);
  w_remotes : list Remote;
}.
#[export] Instance eta_wire_config : EtaRecord WireConfig := λ c,
  mkWireConfig (w_input c) (w_auto_args c) (w_force_recurse c) (w_gc_roots_dir c)
    (w_workers c) (w_max_memory_size c) (w_item_timeout_seconds c) (w_meta c)
    (w_show_input_drvs c) (w_override_inputs c) (w_nix_options c) (w_remotes c).

Definition default_item_timeout_seconds : N := DEFAULT_ITEM_TIMEOUT_SECONDS.

Definition wire_config_default : WireConfig :=
  mkWireConfig (Expr "{}") [] false None 1 4096 default_item_timeout_seconds
    false false [] [] [].

Definition wire_config_expr (expr : string) : WireConfig :=
  wire_config_default <| w_input := Expr expr |>.
Definition wire_config_file (path : string) : WireConfig :=
  wire_config_default <| w_input := File path |>.
Definition wire_config_flake (reference : string) : WireConfig :=
  wire_config_default <| w_input := Flake reference |>.

(** [ConfigBuilder]'s chainable methods, one constructor each. *)
Inductive BuilderCall : Type :=
  | SetForceRecurse (enabled : bool)
  | SetGcRootsDir (path : string)
  | SetWorkers (workers : N)
  | SetMaxMemorySize (size : N)
  | SetItemTimeoutSeconds (seconds : N)
  | SetMeta (enabled : bool)
  | SetShowInputDrvs (enabled : bool)
  | AddAutoArgExpr (name value : string)
  | AddAutoArgStr (name value : string)
  | AddOverrideInput (name reference : string)
  | AddNixOption (key value : string)
  | AddRemote (remote : Remote).

Definition wire_builder_call (c : WireConfig) (call : BuilderCall) : WireConfig :=
  match call with
  | SetForceRecurse enabled => c <| w_force_recurse := enabled |>
  | SetGcRootsDir path => c <| w_gc_roots_dir := Some path |>
  | SetWorkers workers => c <| w_workers := workers |>
  | SetMaxMemorySize size => c <| w_max_memory_size := size |>
  | SetItemTimeoutSeconds seconds => c <| w_item_timeout_seconds := seconds |>
  | SetMeta enabled => c <| w_meta := enabled |>
  | SetShowInputDrvs enabled => c <| w_show_input_drvs := enabled |>
  | AddAutoArgExpr name value =>
      c <| w_auto_args := w_auto_args c ++ [(name, ArgExpr value)] |>
  | AddAutoArgStr name value =>
      c <| w_auto_args := w_auto_args c ++ [(name, ArgStr value)] |>
  | AddOverrideInput name reference =>
      c <| w_override_inputs := w_override_inputs c ++ [(name, reference)] |>
  | AddNixOption key value =>
      c <| w_nix_options := w_nix_options c ++ [(key, value)] |>
  | AddRemote remote => c <| w_remotes := w_remotes c ++ [remote] |>
  end.

(** ** Results of an evaluation *)

(** A derivation emitted by evaluation. *)
Record Derivation := mkDerivation {
  d_attr : string;
  d_attr_path : list string;
  d_name : string;
  d_system : string;
  d_drv_path : string;
  d_outputs : gmap string (option string);
  d_meta : option Json;
  d_input_drvs : gmap string (list string);
  d_constituents : option (list string);
  d_gc_root_error : option string;
}.

(** An evaluation error associated with a specific attribute path. *)
Record EvalError := mkEvalError {
  e_attr : string;
  e_attr_path : list string;
  e_error : string;
  e_fatal : bool;
}.

(** Complete change set between two evaluations. *)
Record Diff := mkDiff {
  added : list Derivation;
  removed : list Derivation;
  diff_errors : list EvalError;
}.

(** Query filter over a session's warm evaluation graph. *)
Record Filter := mkFilter {
  f_systems : option (list string);
  f_attr_prefix : option (list string);
  f_attr_prefixes : option (list (list string));
  f_attrs : option (list (list string));
  f_names : option (list string);
  f_drv_paths : option (list string);
  f_include_patterns : option (list string);
  f_exclude_patterns : option (list string);
}.

Definition filter_default : Filter :=
  mkFilter None None None None None None None None.

(** Event produced while traversing a Nix expression. *)
Inductive Event : Type :=
  | EvDerivation (d : Derivation)
  | EvAttrSet (attr : string) (attr_path : list string) (attrs : list string)
  | EvError (e : EvalError).

(** [Event::attr] and [Event::attr_path] *)
Definition event_attr (ev : Event) : string :=
  match ev with
  | EvDerivation d => d_attr d
  | EvAttrSet attr _ _ => attr
  | EvError e => e_attr e
  end.
Definition event_attr_path (ev : Event) : list string :=
  match ev with
  | EvDerivation d => d_attr_path d
  | EvAttrSet _ attr_path _ => attr_path
  | EvError e => e_attr_path e
  end.

(** ** Daemon requests and responses *)

Inductive Request : Type :=
  | ReqEval (protocol_version : N) (config : WireConfig)
  | ReqReplay (protocol_version : N) (config : WireConfig)
  | ReqWatch (protocol_version : N) (config : WireConfig)
  | ReqQuery (protocol_version : N) (config : WireConfig) (filter : Filter)
  | ReqDiff (protocol_version : N) (config : WireConfig).

Definition request_eval (config : WireConfig) : Request :=
  ReqEval DAEMON_PROTOCOL_VERSION config.
Definition request_replay (config : WireConfig) : Request :=
  ReqReplay DAEMON_PROTOCOL_VERSION config.
Definition request_watch (config : WireConfig) : Request :=
  ReqWatch DAEMON_PROTOCOL_VERSION config.
Definition request_query (config : WireConfig) (filter : Filter) : Request :=
  ReqQuery DAEMON_PROTOCOL_VERSION config filter.
Definition request_diff (config : WireConfig) : Request :=
  ReqDiff DAEMON_PROTOCOL_VERSION config.

Record ProtocolVersionError := mkProtocolVersionError {
  actual_version : N;
  expected_version : N;
}.

Definition show_protocol_version_error (e : ProtocolVersionError) : string :=
  "unsupported daemon protocol version " +:+ show_N (actual_version e)
  +:+ "; expected " +:+ show_N (expected_version e).

Definition request_version (r : Request) : N :=
  match r with
  | ReqEval v _ | ReqReplay v _ | ReqWatch v _ | ReqQuery v _ _ | ReqDiff v _ => v
  end.

(** [Request::validate_protocol] *)
Definition validate_protocol (r : Request) : result ProtocolVersionError unit :=
  if (request_version r =? DAEMON_PROTOCOL_VERSION)%N then Ok tt
  else Err (mkProtocolVersionError (request_version r) DAEMON_PROTOCOL_VERSION).

Inductive Response : Type :=
  | RespEvent (event : Event)
  | RespDiff (diff : Diff)
  | RespDone
  | RespError (message : string).

Definition response_event (ev : Event) : Response := RespEvent ev.
Definition response_derivation_event (d : Derivation) : Response :=
  RespEvent (EvDerivation d).
Definition response_diff (d : Diff) : Response := RespDiff d.
Definition response_error (message : string) : Response := RespError message.

(** ** Decidable equality and countability of the configuration data *)

#[export] Instance input_eq_dec : EqDecision Input.
Proof. solve_decision. Defined.
#[export] Instance auto_arg_eq_dec : EqDecision AutoArg.
Proof. solve_decision. Defined.
#[export] Instance remote_eq_dec : EqDecision Remote.
Proof. solve_decision. Defined.
#[export] Instance wire_config_eq_dec : EqDecision WireConfig.
Proof. solve_decision. Defined.

#[export] Instance input_countable : Countable Input.
Proof.
  refine (inj_countable'
    (λ i, match i with Flake s => (0, s) | Expr s => (1, s) | File s => (2, s) end)
    (λ p, match p.1 with 0 => Flake p.2 | 1 => Expr p.2 | _ => File p.2 end) _).
  by intros [].
Defined.
#[export] Instance auto_arg_countable : Countable AutoArg.
Proof.
  refine (inj_countable'
    (λ a, match a with ArgExpr s => (true, s) | ArgStr s => (false, s) end)
    (λ p, if p.1 then ArgExpr p.2 else ArgStr p.2) _).
  by intros [].
Defined.
#[export] Instance remote_countable : Countable Remote.
Proof.
  refine (inj_countable' (λ r, (endpoint r, systems r, remote_workers r, token r))
    (λ p, mkRemote p.1.1.1 p.1.1.2 p.1.2 p.2) _).
  by intros [].
Defined.

(** ** Objects *)

Lemma jmap_get_insert k k' v m :
  jmap_get k (jmap_insert k' v m) = if decide (k = k') then Some v else jmap_get k m.
Proof.
  induction m as [|[k2 v2] m IH]; simpl; [done|].
  repeat (case_decide; simpl; try congruence); by rewrite ?IH; repeat case_decide; congruence.
Qed.

Lemma jmap_insert_elem k v m kv : kv ∈ jmap_insert k v m → kv = (k, v) ∨ kv ∈ m.
Proof.
  induction m as [|[k' v'] m IH]; simpl.
  - intros ->%list_elem_of_singleton. by left.
  - repeat case_decide.
    + intros [->|?]%elem_of_cons; [by left|right; by right].
    + intros [->|?]%elem_of_cons; [by left|by right].
    + intros [->|Hin]%elem_of_cons; [right; by left|].
      destruct (IH Hin) as [->|?]; [by left|right; by right].
Qed.
