(* ===== verification/Paths.v ===== *)
(** * Paths of the file system

    [std::path] as the sources use it: a path is its bytes, [components] drops
    repeated separators and inner [.] parts and resolves nothing. *)
From S2P Require Import Prelude.

Definition separator : ascii := "/"%char.

Inductive Component : Type :=
  | RootDir
  | CurDir
  | ParentDir
  | Normal (part : string).
#[export] Instance component_eq_dec : EqDecision Component.
Proof. solve_decision. Defined.

(** [Path::is_absolute] *)
Definition is_absolute (path : string) : bool := starts_with "/" path.

(** The component of a part between separators. *)
Definition component_of (part : string) : option Component :=
  if str_is_empty part then None
  else if str_eqb part "." then None
  else if str_eqb part ".." then Some ParentDir
  else Some (Normal part).

(** [Path::components]: a leading [.] of a relative path stays. *)
Definition components (path : string) : list Component :=
  let parts := str_split separator path in
  let first :=
    if is_absolute path then [RootDir]
    else match parts with "." :: _ => [CurDir] | _ => [] end in
  first ++ omap component_of parts.

(** [Path::starts_with] compares whole components. *)
Fixpoint list_strip_prefix {A} `{EqDecision A} (p l : list A) : option (list A) :=
  match p, l with
  | [], _ => Some l
  | a :: p, b :: l => if decide (a = b) then list_strip_prefix p l else None
  | _ :: _, [] => None
  end.
Definition path_starts_with (path base : string) : bool :=
  match list_strip_prefix (components base) (components path) with
  | Some _ => true
  | None => false
  end.

(** [Path::file_name] *)
Definition file_name (path : string) : option string :=
  match last (components path) with Some (Normal part) => Some part | _ => None end.

(** [Path::join] and [PathBuf::push] *)
Definition ends_with_separator (path : string) : bool :=
  match last (str_chars path) with Some c => bool_decide (c = separator) | None => false end.
Definition path_join (base path : string) : string :=
  if is_absolute path then path
  else if str_is_empty base || ends_with_separator base then base +:+ path
  else base +:+ "/" +:+ path.

(** ** Lemmas *)

(** A part a component can be: no separator, not empty, not [.] nor [..]. *)
Definition part_wf (part : string) : Prop :=
  part ≠ EmptyString ∧ str_contains separator part = false ∧ part ≠ "." ∧ part ≠ "..".

Lemma str_contains_cons c d s :
  str_contains c (String d s) = false ↔ d ≠ c ∧ str_contains c s = false.
Proof. simpl. case_decide; naive_solver. Qed.

Lemma str_split_no_sep c s part : part ∈ str_split c s → str_contains c part = false.
Proof.
  revert part. induction s as [|d s IH]; intros part; simpl.
  { by intros ->%list_elem_of_singleton. }
  case_decide as Hd.
  - intros [->|?]%elem_of_cons; [done|by apply IH].
  - destruct (str_split c s) as [|p ps].
    + intros ->%list_elem_of_singleton. by apply str_contains_cons.
    + intros [->|Hin]%elem_of_cons.
      * apply str_contains_cons. split; [done|]. apply IH. by left.
      * apply IH. by right.
Qed.

Lemma str_split_nonempty c s : str_split c s ≠ [].
Proof. destruct s; simpl; [done|]. case_decide; [done|]. by destruct (str_split c s). Qed.

(** Splitting before a separator splits both sides apart. *)
Lemma str_split_app c s t :
  str_split c (s +:+ String c t) = str_split c s ++ str_split c t.
Proof.
  induction s as [|d s IH]; simpl; [by rewrite decide_True|].
  case_decide; simpl; fold (String.append s (String c t)); rewrite IH.
  - destruct (str_split c s) eqn:E; [by apply str_split_nonempty in E|done].
  - destruct (str_split c s) eqn:E; [by apply str_split_nonempty in E|done].
Qed.

Lemma str_split_no c s : str_contains c s = false → str_split c s = [s].
Proof.
  induction s as [|d s IH]; [done|]. intros [Hd Hs]%str_contains_cons. simpl.
  by rewrite decide_False, IH.
Qed.

Lemma component_of_wf part : part_wf part → component_of part = Some (Normal part).
Proof.
  intros (Hne & _ & Hd & Hdd). unfold component_of. destruct part; [done|].
  rewrite !(proj2 (str_eqb_false _ _)) by done. done.
Qed.

Lemma components_normal_wf path part : Normal part ∈ components path → part_wf part.
Proof.
  unfold components. intros [H|H]%elem_of_app.
  { repeat case_match; by repeat (apply elem_of_cons in H as [H|H] || apply elem_of_nil in H). }
  apply list_elem_of_omap in H as (p & Hp%str_split_no_sep & Hc). unfold component_of in Hc.
  destruct (str_is_empty p) eqn:He; [done|].
  destruct (str_eqb p ".") eqn:H1; [done|]. destruct (str_eqb p "..") eqn:H2; [done|].
  injection Hc as ->. apply str_eqb_false in H1, H2. split; [by destruct part|done].
Qed.

Lemma omap_component_app l1 l2 :
  omap component_of (l1 ++ l2) = omap component_of l1 ++ omap component_of l2.
Proof. apply omap_app. Qed.

Lemma ends_with_separator_spec path :
  ends_with_separator path = true → ∃ p, path = p +:+ "/".
Proof.
  unfold ends_with_separator. induction path as [|c path IH]; [done|].
  destruct path as [|d path].
  - simpl. intros ->%bool_decide_eq_true. by exists EmptyString.
  - cbn [str_chars] in *. rewrite last_cons_cons. intros (p & Hp)%IH.
    exists (String c p). rewrite Hp. done.
Qed.

Lemma is_absolute_app s t : s ≠ EmptyString → is_absolute (s +:+ t) = is_absolute s.
Proof. destruct s as [|c s]; [done|]. intros _. unfold is_absolute, starts_with. simpl. by case_decide. Qed.

(** The parts of a path below an absolute base. *)
Lemma components_join base part :
  is_absolute base = true → part_wf part →
  is_absolute (path_join base part) = true
  ∧ components (path_join base part) = components base ++ [Normal part].
Proof.
  intros Habs Hwf. pose proof Hwf as (Hne & Hsep & _ & _).
  assert (is_absolute part = false) as Hrel.
  { destruct part as [|c part]; [done|]. apply str_contains_cons in Hsep as [Hc _].
    unfold is_absolute, starts_with. simpl. rewrite decide_False; [done|]. unfold separator in Hc; congruence. }
  assert (base ≠ EmptyString) as Hbase by (intros ->; done).
  unfold path_join. rewrite Hrel. destruct (str_is_empty base) eqn:Hb; [by destruct base|]. simpl.
  destruct (ends_with_separator base) eqn:Hend.
  - apply ends_with_separator_spec in Hend as (b & ->).
    unfold components. rewrite !is_absolute_app, Habs by done. split; [done|].
    rewrite (str_app_assoc b "/" part : _ = b +:+ String separator part).
    rewrite !str_split_app. rewrite (str_split_no _ part), !omap_component_app by done.
    simpl. rewrite component_of_wf by done. simpl.
    by rewrite app_nil_r.
  - unfold components. rewrite is_absolute_app, Habs by done. split; [done|].
    change (base +:+ "/" +:+ part) with (base +:+ String separator part).
    rewrite str_split_app, (str_split_no _ part), omap_component_app by done.
    simpl. by rewrite component_of_wf by done.
Qed.

Lemma components_joins base parts :
  is_absolute base = true → Forall part_wf parts →
  is_absolute (foldl path_join base parts) = true
  ∧ components (foldl path_join base parts) = components base ++ (Normal <$> parts).
Proof.
  intros Habs Hparts. revert base Habs.
  induction Hparts as [|part parts Hp _ IH]; intros base Habs; simpl.
  - by rewrite app_nil_r.
  - destruct (components_join base part Habs Hp) as [Habs' Hc].
    destruct (IH _ Habs') as [? ->]. split; [done|]. by rewrite Hc, <-app_assoc.
Qed.

Lemma list_strip_prefix_spec {A} `{EqDecision A} (p l k : list A) :
  list_strip_prefix p l = Some k ↔ l = p ++ k.
Proof.
  revert l. induction p as [|a p IH]; intros l; simpl; [naive_solver|].
  destruct l as [|b l]; [naive_solver|]. case_decide as Hd; [subst|naive_solver].
  rewrite IH. naive_solver.
Qed.

Lemma path_starts_with_spec path base :
  path_starts_with path base = true ↔ components base `prefix_of` components path.
Proof.
  unfold path_starts_with. destruct (list_strip_prefix _ _) as [k|] eqn:H.
  - apply list_strip_prefix_spec in H. split; [by exists k|done].
  - split; [done|]. intros [k Hk]. apply list_strip_prefix_spec in Hk. congruence.
Qed.

Lemma str_contains_app c s t : str_contains c (s +:+ t) = str_contains c s || str_contains c t.
Proof. induction s as [|d s IH]; [done|]. simpl. by case_decide. Qed.

(** Splitting what was joined on a character that no part contains. *)
Lemma str_split_join c part parts :
  Forall (λ p, str_contains c p = false) (part :: parts) →
  str_split c (str_join (String c EmptyString) (part :: parts)) = part :: parts.
Proof.
  revert part. induction parts as [|p parts IH]; intros part Hall;
    apply Forall_cons in Hall as [Hp Hall]; [by apply str_split_no|].
  change (str_join _ (part :: p :: parts))
    with (part +:+ String c (str_join (String c EmptyString) (p :: parts))).
  rewrite str_split_app, (str_split_no c part), (IH p) by done. done.
Qed.

(** Splitting once on a character the first part does not contain. *)
Lemma split_once_some c s a b :
  split_once c s = Some (a, b) ↔ s = a +:+ String c b ∧ str_contains c a = false.
Proof.
  revert a. induction s as [|d s IH]; intros a; simpl.
  - split; [done|]. intros [H _]. by destruct a.
  - case_decide as Hd; [subst d|].
    + split; [by intros [= <- <-]|]. intros [H Ha]. destruct a as [|x a]; [by injection H as ->|].
      injection H as <- _. apply str_contains_cons in Ha as [Ha _]. done.
    + destruct (split_once c s) as [[a' b']|] eqn:E.
      * split.
        -- intros [= <- <-]. destruct (proj1 (IH a') eq_refl) as [-> Ha]. split; [done|].
           by apply str_contains_cons.
        -- intros [H Ha]. destruct a as [|x a]; [injection H as Hx _; congruence|]; injection H as <- H.
           apply str_contains_cons in Ha as [_ Ha].
           by injection (proj2 (IH a) (conj H Ha)) as -> ->.
      * split; [done|]. intros [H Ha]. destruct a as [|x a]; [injection H as Hx _; congruence|]; injection H as <- H.
        apply str_contains_cons in Ha as [_ Ha]. discriminate (proj2 (IH a) (conj H Ha)).
Qed.

Lemma split_once_none c s : split_once c s = None ↔ str_contains c s = false.
Proof.
  split.
  { induction s as [|d s IH]; simpl; [done|]. case_decide; [done|].
    destruct (split_once c s) as [[a b]|]; [done|]. auto. }
  intros Hs. destruct (split_once c s) as [[a b]|] eqn:H; [|done].
  apply split_once_some in H as [-> _]. rewrite str_contains_app in Hs. simpl in Hs.
  by rewrite decide_True, orb_true_r in Hs.
Qed.

Lemma strip_prefix_some p s t : strip_prefix p s = Some t ↔ s = p +:+ t.
Proof.
  revert s. induction p as [|c p IH]; intros s; simpl.
  - split; [by intros [= ->]|by intros ->].
  - destruct s as [|d s]; [split; [done|intros H; discriminate H]|]. case_decide as Hd.
    + subst d. rewrite IH. split; [intros ->; done|]. intros H. by injection H as ->.
    + split; [done|]. intros H. by injection H as -> _.
Qed.
