(* ===== verification/Signals.v ===== *)
(** * Descriptors and signals of the daemon's process

    [crates/evix-daemon/src/lib.rs]: the shutdown handlers and their pipe, and the
    redirection of the standard streams, over the process state they change:
    open descriptors, signal handlers and the two statics. *)
From S2P Require Import Prelude.

(** ** The state of a process *)

Inductive Signal : Type := SIGINT | SIGTERM.
#[export] Instance signal_eq_dec : EqDecision Signal.
Proof. solve_decision. Defined.

(** What a signal does: a handler of someone else is known by a number. *)
Inductive Handler : Type := DefaultHandler | HandleShutdownSignal | OtherHandler (n : nat).

Inductive OpenFile : Type := DevNull | PipeReader | PipeWriter | OtherFile (n : nat).
#[export] Instance open_file_eq_dec : EqDecision OpenFile.
Proof. solve_decision. Defined.

Record Descriptor := mkDescriptor {
  de_file : OpenFile;
  de_cloexec : bool;
  de_nonblock : bool;
}.
#[export] Instance eta_descriptor : EtaRecord Descriptor := λ d,
  mkDescriptor (de_file d) (de_cloexec d) (de_nonblock d).

(** [ps_requested] and [ps_write_fd] are the statics [SHUTDOWN_REQUESTED] and
    [SHUTDOWN_SIGNAL_WRITE_FD]; [ps_pipe] counts the unread bytes of the pipe. *)
Record Process := mkProcess {
  ps_fds : gmap Z Descriptor;
  ps_int : Handler;
  ps_term : Handler;
  ps_requested : bool;
  ps_write_fd : Z;
  ps_pipe : N;
}.
#[export] Instance eta_process : EtaRecord Process := λ p,
  mkProcess (ps_fds p) (ps_int p) (ps_term p) (ps_requested p) (ps_write_fd p) (ps_pipe p).

Definition handler (signal : Signal) (p : Process) : Handler :=
  match signal with SIGINT => ps_int p | SIGTERM => ps_term p end.
Definition set_handler (signal : Signal) (h : Handler) (p : Process) : Process :=
  match signal with SIGINT => p <| ps_int := h |> | SIGTERM => p <| ps_term := h |> end.

(** ** System calls *)

(** The calls that can fail, by where they stand in the code. *)
Inductive Call : Type :=
  | CallPipe
  | CallGetFd (fd : Z)
  | CallSetFd (fd : Z)
  | CallGetFl (fd : Z)
  | CallSetFl (fd : Z)
  | CallSigemptyset (signal : Signal)
  | CallSigaction (signal : Signal)
  | CallRestore (signal : Signal)
  | CallOpenNull
  | CallDupFd
  | CallDup2 (target : Z).

Section calls.
(** The error of a call, if it fails. *)
Context (os : Call → option Report).

Definition attempt {A} (call : Call) (value : A) : Result A :=
  match os call with Some err => Err err | None => Ok value end.

(** The lowest free descriptor from a number on. *)
Definition free_fds (from : Z) (fds : gmap Z Descriptor) : list Z :=
  filter (λ fd, fds !! fd = None) (seqZ from (Z.of_nat (S (size fds)))).
Definition lowest_free (from : Z) (fds : gmap Z Descriptor) : Z :=
  default from (head (free_fds from fds)).

Definition set_fd (fd : Z) (d : Descriptor) (p : Process) : Process :=
  p <| ps_fds := <[fd := d]> (ps_fds p) |>.
Definition change_fd (fd : Z) (f : Descriptor → Descriptor) (p : Process) : Process :=
  p <| ps_fds := alter f fd (ps_fds p) |>.

Definition close_fd (fd : Z) (p : Process) : Process :=
  p <| ps_fds := delete fd (ps_fds p) |>.

(** [pipe] gives the two lowest free descriptors, of a new and empty pipe. *)
Definition sys_pipe (p : Process) : Process * Result (Z * Z) :=
  match os CallPipe with
  | Some err => (p, Err err)
  | None =>
      let read_fd := lowest_free 0 (ps_fds p) in
      let p := set_fd read_fd (mkDescriptor PipeReader false false) p in
      let write_fd := lowest_free 0 (ps_fds p) in
      let p := set_fd write_fd (mkDescriptor PipeWriter false false) p in
      (p <| ps_pipe := 0%N |>, Ok (read_fd, write_fd))
  end.

(** ** The shutdown pipe and handlers *)

Definition set_fd_cloexec (fd : Z) (p : Process) : Process * Result unit :=
  match with_context "reading fd flags" (attempt (CallGetFd fd) tt) with
  | Err err => (p, Err err)
  | Ok _ =>
      match with_context "setting fd cloexec" (attempt (CallSetFd fd) tt) with
      | Err err => (p, Err err)
      | Ok _ => (change_fd fd (λ d, d <| de_cloexec := true |>) p, Ok tt)
      end
  end.

Definition set_fd_nonblocking (fd : Z) (p : Process) : Process * Result unit :=
  match with_context "reading fd status" (attempt (CallGetFl fd) tt) with
  | Err err => (p, Err err)
  | Ok _ =>
      match with_context "setting fd nonblocking" (attempt (CallSetFl fd) tt) with
      | Err err => (p, Err err)
      | Ok _ => (change_fd fd (λ d, d <| de_nonblock := true |>) p, Ok tt)
      end
  end.

Definition configure_signal_pipe (read_fd write_fd : Z) (p : Process) : Process * Result unit :=
  match set_fd_cloexec read_fd p with
  | (p, Err err) => (p, Err err)
  | (p, Ok _) =>
      match set_fd_cloexec write_fd p with
      | (p, Err err) => (p, Err err)
      | (p, Ok _) => set_fd_nonblocking write_fd p
      end
  end.

Definition install_shutdown_handler (signal : Signal) (p : Process) : Process * Result Handler :=
  match with_context "initializing signal mask" (attempt (CallSigemptyset signal) tt) with
  | Err err => (p, Err err)
  | Ok _ =>
      match with_context "installing daemon signal handler" (attempt (CallSigaction signal) tt) with
      | Err err => (p, Err err)
      | Ok _ => (set_handler signal HandleShutdownSignal p, Ok (handler signal p))
      end
  end.

(** A failure of [sigaction] is ignored here. *)
Definition restore_signal_handler (signal : Signal) (action : Handler) (p : Process) : Process :=
  match os (CallRestore signal) with
  | Some _ => p
  | None => set_handler signal action p
  end.

Record ShutdownSignals := mkShutdownSignals {
  read_fd : Z;
  write_fd : Z;
  old_int : Handler;
  old_term : Handler;
}.

(** What [install] does before it fails, once the pipe is made. *)
Definition close_pipe (read_fd write_fd : Z) (p : Process) : Process :=
  close_fd write_fd (close_fd read_fd p).

(** [ShutdownSignals::install] *)
Definition install (p : Process) : Process * Result ShutdownSignals :=
  match sys_pipe p with
  | (p, Err err) => (p, Err (context "creating daemon shutdown pipe" err))
  | (p, Ok (read_fd, write_fd)) =>
      match configure_signal_pipe read_fd write_fd p with
      | (p, Err err) => (close_pipe read_fd write_fd p, Err err)
      | (p, Ok _) =>
          let p := p <| ps_write_fd := write_fd |> in
          match install_shutdown_handler SIGINT p with
          | (p, Err err) =>
              (close_pipe read_fd write_fd (p <| ps_write_fd := (-1)%Z |>), Err err)
          | (p, Ok old_int) =>
              match install_shutdown_handler SIGTERM p with
              | (p, Err err) =>
                  let p := restore_signal_handler SIGINT old_int p in
                  (close_pipe read_fd write_fd (p <| ps_write_fd := (-1)%Z |>), Err err)
              | (p, Ok old_term) =>
                  (p, Ok (mkShutdownSignals read_fd write_fd old_int old_term))
              end
          end
      end
  end.

(** [Drop for ShutdownSignals] *)
Definition drop_signals (s : ShutdownSignals) (p : Process) : Process :=
  let p := restore_signal_handler SIGINT (old_int s) p in
  let p := restore_signal_handler SIGTERM (old_term s) p in
  let p := p <| ps_write_fd := (-1)%Z |> in
  close_fd (write_fd s) (close_fd (read_fd s) p).

(** ** Delivery of a signal *)

(** The bytes a pipe holds when it is full. *)
Definition PIPE_CAPACITY : N := 65536.

(** Writing a byte to a nonblocking pipe end: nothing is written when it is full. *)
Definition write_byte (fd : Z) (p : Process) : Process :=
  match ps_fds p !! fd with
  | Some (mkDescriptor PipeWriter _ _) =>
      if (ps_pipe p <? PIPE_CAPACITY)%N then p <| ps_pipe := (ps_pipe p + 1)%N |> else p
  | _ => p
  end.

Definition handle_shutdown_signal (p : Process) : Process :=
  let p := p <| ps_requested := true |> in
  let fd := ps_write_fd p in
  if (0 <=? fd)%Z then write_byte fd p else p.

(** A signal ends the process, runs the handler, or does something else. *)
Definition deliver (signal : Signal) (p : Process) : option Process :=
  match handler signal p with
  | DefaultHandler => None
  | HandleShutdownSignal => Some (handle_shutdown_signal p)
  | OtherHandler _ => Some p
  end.

(** ** Standard streams *)

Definition STDIN_FILENO : Z := 0.
Definition STDOUT_FILENO : Z := 1.
Definition STDERR_FILENO : Z := 2.

(** [fcntl(fd, F_DUPFD_CLOEXEC, 3)] *)
Definition stable_source_fd (fd : Z) (p : Process) : Process * Result Z :=
  if (STDERR_FILENO <? fd)%Z then (p, Ok fd)
  else
    match with_context "duplicating /dev/null descriptor" (attempt CallDupFd tt) with
    | Err err => (p, Err err)
    | Ok _ =>
        let duplicate := lowest_free 3 (ps_fds p) in
        match ps_fds p !! fd with
        | Some d => (set_fd duplicate (d <| de_cloexec := true |>) p, Ok duplicate)
        | None => (p, Err (context "duplicating /dev/null descriptor"
                             (report "Bad file descriptor")))
        end
    end.

(** [dup2]: the copy survives an [exec]. *)
Definition dup2 (source target : Z) (p : Process) : Process :=
  match ps_fds p !! source with
  | Some d => if decide (source = target) then p
              else set_fd target (d <| de_cloexec := false |>) p
  | None => p
  end.

(** The loop over the standard descriptors. *)
Fixpoint redirect_loop (source dev_null : Z) (targets : list Z) (p : Process)
  : Process * Result unit :=
  match targets with
  | [] => (p, Ok tt)
  | target :: targets =>
      match attempt (CallDup2 target) tt with
      | Err err =>
          (if decide (source = dev_null) then p else close_fd source p,
           Err (context "redirecting daemon stdio to /dev/null" err))
      | Ok _ => redirect_loop source dev_null targets (dup2 source target p)
      end
  end.

(** [redirect_stdio_to_dev_null]; the [File] closes its descriptor at the end. *)
Definition redirect_stdio_to_dev_null (p : Process) : Process * Result unit :=
  match with_context "opening /dev/null for daemon stdio" (attempt CallOpenNull tt) with
  | Err err => (p, Err err)
  | Ok _ =>
      let dev_null := lowest_free 0 (ps_fds p) in
      let p := set_fd dev_null (mkDescriptor DevNull true false) p in
      let '(p, r) :=
        match stable_source_fd dev_null p with
        | (p, Err err) => (p, Err err)
        | (p, Ok source) =>
            match redirect_loop source dev_null [STDIN_FILENO; STDOUT_FILENO; STDERR_FILENO] p with
            | (p, Err err) => (p, Err err)
            | (p, Ok _) => (if decide (source = dev_null) then p else close_fd source p, Ok tt)
            end
        end in
      (close_fd dev_null p, r)
  end.
End calls.

(** ** Lemmas: descriptors *)

Lemma lowest_free_spec from fds :
  fds !! lowest_free from fds = None ∧ (from ≤ lowest_free from fds)%Z.
Proof.
  unfold lowest_free. destruct (free_fds from fds) as [|fd l] eqn:Hfree.
  - assert (list_to_set (seqZ from (Z.of_nat (S (size fds)))) ⊆ dom fds) as Hsub.
    { intros fd Hfd%elem_of_list_to_set. apply elem_of_dom.
      destruct (fds !! fd) as [d|] eqn:Hd; [by exists d|].
      assert (fd ∈ free_fds from fds) as Hin by (apply list_elem_of_filter; done).
      rewrite Hfree in Hin. by apply elem_of_nil in Hin. }
    apply (subseteq_size (C := gset Z)) in Hsub.
    rewrite size_list_to_set in Hsub by apply NoDup_seqZ.
    rewrite length_seqZ, size_dom in Hsub. lia.
  - assert (fd ∈ free_fds from fds) as Hin by (rewrite Hfree; by left).
    apply list_elem_of_filter in Hin as [Hnone Hin%elem_of_seqZ]. simpl. split; [done|lia].
Qed.

(** Two processes differ at most in two descriptors and the pipe's bytes. *)
Record frame (r w : Z) (p q : Process) : Prop := {
  fr_fds fd : fd ≠ r → fd ≠ w → ps_fds q !! fd = ps_fds p !! fd;
  fr_requested : ps_requested q = ps_requested p;
}.

Lemma close_pipe_fds r w p q :
  frame r w p q → ps_fds p !! r = None → ps_fds p !! w = None →
  ps_fds (close_pipe r w q) = ps_fds p.
Proof.
  intros [Hfr _] Hr Hw. unfold close_pipe, close_fd. simpl. apply map_eq. intros fd.
  destruct (decide (fd = w)) as [->|]; [by rewrite lookup_delete_eq|].
  rewrite lookup_delete_ne by done.
  destruct (decide (fd = r)) as [->|]; [by rewrite lookup_delete_eq|].
  rewrite lookup_delete_ne by done. auto.
Qed.

Lemma frame_change r w p q fd f :
  frame r w p q → fd = r ∨ fd = w → frame r w p (change_fd fd f q).
Proof.
  intros [Hfr Hreq] Hfd. split; [|done]. intros i Hr Hw. unfold change_fd. simpl.
  rewrite lookup_alter_ne by (destruct Hfd; congruence). auto.
Qed.

(** ** Lemmas: installing the handlers *)

Definition same_signals (p q : Process) : Prop :=
  ps_fds q = ps_fds p ∧ ps_int q = ps_int p ∧ ps_term q = ps_term p ∧ ps_write_fd q = (-1)%Z.

(** The process with the handlers and the pipe. *)
Record installed (p : Process) (s : ShutdownSignals) (q : Process) : Prop := {
  in_read_free : ps_fds p !! read_fd s = None;
  in_write_free : ps_fds p !! write_fd s = None;
  in_ends : read_fd s ≠ write_fd s ∧ (0 ≤ write_fd s)%Z;
  in_old : old_int s = ps_int p ∧ old_term s = ps_term p;
  in_fds : ps_fds q = <[write_fd s := mkDescriptor PipeWriter true true]>
             (<[read_fd s := mkDescriptor PipeReader true false]> (ps_fds p));
  in_handlers : ps_int q = HandleShutdownSignal ∧ ps_term q = HandleShutdownSignal;
  in_write_fd : ps_write_fd q = write_fd s;
}.

Section install.
Context (os : Call → option Report).
Context (restores : ∀ signal, os (CallRestore signal) = None).

Lemma sys_pipe_spec p p' r w :
  sys_pipe os p = (p', Ok (r, w)) →
  r ≠ w ∧ (0 ≤ w)%Z ∧ ps_fds p !! r = None ∧ ps_fds p !! w = None
  ∧ p' = set_fd w (mkDescriptor PipeWriter false false)
           (set_fd r (mkDescriptor PipeReader false false) p) <| ps_pipe := 0%N |>.
Proof.
  unfold sys_pipe. destruct (os CallPipe); [done|]. cbv zeta.
  destruct (lowest_free_spec 0 (ps_fds p)) as [Hr _]. revert Hr.
  generalize (lowest_free 0 (ps_fds p)) as r0. intros r0 Hr.
  destruct (lowest_free_spec 0 (ps_fds (set_fd r0 (mkDescriptor PipeReader false false) p)))
    as [Hw Hle]. revert Hw Hle. generalize (lowest_free 0
    (ps_fds (set_fd r0 (mkDescriptor PipeReader false false) p))) as w0.
  intros w0 Hw Hle [= <- <- <-]. unfold set_fd in Hw. simpl in Hw.
  assert (r0 ≠ w0) by (intros <-; by rewrite lookup_insert_eq in Hw).
  by rewrite lookup_insert_ne in Hw.
Qed.

Lemma set_fd_cloexec_cases fd p :
  (∃ err, set_fd_cloexec os fd p = (p, Err err))
  ∨ set_fd_cloexec os fd p = (change_fd fd (λ d, d <| de_cloexec := true |>) p, Ok tt).
Proof. unfold set_fd_cloexec, attempt. repeat case_match; simplify_eq/=; eauto. Qed.

Lemma set_fd_nonblocking_cases fd p :
  (∃ err, set_fd_nonblocking os fd p = (p, Err err))
  ∨ set_fd_nonblocking os fd p = (change_fd fd (λ d, d <| de_nonblock := true |>) p, Ok tt).
Proof. unfold set_fd_nonblocking, attempt. repeat case_match; simplify_eq/=; eauto. Qed.

(** What [configure_signal_pipe] leaves, whether it fails or not. *)
Definition configured (r w : Z) (q q' : Process) (ok : bool) : Prop :=
  ps_int q' = ps_int q ∧ ps_term q' = ps_term q ∧ ps_write_fd q' = ps_write_fd q
  ∧ ps_pipe q' = ps_pipe q
  ∧ (ok = true → ps_fds q' = alter (λ d, d <| de_nonblock := true |>) w
       (alter (λ d, d <| de_cloexec := true |>) w
          (alter (λ d, d <| de_cloexec := true |>) r (ps_fds q)))).

Lemma configure_spec p q r w :
  frame r w p q →
  let '(q', res) := configure_signal_pipe os r w q in
  frame r w p q' ∧ configured r w q q' (negb (is_err res)).
Proof.
  intros Hf. unfold configure_signal_pipe.
  destruct (set_fd_cloexec_cases r q) as [[err ->] | ->]; [by split|].
  assert (frame r w p (change_fd r (λ d, d <| de_cloexec := true |>) q)) as Hf1
    by auto using frame_change.
  destruct (set_fd_cloexec_cases w (change_fd r (λ d, d <| de_cloexec := true |>) q))
    as [[err ->] | ->]; [by split|].
  destruct (set_fd_nonblocking_cases w (change_fd w (λ d, d <| de_cloexec := true |>)
    (change_fd r (λ d, d <| de_cloexec := true |>) q))) as [[err ->] | ->];
    (split; [by auto using frame_change|done]).
Qed.

Lemma install_handler_cases signal p :
  (∃ err, install_shutdown_handler os signal p = (p, Err err))
  ∨ install_shutdown_handler os signal p
    = (set_handler signal HandleShutdownSignal p, Ok (handler signal p)).
Proof. unfold install_shutdown_handler, attempt. repeat case_match; simplify_eq/=; eauto. Qed.

Lemma install_spec p p' r :
  ps_write_fd p = (-1)%Z → install os p = (p', r) →
  match r with Ok s => installed p s p' ∧ ps_pipe p' = 0%N | Err _ => same_signals p p' end
  ∧ ps_requested p' = ps_requested p.
Proof.
  intros Hfd. unfold install. destruct (sys_pipe os p) as [p1 [[rd wr]|err]] eqn:Hpipe.
  2:{ intros [= <- <-]. unfold sys_pipe in Hpipe. destruct (os CallPipe); by simplify_eq. }
  apply sys_pipe_spec in Hpipe as (Hne & Hle & Hr & Hw & ->).
  set (p1 := set_fd wr _ _).
  assert (frame rd wr p p1) as Hf1.
  { split; [|done]. intros fd Hfr Hfw. unfold p1, set_fd. simpl. by rewrite !lookup_insert_ne. }
  pose proof (configure_spec p p1 rd wr Hf1) as Hconf. revert Hconf.
  destruct (configure_signal_pipe os rd wr p1) as [p2 [[]|err]]; intros [Hf2 (Hi & Ht & Hwf & Hpi & Hok)].
  2:{ intros [= <- <-]. split; [|apply Hf2]. split_and!; [by eapply close_pipe_fds|exact Hi|exact Ht|by rewrite <-Hfd]. }
  assert (∀ q, ps_fds q = ps_fds p2 → ps_fds (close_pipe rd wr q) = ps_fds p) as Hclose.
  { intros q Hq. rewrite <-(close_pipe_fds rd wr p p2) by done. unfold close_pipe. simpl. by rewrite Hq. }
  destruct (install_handler_cases SIGINT (p2 <| ps_write_fd := wr |>)) as [[err ->] | ->].
  { intros [= <- <-]. split; [|apply Hf2]. by split_and!; [apply Hclose|..]. }
  destruct (install_handler_cases SIGTERM
    (set_handler SIGINT HandleShutdownSignal (p2 <| ps_write_fd := wr |>))) as [[err ->] | ->].
  { intros [= <- <-]. unfold restore_signal_handler. rewrite restores. split; [|apply Hf2].
    by split_and!; [apply Hclose|..]. }
  intros [= <- <-]. split; [|apply Hf2]. split; [|done]. split; try done.
  transitivity (ps_fds p2); [done|]. rewrite Hok by done. unfold p1, set_fd. simpl.
    rewrite alter_insert_ne, alter_insert_eq, !alter_insert_eq by done. done.
Qed.
End install.

(** ** Lemmas: signals between [install] and [drop] *)

Definition deliver_all (signals : list Signal) (p : Process) : option Process :=
  foldl (λ p signal, p ≫= deliver signal) (Some p) signals.

Lemma deliver_all_snoc signals signal p :
  deliver_all (signals ++ [signal]) p = deliver_all signals p ≫= deliver signal.
Proof. unfold deliver_all. by rewrite foldl_app. Qed.

Lemma deliver_installed p s q signal :
  installed p s q → (ps_pipe q ≤ PIPE_CAPACITY)%N →
  ∃ q', deliver signal q = Some q' ∧ installed p s q'
    ∧ ps_requested q' = true ∧ (0 < ps_pipe q' ≤ PIPE_CAPACITY)%N.
Proof.
  intros [Hr Hw [Hne Hle] Hold Hfds [Hi Ht] Hfd] Hpipe. exists (handle_shutdown_signal q).
  assert (handler signal q = HandleShutdownSignal) as Hh by (by destruct signal).
  unfold deliver. rewrite Hh. split; [done|].
  unfold handle_shutdown_signal, write_byte. simpl.
  rewrite Hfd, (proj2 (Z.leb_le _ _) Hle), Hfds, lookup_insert_eq.
  destruct (N.ltb_spec (ps_pipe q) PIPE_CAPACITY).
  all: split; [by split|]; simpl; split; [done|unfold PIPE_CAPACITY in *; lia].
Qed.

Lemma drop_installed os p s q :
  (∀ signal, os (CallRestore signal) = None) → installed p s q →
  same_signals p (drop_signals os s q).
Proof.
  intros Hrestore [Hr Hw [Hne Hle] [Hi Ht] Hfds _ _].
  unfold drop_signals, restore_signal_handler. rewrite !Hrestore.
  split_and!; try done. simpl. rewrite Hfds, delete_insert_ne, (delete_insert_id (ps_fds p)) by congruence.
  by rewrite delete_insert_id.
Qed.

(** ** Lemmas: the standard streams *)

Lemma attempt_cases {A} os call (value : A) :
  attempt os call value = Ok value ∨ ∃ err, attempt os call value = Err err.
Proof. unfold attempt. destruct (os call); eauto. Qed.

(** The loop copies the source to the targets, and closes a copy when it fails. *)
Lemma redirect_loop_spec os source dev_null targets p p' r d :
  ps_fds p !! source = Some d → source ∉ targets →
  redirect_loop os source dev_null targets p = (p', r) →
  (∀ fd, fd ∉ targets → ps_fds p' !! fd
     = if decide (fd = source ∧ is_err r = true ∧ source ≠ dev_null) then None
       else ps_fds p !! fd)
  ∧ (r = Ok tt → ∀ fd, fd ∈ targets → ps_fds p' !! fd = Some (d <| de_cloexec := false |>)).
Proof.
  revert p. induction targets as [|target targets IH]; intros p Hd Hsource; cbn [redirect_loop].
  { intros [= <- <-]. split; [intros fd _|by intros _ fd ?%elem_of_nil].
    rewrite decide_False by naive_solver. done. }
  apply not_elem_of_cons in Hsource as [Hne Hsource].
  destruct (attempt_cases os (CallDup2 target) tt) as [-> | [err ->]]; intros H.
  - assert (dup2 source target p = set_fd target (d <| de_cloexec := false |>) p) as Hdup.
    { unfold dup2. by rewrite Hd, decide_False by done. }
    rewrite Hdup in H. apply IH in H as [Hsame Hset]; [| |done].
    2:{ simpl. by rewrite lookup_insert_ne. }
    split.
    + intros fd [Hfd Hin]%not_elem_of_cons. rewrite Hsame by done. simpl.
      by rewrite lookup_insert_ne.
    + intros Hr fd [-> | Hin]%elem_of_cons; [|by apply Hset].
      destruct (decide (target ∈ targets)); [by apply Hset|].
      rewrite Hsame by done. rewrite decide_False by (subst; naive_solver). simpl.
      apply lookup_insert_eq.
  - injection H as <- <-. split; [|done]. intros fd Hin.
    destruct (decide (source = dev_null)) as [->|Hcopy].
    + rewrite decide_False by naive_solver. done.
    + unfold close_fd. simpl. destruct (decide (fd = source)) as [->|Hfd].
      * rewrite decide_True by done. apply lookup_delete_eq.
      * rewrite decide_False by naive_solver. by rewrite lookup_delete_ne.
Qed.

Abbreviation standard_fds := [STDIN_FILENO; STDOUT_FILENO; STDERR_FILENO].

Lemma standard_fds_spec fd : fd ∈ standard_fds ↔ (0 ≤ fd ≤ 2)%Z.
Proof.
  unfold STDIN_FILENO, STDOUT_FILENO, STDERR_FILENO. rewrite !elem_of_cons, elem_of_nil. lia.
Qed.

(** The redirection with the number /dev/null is opened at, its source and the
    result of the loop. *)
Lemma redirect_direct os null d p p2 r2 :
  (2 < null)%Z → ps_fds p !! null = None → d = mkDescriptor DevNull true false →
  redirect_loop os null null standard_fds (set_fd null d p) = (p2, r2) →
  (∀ fd, (2 < fd)%Z → ps_fds (close_fd null p2) !! fd = ps_fds p !! fd)
  ∧ (r2 = Ok tt → ∀ fd, (0 ≤ fd ≤ 2)%Z →
       ps_fds (close_fd null p2) !! fd = Some (mkDescriptor DevNull false false)).
Proof.
  intros Hlt Hnone -> Hloop.
  apply (redirect_loop_spec _ _ _ _ _ _ _ (mkDescriptor DevNull true false)) in Hloop
    as [Hsame Hset]; [|apply lookup_insert_eq|rewrite standard_fds_spec; lia].
  unfold close_fd. simpl. split.
  - intros fd Hfd. destruct (decide (fd = null)) as [->|Hne]; [by rewrite lookup_delete_eq|].
    rewrite lookup_delete_ne, Hsame by (done || rewrite standard_fds_spec; lia).
    rewrite decide_False by naive_solver. by apply lookup_insert_ne.
  - intros Hr fd Hfd. rewrite lookup_delete_ne by lia. by apply Hset, standard_fds_spec.
Qed.

Lemma redirect_through_copy os null copy d p p2 r2 :
  (0 ≤ null ≤ 2)%Z → (2 < copy)%Z → ps_fds p !! copy = None →
  d = mkDescriptor DevNull true false →
  redirect_loop os copy null standard_fds (set_fd copy d (set_fd null d p)) = (p2, r2) →
  let p3 := if is_err r2 then p2 else close_fd copy p2 in
  (∀ fd, (2 < fd)%Z → ps_fds (close_fd null p3) !! fd = ps_fds p !! fd)
  ∧ (r2 = Ok tt → ∀ fd, (0 ≤ fd ≤ 2)%Z → ps_fds (close_fd null p3) !! fd
       = if decide (fd = null) then None else Some (mkDescriptor DevNull false false)).
Proof.
  intros Hnull Hlt Hnone -> Hloop p3.
  apply (redirect_loop_spec _ _ _ _ _ _ _ (mkDescriptor DevNull true false)) in Hloop
    as [Hsame Hset]; [|apply lookup_insert_eq|rewrite standard_fds_spec; lia].
  unfold close_fd at 1 2. simpl. split.
  - intros fd Hfd. rewrite lookup_delete_ne by lia.
    assert (ps_fds p3 !! fd = if decide (fd = copy) then None else ps_fds p2 !! fd) as ->.
    { subst p3. pose proof (Hsame fd) as Hs. rewrite standard_fds_spec in Hs.
      destruct r2; unfold close_fd; simpl; destruct (decide (fd = copy)) as [->|];
        rewrite ?lookup_delete_eq, ?lookup_delete_ne by done; try done.
      rewrite Hs by lia. rewrite decide_True; [done|split_and!; [done|done|lia]]. }
    destruct (decide (fd = copy)) as [->|Hne]; [done|].
    rewrite Hsame by (rewrite standard_fds_spec; lia).
    rewrite decide_False by naive_solver. simpl. by rewrite !lookup_insert_ne by lia.
  - intros Hr fd Hfd. subst p3. rewrite Hr. simpl.
    destruct (decide (fd = null)) as [->|Hne]; [by rewrite lookup_delete_eq|].
    rewrite !lookup_delete_ne by lia. by apply Hset, standard_fds_spec.
Qed.

(** ** Properties *)

(** The shutdown handlers take over a process and give it back. When
    they cannot be installed, nothing of them remains: descriptors and handlers
    are as before, whichever call failed. Once installed, no SIGINT or SIGTERM
    ends the process, any number of them leaves a byte to read in the pipe and
    never fills it beyond its capacity, and dropping the handlers restores
    descriptors and handlers as they were. *)
Theorem shutdown_signals_restored os p p' r :
  ps_write_fd p = (-1)%Z → (∀ signal, os (CallRestore signal) = None) →
  install os p = (p', r) →
  match r with
  | Err _ => same_signals p p'
  | Ok s =>
      ∀ signals, ∃ q, deliver_all signals p' = Some q
        ∧ same_signals p (drop_signals os s q)
        ∧ (ps_pipe q ≤ PIPE_CAPACITY)%N
        ∧ if decide (signals = []) then q = p' else ps_requested q = true ∧ (0 < ps_pipe q)%N
  end.
Proof.
  intros Hfd Hrestore Hinstall.
  destruct (install_spec os Hrestore p p' r Hfd Hinstall) as [Hspec _].
  destruct r as [s|err]; [|done]. destruct Hspec as [Hin Hpipe]. intros signals.
  assert (∃ q, deliver_all signals p' = Some q ∧ installed p s q ∧ (ps_pipe q ≤ PIPE_CAPACITY)%N
    ∧ if decide (signals = []) then q = p' else ps_requested q = true ∧ (0 < ps_pipe q)%N)
    as (q & Hq & Hins & Hcap & Hend).
  { induction signals as [|signal signals IH] using rev_ind.
    - exists p'. rewrite Hpipe. split_and!; [done..|unfold PIPE_CAPACITY; lia|done].
    - destruct IH as (q & Hq & Hins & Hcap & _). rewrite deliver_all_snoc, Hq.
      destruct (deliver_installed p s q signal Hins Hcap) as (q' & Hq' & Hins' & Hreq & Hp).
      exists q'. split_and!; [done..|lia|]. rewrite decide_False by (by destruct signals).
      split; [done|lia]. }
  exists q. split_and!; auto using drop_installed.
Qed.

(** A process as it starts, with the standard streams open. *)
Definition plain_process : Process :=
  mkProcess (list_to_map [(0, mkDescriptor (OtherFile 0) false false);
                          (1, mkDescriptor (OtherFile 1) false false);
                          (2, mkDescriptor (OtherFile 2) false false)]%Z)
    DefaultHandler DefaultHandler false (-1) 0.

Definition no_failure (call : Call) : option Report := None.

Lemma shutdown_signals_restored_witness :
  ∃ s q, (install no_failure plain_process).2 = Ok s
    ∧ deliver_all [SIGTERM; SIGINT] (install no_failure plain_process).1 = Some q
    ∧ ps_fds (drop_signals no_failure s q) = ps_fds plain_process
    ∧ ps_requested q = true.
Proof.
  destruct (install no_failure plain_process) as [p' r] eqn:Hinstall.
  pose proof (shutdown_signals_restored no_failure plain_process p' r eq_refl (λ _, eq_refl) Hinstall)
    as H.
  destruct r as [s|err]; [|vm_compute in Hinstall; discriminate].
  destruct (H [SIGTERM; SIGINT]) as (q & Hq & (Hfds & _) & _ & Hreq & _).
  exists s, q. split; [reflexivity|]. split; [exact Hq|]. split; [exact Hfds|exact Hreq].
Defined.

(** The redirection of the standard streams leaks no descriptor, and
    succeeds only with all three on /dev/null, except the one that /dev/null was
    opened at, if it was one of them: it ends up closed. *)
Theorem stdio_redirected os p p' r :
  redirect_stdio_to_dev_null os p = (p', r) →
  (∀ fd, (2 < fd)%Z → ps_fds p' !! fd = ps_fds p !! fd)
  ∧ (r = Ok tt → ∀ fd, (0 ≤ fd ≤ 2)%Z →
       ps_fds p' !! fd = if decide (fd = lowest_free 0 (ps_fds p)) then None
                         else Some (mkDescriptor DevNull false false)).
Proof.
  unfold redirect_stdio_to_dev_null.
  destruct (attempt_cases os CallOpenNull tt) as [-> | [err ->]]; cbn [with_context map_err].
  2:{ by intros [= <- <-]. }
  destruct (lowest_free_spec 0 (ps_fds p)) as [Hnone Hpos]. revert Hnone Hpos.
  generalize (lowest_free 0 (ps_fds p)) as null. intros null Hnone Hpos. cbv zeta.
  unfold stable_source_fd, STDERR_FILENO. destruct (Z.ltb_spec 2 null) as [Hlt|Hle].
  - destruct (redirect_loop os null null _ _) as [p2 r2] eqn:Hloop.
    apply redirect_direct in Hloop as [Hsame Hset]; [|done..].
    rewrite decide_True by done. intros H.
    assert (p' = close_fd null p2 ∧ r = r2) as [-> ->] by (destruct r2 as [[]|]; by simplify_eq).
    split; [done|]. intros Hr fd Hfd. rewrite decide_False by lia. auto.
  - destruct (attempt_cases os CallDupFd tt) as [-> | [err ->]]; cbn [with_context map_err].
    2:{ intros [= <- <-]. split; [|done]. intros fd Hfd. simpl.
        by rewrite lookup_delete_ne, lookup_insert_ne by lia. }
    destruct (lowest_free_spec 3 (ps_fds (set_fd null (mkDescriptor DevNull true false) p)))
      as [Hfree Hge]. revert Hfree Hge. generalize (lowest_free 3
      (ps_fds (set_fd null (mkDescriptor DevNull true false) p))) as copy.
    intros copy Hfree Hge. simpl in Hfree. rewrite lookup_insert_ne in Hfree by lia.
    simpl ps_fds at 1. rewrite lookup_insert_eq.
    destruct (redirect_loop os copy null _ _) as [p2 r2] eqn:Hloop.
    apply redirect_through_copy in Hloop as [Hsame Hset]; [|lia|lia|done|done].
    rewrite decide_False by lia. intros H.
    assert (p' = close_fd null (if is_err r2 then p2 else close_fd copy p2) ∧ r = r2) as [-> ->]
      by (destruct r2 as [[]|]; by simplify_eq).
    auto.
Qed.

Lemma stdio_redirected_witness :
  ps_fds (redirect_stdio_to_dev_null no_failure plain_process).1 !! 1%Z
  = Some (mkDescriptor DevNull false false).
Proof.
  destruct (redirect_stdio_to_dev_null no_failure plain_process) as [p' r] eqn:H.
  destruct (stdio_redirected no_failure plain_process p' r H) as [_ Hset].
  assert (r = Ok tt) as -> by (vm_compute in H; congruence).
  cbn [fst]. rewrite (Hset eq_refl 1%Z) by lia. vm_compute. reflexivity.
Defined.
