(* ===== verification/Graph.v ===== *)
(** * The warm derivation graph: accumulation, diffs and filters

    [crates/evix/src/state.rs]. The graph maps attribute paths to derivations;
    [record] accumulates the events of a run, [diff_graphs] compares two runs
    and [matches_filter] decides which derivations a query returns. *)
From S2P Require Import Prelude Types.

Abbreviation EvalGraph := (gmap (list string) Derivation).

(** [WarmState] *)
Record WarmState := mkWarmState {
  ws_graph : EvalGraph;
  ws_errors : list EvalError;
  ws_completed : bool;
  ws_error : option string;
}.
#[export] Instance eta_warm_state : EtaRecord WarmState := λ s,
  mkWarmState (ws_graph s) (ws_errors s) (ws_completed s) (ws_error s).

Definition warm_state_default : WarmState := mkWarmState ∅ [] false None.

(** [EvalAccumulator] *)
Record EvalAccumulator := mkEvalAccumulator {
  acc_graph : EvalGraph;
  acc_errors : list EvalError;
}.
#[export] Instance eta_eval_accumulator : EtaRecord EvalAccumulator := λ a,
  mkEvalAccumulator (acc_graph a) (acc_errors a).

Definition accumulator_default : EvalAccumulator := mkEvalAccumulator ∅ [].

(** [EvalAccumulator::record] *)
Definition record (acc : EvalAccumulator) (ev : Event) : EvalAccumulator :=
  match ev with
  | EvDerivation drv => acc <| acc_graph := <[d_attr_path drv := drv]> (acc_graph acc) |>
  | EvError err => acc <| acc_errors := acc_errors acc ++ [err] |>
  | EvAttrSet _ _ _ => acc
  end.

Definition record_all (acc : EvalAccumulator) (evs : list Event) : EvalAccumulator :=
  foldl record acc evs.

(** One pass of [diff_graphs]: the entries of [from] whose path is absent from
    [other] or has another [drv_path] there. A [HashMap] is iterated in no
    specified order: here in that of [map_to_list]. *)
Definition same_drv_at (other : EvalGraph) (path : list string) (d : Derivation) : bool :=
  match other !! path with
  | Some o => str_eqb (d_drv_path o) (d_drv_path d)
  | None => false
  end.

Definition changed_entries (from other : EvalGraph) : list Derivation :=
  foldl (λ out kv, if same_drv_at other kv.1 kv.2 then out else out ++ [kv.2]) []
    (map_to_list from).

Definition diff_graphs (previous current : EvalGraph) (errors : list EvalError) : Diff :=
  let removed := changed_entries previous current in
  let added := changed_entries current previous in
  mkDiff added removed errors.

(** ** Filters *)

Definition path_eqb (a b : list string) : bool := bool_decide (a = b).

(** [attr_path_starts_with] *)
Definition attr_path_starts_with (attr_path prefix : list string) : bool :=
  (length prefix <=? length attr_path)
  && forallb (λ ab, str_eqb ab.1 ab.2) (zip attr_path prefix).

(** The table of [wildcard_matches], a [Vec<Vec<bool>>]. *)
Abbreviation table := (list (list bool)).
Definition cell (t : table) (i j : nat) : bool :=
  default false (t !! i ≫= λ row, row !! j).
Definition set_cell (t : table) (i j : nat) (b : bool) : table :=
  alter (λ row, <[j := b]> row) i t.

Definition star : N := 42.
Definition question : N := 63.

(** The body of the inner loop: [matches[i][j]] from the cells before it. *)
Definition fill_cell (pattern value : list N) (i j : nat) (t : table) : table :=
  set_cell t i j
    (match pattern !! (i - 1) with
     | Some ch =>
         if (ch =? star)%N then cell t (i - 1) j || cell t i (j - 1)
         else if (ch =? question)%N then cell t (i - 1) (j - 1)
         else bool_decide (value !! (j - 1) = Some ch) && cell t (i - 1) (j - 1)
     | None => false
     end).

(** The first loop: a prefix of stars matches the empty value. *)
Definition fill_first (pattern : list N) (i : nat) (t : table) : table :=
  match pattern !! (i - 1) with
  | Some ch => if (ch =? star)%N then set_cell t i 0 (cell t (i - 1) 0) else t
  | None => t
  end.

Definition fill_row (pattern value : list N) (i : nat) (t : table) : table :=
  foldl (λ t j, fill_cell pattern value i j t) t (seq 1 (length value)).

Definition wildcard_table (pattern value : list N) : table :=
  let t := replicate (length pattern + 1) (replicate (length value + 1) false) in
  let t := set_cell t 0 0 true in
  let t := foldl (λ t i, fill_first pattern i t) t (seq 1 (length pattern)) in
  foldl (λ t i, fill_row pattern value i t) t (seq 1 (length pattern)).

(** [wildcard_matches] *)
Definition wildcard_matches (pattern value : string) : bool :=
  let pattern := chars pattern in
  let value := chars value in
  cell (wildcard_table pattern value) (length pattern) (length value).

(** [matches_filter] *)
Definition matches_filter (drv : Derivation) (filter : Filter) : bool :=
  let system_matches :=
    is_none_or (existsb (λ system, str_eqb system (d_system drv))) (f_systems filter) in
  let attr_prefix_matches :=
    is_none_or (attr_path_starts_with (d_attr_path drv)) (f_attr_prefix filter) in
  let attr_prefixes_match :=
    is_none_or (existsb (attr_path_starts_with (d_attr_path drv))) (f_attr_prefixes filter) in
  let attrs_match :=
    is_none_or (existsb (λ attr, path_eqb attr (d_attr_path drv))) (f_attrs filter) in
  let names_match :=
    is_none_or (existsb (λ name, str_eqb name (d_name drv))) (f_names filter) in
  let drv_paths_match :=
    is_none_or (existsb (λ path, str_eqb path (d_drv_path drv))) (f_drv_paths filter) in
  let include_patterns_match :=
    is_none_or (existsb (λ p, wildcard_matches p (d_attr drv))) (f_include_patterns filter) in
  let exclude_patterns_match :=
    is_none_or (λ ps, negb (existsb (λ p, wildcard_matches p (d_attr drv)) ps))
      (f_exclude_patterns filter) in
  system_matches && attr_prefix_matches && attr_prefixes_match && attrs_match
  && names_match && drv_paths_match && include_patterns_match && exclude_patterns_match.

(** ** Specifications *)

(** A piece of a pattern matches a run of scalars: [*] any run, [?] one scalar,
    any other character itself. *)
Definition piece_matches (ch : N) (run : list N) : Prop :=
  if (ch =? star)%N then True
  else if (ch =? question)%N then length run = 1
  else run = [ch].

(** A value matches a pattern when it splits into one run per piece. *)
Definition pattern_matches (pattern value : list N) : Prop :=
  ∃ runs, value = concat runs ∧ Forall2 piece_matches pattern runs.

Definition opt_any {A} (P : A → Prop) (o : option (list A)) : Prop :=
  match o with None => True | Some l => ∃ a, a ∈ l ∧ P a end.

(** What a filter accepts: the intersection of its populated fields. *)
Definition filter_accepts (f : Filter) (d : Derivation) : Prop :=
  opt_any (λ s, s = d_system d) (f_systems f)
  ∧ (∀ p, f_attr_prefix f = Some p → p `prefix_of` d_attr_path d)
  ∧ opt_any (λ p, p `prefix_of` d_attr_path d) (f_attr_prefixes f)
  ∧ opt_any (λ p, p = d_attr_path d) (f_attrs f)
  ∧ opt_any (λ n, n = d_name d) (f_names f)
  ∧ opt_any (λ p, p = d_drv_path d) (f_drv_paths f)
  ∧ opt_any (λ p, pattern_matches (chars p) (chars (d_attr d))) (f_include_patterns f)
  ∧ (∀ ps p, f_exclude_patterns f = Some ps → p ∈ ps →
       ¬ pattern_matches (chars p) (chars (d_attr d))).

(** Every derivation of a graph is stored under its own attribute path. *)
Definition graph_wf (g : EvalGraph) : Prop :=
  ∀ path d, g !! path = Some d → d_attr_path d = path.

(** Replaying a diff on a graph: drop what was removed, add what was added. *)
Definition apply_diff (g : EvalGraph) (diff : Diff) : EvalGraph :=
  let dropped := foldl (λ g d, delete (d_attr_path d) g) g (removed diff) in
  foldl (λ g d, <[d_attr_path d := d]> g) dropped (added diff).

(** Two graphs that no consumer of diffs can tell apart. *)
Definition same_drvs (g1 g2 : EvalGraph) : Prop :=
  ∀ path, d_drv_path <$> g1 !! path = d_drv_path <$> g2 !! path.

(** ** The wildcard table computes pattern matching *)

Lemma pattern_nil v : pattern_matches [] v ↔ v = [].
Proof.
  split.
  - intros (runs & -> & H). by inversion H.
  - intros ->. exists []. by split; [|constructor].
Qed.

Lemma pattern_snoc p ch v :
  pattern_matches (p ++ [ch]) v
  ↔ ∃ v1 run, v = v1 ++ run ∧ pattern_matches p v1 ∧ piece_matches ch run.
Proof.
  split.
  - intros (runs & -> & (runs1 & runs2 & H1 & H2 & ->)%Forall2_app_inv_l).
    apply Forall2_cons_inv_l in H2 as (run & r' & Hrun & Hnil & ->).
    apply Forall2_nil_inv_l in Hnil as ->.
    exists (concat runs1), run. rewrite concat_app; simpl. rewrite app_nil_r.
    split; [done|]. split; [by exists runs1|done].
  - intros (v1 & run & -> & (runs & -> & H) & Hrun).
    exists (runs ++ [run]). rewrite concat_app; simpl. rewrite app_nil_r.
    split; [done|]. apply Forall2_app; [done|]. by constructor.
Qed.

Lemma piece_star run : piece_matches star run.
Proof. done. Qed.

Lemma pattern_star_nil p : pattern_matches (p ++ [star]) [] ↔ pattern_matches p [].
Proof.
  rewrite pattern_snoc. split.
  - intros (v1 & run & Hv & H & _). by apply symmetry, app_nil in Hv as [-> ->].
  - intros H. exists [], []. auto using piece_star.
Qed.

Lemma pattern_star_snoc p v x :
  pattern_matches (p ++ [star]) (v ++ [x])
  ↔ pattern_matches p (v ++ [x]) ∨ pattern_matches (p ++ [star]) v.
Proof.
  rewrite !pattern_snoc. split.
  - intros (v1 & run & Hv & H & _). induction run as [|y run _] using rev_ind.
    + left. by rewrite Hv, app_nil_r.
    + rewrite (assoc_L (++)) in Hv. apply app_inj_tail in Hv as [-> ->].
      right. exists v1, run. auto using piece_star.
  - intros [H|(v1 & run & -> & H & _)].
    + exists (v ++ [x]), []. rewrite app_nil_r. auto using piece_star.
    + exists v1, (run ++ [x]). rewrite (assoc_L (++)). auto using piece_star.
Qed.

Lemma pattern_one_nil p ch :
  ch ≠ star → ¬ pattern_matches (p ++ [ch]) [].
Proof.
  intros Hs. rewrite pattern_snoc. intros (v1 & run & Hv & _ & Hrun).
  apply symmetry, app_nil in Hv as [-> ->]. unfold piece_matches in Hrun.
  case_match; bool_simpl; [done|]. by case_match.
Qed.

Lemma pattern_one_snoc p ch v x :
  ch ≠ star →
  pattern_matches (p ++ [ch]) (v ++ [x])
  ↔ (ch = question ∨ ch = x) ∧ pattern_matches p v.
Proof.
  intros Hs. rewrite pattern_snoc. unfold piece_matches.
  rewrite (proj2 (N.eqb_neq ch star)) by done. split.
  - intros (v1 & run & Hv & H & Hrun).
    assert (∃ y, run = [y] ∧ (ch = question ∨ ch = y)) as (y & -> & Hy).
    { case_match; bool_simpl; [|naive_solver].
      destruct run as [|y [|]]; simplify_eq/=. eauto. }
    apply app_inj_tail in Hv as [-> ->]. done.
  - intros [Hch H]. exists v, [x]. split; [done|]. split; [done|].
    case_match; bool_simpl; [done|]. destruct Hch; congruence.
Qed.

(** The shape of the table, and what writing a cell does to the others. *)
Definition table_shape (t : table) (rows cols : nat) : Prop :=
  length t = rows ∧ ∀ i row, t !! i = Some row → length row = cols.

Lemma table_shape_replicate n m : table_shape (replicate n (replicate m false)) n m.
Proof.
  split; [apply length_replicate|]. intros i row [-> _]%lookup_replicate.
  apply length_replicate.
Qed.

Lemma table_shape_set t n m i j b :
  table_shape t n m → table_shape (set_cell t i j b) n m.
Proof.
  intros [Hn Hm]. split; [by unfold set_cell; rewrite length_alter|].
  intros i' row'. unfold set_cell. destruct (decide (i = i')) as [->|].
  - rewrite list_lookup_alter_eq. intros (row & Hrow & ->)%fmap_Some.
    rewrite length_insert. eauto.
  - rewrite list_lookup_alter_ne by done. eauto.
Qed.

Lemma cell_set_eq t n m i j b :
  table_shape t n m → i < n → j < m → cell (set_cell t i j b) i j = b.
Proof.
  intros [Hn Hm] Hi Hj. unfold cell, set_cell. rewrite list_lookup_alter_eq.
  destruct (t !! i) as [row|] eqn:E; [|apply lookup_ge_None in E; lia].
  simpl. rewrite list_lookup_insert_eq; [done|]. by rewrite (Hm _ _ E).
Qed.

Lemma cell_set_ne t i j b i' j' :
  (i, j) ≠ (i', j') → cell (set_cell t i j b) i' j' = cell t i' j'.
Proof.
  intros H. unfold cell, set_cell. destruct (decide (i = i')) as [->|].
  - rewrite list_lookup_alter_eq. destruct (t !! i') as [row|]; [|done]; simpl.
    by rewrite list_lookup_insert_ne by congruence.
  - by rewrite list_lookup_alter_ne by done.
Qed.

Lemma cell_replicate n m i j : cell (replicate n (replicate m false)) i j = false.
Proof.
  unfold cell. destruct (replicate n _ !! i) as [row|] eqn:E; [|done].
  apply lookup_replicate in E as [-> _]. simpl.
  destruct (replicate m false !! j) eqn:E; [|done]. by apply lookup_replicate in E as [-> _].
Qed.

Section wildcard.
Context (p v : list N).

(** What cell [(i, j)] of the finished table says. *)
Definition reached (i j : nat) : Prop := pattern_matches (take i p) (take j v).

Definition cell_right (t : table) (i j : nat) : Prop := cell t i j = true ↔ reached i j.

Lemma reached_row0 j : j ≤ length v → reached 0 j ↔ j = 0.
Proof.
  intros Hj. unfold reached. rewrite take_0, pattern_nil.
  split; [|by intros ->; rewrite take_0].
  intros H%(f_equal length). rewrite length_take in H. simpl in H. lia.
Qed.

Lemma reached_col0 i ch :
  p !! i = Some ch → reached (S i) 0 ↔ ch = star ∧ reached i 0.
Proof.
  intros Hch. unfold reached. rewrite (take_S_r _ _ _ Hch), take_0.
  destruct (decide (ch = star)) as [->|Hs].
  - rewrite pattern_star_nil. naive_solver.
  - split; [|naive_solver]. intros H. by apply pattern_one_nil in H.
Qed.

Lemma reached_cell i j ch x :
  p !! i = Some ch → v !! j = Some x →
  reached (S i) (S j)
  ↔ if decide (ch = star) then reached i (S j) ∨ reached (S i) j
    else (ch = question ∨ ch = x) ∧ reached i j.
Proof.
  intros Hch Hx. unfold reached. rewrite (take_S_r p _ _ Hch), (take_S_r v _ _ Hx).
  case_decide as Hs; [subst; apply pattern_star_snoc|by apply pattern_one_snoc].
Qed.

Definition shaped (t : table) : Prop := table_shape t (length p + 1) (length v + 1).

Definition first_inv (i : nat) (t : table) : Prop :=
  shaped t ∧ (∀ i', i' ≤ i → i' ≤ length p → cell_right t i' 0)
  ∧ ∀ i' j, (i < i' ∨ 0 < j) → cell t i' j = false.

Lemma fill_first_inv i t :
  i < length p → first_inv i t → first_inv (S i) (fill_first p (S i) t).
Proof.
  intros Hi (Hs & Hdone & Hrest).
  destruct (lookup_lt_is_Some_2 p i Hi) as [ch Hch].
  unfold fill_first. simpl. rewrite Nat.sub_0_r, Hch.
  assert (Hnew : cell_right (if (ch =? star)%N then set_cell t (S i) 0 (cell t i 0) else t) (S i) 0).
  { unfold cell_right. rewrite (reached_col0 _ _ Hch). case_match; bool_simpl; subst.
    - rewrite (cell_set_eq _ (length p + 1) (length v + 1)) by (done || lia).
      specialize (Hdone i ltac:(lia) ltac:(lia)). unfold cell_right in Hdone. naive_solver.
    - rewrite Hrest by lia. naive_solver. }
  split; [|split].
  - case_match; [by apply table_shape_set|done].
  - intros i' Hle Hp. destruct (decide (i' = S i)) as [->|]; [done|].
    unfold cell_right. case_match; [rewrite cell_set_ne by congruence|]; apply Hdone; lia.
  - intros i' j H. case_match; [rewrite cell_set_ne by (intros [=]; lia)|]; apply Hrest; lia.
Qed.

Definition rows_inv (i : nat) (t : table) : Prop :=
  shaped t ∧ (∀ i', i' ≤ length p → cell_right t i' 0)
  ∧ ∀ i' j, i' ≤ i → j ≤ length v → cell_right t i' j.

Definition row_inv (i j : nat) (t : table) : Prop :=
  rows_inv i t ∧ ∀ j', j' ≤ j → j' ≤ length v → cell_right t (S i) j'.

Lemma fill_cell_inv i j t :
  i < length p → j < length v → row_inv i j t → row_inv i (S j) (fill_cell p v (S i) (S j) t).
Proof.
  intros Hi Hj ((Hs & Hcol & Hrows) & Hrow).
  destruct (lookup_lt_is_Some_2 p i Hi) as [ch Hch].
  destruct (lookup_lt_is_Some_2 v j Hj) as [x Hx].
  unfold fill_cell. simpl. rewrite !Nat.sub_0_r, Hch, Hx.
  set (b := if (ch =? star)%N then _ else _).
  assert (Hb : b = true ↔ reached (S i) (S j)).
  { rewrite (reached_cell _ _ _ _ Hch Hx). subst b.
    pose proof (Hrows i (S j) ltac:(lia) ltac:(lia)) as H1.
    pose proof (Hrows i j ltac:(lia) ltac:(lia)) as H2.
    pose proof (Hrow j ltac:(lia) ltac:(lia)) as H3. unfold cell_right in *.
    case_match; bool_simpl; case_decide; try done; [by rewrite H1, H3|].
    case_match; bool_simpl; [naive_solver|]. rewrite H2. naive_solver. }
  assert (Hne : ∀ i' j', (i', j') ≠ (S i, S j) → cell_right t i' j' →
    cell_right (set_cell t (S i) (S j) b) i' j').
  { intros i' j' Hij. unfold cell_right. by rewrite cell_set_ne by congruence. }
  split; [split; [|split]|].
  - by apply table_shape_set.
  - intros i' Hp. apply Hne; [congruence|auto].
  - intros i' j' ??. apply Hne; [intros [=]; lia|auto].
  - intros j' ??. destruct (decide (j' = S j)) as [->|].
    + unfold cell_right. by rewrite (cell_set_eq _ (length p + 1) (length v + 1)) by (done || lia).
    + apply Hne; [congruence|]. apply Hrow; lia.
Qed.

Lemma fill_row_inv i t :
  i < length p → rows_inv i t → rows_inv (S i) (fill_row p v (S i) t).
Proof.
  intros Hi Ht.
  assert (row_inv i (length v) (fill_row p v (S i) t)) as [(Hs & Hcol & Hrows) Hrow].
  { unfold fill_row. apply (foldl_seq_ind _ (row_inv i)).
    - split; [done|]. intros j' Hj' _. assert (j' = 0) as -> by lia.
      destruct Ht as (_ & Hcol & _). apply Hcol. lia.
    - intros j s Hj. by apply fill_cell_inv. }
  split; [done|]. split; [done|]. intros i' j ??.
  destruct (decide (i' = S i)) as [->|]; [by apply Hrow|apply Hrows; lia].
Qed.

Lemma wildcard_table_right :
  cell_right (wildcard_table p v) (length p) (length v).
Proof.
  unfold wildcard_table. set (t0 := set_cell _ 0 0 true).
  assert (H0 : first_inv 0 t0).
  { subst t0. pose proof (table_shape_replicate (length p + 1) (length v + 1)) as Hs.
    split; [by apply table_shape_set|split].
    - intros i' Hi' _. assert (i' = 0) as -> by lia. unfold cell_right.
      rewrite (cell_set_eq _ _ _ _ _ _ Hs), reached_row0 by lia. done.
    - intros i' j H. rewrite cell_set_ne by (intros [=]; lia). apply cell_replicate. }
  set (t1 := foldl _ t0 _). assert (H1 : first_inv (length p) t1).
  { subst t1. apply (foldl_seq_ind _ first_inv); [done|]. intros; by apply fill_first_inv. }
  destruct H1 as (Hs & Hcol & Hrest).
  match goal with |- cell_right ?t _ _ => assert (rows_inv (length p) t) as (_ & _ & H) end.
  { apply (foldl_seq_ind (λ t i, fill_row p v i t) rows_inv).
    - split; [done|]. split; [intros; by apply Hcol|].
      intros i' j Hi' Hj. assert (i' = 0) as -> by lia.
      destruct j as [|j]; [apply Hcol; lia|]. unfold cell_right.
      rewrite Hrest by lia. rewrite reached_row0 by done. split; [done|lia].
    - intros; by apply fill_row_inv. }
  by apply H.
Qed.
End wildcard.

Lemma wildcard_matches_iff pattern value :
  wildcard_matches pattern value = true ↔ pattern_matches (chars pattern) (chars value).
Proof.
  pose proof (wildcard_table_right (chars pattern) (chars value)) as H.
  unfold cell_right, reached in H. by rewrite !take_ge in H by done.
Qed.

#[export] Hint Rewrite wildcard_matches_iff : evix.

(** ** Filters *)

Lemma attr_path_starts_with_iff path prefix :
  attr_path_starts_with path prefix = true ↔ prefix `prefix_of` path.
Proof.
  unfold attr_path_starts_with. rewrite andb_true_iff, Nat.leb_le. split.
  - revert path. induction prefix as [|q prefix IH]; intros [|p path] [Hl Hz]; simpl in *;
      [by exists []|by exists (p :: path)|lia|].
    apply andb_true_iff in Hz as [->%str_eqb_true Hz].
    apply prefix_cons, IH. split; [lia|done].
  - intros [rest ->]. split; [rewrite length_app; lia|].
    induction prefix as [|q prefix IH]; simpl; [by destruct rest|].
    by rewrite str_eqb_refl.
Qed.

Lemma path_eqb_iff a b : path_eqb a b = true ↔ a = b.
Proof. apply bool_decide_eq_true. Qed.

#[export] Hint Rewrite attr_path_starts_with_iff path_eqb_iff : evix.

Lemma is_none_or_any {A} (test : A → bool) (P : A → Prop) (o : option (list A)) :
  (∀ a, test a = true ↔ P a) → is_none_or (existsb test) o = true ↔ opt_any P o.
Proof.
  intros HP. destruct o as [l|]; simpl; [|done]. rewrite existsb_elem_of.
  setoid_rewrite HP. done.
Qed.

Lemma matches_filter_iff drv f :
  matches_filter drv f = true ↔ filter_accepts f drv.
Proof.
  unfold matches_filter, filter_accepts. rewrite !andb_true_iff, <-!(assoc (∧)).
  repeat apply Morphisms_Prop.and_iff_morphism;
    try (apply is_none_or_any; intros; by bool_simpl).
  - bool_simpl. setoid_rewrite attr_path_starts_with_iff. done.
  - rewrite is_none_or_true. split.
    + intros H ps p Hps Hp Hm. specialize (H _ Hps). apply negb_true_iff in H.
      apply (eq_true_false_abs _ (proj2 (existsb_elem_of _ _) (ex_intro _ p (conj Hp
        (proj2 (wildcard_matches_iff _ _) Hm)))) H).
    + intros H ps Hps. apply negb_true_iff, not_true_iff_false.
      intros (p & Hp & Hm%wildcard_matches_iff)%existsb_elem_of. by eapply H.
Qed.

(** ** Diffs *)

Lemma same_drv_at_iff other path d :
  same_drv_at other path d = true ↔ d_drv_path <$> other !! path = Some (d_drv_path d).
Proof.
  unfold same_drv_at. destruct (other !! path) as [o|]; simpl; [|done].
  rewrite str_eqb_true. split; congruence.
Qed.

Lemma changed_entries_eq from other :
  changed_entries from other
  = (filter (λ kv, same_drv_at other kv.1 kv.2 = false) (map_to_list from)).*2.
Proof. unfold changed_entries. by rewrite foldl_filter. Qed.

Lemma elem_of_changed from other d :
  d ∈ changed_entries from other
  ↔ ∃ path, from !! path = Some d ∧ d_drv_path <$> other !! path ≠ Some (d_drv_path d).
Proof.
  rewrite changed_entries_eq, list_elem_of_fmap. split.
  - intros ([path d'] & -> & [Hs Hm]%list_elem_of_filter). exists path.
    split; [by apply elem_of_map_to_list|]. rewrite <-same_drv_at_iff. simpl in *. congruence.
  - intros (path & Hp & Hs). exists (path, d). split; [done|].
    apply list_elem_of_filter. split; [|by apply elem_of_map_to_list].
    rewrite <-same_drv_at_iff in Hs. by apply not_true_is_false in Hs.
Qed.

(** The entries of a well-formed graph are keyed by their attribute paths. *)
Lemma changed_paths from other :
  graph_wf from →
  d_attr_path <$> changed_entries from other
  = (filter (λ kv, same_drv_at other kv.1 kv.2 = false) (map_to_list from)).*1.
Proof.
  intros Hwf. rewrite changed_entries_eq, <-list_fmap_compose.
  apply list_fmap_ext. intros i [path d] Hi%list_elem_of_lookup_2.
  apply list_elem_of_filter in Hi as [_ Hi]. apply elem_of_map_to_list in Hi. by apply Hwf.
Qed.

Lemma changed_paths_nodup from other :
  graph_wf from → NoDup (d_attr_path <$> changed_entries from other).
Proof.
  intros Hwf. rewrite changed_paths by done.
  assert (∀ l : list (list string * Derivation), NoDup l.*1 →
    NoDup (filter (λ kv, same_drv_at other kv.1 kv.2 = false) l).*1) as H.
  { intros l. induction l as [|kv l IH]; simpl; [done|].
    intros [Hn Hl]%NoDup_cons. rewrite filter_cons. case_decide; [|auto].
    apply NoDup_cons. split; [|auto]. intros (kv' & Hkv & Hin)%list_elem_of_fmap.
    apply Hn, list_elem_of_fmap. exists kv'. split; [done|].
    by apply list_elem_of_filter in Hin as [_ Hin]. }
  apply H, NoDup_fst_map_to_list.
Qed.

Lemma drop_all_lookup (l : list Derivation) (g : EvalGraph) path :
  foldl (λ g d, delete (d_attr_path d) g) g l !! path
  = if decide (path ∈ d_attr_path <$> l) then None else g !! path.
Proof.
  revert g. induction l as [|d l IH]; intros g; simpl; [done|].
  rewrite IH. destruct (decide (path = d_attr_path d)) as [->|Hne].
  - rewrite (decide_True (P := _ ∈ _ :: _)) by set_solver.
    case_decide; [done|]. by rewrite lookup_delete_eq.
  - rewrite lookup_delete_ne by done.
    apply decide_ext. rewrite elem_of_cons. naive_solver.
Qed.

Lemma add_all_lookup (l : list Derivation) (g : EvalGraph) path d :
  NoDup (d_attr_path <$> l) → d ∈ l → d_attr_path d = path →
  foldl (λ g d, <[d_attr_path d := d]> g) g l !! path = Some d.
Proof.
  revert g. induction l as [|e l IH]; intros g Hnd Hin Hp; simpl in *; [set_solver|].
  apply NoDup_cons in Hnd as [Hne Hnd]. apply elem_of_cons in Hin as [->|Hin]; [|by apply IH].
  clear IH. assert (∀ l (g : EvalGraph), path ∉ d_attr_path <$> l → g !! path = Some e →
    foldl (λ g d, <[d_attr_path d := d]> g) g l !! path = Some e) as H.
  { clear. induction l as [|d l IH]; intros g Hn Hg; simpl in *; [done|].
    apply IH; [set_solver|]. rewrite lookup_insert_ne by set_solver. done. }
  subst path. apply H; [done|]. apply lookup_insert_eq.
Qed.

Lemma add_all_lookup_ne (l : list Derivation) (g : EvalGraph) path :
  path ∉ d_attr_path <$> l →
  foldl (λ g d, <[d_attr_path d := d]> g) g l !! path = g !! path.
Proof.
  revert g. induction l as [|d l IH]; intros g Hn; simpl in *; [done|].
  rewrite IH by set_solver. by rewrite lookup_insert_ne by set_solver.
Qed.

(** Where a pass reports nothing, the other graph has the same [drv_path]. *)
Lemma not_changed from other path d :
  graph_wf from → path ∉ d_attr_path <$> changed_entries from other →
  from !! path = Some d → d_drv_path <$> other !! path = Some (d_drv_path d).
Proof.
  intros Hwf Hn Hp. destruct (decide (d_drv_path <$> other !! path = Some (d_drv_path d)))
    as [|Hne]; [done|].
  destruct Hn. apply list_elem_of_fmap. exists d. split; [by rewrite (Hwf _ _ Hp)|].
  apply elem_of_changed. eauto.
Qed.

Lemma changed_entries_nil from other :
  graph_wf from →
  changed_entries from other = []
  ↔ ∀ path d, from !! path = Some d → d_drv_path <$> other !! path = Some (d_drv_path d).
Proof.
  intros Hwf. split.
  - intros H path d. apply not_changed; [done|]. rewrite H. apply not_elem_of_nil.
  - intros H. apply elem_of_nil_inv. intros d (path & Hp & Hne)%elem_of_changed. auto.
Qed.

Lemma apply_diff_lookup previous current errors path :
  graph_wf previous → graph_wf current →
  d_drv_path <$> apply_diff previous (diff_graphs previous current errors) !! path
  = d_drv_path <$> current !! path.
Proof.
  intros Hp Hc. unfold apply_diff. simpl.
  destruct (decide (path ∈ d_attr_path <$> changed_entries current previous)) as [Hin|Hadd].
  { apply list_elem_of_fmap in Hin as (d & -> & Hd).
    rewrite (add_all_lookup _ _ _ d) by auto using changed_paths_nodup.
    apply elem_of_changed in Hd as (path & Hpath & _). by rewrite (Hc _ _ Hpath), Hpath. }
  rewrite add_all_lookup_ne, drop_all_lookup by done.
  destruct (current !! path) as [c|] eqn:Ec; simpl.
  - pose proof (not_changed _ _ _ _ Hc Hadd Ec) as Hsame. case_decide as Hrem; [|done].
    apply list_elem_of_fmap in Hrem as (d & -> & Hd).
    apply elem_of_changed in Hd as (path & Hpath & Hne).
    rewrite (Hp _ _ Hpath) in Hsame, Ec. rewrite Hpath in Hsame. rewrite Ec in Hne. naive_solver.
  - case_decide as Hrem; [done|]. destruct (previous !! path) as [d|] eqn:Ed; [|done].
    pose proof (not_changed _ _ _ _ Hp Hrem Ed) as Hsame. by rewrite Ec in Hsame.
Qed.

(** Graphs with the same [drv_path]s are interchangeable for diffs. *)
#[export] Instance same_drvs_equivalence : Equivalence same_drvs.
Proof.
  split; [intros g path; done|intros g h H path; done|].
  intros g h k H1 H2 path. by rewrite H1.
Qed.

#[export] Instance apply_diff_proper : Proper (same_drvs ==> eq ==> same_drvs) apply_diff.
Proof.
  intros g h Hgh diff ? <-. unfold apply_diff.
  assert (∀ l g h, same_drvs g h → same_drvs
    (foldl (λ g d, delete (d_attr_path d) g) g l)
    (foldl (λ g d, delete (d_attr_path d) g) h l)) as Hdel.
  { clear. induction l as [|d l IH]; intros g h H; [done|]. apply IH. intros path.
    destruct (decide (d_attr_path d = path)) as [<-|Hne]; [by rewrite !lookup_delete_eq|].
    by rewrite !lookup_delete_ne by done. }
  assert (∀ l g h, same_drvs g h → same_drvs
    (foldl (λ g d, <[d_attr_path d := d]> g) g l)
    (foldl (λ g d, <[d_attr_path d := d]> g) h l)) as Hins; [|by apply Hins, Hdel].
  clear. induction l as [|d l IH]; intros g h H; [done|]. apply IH. intros path.
  destruct (decide (d_attr_path d = path)) as [<-|Hne]; [by rewrite !lookup_insert_eq|].
  by rewrite !lookup_insert_ne by done.
Qed.

(** ** Accumulation *)

Lemma record_wf acc ev : graph_wf (acc_graph acc) → graph_wf (acc_graph (record acc ev)).
Proof.
  intros Hwf. destruct ev as [drv| |]; simpl; [|done..].
  intros path d [[<- <-]|[_ H]]%lookup_insert_Some; [done|by apply Hwf].
Qed.

(** The last derivation an event list has for a path. *)
Definition last_drv (path : list string) (evs : list Event) : option Derivation :=
  last (omap (λ ev, match ev with
    | EvDerivation d => if path_eqb (d_attr_path d) path then Some d else None
    | _ => None end) evs).

(** The errors of an event list, in order. *)
Definition errors_of (evs : list Event) : list EvalError :=
  omap (λ ev, match ev with EvError e => Some e | _ => None end) evs.

Lemma record_all_snoc acc evs ev : record_all acc (evs ++ [ev]) = record (record_all acc evs) ev.
Proof. unfold record_all. by rewrite foldl_app. Qed.

Lemma record_all_wf acc evs :
  graph_wf (acc_graph acc) → graph_wf (acc_graph (record_all acc evs)).
Proof.
  intros Hwf. induction evs as [|ev evs IH] using rev_ind; [done|].
  rewrite record_all_snoc. by apply record_wf.
Qed.

Lemma omap_snoc {A B} (f : A → option B) (l : list A) (a : A) :
  omap f (l ++ [a]) = omap f l ++ match f a with Some b => [b] | None => [] end.
Proof. rewrite omap_app. simpl. by destruct (f a). Qed.

Lemma record_all_graph evs path :
  acc_graph (record_all accumulator_default evs) !! path = last_drv path evs.
Proof.
  induction evs as [|ev evs IH] using rev_ind; [done|].
  rewrite record_all_snoc. unfold last_drv. rewrite omap_snoc.
  destruct ev as [d| |]; simpl; rewrite ?app_nil_r; [|apply IH..].
  destruct (decide (d_attr_path d = path)) as [<-|Hne].
  - rewrite lookup_insert_eq. unfold path_eqb. rewrite bool_decide_true by done.
    by rewrite last_snoc.
  - rewrite lookup_insert_ne by done. unfold path_eqb. rewrite bool_decide_false by done.
    rewrite app_nil_r. apply IH.
Qed.

Lemma record_all_errors evs : acc_errors (record_all accumulator_default evs) = errors_of evs.
Proof.
  induction evs as [|ev evs IH] using rev_ind; [done|].
  rewrite record_all_snoc. unfold errors_of. rewrite omap_snoc.
  destruct ev as [| |e]; simpl; rewrite ?app_nil_r; [done..|]. by rewrite IH.
Qed.

Lemma diff_empty_iff previous current errors :
  graph_wf previous → graph_wf current →
  added (diff_graphs previous current errors) = []
  ∧ removed (diff_graphs previous current errors) = [] ↔ same_drvs previous current.
Proof.
  intros Hp Hc. simpl. rewrite !changed_entries_nil by done. split.
  - intros [Ha Hr] path. destruct (previous !! path) eqn:Ep; simpl.
    + symmetry. by apply Hr.
    + destruct (current !! path) eqn:Ec; [|done]. apply Ha in Ec. by rewrite Ep in Ec.
  - intros H. split; intros path d Hd; specialize (H path); rewrite Hd in H; done.
Qed.

(** ** Properties *)

(** C13 (filter): a query returns exactly the derivations that satisfy every
    populated field of the filter: list fields by membership, prefixes by the
    prefix order on attribute paths, patterns by matching, and exclusions by
    matching none. *)
Theorem matches_filter_spec drv f :
  matches_filter drv f = true ↔ filter_accepts f drv.
Proof. apply matches_filter_iff. Qed.

Definition hello_drv : Derivation :=
  mkDerivation "pkgs.hello" ["pkgs"; "hello"] "hello" "x86_64-linux"
    "/nix/store/a-hello.drv" ∅ None ∅ None None.
Definition hello_new : Derivation :=
  mkDerivation "pkgs.hello" ["pkgs"; "hello"] "hello" "x86_64-linux"
    "/nix/store/b-hello.drv" ∅ None ∅ None None.
Definition hello_graph (d : Derivation) : EvalGraph := {[ ["pkgs"; "hello"] := d ]}.

Lemma hello_graph_wf d : d_attr_path d = ["pkgs"; "hello"] → graph_wf (hello_graph d).
Proof. intros Hd path d'. unfold hello_graph. by intros [<- <-]%lookup_singleton_Some. Qed.

(** C14 (apply): a diff lists what changed and nothing else, and replays soundly.
    The diff of two graphs lists exactly the derivations of the previous graph
    whose path is gone or has another [drv_path], as removed, and the converse
    as added, each once, with the errors of the current run; applied to the
    previous graph it gives a graph with the [drv_path] of the current one at
    every path; and it is empty exactly when no path's [drv_path] changed. *)
Theorem diff_graphs_spec previous current errors :
  graph_wf previous → graph_wf current →
  let diff := diff_graphs previous current errors in
  (∀ d, d ∈ removed diff ↔ ∃ path, previous !! path = Some d
     ∧ d_drv_path <$> current !! path ≠ Some (d_drv_path d))
  ∧ (∀ d, d ∈ added diff ↔ ∃ path, current !! path = Some d
     ∧ d_drv_path <$> previous !! path ≠ Some (d_drv_path d))
  ∧ NoDup (d_attr_path <$> removed diff) ∧ NoDup (d_attr_path <$> added diff)
  ∧ diff_errors diff = errors
  ∧ same_drvs (apply_diff previous diff) current
  ∧ (added diff = [] ∧ removed diff = [] ↔ same_drvs previous current).
Proof.
  intros Hp Hc diff.
  assert (same_drvs (apply_diff previous diff) current) as Happly.
  { intros path. by apply apply_diff_lookup. }
  pose proof (diff_empty_iff previous current errors Hp Hc) as Hempty.
  split_and!; [| | | | |exact Happly|exact Hempty]; simpl;
    auto using elem_of_changed, changed_paths_nodup.
Qed.

Lemma diff_graphs_spec_witness :
  same_drvs (apply_diff (hello_graph hello_drv)
    (diff_graphs (hello_graph hello_drv) (hello_graph hello_new) [])) (hello_graph hello_new).
Proof.
  apply (diff_graphs_spec (hello_graph hello_drv) (hello_graph hello_new) []
    (hello_graph_wf hello_drv eq_refl) (hello_graph_wf hello_new eq_refl)).
Defined.

(** The accumulator of a run holds, at each path, the last derivation
    emitted for it, under its own attribute path, and every error in the order
    of emission; attribute sets leave no trace. *)
Theorem record_all_spec evs :
  let acc := record_all accumulator_default evs in
  (∀ path, acc_graph acc !! path = last_drv path evs)
  ∧ acc_errors acc = errors_of evs
  ∧ graph_wf (acc_graph acc).
Proof.
  intros acc. split; [intros; apply record_all_graph|].
  split; [apply record_all_errors|by apply record_all_wf].
Qed.
