(* ===== verification/Config.v ===== *)
(** * Evaluation configuration

    [crates/evix/src/config.rs] (the session configuration, its builder and its
    conversions to and from the wire configuration), [worker_config.rs] (what a
    worker is told), the hand-written serde forms of
    [crates/evix-protocol/src/serde_config.rs], and the checks and preparation
    of [async_master.rs] ([validate_config], [worker_config]). *)
From S2P Require Import Prelude Types.

(** ** The session configuration *)

Record Config := mkConfig {
  c_input : Input;
  c_auto_args : list (string * AutoArg);
  c_force_recurse : bool;
  c_gc_roots_dir : option string;
  c_workers : N;
  c_max_memory_size : N;
  c_item_timeout_seconds : N;
  c_meta : bool;
  c_show_input_drvs : bool;
  c_override_inputs : list (string * string);
  c_nix_options : list (string * string);
  c_remotes : list Remote;
  c_worker_exe : option string;
}.
#[export] Instance eta_config : EtaRecord Config := λ c,
  mkConfig (c_input c) (c_auto_args c) (c_force_recurse c) (c_gc_roots_dir c)
    (c_workers c) (c_max_memory_size c) (c_item_timeout_seconds c) (c_meta c)
    (c_show_input_drvs c) (c_override_inputs c) (c_nix_options c) (c_remotes c)
    (c_worker_exe c).

Definition DEFAULT_WORKERS : N := 1.
Definition DEFAULT_MAX_MEMORY_MB : N := 4096.

Definition config_default : Config :=
  mkConfig (Expr "{}") [] false None DEFAULT_WORKERS DEFAULT_MAX_MEMORY_MB
    DEFAULT_ITEM_TIMEOUT_SECONDS false false [] [] [] None.

Definition config_expr (expr : string) : Config :=
  config_default <| c_input := Expr expr |>.
Definition config_file (path : string) : Config :=
  config_default <| c_input := File path |>.
Definition config_flake (reference : string) : Config :=
  config_default <| c_input := Flake reference |>.

(** The methods of [ConfigBuilder]: those of the wire builder, and the worker
    executable. *)
Inductive ConfigCall : Type :=
  | Shared (call : BuilderCall)
  | SetWorkerExe (path : string).

Definition config_builder_call (c : Config) (call : ConfigCall) : Config :=
  match call with
  | Shared (SetForceRecurse enabled) => c <| c_force_recurse := enabled |>
  | Shared (SetGcRootsDir path) => c <| c_gc_roots_dir := Some path |>
  | Shared (SetWorkers workers) => c <| c_workers := workers |>
  | Shared (SetMaxMemorySize size) => c <| c_max_memory_size := size |>
  | Shared (SetItemTimeoutSeconds seconds) => c <| c_item_timeout_seconds := seconds |>
  | Shared (SetMeta enabled) => c <| c_meta := enabled |>
  | Shared (SetShowInputDrvs enabled) => c <| c_show_input_drvs := enabled |>
  | Shared (AddAutoArgExpr name value) =>
      c <| c_auto_args := c_auto_args c ++ [(name, ArgExpr value)] |>
  | Shared (AddAutoArgStr name value) =>
      c <| c_auto_args := c_auto_args c ++ [(name, ArgStr value)] |>
  | Shared (AddOverrideInput name reference) =>
      c <| c_override_inputs := c_override_inputs c ++ [(name, reference)] |>
  | Shared (AddNixOption key value) =>
      c <| c_nix_options := c_nix_options c ++ [(key, value)] |>
  | Shared (AddRemote remote) => c <| c_remotes := c_remotes c ++ [remote] |>
  | SetWorkerExe path => c <| c_worker_exe := Some path |>
  end.

(** [impl From<evix_protocol::Config> for Config] *)
Definition config_from_wire (w : WireConfig) : Config :=
  mkConfig (w_input w) (w_auto_args w) (w_force_recurse w) (w_gc_roots_dir w)
    (w_workers w) (w_max_memory_size w) (w_item_timeout_seconds w) (w_meta w)
    (w_show_input_drvs w) (w_override_inputs w) (w_nix_options w) (w_remotes w) None.

(** [impl From<&Config> for evix_protocol::Config] *)
Definition wire_from_config (c : Config) : WireConfig :=
  mkWireConfig (c_input c) (c_auto_args c) (c_force_recurse c) (c_gc_roots_dir c)
    (c_workers c) (c_max_memory_size c) (c_item_timeout_seconds c) (c_meta c)
    (c_show_input_drvs c) (c_override_inputs c) (c_nix_options c) (c_remotes c).

(** ** The serde forms of inputs and arguments *)

Inductive InputWire : Type :=
  | WireFlake (value : string)
  | WireExpr (value : string)
  | WireFile (path : string).

Definition input_serialize (input : Input) : InputWire :=
  match input with
  | Flake value => WireFlake value
  | Expr value => WireExpr value
  | File path => WireFile path
  end.

Definition input_deserialize (wire : InputWire) : Input :=
  match wire with
  | WireFlake value => Flake value
  | WireExpr value => Expr value
  | WireFile path => File path
  end.

Inductive AutoArgKind : Type := KindExpr | KindStr.

Record AutoArgWire := mkAutoArgWire {
  aw_name : string;
  aw_kind : AutoArgKind;
  aw_value : string;
}.

Definition auto_args_serialize (args : list (string * AutoArg)) : list AutoArgWire :=
  (λ na, match na.2 with
         | ArgExpr value => mkAutoArgWire na.1 KindExpr value
         | ArgStr value => mkAutoArgWire na.1 KindStr value
         end) <$> args.

Definition auto_args_deserialize (wires : list AutoArgWire) : list (string * AutoArg) :=
  (λ wire, let arg := match aw_kind wire with
                      | KindExpr => ArgExpr (aw_value wire)
                      | KindStr => ArgStr (aw_value wire)
                      end in
           (aw_name wire, arg)) <$> wires.

(** ** The worker's configuration *)

Record WorkerConfig := mkWorkerConfig {
  wc_input : Input;
  wc_auto_args : list (string * AutoArg);
  wc_force_recurse : bool;
  wc_gc_roots_dir : option string;
  wc_max_memory_size : N;
  wc_item_timeout_seconds : N;
  wc_meta : bool;
  wc_show_input_drvs : bool;
  wc_override_inputs : list (string * string);
  wc_nix_options : list (string * string);
  wc_locked_flake_json : option string;
}.
#[export] Instance eta_worker_config : EtaRecord WorkerConfig := λ c,
  mkWorkerConfig (wc_input c) (wc_auto_args c) (wc_force_recurse c) (wc_gc_roots_dir c)
    (wc_max_memory_size c) (wc_item_timeout_seconds c) (wc_meta c) (wc_show_input_drvs c)
    (wc_override_inputs c) (wc_nix_options c) (wc_locked_flake_json c).

(** [impl From<&Config> for WorkerConfig] *)
Definition worker_config_from (c : Config) : WorkerConfig :=
  mkWorkerConfig (c_input c) (c_auto_args c) (c_force_recurse c) (c_gc_roots_dir c)
    (c_max_memory_size c) (c_item_timeout_seconds c) (c_meta c) (c_show_input_drvs c)
    (c_override_inputs c) (c_nix_options c) None.

(** [EvalOptions] of [eval.rs], and its conversion *)
Record EvalOptions := mkEvalOptions {
  eo_force_recurse : bool;
  eo_gc_roots_dir : option string;
  eo_meta : bool;
  eo_show_input_drvs : bool;
}.

Definition eval_options_from (c : WorkerConfig) : EvalOptions :=
  mkEvalOptions (wc_force_recurse c) (wc_gc_roots_dir c) (wc_meta c) (wc_show_input_drvs c).

(** ** Validation and preparation of a run *)

Section run_config.
(** [Debug] for a path that is not UTF-8, and the resolution of a path and of
    the flake's lock by the environment. *)
Context (debug_path : string → string).
Context (absolute : string → Result string).
Context (export_locked_flake : Config → Result (option string)).

(** The loop of [validate_config] over the remotes. *)
Fixpoint validate_remotes (remotes : list Remote) : Result unit :=
  match remotes with
  | [] => Ok tt
  | remote :: remotes =>
      if (remote_workers remote =? 0)%N
      then Err (report ("remote worker count for " +:+ endpoint remote
                        +:+ " must be greater than zero"))
      else validate_remotes remotes
  end.

(** [validate_config] *)
Definition validate_config (config : Config) : Result unit :=
  if (c_item_timeout_seconds config =? 0)%N
  then Err (report "item timeout must be greater than zero")
  else
    _ ← match c_input config with
        | File path =>
            match to_str path with
            | None => Err (report ("input file " +:+ debug_path path +:+ " is not valid UTF-8"))
            | Some _ => Ok tt
            end
        | _ => Ok tt
        end;
    _ ← match c_gc_roots_dir config with
        | Some dir =>
            match to_str dir with
            | None => Err (report ("gc roots directory " +:+ debug_path dir
                                   +:+ " is not valid UTF-8"))
            | Some _ => Ok tt
            end
        | None => Ok tt
        end;
    validate_remotes (c_remotes config).

(** [worker_config]: a file input is made absolute, and the lock exported. *)
Definition worker_config (config : Config) : Result WorkerConfig :=
  let worker_config := worker_config_from config in
  worker_config ← match wc_input worker_config with
                  | File path =>
                      path ← with_context "resolving file path" (absolute path);
                      Ok (worker_config <| wc_input := File path |>)
                  | _ => Ok worker_config
                  end;
  locked ← export_locked_flake config;
  Ok (worker_config <| wc_locked_flake_json := locked |>).
End run_config.

(** ** Specification *)

(** The configurations a run accepts. *)
Definition config_valid (c : Config) : Prop :=
  c_item_timeout_seconds c ≠ 0%N
  ∧ (∀ path, c_input c = File path → utf8_valid path = true)
  ∧ (∀ dir, c_gc_roots_dir c = Some dir → utf8_valid dir = true)
  ∧ (∀ r, r ∈ c_remotes c → remote_workers r ≠ 0%N).

(** ** Lemmas *)

Lemma to_str_some path s : to_str path = Some s ↔ utf8_valid path = true ∧ s = path.
Proof. unfold to_str. case_match; naive_solver. Qed.

Lemma to_str_none path : to_str path = None ↔ utf8_valid path = false.
Proof. unfold to_str. case_match; naive_solver. Qed.

Lemma validate_remotes_ok remotes :
  validate_remotes remotes = Ok tt ↔ ∀ r, r ∈ remotes → remote_workers r ≠ 0%N.
Proof.
  induction remotes as [|r remotes IH]; simpl.
  - split; [intros _ r Hr; by apply elem_of_nil in Hr|done].
  - case_match; bool_simpl.
    + split; [done|]. intros H'. exfalso. apply (H' r); [left|done].
    + rewrite IH. setoid_rewrite elem_of_cons. split; [|by eauto].
      intros Hr r' [->|Hin]; auto.
Qed.

Lemma auto_args_roundtrip args : auto_args_deserialize (auto_args_serialize args) = args.
Proof.
  unfold auto_args_deserialize, auto_args_serialize.
  induction args as [|[name [v|v]] args IH]; simpl; [done|by f_equal..].
Qed.

Lemma require_utf8 path (e : Report) :
  match to_str path with None => Err e | Some _ => Ok tt end = Ok tt
  ↔ utf8_valid path = true.
Proof. unfold to_str. by destruct (utf8_valid path). Qed.

(** ** Properties *)

(** The two configuration types agree. A wire configuration survives
    the trip through the session's; a session configuration survives the other
    trip but for its worker executable; the defaults correspond; every method
    shared by the two builders commutes with the conversion; and the inputs and
    arguments the hand-written serde modules write, they read back. *)
Theorem config_conversions :
  (∀ w, wire_from_config (config_from_wire w) = w)
  ∧ (∀ c, config_from_wire (wire_from_config c) = c <| c_worker_exe := None |>)
  ∧ wire_from_config config_default = wire_config_default
  ∧ (∀ c call, wire_from_config (config_builder_call c (Shared call))
               = wire_builder_call (wire_from_config c) call)
  ∧ (∀ c path, wire_from_config (config_builder_call c (SetWorkerExe path))
               = wire_from_config c)
  ∧ (∀ input, input_deserialize (input_serialize input) = input)
  ∧ (∀ args, auto_args_deserialize (auto_args_serialize args) = args).
Proof.
  split_and!; [by intros []|by intros []|done|by intros c []|done|by intros []|].
  apply auto_args_roundtrip.
Qed.

(** A run starts exactly on the configurations with a positive item
    timeout, UTF-8 paths and at least one worker per remote. *)
Theorem validate_config_iff debug_path c :
  validate_config debug_path c = Ok tt ↔ config_valid c.
Proof.
  unfold validate_config, config_valid. case_match; bool_simpl; [naive_solver|].
  rewrite !bind_unit_ok, validate_remotes_ok.
  assert (∀ P Q Q' R R' T : Prop, T → (P ↔ Q) → (R ↔ R') →
    (P ∧ R ∧ Q' ↔ T ∧ Q ∧ R' ∧ Q')) as Hand by tauto.
  apply Hand; [done| |].
  - destruct (c_input c) as [| |path]; [split; [by intros|done]..|].
    rewrite require_utf8. split; [by intros ?? [= <-]|eauto].
  - destruct (c_gc_roots_dir c) as [dir|]; [|split; [by intros|done]].
    rewrite require_utf8. split; [by intros ?? [= <-]|eauto].
Qed.
