(* ===== verification/Traversal.v ===== *)
(** * The abstract traversal of an attribute tree

    What a coordinated evaluation promises, without workers, channels or
    queues: a set of announced paths is visited one path at a time, in any
    order, and the event of a visit announces the children of its path.
    [Scheduler.v] refines this machine. *)
From S2P Require Import Prelude Types.

(** The paths an event at [path] announces. *)
Definition children (path : list string) (event : Event) : list (list string) :=
  match event with
  | EvAttrSet _ _ attrs => (λ name, path ++ [name]) <$> attrs
  | _ => []
  end.

Record Walk := mkWalk {
  pending : list (list string);
  visited : list Event;
}.

Definition walk_init : Walk := mkWalk [[]] [].

Definition walk_done (w : Walk) : Prop := pending w = [].

Section traversal.
(** The events a visit of a path may produce. *)
Context (produces : list string → Event → Prop).

Inductive visit : Walk → Walk → Prop :=
  | visit_one w path rest event w' :
      pending w ≡ₚ path :: rest → produces path event →
      pending w' ≡ₚ rest ++ children path event → visited w' = visited w ++ [event] →
      visit w w'.

(** ** Every announced path is visited once *)

Definition announced (event : Event) : list (list string) :=
  children (event_attr_path event) event.

Lemma visit_conserves w :
  (∀ path event, produces path event → event_attr_path event = path) →
  rtc visit walk_init w →
  pending w ++ (event_attr_path <$> visited w) ≡ₚ [] :: concat (announced <$> visited w).
Proof.
  intros Hpath. revert w. apply (rtc_ind_r (λ w, pending w ++ _ ≡ₚ [] :: concat _)); [done|].
  intros w1 w2 _ Hv IH.
  destruct Hv as [w1 path rest event w2 Hp He Hp' Hv'].
  rewrite Hv', !fmap_app, concat_app, Hp'. simpl. rewrite app_nil_r.
  rewrite Hp in IH. unfold announced at 2. rewrite (Hpath _ _ He).
  rewrite (app_comm_cons _ _ []), <-IH. solve_Permutation.
Qed.

(** ** The order of visits does not matter *)

Section deterministic.
Context (outcome : list string → Event).
Context (depth : nat).

(** The reference traversal: the path's event, then its children's in order. *)
Fixpoint traverse (fuel : nat) (path : list string) : list Event :=
  outcome path ::
  match fuel with
  | 0 => []
  | S fuel => concat (traverse fuel <$> children path (outcome path))
  end.

(** No attribute set lies at [depth] or below. *)
Definition depth_bounded : Prop :=
  ∀ path, depth ≤ length path → children path (outcome path) = [].

(** The traversal below a path, with the fuel its depth leaves. *)
Definition subtree (path : list string) : list Event := traverse (depth - length path) path.

Lemma child_length path event child :
  child ∈ children path event → length child = S (length path).
Proof.
  destruct event; simpl; [by intros ?%elem_of_nil| |by intros ?%elem_of_nil].
  intros (name & -> & _)%list_elem_of_fmap. rewrite length_app. simpl. lia.
Qed.

Lemma subtree_unfold path :
  depth_bounded →
  subtree path = outcome path :: concat (subtree <$> children path (outcome path)).
Proof.
  intros Hd. unfold subtree.
  destruct (depth - length path) as [|fuel] eqn:Hf; simpl.
  - by rewrite Hd by lia.
  - f_equal. f_equal. apply list_fmap_ext. intros i child Hc%list_elem_of_lookup_2.
    apply child_length in Hc. f_equal. lia.
Qed.

(** Fuel beyond the depth changes nothing. *)
Lemma traverse_fuel fuel path :
  depth_bounded → depth ≤ fuel + length path → traverse fuel path = subtree path.
Proof.
  intros Hd. revert path. induction fuel as [|fuel IH]; intros path Hf.
  - unfold subtree. by replace (depth - length path) with 0 by lia.
  - rewrite subtree_unfold by done. cbn [traverse]. f_equal. f_equal.
    apply list_fmap_ext. intros i child Hc%list_elem_of_lookup_2.
    apply child_length in Hc. apply IH. lia.
Qed.

(** A traversal stays within its bound. *)
Lemma traverse_length fuel path event :
  (∀ path, event_attr_path (outcome path) = path) →
  event ∈ traverse fuel path → length (event_attr_path event) ≤ fuel + length path.
Proof.
  intros Hpath. revert path. induction fuel as [|fuel IH]; intros path; cbn [traverse];
    intros [->|Hin]%elem_of_cons; try (rewrite Hpath; lia).
  - by apply elem_of_nil in Hin.
  - apply list_elem_of_In, in_concat in Hin as (l & Hl & Hin).
    apply list_elem_of_In in Hl, Hin. apply list_elem_of_fmap in Hl as (child & -> & Hc). apply child_length in Hc.
    apply IH in Hin. lia.
Qed.

Lemma visit_order_irrelevant w :
  depth_bounded → (∀ path event, produces path event → event = outcome path) →
  rtc visit walk_init w →
  visited w ++ concat (subtree <$> pending w) ≡ₚ subtree [].
Proof.
  intros Hd Hdet. revert w. apply (rtc_ind_r (λ w, visited w ++ _ ≡ₚ _)).
  { simpl. by rewrite app_nil_r. }
  intros w1 w2 _ Hv IH.
  destruct Hv as [w1 path rest event w2 Hp He Hp' Hv'].
  rewrite <-IH, Hv', Hp', Hp, fmap_app, concat_app. simpl.
  rewrite subtree_unfold, (Hdet _ _ He) by done. solve_Permutation.
Qed.
End deterministic.
End traversal.
