(* ===== verification/Fork.v ===== *)
(** * Forked workers

    [crates/evix/src/fork.rs]: the slots the first local worker inherits for the
    workers it forks, when it forks them, and what forbids it. Descriptors are
    their numbers; the system calls' answers are arguments. *)
From S2P Require Import Prelude.

Definition FORK_FDS_ENV : string := "EVIX_FORK_FDS".
Definition ITEMS_PER_FORK : N := 5.
(** In milliseconds. *)
Definition TIME_PER_FORK : N := 200.

Record ForkSlot := mkForkSlot { slot_socket : N; slot_stderr : N }.

(** [ForkSlot::env_value] *)
Definition env_value (slots : list ForkSlot) : string :=
  str_join "," ((λ slot, show_N (slot_socket slot) +:+ ":" +:+ show_N (slot_stderr slot)) <$> slots).

(** [i32::from_str], for descriptors: the negative ones name no open file, so
    [fcntl] refuses them. *)
Definition i32_max : N := 2 ^ 31 - 1.
Definition parse_raw_fd (s : string) : option (bool * N) :=
  match str_chars s with
  | c :: (_ :: _) as l =>
      if bool_decide (c = "-"%char) then
        n ← parse_digits 0 (drop 1 l); if (n <=? i32_max + 1)%N then Some (true, n) else None
      else n ← parse_usize s; if (n <=? i32_max)%N then Some (false, n) else None
  | _ => n ← parse_usize s; if (n <=? i32_max)%N then Some (false, n) else None
  end.

Section inherited.
(** [fcntl(fd, F_SETFD, FD_CLOEXEC)], and [Debug] of text. *)
Context (set_cloexec : N → Result unit).
Context (debug : string → string).

Definition inherited_fd (fd : string) : Result N :=
  parsed ← with_context ("parsing " +:+ FORK_FDS_ENV)
             (ok_or (report "invalid digit found in string") (parse_raw_fd fd));
  let '(negative, fd) := parsed in
  let mark := "marking fork slot " +:+ (if negative : bool then "-" else EmptyString)
              +:+ show_N fd +:+ " close-on-exec" in
  if negative && negb (fd =? 0)%N
  then Err (context mark (report "Bad file descriptor"))
  else _ ← with_context mark (set_cloexec fd); Ok fd.

Definition inherited_slot (slot : string) : Result ForkSlot :=
  fds ← with_context ("parsing " +:+ FORK_FDS_ENV +:+ " slot " +:+ debug slot)
          (ok_or (report "missing separator") (split_once ":" slot));
  socket ← inherited_fd fds.1;
  stderr ← inherited_fd fds.2;
  Ok (mkForkSlot socket stderr).

(** [inherited_slots]: the variable's bytes, if it is set *)
Definition inherited_slots (fds : option string) : Result (list ForkSlot) :=
  match fds with
  | None => Ok []
  | Some fds =>
      fds ← ok_or (report (FORK_FDS_ENV +:+ " is not UTF-8: " +:+ debug fds)) (to_str fds);
      collect_results inherited_slot (str_split "," fds)
  end.
End inherited.

(** ** The forker *)

Record Forker := mkForker {
  fk_slots : list ForkSlot;
  fk_forked : N;
  fk_children : list N;
  fk_max_memory_kb : N;
}.

Definition is_daemon_store (uri : Result string) : bool :=
  match uri with
  | Ok uri => str_eqb uri "daemon" || starts_with "unix://" uri
  | Err _ => false
  end.

(** [Forker::from_env] *)
Definition forker_from_env (slots : Result (list ForkSlot)) (uri : Result string)
    (max_memory_mb : N) : Result Forker :=
  slots ← slots;
  Ok (mkForker (if is_daemon_store uri then slots else []) 0 []
        (saturating_mul max_memory_mb 1024)).

(** [Forker::reap], where [running] says whether [waitpid] finds a child alive *)
Definition reap (running : N → bool) (f : Forker) : Forker :=
  mkForker (fk_slots f) (fk_forked f) (List.filter running (fk_children f)) (fk_max_memory_kb f).

(** What the system answers at one turn of [fork_due]: the time since the clock
    was started, the threads with their names, the targets of the open
    descriptors that end in [.sqlite], and the outcome of [fork]. *)
Inductive ForkOutcome : Type :=
  | ForkFailed
  | ForkedParent (pid : N)
  | ForkedChild.

Record ForkTurn := mkForkTurn {
  ft_elapsed : N;
  ft_threads : Result (list (Result (bool * Result string)));
  ft_fds : Result (list (Result bool));
  ft_fork : ForkOutcome;
}.

Definition is_due (elapsed completed forked : N) : bool :=
  let next := if (forked + 1 <=? u32_max)%N then (forked + 1)%N else u32_max in
  (saturating_mul ITEMS_PER_FORK (usize_add forked 1) <=? completed)%N
  || (TIME_PER_FORK * next <=? elapsed)%N.

(** A thread is main or has a name; [None] is harmless. *)
Fixpoint thread_hazard (threads : list (Result (bool * Result string))) : Result (option string) :=
  match threads with
  | [] => Ok None
  | thread :: threads =>
      '(is_main, comm) ← thread;
      if is_main : bool then thread_hazard threads
      else
        comm ← with_context "reading a thread name" comm;
        if starts_with "GC-marker-" comm then thread_hazard threads
        else Ok (Some "worker runs a thread other than libgc's markers")
  end.

Fixpoint sqlite_hazard (fds : list (Result bool)) : Result (option string) :=
  match fds with
  | [] => Ok None
  | fd :: fds =>
      is_sqlite ← fd;
      if is_sqlite : bool then Ok (Some "worker has a SQLite database open") else sqlite_hazard fds
  end.

Definition fork_hazard (f : Forker) (max_rss_kb : N) (t : ForkTurn) : Result (option string) :=
  if (fk_max_memory_kb f `div` 2 <? max_rss_kb)%N
  then Ok (Some "worker is past half its memory limit")
  else
    threads ← with_context "listing threads" (ft_threads t);
    hazard ← thread_hazard threads;
    match hazard with
    | Some hazard => Ok (Some hazard)
    | None => fds ← with_context "listing descriptors" (ft_fds t); sqlite_hazard fds
    end.

(** [Forker::fork_due]: the parent's forker and no slot, or the slot of the
    child that this process became. [turns] are the system's answers by the
    number of forks; [replaced] is [replace_daemon_connections] in the child. *)
Section fork_due.
Context (turns : N → ForkTurn) (replaced : Result unit).
Context (completed max_rss_kb max_memory_kb : N).

Fixpoint fork_loop (slots : list ForkSlot) (forked : N) (children : list N)
  : Forker * Result (option ForkSlot) :=
  let f := mkForker slots forked children max_memory_kb in
  match slots with
  | [] => (f, Ok None)
  | slot :: slots =>
      let turn := turns forked in
      if is_due (ft_elapsed turn) completed forked then
        match fork_hazard f max_rss_kb turn with
        | Err err => (f, Err err)
        | Ok (Some _) => (mkForker [] forked children max_memory_kb, Ok None)
        | Ok None =>
            let forked := usize_add forked 1 in
            match ft_fork turn with
            | ForkFailed => (mkForker slots forked children max_memory_kb, Ok None)
            | ForkedParent pid => fork_loop slots forked (children ++ [pid])
            | ForkedChild =>
                (mkForker [] forked [] max_memory_kb, _ ← replaced; Ok (Some slot))
            end
        end
      else (f, Ok None)
  end.
End fork_due.

Definition fork_due (turns : N → ForkTurn) (replaced : Result unit) (completed max_rss_kb : N)
    (f : Forker) : Forker * Result (option ForkSlot) :=
  fork_loop turns replaced completed max_rss_kb (fk_max_memory_kb f)
    (fk_slots f) (fk_forked f) (fk_children f).
