(* ===== verification/Connections.v ===== *)
(** * What a forked worker takes over

    [crates/evix/src/fork.rs]: the slots handed through the environment and the
    forks, the standard streams of the child, and the replacement of the daemon
    connections it inherited. *)
From S2P Require Import Prelude Paths Signals Fork.

(** ** Connections by descriptor *)

(** An open descriptor: the peer that [getpeername] names, with whether it is a
    Unix socket and the bytes of its address, and the connection behind it. *)
Record Socket := mkSocket {
  so_name : option (bool * string);
  so_connection : N;
}.
Abbreviation Sockets := (gmap N Socket).

Fixpoint until_nul (s : string) : string :=
  match s with
  | EmptyString => EmptyString
  | String c s => if decide (c = "000"%char) then EmptyString else String c (until_nul s)
  end.

Definition unix_path (s : Socket) : option string :=
  '(is_unix, sun_path) ← so_name s;
  if is_unix : bool then
    let path := until_nul sun_path in
    if str_is_empty path then None else Some path
  else None.

Definition unix_peer (fds : Sockets) (fd : N) : option string := fds !! fd ≫= unix_path.

Section connections.
(** The names in [/proc/self/fd], what opening a store and asking its version
    does, by how often that was done, and failures of [dup2]. *)
Context (read_dir : Sockets → Result (list (Result string))).
Context (open_store : nat → Sockets → Result Sockets) (version : nat → Sockets → Result Sockets).
Context (dup2_fails : N → N → option Report).

(** A name that is a number with a sign names no descriptor. *)
Definition named_fd (name : string) : option N :=
  '(negative, fd) ← to_str name ≫= parse_raw_fd;
  if negative && negb (fd =? 0)%N then None else Some fd.

Fixpoint peers_of (fds : Sockets) (entries : list (Result string)) : Result (list (N * string)) :=
  match entries with
  | [] => Ok []
  | Err err :: _ => Err err
  | Ok name :: entries =>
      peers ← peers_of fds entries;
      Ok (match fd ← named_fd name; path ← unix_peer fds fd; Some (fd, path) with
          | Some peer => peer :: peers
          | None => peers
          end)
  end.

Definition unix_peers (fds : Sockets) : Result (list (N * string)) :=
  entries ← with_context "listing descriptors" (read_dir fds);
  peers_of fds entries.

Definition fresh_peers (before after : list (N * string)) : list (N * string) :=
  filter (λ peer, Forall (λ old, old.1 ≠ peer.1) before) after.

(** One turn of the loop of [replace_daemon_connections]: the descriptors still
    to be replaced, or [None] when it returns. A store that is not forgotten is
    dropped, and its connection with it. *)
Definition replace_turn (n : nat) (pending : option (list N)) (fds : Sockets)
  : Result (Sockets * option (list N)) :=
  before ← unix_peers fds;
  fds ← with_context "opening a daemon connection" (open_store n fds);
  fds ← with_context "connecting to the Nix daemon" (version n fds);
  after ← unix_peers fds;
  match fresh_peers before after with
  | [(fresh_fd, peer)] =>
      let targets := default (fst <$> filter (λ old, old.2 = peer) before) pending in
      match last targets with
      | None => Ok (delete fresh_fd fds, None)
      | Some target =>
          match dup2_fails fresh_fd target with
          | Some err => Err (context "replacing an inherited daemon connection" err)
          | None =>
              Ok (match fds !! fresh_fd with
                  | Some socket => <[target := socket]> fds
                  | None => fds
                  end, Some (removelast targets))
          end
      end
  | fresh => Err (report ("expected one new daemon connection, found "
                          +:+ show_N (N.of_nat (length fresh))))
  end.

Fixpoint replace_loop (fuel n : nat) (pending : option (list N)) (fds : Sockets)
  : option (Result Sockets) :=
  match fuel with
  | 0 => None
  | S fuel =>
      match replace_turn n pending fds with
      | Err err => Some (Err err)
      | Ok (fds, None) => Some (Ok fds)
      | Ok (fds, Some targets) => replace_loop fuel (S n) (Some targets) fds
      end
  end.

(** A turn for each descriptor that may have to be replaced, and one more. *)
Definition replace_daemon_connections (fds : Sockets) : option (Result Sockets) :=
  let fuel := match unix_peers fds with Ok before => S (length before) | Err _ => 1 end in
  replace_loop fuel 0 None fds.
End connections.

(** ** Standard streams of a forked child *)

Section detach.
Context (os : Call → option Report).

(** The loop of [detach_stdio] over sources and targets. *)
Fixpoint detach_loop (moves : list (Z * Z)) (p : Process) : Process * Result unit :=
  match moves with
  | [] => (p, Ok tt)
  | (source, target) :: moves =>
      match with_context "redirecting worker stdio" (attempt os (CallDup2 target) tt) with
      | Err err => (p, Err err)
      | Ok _ => detach_loop moves (dup2 source target p)
      end
  end.

(** [detach_stdio]; it owns [stderr], and closes it and /dev/null at the end. *)
Definition detach_stdio (stderr : Z) (p : Process) : Process * Result unit :=
  match with_context "opening /dev/null" (attempt os CallOpenNull tt) with
  | Err err => (close_fd stderr p, Err err)
  | Ok _ =>
      let null := lowest_free 0 (ps_fds p) in
      let p := set_fd null (mkDescriptor DevNull true false) p in
      let '(p, r) := detach_loop [(null, STDIN_FILENO); (null, STDOUT_FILENO);
                                  (stderr, STDERR_FILENO)] p in
      (close_fd stderr (close_fd null p), r)
  end.

(** With the standard streams open, the child reads and writes nothing and its
    errors go to the slot. *)
Lemma detach_stdio_spec stderr d p p' :
  (2 < lowest_free 0 (ps_fds p))%Z → (2 < stderr)%Z → ps_fds p !! stderr = Some d →
  detach_stdio stderr p = (p', Ok tt) →
  ps_fds p' !! STDIN_FILENO = Some (mkDescriptor DevNull false false)
  ∧ ps_fds p' !! STDOUT_FILENO = Some (mkDescriptor DevNull false false)
  ∧ ps_fds p' !! STDERR_FILENO = Some (d <| de_cloexec := false |>)
  ∧ ps_fds p' !! stderr = None
  ∧ ∀ fd, (2 < fd)%Z → fd ≠ stderr → ps_fds p' !! fd = ps_fds p !! fd.
Proof.
  unfold detach_stdio. destruct (lowest_free_spec 0 (ps_fds p)) as [Hnone _]. revert Hnone.
  generalize (lowest_free 0 (ps_fds p)) as null. intros null Hnone Hnull Hstderr Hd.
  destruct (attempt_cases os CallOpenNull tt) as [-> | [err ->]]; cbn [with_context map_err]; [|done].
  cbv zeta. cbn [detach_loop].
  destruct (attempt_cases os (CallDup2 STDIN_FILENO) tt) as [-> | [err ->]]; cbn [with_context map_err]; [|done].
  destruct (attempt_cases os (CallDup2 STDOUT_FILENO) tt) as [-> | [err ->]]; cbn [with_context map_err]; [|done].
  destruct (attempt_cases os (CallDup2 STDERR_FILENO) tt) as [-> | [err ->]]; cbn [with_context map_err]; [|done].
  assert (null ≠ stderr) by congruence.
  unfold dup2, STDIN_FILENO, STDOUT_FILENO, STDERR_FILENO in *.
  repeat (simpl; first
    [ rewrite lookup_insert_eq | rewrite lookup_insert_ne by lia | rewrite Hd
    | rewrite decide_False by lia ]).
  intros [= <-]. simpl. split_and!.
  1-3: by rewrite !lookup_delete_ne, ?lookup_insert_eq, ?lookup_insert_ne, ?lookup_insert_eq by lia.
  - by rewrite lookup_delete_eq.
  - intros fd Hfd Hne. rewrite lookup_delete_ne by done.
    destruct (decide (fd = null)) as [->|]; [by rewrite lookup_delete_eq|].
    by rewrite lookup_delete_ne, !lookup_insert_ne by lia.
Qed.
End detach.

(** ** Lemmas: slots through the environment *)

Lemma parse_raw_fd_show n : (n ≤ i32_max)%N → parse_raw_fd (show_N n) = Some (false, n).
Proof.
  intros Hn. assert (n ≤ usize_max)%N as Hle by (unfold i32_max, usize_max, usize_modulus in *; lia).
  assert (str_contains "-" (show_N n) = false) as Hminus by by apply show_N_contains.
  unfold parse_raw_fd. rewrite (parse_usize_show n Hle). cbn [mbind option_bind].
  rewrite (proj2 (N.leb_le _ _) Hn).
  destruct (show_N n) as [|c [|d s]]; [done..|]. apply str_contains_cons in Hminus as [Hc _].
  cbn [str_chars]. by rewrite bool_decide_false.
Qed.

Definition slot_fds (slot : ForkSlot) : list N := [slot_socket slot; slot_stderr slot].

Lemma inherited_fd_show set_cloexec n :
  (n ≤ i32_max)%N → set_cloexec n = Ok tt → inherited_fd set_cloexec (show_N n) = Ok n.
Proof. intros Hn Hset. unfold inherited_fd. rewrite parse_raw_fd_show by done. cbn. by rewrite Hset. Qed.

Lemma inherited_slot_show set_cloexec debug slot :
  (∀ fd, fd ∈ slot_fds slot → (fd ≤ i32_max)%N ∧ set_cloexec fd = Ok tt) →
  inherited_slot set_cloexec debug
    (show_N (slot_socket slot) +:+ ":" +:+ show_N (slot_stderr slot)) = Ok slot.
Proof.
  intros Hfds. destruct (Hfds (slot_socket slot)) as [H1 H2]; [by left|].
  destruct (Hfds (slot_stderr slot)) as [H3 H4]; [right; by left|].
  unfold inherited_slot.
  assert (split_once ":" (show_N (slot_socket slot) +:+ ":" +:+ show_N (slot_stderr slot))
    = Some (show_N (slot_socket slot), show_N (slot_stderr slot))) as ->.
  { apply split_once_some. split; [done|by apply show_N_contains]. }
  cbn [ok_or with_context map_err mbind result_bind fst snd].
  rewrite !inherited_fd_show by done. by destruct slot.
Qed.

(** Text of ASCII characters is UTF-8. *)
Definition ascii_text (s : string) : Prop := ∀ c, c ∈ str_chars s → (N_of_ascii c <= 127)%N.

Lemma ascii_text_valid s : ascii_text s → utf8_valid s = true.
Proof.
  unfold ascii_text, utf8_valid. induction (str_chars s) as [|c l IH]; intros H; [done|].
  cbn [utf8_valid_bytes]. assert (between 0 127 c = true) as ->.
  { apply between_spec. split; [lia|]. apply H. by left. }
  apply IH. intros d Hd. apply H. by right.
Qed.

Lemma ascii_text_app s t : ascii_text s → ascii_text t → ascii_text (s +:+ t).
Proof. intros Hs Ht c. rewrite str_chars_app. intros [?|?]%elem_of_app; auto. Qed.

Lemma ascii_text_join sep l :
  ascii_text sep → Forall ascii_text l → ascii_text (str_join sep l).
Proof.
  intros Hsep. induction 1 as [|s l Hs Hl IH]; [by intros c ?%elem_of_nil|].
  destruct l as [|s' l]; [done|].
  change (str_join sep (s :: s' :: l)) with (s +:+ sep +:+ str_join sep (s' :: l)).
  by repeat apply ascii_text_app.
Qed.

Lemma show_N_ascii n : ascii_text (show_N n).
Proof.
  intros c Hc. destruct (digit_value c) as [d|] eqn:Hd.
  - unfold digit_value in Hd. destruct (between 48 57 c) eqn:Hb; [|done].
    apply between_spec in Hb. lia.
  - exfalso. pose proof (show_N_contains c n Hd) as Hnot. revert Hnot Hc.
    induction (show_N n) as [|x s IH]; simpl; [by intros _ ?%elem_of_nil|].
    case_decide; [done|]. intros Hnot [->|Hc]%elem_of_cons; [done|auto].
Qed.

Definition show_slot (slot : ForkSlot) : string :=
  show_N (slot_socket slot) +:+ ":" +:+ show_N (slot_stderr slot).

Lemma single_ascii c : (N_of_ascii c <= 127)%N → ascii_text (String c EmptyString).
Proof. intros Hc d [->|Hd]%elem_of_cons; [done|by apply elem_of_nil in Hd]. Qed.

Lemma env_value_ascii slots : ascii_text (env_value slots).
Proof.
  apply ascii_text_join; [by apply single_ascii|]. apply Forall_fmap, Forall_forall. intros slot _.
  apply ascii_text_app; [apply show_N_ascii|].
  apply ascii_text_app; [by apply single_ascii|apply show_N_ascii].
Qed.

Lemma env_value_split slots :
  slots ≠ [] → str_split "," (env_value slots) = show_slot <$> slots.
Proof.
  destruct slots as [|slot slots]; [done|]. intros _.
  change (env_value (slot :: slots))
    with (str_join (String "," EmptyString) (show_slot slot :: (show_slot <$> slots))).
  rewrite str_split_join; [done|].
  rewrite <-fmap_cons. apply Forall_fmap, Forall_forall. intros s _. unfold show_slot. simpl.
  by rewrite !str_contains_app, !show_N_contains.
Qed.

Lemma inherited_slots_env set_cloexec debug slots :
  slots ≠ [] →
  (∀ slot fd, slot ∈ slots → fd ∈ slot_fds slot → (fd ≤ i32_max)%N ∧ set_cloexec fd = Ok tt) →
  inherited_slots set_cloexec debug (Some (env_value slots)) = Ok slots.
Proof.
  intros Hne Hfds. unfold inherited_slots, to_str.
  rewrite ascii_text_valid by apply env_value_ascii. cbn [ok_or mbind result_bind].
  rewrite env_value_split by done. apply collect_results_ok, Forall2_fmap_l.
  apply Forall_Forall2_diag, Forall_forall. intros slot Hslot.
  apply inherited_slot_show. intros fd. by apply Hfds.
Qed.

(** ** Lemmas: handing the slots out *)

Section handing_out.
Context (turns : N → ForkTurn) (replaced : Result unit).
Context (completed max_rss_kb max_memory_kb : N).

(** The forks that gave this process a child, from a count on. *)
Definition parent_turns (forked : N) (n : nat) (pids : list N) : Prop :=
  length pids = n ∧ ∀ i pid, pids !! i = Some pid →
    ft_fork (turns (forked + N.of_nat i)%N) = ForkedParent pid.

Lemma fork_loop_spec slots forked children f r :
  (forked + N.of_nat (length slots) < usize_modulus)%N →
  fork_loop turns replaced completed max_rss_kb max_memory_kb slots forked children = (f, r) →
  ∃ n pids, parent_turns forked n pids
  ∧ match r with
    | Ok (Some slot) =>
        slots !! n = Some slot ∧ ft_fork (turns (forked + N.of_nat n)%N) = ForkedChild
        ∧ fk_slots f = [] ∧ fk_children f = [] ∧ replaced = Ok tt
    | Ok None =>
        fk_children f = children ++ pids
        ∧ (fk_slots f = drop n slots ∨ fk_slots f = []
           ∨ fk_slots f = drop (S n) slots ∧ ft_fork (turns (forked + N.of_nat n)%N) = ForkFailed)
    | Err _ => True
    end.
Proof.
  revert forked children. induction slots as [|slot slots IH]; intros forked children Hmax; cbn [fork_loop].
  { intros [= <- <-]. exists 0, []. split; [split; [done|by intros i pid]|].
    rewrite app_nil_r. simpl. auto. }
  simpl in Hmax. cbv zeta.
  assert (usize_add forked 1 = forked + 1)%N as Hadd
    by (unfold usize_add, usize_wrap; apply N.mod_small; lia).
  assert (parent_turns forked 0 []) as Hnone by (split; [done|by intros i pid]).
  destruct (is_due _ _ _).
  2:{ intros [= <- <-]. exists 0, []. rewrite app_nil_r. simpl. auto. }
  destruct (fork_hazard _ _ _) as [[hazard|]|err].
  { intros [= <- <-]. exists 0, []. rewrite app_nil_r. simpl. auto. }
  2:{ intros [= <- <-]. by exists 0, []. }
  destruct (ft_fork (turns forked)) as [|pid|] eqn:Hfork.
  - intros [= <- <-]. exists 0, []. rewrite app_nil_r, N.add_0_r. split; [done|].
    split; [done|]. right. right. by rewrite Hfork.
  - rewrite Hadd. intros Hloop. apply IH in Hloop as (n & pids & [Hlen Hpids] & Hr); [|lia].
    exists (S n), (pid :: pids). split.
    { split; [simpl; by rewrite Hlen|]. intros [|i] p Hp.
      - injection Hp as <-. by rewrite N.add_0_r.
      - apply Hpids in Hp. rewrite <-Hp. do 2 f_equal. lia. }
    replace (forked + N.of_nat (S n))%N with (forked + 1 + N.of_nat n)%N by lia.
    destruct r as [[s|]|err]; [done| |done]. destruct Hr as [Hc Hs].
    rewrite Hc, <-app_assoc. done.
  - intros [= <- <-]. destruct replaced as [[]|err]; simpl.
    + exists 0, []. rewrite N.add_0_r. done.
    + by exists 0, [].
Qed.
End handing_out.

(** ** Lemmas: replacing the connections *)

Section replacing.
Context (read_dir : Sockets → Result (list (Result string))).
Context (open_store : nat → Sockets → Result Sockets) (version : nat → Sockets → Result Sockets).
Context (dup2_fails : N → N → option Report).

Abbreviation unix_peers := (unix_peers read_dir).
Abbreviation replace_turn := (replace_turn read_dir open_store version dup2_fails).
Abbreviation replace_loop := (replace_loop read_dir open_store version dup2_fails).

Lemma peers_of_sound fds entries peers fd path :
  peers_of fds entries = Ok peers → (fd, path) ∈ peers → unix_peer fds fd = Some path.
Proof.
  revert peers. induction entries as [|[name|err] entries IH]; intros peers; cbn [peers_of]; [|
    |done].
  { intros [= <-]. by intros ?%elem_of_nil. }
  destruct (peers_of fds entries) as [rest|] eqn:Hrest; [|done]. cbn [mbind result_bind].
  intros [= <-]. destruct (named_fd name) as [n|]; cbn [mbind option_bind]; [|by apply IH].
  destruct (unix_peer fds n) as [p|] eqn:Hp; [|by apply IH].
  intros [[= -> ->]|Hin]%elem_of_cons; [done|by eapply IH].
Qed.

Lemma peers_of_complete fds entries peers fd name path :
  peers_of fds entries = Ok peers → Ok name ∈ entries → named_fd name = Some fd →
  unix_peer fds fd = Some path → (fd, path) ∈ peers.
Proof.
  intros Hpeers Hin Hname Hp. revert peers Hpeers.
  induction entries as [|[name'|err] entries IH]; intros peers; cbn [peers_of]; [by apply elem_of_nil in Hin| |done].
  destruct (peers_of fds entries) as [rest|] eqn:Hrest; [|done]. cbn [mbind result_bind].
  intros [= <-]. apply elem_of_cons in Hin as [[= ->]|Hin].
  - rewrite Hname. cbn [mbind option_bind]. rewrite Hp. by left.
  - specialize (IH Hin rest eq_refl). repeat case_match; [by right|done].
Qed.

Lemma named_fd_show fd : (fd ≤ i32_max)%N → named_fd (show_N fd) = Some fd.
Proof.
  intros Hfd. unfold named_fd, to_str. rewrite ascii_text_valid by apply show_N_ascii.
  cbn [mbind option_bind]. by rewrite parse_raw_fd_show.
Qed.

Lemma filter_length_le (before : list (N * string)) peer :
  length (fst <$> filter (λ old, old.2 = peer) before) ≤ length before.
Proof. rewrite length_fmap. apply length_filter. Qed.

(** What a turn that succeeds has done. *)
Lemma replace_turn_ok n pending fds fds' next :
  replace_turn n pending fds = Ok (fds', next) →
  ∃ before opened after fresh_fd peer,
    unix_peers fds = Ok before ∧ (open_store n fds ≫= version n) = Ok opened
    ∧ unix_peers opened = Ok after ∧ fresh_peers before after = [(fresh_fd, peer)]
    ∧ let targets := default (fst <$> filter (λ old, old.2 = peer) before) pending in
      (targets = [] ∧ next = None ∧ fds' = delete fresh_fd opened)
      ∨ ∃ rest target, targets = rest ++ [target] ∧ next = Some rest
          ∧ fds' = match opened !! fresh_fd with
                   | Some socket => <[target := socket]> opened
                   | None => opened
                   end.
Proof.
  unfold Connections.replace_turn.
  destruct (unix_peers fds) as [before|]; [|done]. cbn [mbind result_bind].
  destruct (open_store n fds) as [opened|]; [|done]. cbn [with_context map_err mbind result_bind].
  destruct (version n opened) as [opened'|] eqn:Hv; [|done]. cbn [with_context map_err mbind result_bind].
  destruct (unix_peers opened') as [after|] eqn:Ha; [|done]. cbn [mbind result_bind].
  destruct (fresh_peers before after) as [|[fresh_fd peer] [|? ?]] eqn:Hf; [done| |done].
  set (targets := default _ _). intros H. exists before, opened', after, fresh_fd, peer.
  split_and!; [done..|]. cbv zeta. fold targets.
  destruct (last targets) as [target|] eqn:Hl.
  - apply last_Some in Hl as [rest ->]. destruct (dup2_fails fresh_fd target); [done|].
    rewrite removelast_last in H. injection H as <- <-. right. by eexists _, _.
  - apply last_None in Hl. injection H as <- <-. by left.
Qed.

(** The loop ends: each turn but the last takes a descriptor off. *)
Lemma replace_loop_total fuel n targets fds :
  length targets < fuel → replace_loop fuel n (Some targets) fds ≠ None.
Proof.
  revert n targets fds. induction fuel as [|fuel IH]; intros n targets fds Hlen; [lia|].
  cbn [Connections.replace_loop].
  destruct (replace_turn n (Some targets) fds) as [[fds' [targets'|]]|err] eqn:Ht; [|done..].
  apply replace_turn_ok in Ht as (before & opened & after & fd & peer & _ & _ & _ & _ & Ht).
  destruct Ht as [(_ & ? & _)|(rest & target & Htargets & Hnext & _)]; [done|].
  simpl in Htargets. injection Hnext as ->. apply IH.
  rewrite Htargets, length_app in Hlen. simpl in Hlen. lia.
Qed.

Lemma replace_total fds :
  replace_daemon_connections read_dir open_store version dup2_fails fds ≠ None.
Proof.
  unfold replace_daemon_connections.
  destruct (unix_peers fds) as [before|err] eqn:Hb; cbn [Connections.replace_loop].
  - destruct (replace_turn 0 None fds) as [[fds' [targets|]]|err] eqn:Ht; [|done..].
    apply replace_loop_total.
    apply replace_turn_ok in Ht as (before' & opened & after & fd & peer & Hb' & _ & _ & _ & Ht).
    destruct Ht as [(_ & ? & _)|(rest & target & Htargets & Hnext & _)]; [done|].
    rewrite Hb in Hb'. injection Hb' as <-. injection Hnext as ->. simpl in Htargets.
    pose proof (filter_length_le before peer) as Hle. rewrite Htargets, length_app in Hle.
    simpl in Hle. lia.
  - unfold Connections.replace_turn. by rewrite Hb.
Qed.

(** What the surroundings promise. [/proc/self/fd] lists every open descriptor,
    and opening the store connects one new descriptor to the daemon, by a
    connection that is none of those this process shares with its parent. *)
Record NixDaemon (daemon : string) (inherited : gset N) : Prop := {
  nd_listed fds entries fd socket :
    read_dir fds = Ok entries → fds !! fd = Some socket →
    Ok (show_N fd) ∈ entries ∧ (fd ≤ i32_max)%N;
  nd_opens n fds opened :
    (open_store n fds ≫= version n) = Ok opened →
    ∃ fd socket, fds !! fd = None ∧ opened = <[fd := socket]> fds
      ∧ unix_path socket = Some daemon ∧ so_connection socket ∉ inherited;
}.

Section fresh.
Context (daemon : string) (inherited : gset N) (Hnix : NixDaemon daemon inherited).
Context (start : Sockets).

Lemma unix_peers_complete fds before fd path :
  unix_peers fds = Ok before → unix_peer fds fd = Some path → (fd, path) ∈ before.
Proof.
  unfold Connections.unix_peers. intros Hb Hp.
  destruct (read_dir fds) as [entries|] eqn:He; [|done]. cbn [with_context map_err mbind result_bind] in Hb.
  pose proof Hp as Hp'. unfold unix_peer in Hp'. apply bind_Some in Hp' as (socket & Hs & _).
  destruct (nd_listed _ _ Hnix fds entries fd socket He Hs) as [Hin Hle].
  eapply peers_of_complete; [done|done|by apply named_fd_show|done].
Qed.

Lemma unix_peers_sound fds before fd path :
  unix_peers fds = Ok before → (fd, path) ∈ before → unix_peer fds fd = Some path.
Proof.
  unfold Connections.unix_peers.
  destruct (read_dir fds) as [entries|]; [|done]. cbn [with_context map_err mbind result_bind].
  by apply peers_of_sound.
Qed.

(** The descriptor taken for the new one is the new one. *)
Lemma fresh_found fds fd socket before after fresh_fd peer :
  fds !! fd = None → unix_peers fds = Ok before → unix_peers (<[fd := socket]> fds) = Ok after →
  fresh_peers before after = [(fresh_fd, peer)] → fresh_fd = fd ∧ unix_path socket = Some peer.
Proof.
  intros Hfd Hb Ha Hf.
  assert ((fresh_fd, peer) ∈ fresh_peers before after) as Hin by (rewrite Hf; by left).
  apply list_elem_of_filter in Hin as [Hnew Hin]. simpl in Hnew. rewrite Forall_forall in Hnew.
  pose proof (unix_peers_sound _ _ _ _ Ha Hin) as Hp. unfold unix_peer in Hp.
  destruct (decide (fresh_fd = fd)) as [->|Hne].
  - by rewrite lookup_insert_eq in Hp.
  - rewrite lookup_insert_ne in Hp by done. pose proof (unix_peers_complete _ _ _ _ Hb Hp) as Hold.
    by apply Hnew in Hold.
Qed.

(** The descriptors of [start] that are still the parent's are among the
    targets, and the others are fresh or were never the daemon's. *)
Definition replacing_inv (targets : list N) (fds : Sockets) : Prop :=
  (∀ target, target ∈ targets → unix_peer start target = Some daemon)
  ∧ ∀ fd socket, start !! fd = Some socket →
      (unix_path socket ≠ Some daemon ∨ fd ∈ targets) ∧ fds !! fd = Some socket
      ∨ unix_path socket = Some daemon
        ∧ ∃ fresh, fds !! fd = Some fresh ∧ unix_path fresh = Some daemon
          ∧ so_connection fresh ∉ inherited.

Lemma replacing_opened targets fds fd socket :
  fds !! fd = None → replacing_inv targets fds → replacing_inv targets (<[fd := socket]> fds)
  ∧ start !! fd = None.
Proof.
  intros Hfd [Ht Hinv]. assert (start !! fd = None) as Hstart.
  { destruct (start !! fd) as [s|] eqn:Hs; [|done].
    destruct (Hinv _ _ Hs) as [[_ H]|(_ & f & H & _)]; congruence. }
  split; [|done]. split; [done|]. intros fd' s Hs.
  rewrite lookup_insert_ne by congruence. by apply Hinv.
Qed.

Lemma replacing_turn pending fds fds' next n :
  (∀ before, unix_peers fds = Ok before →
     replacing_inv (default (fst <$> filter (λ old, old.2 = daemon) before) pending) fds) →
  replace_turn n pending fds = Ok (fds', next) → replacing_inv (default [] next) fds'.
Proof.
  intros Hinv (before & opened & after & fresh_fd & peer & Hb & Ho & Ha & Hf & Hturn)%replace_turn_ok.
  destruct (nd_opens _ _ Hnix _ _ _ Ho) as (fd & socket & Hfd & -> & Hpath & Hconn).
  destruct (fresh_found _ _ _ _ _ _ _ Hfd Hb Ha Hf) as [-> Hpeer].
  rewrite Hpath in Hpeer. injection Hpeer as <-. specialize (Hinv before Hb). cbv zeta in Hturn.
  revert Hinv Hturn. generalize (default (fst <$> filter (λ old, old.2 = daemon) before) pending).
  intros targets Hinv Hturn.
  destruct (replacing_opened targets fds fd socket Hfd Hinv) as [[Ht Hinv'] Hstart].
  destruct Hturn as [(-> & -> & ->)|(rest & target & -> & -> & ->)].
  - split; [done|]. intros fd' s Hs. rewrite lookup_delete_ne by congruence. by apply Hinv'.
  - rewrite lookup_insert_eq. split.
    { intros t Hin. apply Ht, elem_of_app. by left. }
    intros fd' s Hs. destruct (decide (fd' = target)) as [->|Hne].
    + right. pose proof (Ht target) as Htarget. unfold unix_peer in Htarget. rewrite Hs in Htarget.
      split; [apply Htarget, elem_of_app; right; by left|].
      exists socket. by rewrite lookup_insert_eq.
    + rewrite lookup_insert_ne by done. destruct (Hinv' _ _ Hs) as [[Hor Hsame]|H]; [left|by right].
      split; [|done]. destruct Hor as [?|[?|[->|[]%elem_of_nil]%elem_of_cons]%elem_of_app]; auto; done.
Qed.

Lemma replacing_loop fuel n pending fds fds' :
  (∀ before, unix_peers fds = Ok before →
     replacing_inv (default (fst <$> filter (λ old, old.2 = daemon) before) pending) fds) →
  replace_loop fuel n pending fds = Some (Ok fds') → replacing_inv [] fds'.
Proof.
  revert n pending fds. induction fuel as [|fuel IH]; intros n pending fds Hinv; [done|].
  cbn [Connections.replace_loop].
  destruct (replace_turn n pending fds) as [[fds1 next]|err] eqn:Ht; [|done].
  apply replacing_turn in Ht; [|done]. destruct next as [rest|]; [by apply IH|].
  by intros [= <-].
Qed.

Lemma replacing_start before :
  unix_peers start = Ok before →
  replacing_inv (fst <$> filter (λ old, old.2 = daemon) before) start.
Proof.
  intros Hb. split.
  - intros target ([fd path] & -> & Hin)%list_elem_of_fmap.
    apply list_elem_of_filter in Hin as [Hpath Hin]. simpl in *. subst path.
    by apply (unix_peers_sound _ _ _ _ Hb).
  - intros fd socket Hs. left. split; [|done].
    destruct (decide (unix_path socket = Some daemon)) as [Hp|]; [right|by left].
    apply list_elem_of_fmap. exists (fd, daemon). split; [done|].
    apply list_elem_of_filter. split; [done|]. apply (unix_peers_complete _ _ _ _ Hb).
    unfold unix_peer. by rewrite Hs.
Qed.
End fresh.
End replacing.

(** ** Properties *)


Definition calm_turn (outcome : ForkOutcome) : ForkTurn := mkForkTurn 5000 (Ok []) (Ok []) outcome.
Definition two_slots : list ForkSlot := [mkForkSlot 10 11; mkForkSlot 12 13].

Lemma two_slots_open slot fd :
  slot ∈ two_slots → fd ∈ slot_fds slot →
  (fd ≤ i32_max)%N ∧ (λ _ : N, Ok (E := Report) tt) fd = Ok tt.
Proof.
  intros Hs Hfd. split; [|reflexivity]. apply N.leb_le.
  apply list_elem_of_In in Hs as [<-|[<-|[]]]; apply list_elem_of_In in Hfd as [<-|[<-|[]]]; reflexivity.
Qed.


(** C35 (forkfresh): a forked worker shares no daemon connection with its parent. The
    loop of [replace_daemon_connections] always ends; when it succeeds, every
    descriptor that was connected to the Nix daemon has a connection of its own
    to it, none of those in [inherited], the ones its parent holds, and every other
    descriptor is what it was. *)
Theorem forked_connections_fresh read_dir open_store version dup2_fails daemon inherited start :
  NixDaemon read_dir open_store version daemon inherited →
  ∃ r, replace_daemon_connections read_dir open_store version dup2_fails start = Some r
    ∧ ∀ fds, r = Ok fds → ∀ fd socket, start !! fd = Some socket →
        if decide (unix_path socket = Some daemon)
        then ∃ fresh, fds !! fd = Some fresh ∧ unix_path fresh = Some daemon
               ∧ so_connection fresh ∉ inherited
        else fds !! fd = Some socket.
Proof.
  intros Hnix.
  destruct (replace_daemon_connections _ _ _ _ start) as [r|] eqn:Hr;
    [|by apply replace_total in Hr].
  exists r. split; [done|]. intros fds -> fd socket Hs.
  unfold replace_daemon_connections in Hr.
  apply (replacing_loop _ _ _ _ _ _ Hnix start) in Hr as [_ Hinv];
    [|intros before; by eapply replacing_start].
  destruct (Hinv _ _ Hs) as [[[Hor|[]%elem_of_nil] Hsame]|[Hd Hfresh]].
  - by rewrite decide_False.
  - by rewrite decide_True.
Qed.

(** A process with two connections to the daemon and one to something else. *)
Definition daemon_socket (n : N) : Socket := mkSocket (Some (true, "/nix/socket")) n.
Definition forked_fds : Sockets :=
  <[4%N := daemon_socket 1]> (<[5%N := mkSocket None 2]> (<[7%N := daemon_socket 3]> ∅)).
Definition forked_inherited : gset N := {[1; 2; 3]}%N.

(** A system whose descriptors are listed as they are, and that connects the
    lowest descriptor that is larger than all in use. *)
Definition list_fds (fds : Sockets) : Result (list (Result string)) :=
  if forallb (λ kv : N * Socket, kv.1 <=? i32_max)%N (map_to_list fds)
  then Ok ((λ kv : N * Socket, Ok (show_N kv.1)) <$> map_to_list fds)
  else Err (report "too many open files").
Definition next_fd (fds : Sockets) : N := fresh (dom fds : gset N).
Definition connect_next (n : nat) (fds : Sockets) : Result Sockets :=
  Ok (<[next_fd fds := daemon_socket (100 + N.of_nat n)]> fds).

Lemma nix_daemon_example :
  NixDaemon list_fds connect_next (λ _, Ok) "/nix/socket" forked_inherited.
Proof.
  split.
  - intros fds entries fd socket Hl Hs%elem_of_map_to_list. unfold list_fds in Hl.
    destruct (forallb _ _) eqn:Hall; [|done]. injection Hl as <-. rewrite forallb_forall in Hall.
    split; [apply list_elem_of_fmap; by exists (fd, socket)|].
    apply list_elem_of_In in Hs. apply Hall, N.leb_le in Hs. done.
  - intros n fds opened [= <-]. exists (next_fd fds), (daemon_socket (100 + N.of_nat n)).
    split_and!; [|done|done|].
    + pose proof (is_fresh (dom fds : gset N)) as Hf. by apply not_elem_of_dom in Hf.
    + simpl. unfold forked_inherited. rewrite !not_elem_of_union, !not_elem_of_singleton. lia.
Qed.

Lemma forked_connections_fresh_witness :
  ∃ fds fresh, replace_daemon_connections list_fds connect_next (λ _, Ok) (λ _ _, None) forked_fds
      = Some (Ok fds)
    ∧ fds !! 7%N = Some fresh ∧ so_connection fresh ∉ forked_inherited.
Proof.
  destruct (forked_connections_fresh list_fds connect_next (λ _, Ok) (λ _ _, None) "/nix/socket"
    forked_inherited forked_fds nix_daemon_example) as (r & Hr & Hspec).
  destruct r as [fds|err]; [|vm_compute in Hr; discriminate].
  pose proof (Hspec fds eq_refl 7%N (daemon_socket 3) ltac:(vm_compute; reflexivity)) as Hfresh.
  rewrite decide_True in Hfresh by reflexivity. destruct Hfresh as (fresh & Hf & _ & Hconn).
  exists fds, fresh. split; [exact Hr|]. split; [exact Hf|exact Hconn].
Defined.
