(* ===== verification/WorkerProcess.v ===== *)
(** * The local worker's process

    [crates/evix/src/worker_process.rs] below the protocol: the status of a
    worker, the settings file it is started with, and the bounded tail of its
    standard error. The conversation with the process is in [Worker.v]. *)
From S2P Require Import Prelude Types Config Paths.

(** [WorkerStatus]: what a worker does after answering an item. *)
Inductive WorkerStatus : Type := Ready | Restart.

#[export] Instance worker_status_eq_dec : EqDecision WorkerStatus.
Proof. solve_decision. Defined.

Definition STDERR_TAIL_LIMIT : N := 64 * 1024.
Definition STDERR_LINE_LIMIT : N := 16 * 1024.

(** ** Nix options *)

Definition is_include (word : list N) : bool :=
  bool_decide (word = chars "include") || bool_decide (word = chars "!include").

Definition validate_nix_option_part (label part : string) : Result unit :=
  if str_contains newline part || str_contains carriage_return part
  then Err (report ("nix option " +:+ label +:+ " must not contain newlines"))
  else if is_include (first_word part)
  then Err (report ("nix option " +:+ label +:+ " must not start with include directives"))
  else Ok tt.

Definition validate_nix_option (option : string * string) : Result unit :=
  _ ← validate_nix_option_part "key" option.1; validate_nix_option_part "value" option.2.

(** The lines of the generated file. *)
Definition nix_option_line (option : string * string) : string :=
  option.1 +:+ " = " +:+ option.2.
Definition nix_options_contents (options : list (string * string)) : string :=
  foldl (λ contents option,
    contents +:+ nix_option_line option +:+ String newline EmptyString) EmptyString options.

Record NixOptionsFile := mkNixOptionsFile {
  no_path : string;
  no_contents : string;
  no_conf_files : string;
}.

(** [env::join_paths] and [env::split_paths] on Unix. *)
Definition join_paths (paths : list string) : Result string :=
  if existsb (str_contains ":") paths
  then Err (report "path segment contains separator `:`") else Ok (str_join ":" paths).

(** What the file needs from its environment: the variables, the existence of a
    file, the temporary path, and the write. *)
Record NixEnv := mkNixEnv {
  ne_user_conf_files : option string;
  ne_xdg_config_home : option string;
  ne_home : option string;
  ne_exists : string → bool;
  ne_temp_path : string;
  ne_write : Result unit;
}.

Definition default_nix_user_conf_file (e : NixEnv) : option string :=
  config_dir ← match ne_xdg_config_home e with
               | Some dir => Some dir
               | None => (λ home, path_join home ".config") <$> ne_home e
               end;
  let config_file := path_join config_dir "nix/nix.conf" in
  if ne_exists e config_file then Some config_file else None.

Definition nix_user_conf_files (e : NixEnv) (generated : string) : Result string :=
  let previous := match ne_user_conf_files e with
                  | Some value => if str_is_empty value then None else Some value
                  | None => None
                  end in
  let paths :=
    generated :: match previous with
                 | Some previous => str_split ":" previous
                 | None => option_list (default_nix_user_conf_file e)
                 end in
  with_context "joining NIX_USER_CONF_FILES" (join_paths paths).

Definition prepare_nix_options_env (e : NixEnv) (options : list (string * string))
  : Result (option NixOptionsFile) :=
  match options with
  | [] => Ok None
  | _ =>
      _ ← collect_results validate_nix_option options;
      _ ← with_context "writing Nix options file" (ne_write e);
      conf_files ← nix_user_conf_files e (ne_temp_path e);
      Ok (Some (mkNixOptionsFile (ne_temp_path e) (nix_options_contents options) conf_files))
  end.

(** ** Standard error *)

(** The state of [capture_stderr]: the tail, the current line with its
    truncation flag, and the lines logged so far. *)
Record Capture := mkCapture {
  cap_tail : list ascii;
  cap_line : list ascii;
  cap_truncated : bool;
  cap_logged : list (list ascii * bool);
}.
#[export] Instance eta_capture : EtaRecord Capture := λ c,
  mkCapture (cap_tail c) (cap_line c) (cap_truncated c) (cap_logged c).

Section capture.
(** The limits on the tail and on a line. *)
Context (tail_limit line_limit : N).

(** [push_tail]: a full queue loses its first byte. *)
Definition push_byte (tail : list ascii) (byte : ascii) : list ascii :=
  (if (N.of_nat (length tail) =? tail_limit)%N then drop 1 tail else tail) ++ [byte].
Definition push_tail (tail bytes : list ascii) : list ascii := foldl push_byte tail bytes.

(** One byte of the line being collected. *)
Definition line_byte (c : Capture) (byte : ascii) : Capture :=
  if decide (byte = newline)
  then mkCapture (cap_tail c) [] false (cap_logged c ++ [(cap_line c, cap_truncated c)])
  else if (N.of_nat (length (cap_line c)) <? line_limit)%N
  then c <| cap_line := cap_line c ++ [byte] |>
  else c <| cap_truncated := true |>.

Definition capture_chunk (c : Capture) (chunk : list ascii) : Capture :=
  foldl line_byte (c <| cap_tail := push_tail (cap_tail c) chunk |>) chunk.

(** [capture_stderr] over what its reads return: an empty one is the end. *)
Fixpoint capture_loop (c : Capture) (reads : list (Result (list ascii))) : Result Capture :=
  match reads with
  | [] => Ok c
  | Err err :: _ => Err err
  | Ok [] :: _ => Ok c
  | Ok chunk :: reads => capture_loop (capture_chunk c chunk) reads
  end.

Definition capture_init : Capture := mkCapture [] [] false [].

Definition capture_stderr (reads : list (Result (list ascii))) : Result Capture :=
  c ← capture_loop capture_init reads;
  Ok (if negb (bool_decide (cap_line c = [])) || cap_truncated c
      then c <| cap_logged := cap_logged c ++ [(cap_line c, cap_truncated c)] |> else c).
End capture.

(** ** Lemmas *)

(** The last [n] elements. *)
Definition last_n {A} (n : nat) (l : list A) : list A := drop (length l - n) l.

Lemma last_n_app {A} n (l k : list A) : last_n n (last_n n l ++ k) = last_n n (l ++ k).
Proof.
  unfold last_n. rewrite !length_app, length_drop.
  destruct (decide (length l ≤ n)).
  - by replace (length l - n) with 0 by lia; rewrite drop_0, Nat.sub_0_r.
  - replace (length l + length k - n) with (length l - n + length k) by lia.
    rewrite <-drop_drop, (drop_app_le l k (length l - n)) by lia. f_equal. lia.
Qed.

Lemma push_byte_last limit tail byte :
  (0 < limit)%N → (N.of_nat (length tail) ≤ limit)%N →
  push_byte limit tail byte = last_n (N.to_nat limit) (tail ++ [byte]).
Proof.
  intros Hlimit Htail. unfold push_byte, last_n. rewrite length_app. simpl.
  destruct (_ =? _)%N eqn:He; bool_simpl.
  - replace (length tail + 1 - N.to_nat limit) with 1 by lia.
    rewrite drop_app_le; [done|lia].
  - by replace (length tail + 1 - N.to_nat limit) with 0 by lia.
Qed.

Lemma last_n_length {A} n (l : list A) : length (last_n n l) ≤ n.
Proof. unfold last_n. rewrite length_drop. lia. Qed.

Lemma push_tail_last limit tail bytes :
  (0 < limit)%N → (N.of_nat (length tail) ≤ limit)%N →
  push_tail limit tail bytes = last_n (N.to_nat limit) (tail ++ bytes).
Proof.
  intros Hlimit. revert tail. induction bytes as [|b bytes IH]; intros tail Htail; simpl.
  - unfold last_n. rewrite app_nil_r. by replace (length tail - _) with 0 by lia.
  - rewrite push_byte_last by done. rewrite IH.
    + by rewrite last_n_app, <-(assoc_L (++)).
    + pose proof (last_n_length (N.to_nat limit) (tail ++ [b])). lia.
Qed.

(** Capturing the bytes one by one: the lines do not see the chunks. *)
Section capture_lemmas.
Context (tail_limit line_limit : N).

Abbreviation line_byte := (line_byte line_limit).
Abbreviation capture_chunk := (capture_chunk tail_limit line_limit).

(** The lines of a capture, without its tail. *)
Definition without_tail (c : Capture) : Capture := c <| cap_tail := [] |>.

Lemma line_byte_tail c byte : cap_tail (line_byte c byte) = cap_tail c.
Proof. unfold WorkerProcess.line_byte. by repeat case_match. Qed.

Lemma line_bytes_tail c bytes : cap_tail (foldl line_byte c bytes) = cap_tail c.
Proof.
  revert c. induction bytes as [|b bytes IH]; intros c; simpl; [done|].
  by rewrite IH, line_byte_tail.
Qed.

Lemma line_bytes_without c bytes :
  without_tail (foldl line_byte c bytes) = foldl line_byte (without_tail c) bytes.
Proof.
  revert c. induction bytes as [|b bytes IH]; intros c; simpl; [done|]. rewrite IH.
  f_equal. unfold WorkerProcess.line_byte, without_tail. simpl. by repeat (case_match || case_decide).
Qed.

Lemma capture_loop_ok reads c :
  (∀ r, r ∈ reads → r ≠ []) → (0 < tail_limit)%N →
  (N.of_nat (length (cap_tail c)) ≤ tail_limit)%N →
  ∃ c', capture_loop tail_limit line_limit c (Ok <$> reads) = Ok c'
    ∧ cap_tail c' = last_n (N.to_nat tail_limit) (cap_tail c ++ concat reads)
    ∧ without_tail c' = foldl line_byte (without_tail c) (concat reads).
Proof.
  intros Hne Hlimit. revert c. induction reads as [|r reads IH]; intros c Htail.
  { exists c. split; [done|]. simpl. rewrite app_nil_r. split; [|done]. unfold last_n.
    by replace (length (cap_tail c) - N.to_nat tail_limit) with 0 by lia. }
  assert (capture_loop tail_limit line_limit c (Ok <$> (r :: reads))
    = capture_loop tail_limit line_limit (capture_chunk c r) (Ok <$> reads)) as ->.
  { destruct r; [|done]. exfalso. apply (Hne []); [by left|done]. }
  assert (cap_tail (capture_chunk c r) = last_n (N.to_nat tail_limit) (cap_tail c ++ r)) as Ht.
  { unfold WorkerProcess.capture_chunk. rewrite line_bytes_tail. by apply push_tail_last. }
  destruct (IH (λ r' Hr', Hne r' (list_elem_of_further _ _ _ Hr')) (capture_chunk c r))
    as (c' & Hc & Htail' & Hlines).
  { rewrite Ht. pose proof (last_n_length (N.to_nat tail_limit) (cap_tail c ++ r)). lia. }
  exists c'. split; [done|]. split.
  - rewrite Htail', Ht, last_n_app. simpl. by rewrite (assoc_L (++)).
  - rewrite Hlines. simpl. rewrite foldl_app. f_equal.
    unfold WorkerProcess.capture_chunk. by rewrite line_bytes_without.
Qed.

(** The collected and the logged lines are within the limit. *)
Definition lines_bounded (c : Capture) : Prop :=
  (N.of_nat (length (cap_line c)) ≤ line_limit)%N
  ∧ ∀ line truncated, (line, truncated) ∈ cap_logged c → (N.of_nat (length line) ≤ line_limit)%N.

Lemma line_byte_bounded c byte : lines_bounded c → lines_bounded (line_byte c byte).
Proof.
  intros [Hl Hlog]. unfold WorkerProcess.line_byte. repeat case_match; split; simpl; try done; try lia.
  - intros line t [?|[= -> ->]%list_elem_of_singleton]%elem_of_app; [by eapply Hlog|done].
  - bool_simpl. rewrite length_app. simpl. lia.
Qed.

Lemma line_bytes_bounded c bytes : lines_bounded c → lines_bounded (foldl line_byte c bytes).
Proof.
  revert c. induction bytes as [|b bytes IH]; intros c H; [done|]. by apply IH, line_byte_bounded.
Qed.
End capture_lemmas.

(** What is kept of a worker's standard error is bounded and does not
    depend on how it arrives: over any split of the output into non-empty
    reads, the capture succeeds with the last [STDERR_TAIL_LIMIT] bytes of the
    whole output, the logged lines are those of the whole output taken byte by
    byte, and none is longer than [STDERR_LINE_LIMIT]. *)
Theorem capture_stderr_tail (reads : list (list ascii)) :
  (∀ r, r ∈ reads → r ≠ []) →
  ∃ c, capture_stderr STDERR_TAIL_LIMIT STDERR_LINE_LIMIT (Ok <$> reads) = Ok c
    ∧ cap_tail c = last_n (N.to_nat STDERR_TAIL_LIMIT) (concat reads)
    ∧ cap_logged c = cap_logged (default capture_init
        (ok (capture_stderr STDERR_TAIL_LIMIT STDERR_LINE_LIMIT
               (Ok <$> ((λ byte, [byte]) <$> concat reads)))))
    ∧ ∀ line truncated, (line, truncated) ∈ cap_logged c →
        (N.of_nat (length line) ≤ STDERR_LINE_LIMIT)%N.
Proof.
  intros Hne. unfold capture_stderr.
  destruct (capture_loop_ok STDERR_TAIL_LIMIT STDERR_LINE_LIMIT reads capture_init Hne)
    as (c & -> & Ht & Hl); [done|done|].
  destruct (capture_loop_ok STDERR_TAIL_LIMIT STDERR_LINE_LIMIT ((λ byte, [byte]) <$> concat reads)
    capture_init) as (c1 & -> & _ & Hl1); [|done|done|].
  { intros r (b & -> & _)%list_elem_of_fmap. done. }
  assert (concat ((λ byte : ascii, [byte]) <$> concat reads) = concat reads) as Hconcat.
  { generalize (concat reads) as l. induction l as [|b l IH]; [done|]. simpl. by f_equal. }
  rewrite Hconcat, <-Hl in Hl1.
  assert (cap_line c1 = cap_line c ∧ cap_truncated c1 = cap_truncated c
    ∧ cap_logged c1 = cap_logged c) as (E1 & E2 & E3).
  { unfold without_tail in Hl1. by destruct c, c1; simplify_eq/=. }
  assert (lines_bounded STDERR_LINE_LIMIT (without_tail c)) as [Hb1 Hb2].
  { rewrite Hl. apply line_bytes_bounded. split; [done|]. intros ? ? ?%elem_of_nil. done. }
  simpl. rewrite E1, E2. eexists. split; [done|]. case_match; simpl; rewrite ?E3.
  - split_and!; [done|done|].
    intros line t [?|[= -> ->]%list_elem_of_singleton]%elem_of_app; [by eapply Hb2|done].
  - split_and!; [done|done|done].
Qed.

Lemma capture_stderr_tail_witness :
  ∃ c, capture_stderr STDERR_TAIL_LIMIT STDERR_LINE_LIMIT
         (Ok <$> [str_chars "err"; str_chars ("or" +:+ String newline "x")]) = Ok c
    ∧ cap_tail c = str_chars ("error" +:+ String newline "x").
Proof.
  destruct (capture_stderr_tail [str_chars "err"; str_chars ("or" +:+ String newline "x")])
    as (c & Hc & Ht & _).
  { intros r Hr. repeat (apply elem_of_cons in Hr as [->|Hr]; [discriminate|]).
    by apply elem_of_nil in Hr. }
  exists c. split; [exact Hc|]. rewrite Ht. unfold last_n.
  replace (_ - _) with 0; [reflexivity|].
  symmetry. apply Nat.sub_0_le. set (bytes := concat _).
  enough (N.of_nat (length bytes) ≤ STDERR_TAIL_LIMIT)%N by lia.
  apply N.leb_le. vm_compute. reflexivity.
Defined.

(** ** The settings file *)

Lemma skip_whitespace_app l k :
  skip_whitespace (l ++ k)
  = match skip_whitespace l with [] => skip_whitespace k | l' => l' ++ k end.
Proof. induction l as [|c l IH]; simpl; [done|]. by destruct (is_whitespace c). Qed.

Lemma take_word_app l c k :
  is_whitespace c = true → take_word (l ++ c :: k) = take_word l.
Proof.
  intros Hc. induction l as [|d l IH]; simpl; [by rewrite Hc|].
  by destruct (is_whitespace d); f_equal.
Qed.

(** The first word of a line is the key's, or the equals sign after a blank key. *)
Lemma option_line_first_word k v :
  utf8_valid k = true →
  first_word (nix_option_line (k, v)) = first_word k
  ∨ first_word (nix_option_line (k, v)) = chars "=".
Proof.
  intros Hk. unfold first_word, nix_option_line. cbn [fst snd]. rewrite chars_app by done.
  change (chars (" = " +:+ v)) with (32 :: 61 :: 32 :: chars v)%N.
  rewrite skip_whitespace_app. destruct (skip_whitespace (chars k)) as [|c l] eqn:Hs.
  - right. reflexivity.
  - left. by apply take_word_app.
Qed.

(** One more line after text that ends a line. *)
Lemma str_split_snoc s lines line :
  str_split newline s = lines ++ [EmptyString] → str_contains newline line = false →
  str_split newline (s +:+ (line +:+ String newline EmptyString))
  = (lines ++ [line]) ++ [EmptyString].
Proof.
  intros Hs Hline. revert lines Hs. induction s as [|c s IH]; intros lines Hs.
  - destruct lines as [|? [|]]; simplify_eq.
    change (str_split newline (line +:+ String newline EmptyString) = [line; EmptyString]).
    by rewrite str_split_app, (str_split_no _ line).
  - simpl in Hs |- *. fold (String.append s (line +:+ String newline EmptyString)).
    destruct (decide (c = newline)).
    + destruct lines as [|l lines]; simpl in Hs; simplify_eq.
      { by apply str_split_nonempty in Hs. }
      by rewrite (IH lines).
    + destruct (str_split newline s) as [|p ps] eqn:Hp; [by apply str_split_nonempty in Hp|].
      destruct lines as [|l lines]; simpl in Hs; [by injection Hs|].
      injection Hs as <- ->. by rewrite (IH (p :: lines)).
Qed.

Lemma options_contents_split options :
  Forall (λ o, str_contains newline (nix_option_line o) = false) options →
  str_split newline (nix_options_contents options) = (nix_option_line <$> options) ++ [EmptyString].
Proof.
  unfold nix_options_contents. induction options as [|o options IH] using rev_ind; intros Hall; [done|].
  apply Forall_app in Hall as [Hall Ho]. apply Forall_inv in Ho.
  rewrite foldl_app, fmap_app. cbn [foldl fmap list_fmap].
  apply str_split_snoc; [by apply IH|done].
Qed.

Lemma validate_option_part_ok label part :
  validate_nix_option_part label part = Ok tt →
  str_contains newline part = false ∧ is_include (first_word part) = false.
Proof.
  unfold validate_nix_option_part. repeat case_match; try done. intros _.
  by rewrite orb_false_iff in *; naive_solver.
Qed.

(** The settings file holds the options and nothing else. When it is
    prepared, every option is one line of the file, in order; no line begins
    with an include directive, so no option smuggles another file in; and the
    generated file comes first in the search path of the worker. *)
Theorem nix_options_file_lines e options f :
  (∀ k v, (k, v) ∈ options → utf8_valid k = true) →
  prepare_nix_options_env e options = Ok (Some f) →
  str_split newline (no_contents f) = (nix_option_line <$> options) ++ [EmptyString]
  ∧ (∀ line, line ∈ str_split newline (no_contents f) → is_include (first_word line) = false)
  ∧ (∃ rest, str_split ":" (no_conf_files f) = no_path f :: rest).
Proof.
  intros Hutf8 H. destruct options as [|o options]; [done|]. unfold prepare_nix_options_env in H.
  apply bind_ok in H as (us & Hvalid & H). apply bind_ok in H as (_ & _ & H).
  apply bind_ok in H as (conf & Hconf & [= <-]). cbn [no_contents no_conf_files no_path].
  remember (o :: options) as all eqn:Hall. clear Hall o options.
  assert (∀ k v, (k, v) ∈ all → str_contains newline k = false ∧ str_contains newline v = false
    ∧ is_include (first_word k) = false) as Hok.
  { intros k v Hin. apply collect_results_ok in Hvalid.
    apply list_elem_of_lookup in Hin as [i Hi].
    destruct (Forall2_lookup_l _ _ _ _ _ Hvalid Hi) as ([] & _ & Hv).
    unfold validate_nix_option in Hv. apply bind_unit_ok in Hv as [Hk Hv].
    apply validate_option_part_ok in Hk as [? ?], Hv as [? _]. done. }
  assert (str_split newline (nix_options_contents all)
    = (nix_option_line <$> all) ++ [EmptyString]) as Hsplit.
  { apply options_contents_split, Forall_forall. intros [k v] Hkv.
    destruct (Hok k v Hkv) as (Hk & Hv & _). unfold nix_option_line. cbn [fst snd].
    by rewrite !str_contains_app, Hk, Hv. }
  split; [done|]. rewrite Hsplit. split.
  - intros line [([k v] & -> & Hkv)%list_elem_of_fmap|Hin]%elem_of_app.
    + destruct (option_line_first_word k v (Hutf8 k v Hkv)) as [->| ->]; [by eapply Hok|done].
    + by apply list_elem_of_singleton in Hin as ->.
  - unfold nix_user_conf_files, join_paths in Hconf. apply with_context_ok in Hconf.
    match type of Hconf with (if existsb _ ?paths then _ else _) = _ =>
      destruct (existsb (str_contains ":") paths) eqn:Hcolon; [done|] end.
    injection Hconf as <-. eexists. apply str_split_join.
    apply Forall_forall. intros p Hp. apply not_true_iff_false. intros Hc.
    apply not_true_iff_false in Hcolon. apply Hcolon, existsb_elem_of. eauto.
Qed.

Definition plain_nix_env : NixEnv :=
  mkNixEnv None None (Some "/home/u") (λ _, true) "/tmp/evix.conf" (Ok tt).

Lemma nix_options_file_lines_witness :
  ∃ rest, str_split ":" "/tmp/evix.conf:/home/u/.config/nix/nix.conf" = "/tmp/evix.conf" :: rest.
Proof.
  apply (nix_options_file_lines plain_nix_env [("cores", "4")]
    (mkNixOptionsFile "/tmp/evix.conf" (nix_options_contents [("cores", "4")])
       "/tmp/evix.conf:/home/u/.config/nix/nix.conf")).
  - intros k v Hkv. apply list_elem_of_singleton in Hkv as [= -> ->]. reflexivity.
  - vm_compute. reflexivity.
Defined.
