(* ===== verification/RemoteProto.v ===== *)
(** * The worker protocol

    [crates/evix/src/remote_proto.rs] over [crates/evix/schema/worker.capnp]:
    the messages between a master and its workers, and the schema's messages
    they are written to and read from. The bytes of a message belong to the
    Cap'n Proto library: a schema message with its unions in the schema is what
    a builder holds and what a reader gives. *)
From S2P Require Import Prelude Types Config WorkerProcess.

Definition WORKER_PROTOCOL_VERSION : N := 1.

(** ** Messages of the program *)

Inductive ClientMessage : Type :=
  | Setup (config : WorkerConfig) (token expected_store_dir : option string)
  | Work (path : list string)
  | Shutdown.

Inductive ServerMessage : Type :=
  | SrvReady
  | SrvEvent (event : Event)
  | SrvStatus (status : WorkerStatus)
  | SrvError (message : string).

(** ** Messages of the schema: a text is bytes, a list is a list *)

Inductive InputMsg : Type := InFlake (text : string) | InExpr (text : string) | InFile (text : string).
Inductive ArgMsg : Type := InArgExpr (text : string) | InArgStr (text : string).

Record WorkerConfigMsg := mkWorkerConfigMsg {
  wm_input : InputMsg;
  wm_auto_args : list (string * ArgMsg);
  wm_force_recurse : bool;
  wm_gc_roots_dir : option string;
  wm_max_memory_size : N;
  wm_meta : bool;
  wm_show_input_drvs : bool;
  wm_override_inputs : list (string * string);
  wm_nix_options : list (string * string);
  wm_item_timeout_seconds : N;
  wm_locked_flake_json : option string;
}.

Inductive ClientMsg : Type :=
  | MSetup (config : WorkerConfigMsg) (token expected_store_dir : option string)
      (protocol_version : N)
  | MWork (attr_path : list string)
  | MShutdown.

Record DerivationMsg := mkDerivationMsg {
  dm_attr : string;
  dm_attr_path : list string;
  dm_name : string;
  dm_system : string;
  dm_drv_path : string;
  dm_outputs : list (string * option string);
  dm_meta_json : option string;
  dm_input_drvs : list (string * string);
  dm_constituents : option (list string);
  dm_gc_root_error : option string;
}.

Record EvalErrorMsg := mkEvalErrorMsg {
  em_attr : string;
  em_attr_path : list string;
  em_error : string;
  em_fatal : bool;
}.

Inductive EventMsg : Type :=
  | MDerivation (d : DerivationMsg)
  | MAttrSet (attr : string) (attr_path attrs : list string)
  | MEvalError (e : EvalErrorMsg).

Inductive ServerMsg : Type :=
  | MReady
  | MEvent (event : EventMsg)
  | MStatus (status : WorkerStatus)
  | MError (text : string).

(** ** Reading and writing parts *)

(** A text reader's [to_string] and [to_str] check the encoding. *)
Definition read_text (text : string) : Result string :=
  if utf8_valid text then Ok text else Err (report "invalid utf-8 sequence").

Definition read_text_opt (text : option string) : Result (option string) :=
  match text with None => Ok None | Some text => Some <$> read_text text end.

(** [list_len] with [list_index], whose indices are below the length *)
Definition list_len (len : nat) (field : string) : Result unit :=
  match u32_try_from (N.of_nat len) with
  | Some _ => Ok tt
  | None => Err (context (field +:+ " length exceeds Cap'n Proto list limit")
                         (report "out of range integral type conversion attempted"))
  end.

Definition set_list {A B} (field : string) (f : A → Result B) (l : list A) : Result (list B) :=
  _ ← list_len (length l) field; collect_results f l.

Definition set_text_list (field : string) (values : list string) : Result (list string) :=
  set_list field Ok values.
Definition read_text_list (texts : list string) : Result (list string) :=
  collect_results read_text texts.

Definition set_pairs (field : string) (pairs : list (string * string))
  : Result (list (string * string)) := set_list field Ok pairs.
Definition read_pair (pair : string * string) : Result (string * string) :=
  key ← read_text pair.1; value ← read_text pair.2; Ok (key, value).
Definition read_pairs (pairs : list (string * string)) : Result (list (string * string)) :=
  collect_results read_pair pairs.

Section protocol.
(** [Debug] of a path that is not UTF-8, and [serde_json] on metadata and lists
    of strings. *)
Context (debug_path : string → string).
Context (json_to_string : Json → Result string) (json_from_str : string → Result Json).
Context (strings_to_string : list string → Result string).
Context (strings_from_str : string → Result (list string)).

Definition path_text (what path : string) : Result string :=
  ok_or (report (what +:+ " " +:+ debug_path path +:+ " is not valid UTF-8")) (to_str path).

(** ** Worker configurations *)

Definition set_input (input : Input) : Result InputMsg :=
  match input with
  | Flake value => Ok (InFlake value)
  | Expr value => Ok (InExpr value)
  | File path => InFile <$> path_text "input file" path
  end.
Definition read_input (input : InputMsg) : Result Input :=
  match input with
  | InFlake value => Flake <$> read_text value
  | InExpr value => Expr <$> read_text value
  | InFile value => File <$> read_text value
  end.

Definition set_auto_arg (arg : string * AutoArg) : Result (string * ArgMsg) :=
  Ok (arg.1, match arg.2 with ArgExpr expr => InArgExpr expr | ArgStr value => InArgStr value end).
Definition read_auto_arg (item : string * ArgMsg) : Result (string * AutoArg) :=
  name ← read_text item.1;
  value ← match item.2 with
          | InArgExpr expr => ArgExpr <$> read_text expr
          | InArgStr value => ArgStr <$> read_text value
          end;
  Ok (name, value).
Definition read_auto_args (items : list (string * ArgMsg)) : Result (list (string * AutoArg)) :=
  collect_results read_auto_arg items.

Definition set_worker_config (c : WorkerConfig) : Result WorkerConfigMsg :=
  input ← set_input (wc_input c);
  auto_args ← set_list "auto args" set_auto_arg (wc_auto_args c);
  gc_roots_dir ← match wc_gc_roots_dir c with
                 | None => Ok None
                 | Some path => Some <$> path_text "gc roots directory" path
                 end;
  override_inputs ← set_pairs "override inputs" (wc_override_inputs c);
  nix_options ← set_pairs "nix options" (wc_nix_options c);
  Ok (mkWorkerConfigMsg input auto_args (wc_force_recurse c) gc_roots_dir
        (wc_max_memory_size c) (wc_meta c) (wc_show_input_drvs c) override_inputs nix_options
        (wc_item_timeout_seconds c) (wc_locked_flake_json c)).

Definition read_item_timeout_seconds (m : WorkerConfigMsg) : N :=
  if (wm_item_timeout_seconds m =? 0)%N then DEFAULT_ITEM_TIMEOUT_SECONDS
  else wm_item_timeout_seconds m.

Definition read_worker_config (m : WorkerConfigMsg) : Result WorkerConfig :=
  input ← read_input (wm_input m);
  auto_args ← read_auto_args (wm_auto_args m);
  gc_roots_dir ← read_text_opt (wm_gc_roots_dir m);
  override_inputs ← read_pairs (wm_override_inputs m);
  nix_options ← read_pairs (wm_nix_options m);
  locked_flake_json ← read_text_opt (wm_locked_flake_json m);
  Ok (mkWorkerConfig input auto_args (wm_force_recurse m) gc_roots_dir (wm_max_memory_size m)
        (read_item_timeout_seconds m) (wm_meta m) (wm_show_input_drvs m) override_inputs
        nix_options locked_flake_json).

(** ** Client messages *)

(** What [write_client] writes *)
Definition encode_client (message : ClientMessage) : Result ClientMsg :=
  match message with
  | Setup config token expected_store_dir =>
      config ← set_worker_config config;
      Ok (MSetup config token expected_store_dir WORKER_PROTOCOL_VERSION)
  | Work path => MWork <$> set_text_list "work attr path" path
  | Shutdown => Ok MShutdown
  end.

Definition validate_worker_protocol (actual : N) : Result unit :=
  if (actual =? WORKER_PROTOCOL_VERSION)%N then Ok tt
  else Err (report ("unsupported worker protocol version " +:+ show_N actual
                    +:+ "; expected " +:+ show_N WORKER_PROTOCOL_VERSION)).

Definition decode_client (message : ClientMsg) : Result ClientMessage :=
  match message with
  | MSetup config token expected_store_dir protocol_version =>
      _ ← validate_worker_protocol protocol_version;
      config ← read_worker_config config;
      token ← read_text_opt token;
      expected_store_dir ← read_text_opt expected_store_dir;
      Ok (Setup config token expected_store_dir)
  | MWork attr_path => Work <$> read_text_list attr_path
  | MShutdown => Ok Shutdown
  end.

(** ** Server messages *)

Definition set_output (output : string * option string) : Result (string * option string) :=
  Ok output.
Definition read_output (output : string * option string) : Result (string * option string) :=
  value ← read_text_opt output.2; name ← read_text output.1; Ok (name, value).

Definition set_input_drv (input_drv : string * list string) : Result (string * string) :=
  json ← strings_to_string input_drv.2; Ok (input_drv.1, json).
Definition read_input_drv (input_drv : string * string) : Result (string * list string) :=
  drv_path ← read_text input_drv.1;
  value_json ← read_text input_drv.2;
  outputs ← with_context "parsing inputDrv outputs" (strings_from_str value_json);
  Ok (drv_path, outputs).

(** [Option::map(f).transpose()] *)
Definition transpose {A B} (f : A → Result B) (o : option A) : Result (option B) :=
  match o with None => Ok None | Some a => Some <$> f a end.

Definition set_derivation (d : Derivation) : Result DerivationMsg :=
  attr_path ← set_text_list "derivation attr path" (d_attr_path d);
  outputs ← set_list "derivation outputs" set_output (btree_iter (d_outputs d));
  meta_json ← transpose json_to_string (d_meta d);
  input_drvs ← set_list "input drvs" set_input_drv (btree_iter (d_input_drvs d));
  constituents ← transpose (set_text_list "constituents") (d_constituents d);
  Ok (mkDerivationMsg (d_attr d) attr_path (d_name d) (d_system d) (d_drv_path d) outputs
        meta_json input_drvs constituents (d_gc_root_error d)).

Definition read_derivation (m : DerivationMsg) : Result Derivation :=
  outputs ← collect_results read_output (dm_outputs m);
  input_drvs ← collect_results read_input_drv (dm_input_drvs m);
  attr ← read_text (dm_attr m);
  attr_path ← read_text_list (dm_attr_path m);
  name ← read_text (dm_name m);
  system ← read_text (dm_system m);
  drv_path ← read_text (dm_drv_path m);
  meta_json ← read_text_opt (dm_meta_json m);
  meta ← with_context "parsing meta JSON value" (transpose json_from_str meta_json);
  constituents ← transpose read_text_list (dm_constituents m);
  gc_root_error ← read_text_opt (dm_gc_root_error m);
  Ok (mkDerivation attr attr_path name system drv_path (collect_map outputs) meta
        (collect_map input_drvs) constituents gc_root_error).

Definition set_eval_error (e : EvalError) : Result EvalErrorMsg :=
  attr_path ← set_text_list "error attr path" (e_attr_path e);
  Ok (mkEvalErrorMsg (e_attr e) attr_path (e_error e) (e_fatal e)).
Definition read_eval_error (m : EvalErrorMsg) : Result EvalError :=
  attr ← read_text (em_attr m);
  attr_path ← read_text_list (em_attr_path m);
  error ← read_text (em_error m);
  Ok (mkEvalError attr attr_path error (em_fatal m)).

Definition set_event (event : Event) : Result EventMsg :=
  match event with
  | EvDerivation d => MDerivation <$> set_derivation d
  | EvAttrSet attr attr_path attrs =>
      attr_path ← set_text_list "attr path" attr_path;
      attrs ← set_text_list "attr set children" attrs;
      Ok (MAttrSet attr attr_path attrs)
  | EvError e => MEvalError <$> set_eval_error e
  end.
Definition read_event (event : EventMsg) : Result Event :=
  match event with
  | MDerivation d => EvDerivation <$> read_derivation d
  | MAttrSet attr attr_path attrs =>
      attr ← read_text attr;
      attr_path ← read_text_list attr_path;
      attrs ← read_text_list attrs;
      Ok (EvAttrSet attr attr_path attrs)
  | MEvalError e => EvError <$> read_eval_error e
  end.

Definition encode_server (message : ServerMessage) : Result ServerMsg :=
  match message with
  | SrvReady => Ok MReady
  | SrvEvent event => MEvent <$> set_event event
  | SrvStatus status => Ok (MStatus status)
  | SrvError error => Ok (MError error)
  end.

(** What [read_server] and [read_local_server] make of a message *)
Definition decode_server (message : ServerMsg) : Result ServerMessage :=
  match message with
  | MReady => Ok SrvReady
  | MEvent event => SrvEvent <$> read_event event
  | MStatus status => Ok (SrvStatus status)
  | MError error => SrvError <$> read_text error
  end.

(** [expect_ready]; [debug] prints a message. *)
Definition expect_ready (debug : ServerMessage → string) (message : ServerMessage)
    (label : string) : Result unit :=
  match message with
  | SrvReady => Ok tt
  | SrvError error => Err (report ("remote worker " +:+ label +:+ " failed: " +:+ error))
  | other => Err (report ("remote worker " +:+ label +:+ " sent unexpected handshake: "
                          +:+ debug other))
  end.
End protocol.

(** ** Round trips *)

(** Writing a value succeeds, and reading what was written gives it back. *)
Definition round_trips {A B C} (set : A → Result B) (read : B → Result C) (a : A) (c : C) : Prop :=
  ∃ b, set a = Ok b ∧ read b = Ok c.

(** What a schema list can hold. *)
Definition fits {A} (l : list A) : Prop := (N.of_nat (length l) ≤ u32_max)%N.

(** The strings of the program are UTF-8; so are the paths it can send. *)
Definition text_wf (s : string) : Prop := utf8_valid s = true.
Definition texts_wf (l : list string) : Prop := fits l ∧ Forall text_wf l.
Definition text_opt_wf (o : option string) : Prop := ∀ s, o = Some s → text_wf s.
Definition pairs_wf (l : list (string * string)) : Prop :=
  fits l ∧ Forall (λ p, text_wf p.1 ∧ text_wf p.2) l.

Lemma read_text_ok s : text_wf s → read_text s = Ok s.
Proof. unfold read_text. by intros ->. Qed.

Lemma read_text_opt_ok o : text_opt_wf o → read_text_opt o = Ok o.
Proof. destruct o as [s|]; [|done]. intros H. simpl. by rewrite read_text_ok by auto. Qed.

Lemma set_list_round_trips {A B C} field (set : A → Result B) (read : B → Result C) l l' :
  fits l → Forall2 (round_trips set read) l l' →
  round_trips (set_list field set) (collect_results read) l l'.
Proof.
  intros Hfits Hl. unfold round_trips, set_list, list_len, u32_try_from.
  rewrite (proj2 (N.leb_le _ _) Hfits). cbn [mbind result_bind].
  clear Hfits. induction Hl as [|a c l l' (b & Hset & Hread) _ (bs & Hsets & Hreads)]; [by exists []|].
  exists (b :: bs). simpl. by rewrite Hset, Hread; simpl; rewrite Hsets, Hreads.
Qed.

Lemma set_list_round_trips_same {A B} field (set : A → Result B) (read : B → Result A) l :
  fits l → Forall (λ a, round_trips set read a a) l →
  round_trips (set_list field set) (collect_results read) l l.
Proof. intros Hf Hl. apply set_list_round_trips; [done|]. by apply Forall_Forall2_diag. Qed.

Lemma text_list_round_trips field l :
  texts_wf l → round_trips (set_text_list field) read_text_list l l.
Proof.
  intros [Hf Hl]. apply set_list_round_trips_same; [done|]. eapply Forall_impl; [exact Hl|].
  intros s Hs. exists s. split; [done|]. by apply read_text_ok.
Qed.

Lemma pairs_round_trips field l : pairs_wf l → round_trips (set_pairs field) read_pairs l l.
Proof.
  intros [Hf Hl]. apply set_list_round_trips_same; [done|]. eapply Forall_impl; [exact Hl|].
  intros [k v] [Hk Hv]. exists (k, v). split; [done|]. unfold read_pair. simpl.
  rewrite (read_text_ok k) by done. simpl. by rewrite (read_text_ok v) by done.
Qed.

Lemma btree_iter_forall {V} (P : string * V → Prop) (m : gmap string V) :
  map_Forall (λ k v, P (k, v)) m → Forall P (btree_iter m).
Proof.
  intros Hm. rewrite btree_iter_permutation. apply Forall_forall. intros [k v] Hkv.
  by apply Hm, elem_of_map_to_list.
Qed.

Lemma btree_iter_fits {V} (m : gmap string V) :
  (N.of_nat (size m) ≤ u32_max)%N → fits (btree_iter m).
Proof. unfold fits. by rewrite btree_iter_permutation, length_map_to_list. Qed.

Definition input_wf (input : Input) : Prop :=
  match input with Flake s | Expr s | File s => text_wf s end.
Definition auto_arg_wf (arg : string * AutoArg) : Prop :=
  text_wf arg.1 ∧ match arg.2 with ArgExpr s | ArgStr s => text_wf s end.

Record worker_config_wf (c : WorkerConfig) : Prop := {
  wf_input : input_wf (wc_input c);
  wf_auto_args : fits (wc_auto_args c) ∧ Forall auto_arg_wf (wc_auto_args c);
  wf_gc_roots_dir : text_opt_wf (wc_gc_roots_dir c);
  wf_override_inputs : pairs_wf (wc_override_inputs c);
  wf_nix_options : pairs_wf (wc_nix_options c);
  wf_locked_flake_json : text_opt_wf (wc_locked_flake_json c);
}.

(** A zero timeout is read as the default one. *)
Definition with_item_timeout (c : WorkerConfig) : WorkerConfig :=
  if (wc_item_timeout_seconds c =? 0)%N
  then c <| wc_item_timeout_seconds := DEFAULT_ITEM_TIMEOUT_SECONDS |> else c.

Definition client_wf (m : ClientMessage) : Prop :=
  match m with
  | Setup c token dir => worker_config_wf c ∧ text_opt_wf token ∧ text_opt_wf dir
  | Work path => texts_wf path
  | Shutdown => True
  end.

Definition client_received (m : ClientMessage) : ClientMessage :=
  match m with Setup c token dir => Setup (with_item_timeout c) token dir | m => m end.

Section round_trip.
Context (debug_path : string → string).
Context (json_to_string : Json → Result string) (json_from_str : string → Result Json).
Context (strings_to_string : list string → Result string).
Context (strings_from_str : string → Result (list string)).

(** A value whose JSON text is UTF-8 and parses to it again. *)
Definition json_wf (json : Json) : Prop :=
  ∃ s, json_to_string json = Ok s ∧ text_wf s ∧ json_from_str s = Ok json.
Definition strings_wf (l : list string) : Prop :=
  ∃ s, strings_to_string l = Ok s ∧ text_wf s ∧ strings_from_str s = Ok l.

Record derivation_wf (d : Derivation) : Prop := {
  wf_attr : text_wf (d_attr d);
  wf_attr_path : texts_wf (d_attr_path d);
  wf_name : text_wf (d_name d);
  wf_system : text_wf (d_system d);
  wf_drv_path : text_wf (d_drv_path d);
  wf_outputs_size : (N.of_nat (size (d_outputs d)) ≤ u32_max)%N;
  wf_outputs : map_Forall (λ k v, text_wf k ∧ text_opt_wf v) (d_outputs d);
  wf_meta : ∀ json, d_meta d = Some json → json_wf json;
  wf_input_drvs_size : (N.of_nat (size (d_input_drvs d)) ≤ u32_max)%N;
  wf_input_drvs : map_Forall (λ k v, text_wf k ∧ strings_wf v) (d_input_drvs d);
  wf_constituents : ∀ l, d_constituents d = Some l → texts_wf l;
  wf_gc_root_error : text_opt_wf (d_gc_root_error d);
}.

Definition event_wf (event : Event) : Prop :=
  match event with
  | EvDerivation d => derivation_wf d
  | EvAttrSet attr attr_path attrs => text_wf attr ∧ texts_wf attr_path ∧ texts_wf attrs
  | EvError e => text_wf (e_attr e) ∧ texts_wf (e_attr_path e) ∧ text_wf (e_error e)
  end.

Definition server_wf (m : ServerMessage) : Prop :=
  match m with
  | SrvEvent event => event_wf event
  | SrvError error => text_wf error
  | _ => True
  end.

Lemma input_round_trips input : input_wf input → round_trips (set_input debug_path) read_input input input.
Proof.
  unfold round_trips. destruct input as [s|s|s]; simpl; intros Hs.
  1,2: eexists; split; [done|]; simpl; by rewrite read_text_ok.
  unfold path_text, to_str. rewrite Hs. eexists. split; [done|]. simpl. by rewrite read_text_ok.
Qed.

Lemma auto_arg_round_trips arg : auto_arg_wf arg → round_trips set_auto_arg read_auto_arg arg arg.
Proof.
  destruct arg as [name [s|s]]; intros [Hn Hs]; (eexists; split; [done|]);
    unfold read_auto_arg; simpl in *; rewrite (read_text_ok name) by done; simpl;
    by rewrite (read_text_ok s).
Qed.

Lemma worker_config_round_trips c :
  worker_config_wf c →
  round_trips (set_worker_config debug_path) read_worker_config c (with_item_timeout c).
Proof.
  intros [Hin [Haf Ha] Hgc Hov Hnix Hlock].
  destruct (input_round_trips _ Hin) as (input & Hi & Hi').
  destruct (set_list_round_trips_same "auto args" set_auto_arg read_auto_arg _ Haf
    (Forall_impl _ _ _ Ha auto_arg_round_trips)) as (args & Hargs & Hargs').
  destruct (pairs_round_trips "override inputs" _ Hov) as (ov & Hov1 & Hov2).
  destruct (pairs_round_trips "nix options" _ Hnix) as (nix & Hnix1 & Hnix2).
  assert (match wc_gc_roots_dir c with
          | None => Ok None
          | Some path => Some <$> path_text debug_path "gc roots directory" path
          end = Ok (wc_gc_roots_dir c)) as Hgc'.
  { destruct (wc_gc_roots_dir c) as [p|]; [|done]. unfold path_text, to_str.
    by rewrite (Hgc p eq_refl). }
  unfold round_trips, set_worker_config. rewrite Hi, Hargs, Hgc', Hov1, Hnix1. simpl.
  eexists. split; [done|]. unfold read_worker_config, read_auto_args. simpl.
  rewrite Hi', Hargs', (read_text_opt_ok _ Hgc), Hov2, Hnix2, (read_text_opt_ok _ Hlock). simpl.
  unfold with_item_timeout, read_item_timeout_seconds. cbn [wm_item_timeout_seconds].
  by destruct c, (_ =? _)%N.
Qed.

Lemma client_round_trips m :
  client_wf m → round_trips (encode_client debug_path) decode_client m (client_received m).
Proof.
  destruct m as [c token dir|path|]; simpl.
  - intros (Hc & Ht & Hd). destruct (worker_config_round_trips c Hc) as (cm & Hset & Hread).
    unfold round_trips. simpl. rewrite Hset. simpl. eexists. split; [done|]. simpl.
    by rewrite Hread, (read_text_opt_ok _ Ht), (read_text_opt_ok _ Hd).
  - intros Hp. destruct (text_list_round_trips "work attr path" _ Hp) as (l & Hset & Hread).
    exists (MWork l). simpl. by rewrite Hset; simpl; rewrite Hread.
  - intros _. by exists MShutdown.
Qed.

Lemma transpose_round_trips {A B} (set : A → Result B) (read : B → Result A) o :
  (∀ a, o = Some a → round_trips set read a a) →
  round_trips (transpose set) (transpose read) o o.
Proof.
  destruct o as [a|]; intros H; [|by exists None].
  destruct (H a eq_refl) as (b & Hs & Hr). exists (Some b). simpl. by rewrite Hs, Hr.
Qed.

Lemma output_round_trips o :
  text_wf o.1 → text_opt_wf o.2 → round_trips set_output read_output o o.
Proof.
  destruct o as [name path]. simpl. intros Hn Hp. exists (name, path). split; [done|].
  unfold read_output. simpl. by rewrite (read_text_opt_ok _ Hp); simpl; rewrite (read_text_ok _ Hn).
Qed.

Lemma input_drv_round_trips o :
  text_wf o.1 → strings_wf o.2 →
  round_trips (set_input_drv strings_to_string) (read_input_drv strings_from_str) o o.
Proof.
  destruct o as [name l]. intros Hn (s & Hs & Hwf & Hp). exists (name, s).
  unfold set_input_drv, read_input_drv. simpl in *. rewrite Hs. split; [done|].
  rewrite (read_text_ok name) by done. simpl. rewrite (read_text_ok s) by done. simpl.
  by rewrite Hp.
Qed.

Lemma derivation_round_trips d :
  derivation_wf d →
  round_trips (set_derivation json_to_string strings_to_string)
    (read_derivation json_from_str strings_from_str) d d.
Proof.
  intros [Ha Hp Hn Hs Hd Hos Ho Hm His Hi Hc Hg].
  destruct (text_list_round_trips "derivation attr path" _ Hp) as (path & Hp1 & Hp2).
  destruct (set_list_round_trips_same "derivation outputs" set_output read_output _
    (btree_iter_fits _ Hos)) as (outs & Ho1 & Ho2).
  { apply btree_iter_forall. intros k v Hkv. destruct (Ho k v Hkv).
    by apply output_round_trips. }
  destruct (set_list_round_trips_same "input drvs" (set_input_drv strings_to_string)
    (read_input_drv strings_from_str) _ (btree_iter_fits _ His)) as (ins & Hi1 & Hi2).
  { apply btree_iter_forall. intros k v Hkv. destruct (Hi k v Hkv).
    by apply input_drv_round_trips. }
  destruct (transpose_round_trips (set_text_list "constituents") read_text_list
    (d_constituents d)) as (cons & Hc1 & Hc2).
  { intros l Hl. apply text_list_round_trips. by apply Hc. }
  assert (∃ meta, transpose json_to_string (d_meta d) = Ok meta ∧ text_opt_wf meta
    ∧ transpose json_from_str meta = Ok (d_meta d)) as (meta & Hm1 & Hm2 & Hm3).
  { destruct (d_meta d) as [json|]; [|by exists None].
    destruct (Hm json eq_refl) as (s & H1 & H2 & H3). exists (Some s). simpl.
    rewrite H1, H3. split_and!; [done| |done]. by intros ? [= <-]. }
  unfold round_trips, set_derivation. rewrite Hp1, Ho1, Hm1, Hi1, Hc1. simpl.
  eexists. split; [done|]. unfold read_derivation. simpl.
  rewrite Ho2, Hi2, (read_text_ok _ Ha), Hp2, (read_text_ok _ Hn), (read_text_ok _ Hs),
    (read_text_ok _ Hd), (read_text_opt_ok _ Hm2). simpl. rewrite Hm3. simpl.
  rewrite Hc2, (read_text_opt_ok _ Hg), !collect_map_btree. simpl. by destruct d.
Qed.

Lemma event_round_trips event :
  event_wf event →
  round_trips (set_event json_to_string strings_to_string)
    (read_event json_from_str strings_from_str) event event.
Proof.
  destruct event as [d|attr attr_path attrs|e]; simpl.
  - intros Hd. destruct (derivation_round_trips d Hd) as (m & H1 & H2).
    exists (MDerivation m). simpl. by rewrite H1; simpl; rewrite H2.
  - intros (Ha & Hp & Hs).
    destruct (text_list_round_trips "attr path" _ Hp) as (l1 & H1 & H1').
    destruct (text_list_round_trips "attr set children" _ Hs) as (l2 & H2 & H2').
    exists (MAttrSet attr l1 l2). simpl. rewrite H1. simpl. rewrite H2. split; [done|].
    by rewrite (read_text_ok _ Ha); simpl; rewrite H1'; simpl; rewrite H2'.
  - intros (Ha & Hp & He).
    destruct (text_list_round_trips "error attr path" _ Hp) as (l & H1 & H1').
    exists (MEvalError (mkEvalErrorMsg (e_attr e) l (e_error e) (e_fatal e))).
    simpl. unfold set_eval_error, read_eval_error. rewrite H1. split; [done|]. simpl.
    rewrite (read_text_ok _ Ha). simpl. rewrite H1'. simpl. rewrite (read_text_ok _ He).
    by destruct e.
Qed.

Lemma server_round_trips m :
  server_wf m →
  round_trips (encode_server json_to_string strings_to_string)
    (decode_server json_from_str strings_from_str) m m.
Proof.
  destruct m as [|event|status|error]; simpl.
  - intros _. by exists MReady.
  - intros He. destruct (event_round_trips event He) as (em & H1 & H2).
    exists (MEvent em). simpl. by rewrite H1; simpl; rewrite H2.
  - intros _. by exists (MStatus status).
  - intros He. exists (MError error). simpl. by rewrite (read_text_ok _ He).
Qed.
End round_trip.

(** The worker protocol loses nothing. Every client and server message
    whose strings are UTF-8, whose lists fit the schema and whose JSON values
    print and parse, is written successfully and read back as it was, maps and
    optional fields included; only a timeout of zero is read as the default. A
    setup of another protocol version is refused whatever else it holds. *)
Theorem worker_protocol_roundtrip debug_path json_to_string json_from_str strings_to_string
    strings_from_str client server :
  client_wf client →
  server_wf json_to_string json_from_str strings_to_string strings_from_str server →
  (∃ m, encode_client debug_path client = Ok m ∧ decode_client m = Ok (client_received client))
  ∧ (∃ m, encode_server json_to_string strings_to_string server = Ok m
       ∧ decode_server json_from_str strings_from_str m = Ok server)
  ∧ (∀ config token dir version, version ≠ WORKER_PROTOCOL_VERSION →
       is_err (decode_client (MSetup config token dir version)) = true).
Proof.
  intros Hclient Hserver. split_and!.
  - by apply client_round_trips.
  - by apply server_round_trips.
  - intros config token dir version Hv. simpl. unfold validate_worker_protocol.
    by rewrite (proj2 (N.eqb_neq _ _) Hv).
Qed.

Definition print_json (json : Json) : Result string :=
  match json with JString s => Ok s | _ => Err (report "not a string") end.
Definition parse_string (s : string) : Result Json := Ok (JString s).
Definition print_strings (l : list string) : Result string := Ok (str_join "," l).
Definition parse_strings (s : string) : Result (list string) := Ok (str_split "," s).

Definition sample_derivation : Derivation :=
  mkDerivation "pkgs.hello" ["pkgs"; "hello"] "hello" "x86_64-linux" "/nix/store/0-hello.drv"
    {["out" := Some "/nix/store/0-hello"; "doc" := None]} (Some (JString "nice"))
    {["/nix/store/1-gcc.drv" := ["out"; "lib"]]} (Some ["pkgs.gcc"]) None.

Lemma sample_derivation_wf :
  derivation_wf print_json parse_string print_strings parse_strings sample_derivation.
Proof.
  assert (∀ l : list string, forallb utf8_valid l = true → Forall text_wf l) as Htexts.
  { intros l Hl. by apply Forall_forall, forallb_elem_of. }
  assert (∀ l : list string, length l ≤ 9 → fits l) as Hfits.
  { unfold fits, u32_max. intros l Hl. lia. }
  split; cbn [d_attr d_attr_path d_name d_system d_drv_path d_outputs d_meta d_input_drvs
    d_constituents d_gc_root_error sample_derivation]; try reflexivity.
  - split; [apply Hfits; simpl; lia|by apply Htexts].
  - apply N.leb_le. vm_compute. reflexivity.
  - apply map_Forall_insert_2; [split; [done|by intros ? [= <-]]|].
    apply map_Forall_singleton. by split.
  - intros json [= <-]. by exists "nice".
  - apply N.leb_le. vm_compute. reflexivity.
  - apply map_Forall_singleton. split; [done|]. by exists "out,lib".
  - intros l [= <-]. split; [apply Hfits; simpl; lia|by apply Htexts].
  - done.
Qed.

Lemma worker_protocol_roundtrip_witness :
  ∃ m, encode_server print_json print_strings (SrvEvent (EvDerivation sample_derivation)) = Ok m
    ∧ decode_server parse_string parse_strings m = Ok (SrvEvent (EvDerivation sample_derivation)).
Proof.
  apply (worker_protocol_roundtrip id print_json parse_string print_strings parse_strings
    Shutdown (SrvEvent (EvDerivation sample_derivation)) I sample_derivation_wf).
Defined.
