(* ===== verification/Capnp.v ===== *)
(** * The Cap'n Proto library, as an interface

    The generated accessors of [crates/evix/src/generated/worker_capnp.rs] call
    the [capnp] crate, another package: structs, pointers and lists in a message
    are the class [Capnp], and what the crate's documentation and the encoding it
    implements promise of them is the class [CapnpLaws].

    A struct has a data section, of 64-bit words, and a pointer section. A field
    of [w] bits at offset [i] is the bits from [w * i] to [w * (i + 1)] of the data
    section, a [bool] a field of one bit. A builder is exclusive: while a child is
    built its parent is borrowed, so building is a function on the content of
    the struct, the child's content first. *)
From S2P Require Import Prelude.

(** [StructSize]: words of data, pointers *)
Record StructSize := mkStructSize { data : N; pointers : N }.

Class Capnp := {
  Struct : Type;
  Pointer : Type;
  TextList : Type;
  StructList : Type;
  (** the size a struct has in its message *)
  struct_size : Struct → StructSize;
  (** [init_struct]: no bit set, no pointer *)
  new_struct : StructSize → Struct;
  (** [get_data_field::<T>(i)] for a [T] of [w] bits; [get_bool_field(i)] for one bit *)
  get_data_field (w i : N) : Struct → N;
  set_data_field (w i value : N) : Struct → Struct;
  get_pointer_field (i : N) : Struct → Pointer;
  set_pointer_field (i : N) : Pointer → Struct → Struct;
  (** what a pointer leads to, and reading it without a default *)
  null : Pointer;
  is_null : Pointer → bool;
  to_text : string → Pointer;
  to_struct : Struct → Pointer;
  to_text_list : TextList → Pointer;
  to_struct_list : StructList → Pointer;
  get_text : Pointer → Result string;
  get_struct : Pointer → Result Struct;
  get_text_list : Pointer → Result TextList;
  get_struct_list : Pointer → Result StructList;
  (** [text_list] *)
  new_text_list (size : N) : TextList;
  text_list_len : TextList → N;
  text_list_get (i : N) : TextList → Result string;
  text_list_set (i : N) (value : string) : TextList → TextList;
  (** [struct_list]: [get] gives the element to a reader and to a builder, whose
      changes are written to the list *)
  new_struct_list (size : StructSize) (len : N) : StructList;
  struct_list_len : StructList → N;
  struct_list_get (i : N) : StructList → Struct;
  struct_list_put (i : N) (value : Struct) : StructList → StructList;
  (** the error [NotInSchema]: a discriminant or an enumerant the schema does not have *)
  not_in_schema (x : N) : Report;
}.

(** The field lies in the data section; two fields share no bit. *)
Definition field_in (w i : N) (size : StructSize) : Prop :=
  (0 < w ∧ w * (i + 1) ≤ 64 * data size)%N.
Definition disjoint_fields (w i w' i' : N) : Prop :=
  (w * (i + 1) ≤ w' * i' ∨ w' * (i' + 1) ≤ w * i)%N.

Class CapnpLaws `{Capnp} : Prop := {
  new_struct_size size : struct_size (new_struct size) = size;
  set_data_size w i v s : struct_size (set_data_field w i v s) = struct_size s;
  set_pointer_size i p s : struct_size (set_pointer_field i p s) = struct_size s;

  data_field_bound w i s : (get_data_field w i s < 2 ^ w)%N;
  new_data_field size w i : get_data_field w i (new_struct size) = 0%N;
  data_field_default w i s : (64 * data (struct_size s) ≤ w * i)%N → get_data_field w i s = 0%N;
  get_set_data w i v s :
    field_in w i (struct_size s) → (v < 2 ^ w)%N → get_data_field w i (set_data_field w i v s) = v;
  get_set_data_ne w i w' i' v s :
    disjoint_fields w i w' i' →
    get_data_field w i (set_data_field w' i' v s) = get_data_field w i s;
  data_set_pointer w i j p s :
    get_data_field w i (set_pointer_field j p s) = get_data_field w i s;

  new_pointer_field size i : get_pointer_field i (new_struct size) = null;
  pointer_field_default i s : (pointers (struct_size s) ≤ i)%N → get_pointer_field i s = null;
  get_set_pointer i p s :
    (i < pointers (struct_size s))%N → get_pointer_field i (set_pointer_field i p s) = p;
  get_set_pointer_ne i j p s :
    i ≠ j → get_pointer_field i (set_pointer_field j p s) = get_pointer_field i s;
  pointer_set_data i w j v s :
    get_pointer_field i (set_data_field w j v s) = get_pointer_field i s;

  null_is_null : is_null null = true;
  text_not_null t : is_null (to_text t) = false;
  struct_not_null s : is_null (to_struct s) = false;
  text_list_not_null l : is_null (to_text_list l) = false;
  struct_list_not_null l : is_null (to_struct_list l) = false;
  get_to_text t : get_text (to_text t) = Ok t;
  get_to_struct s : get_struct (to_struct s) = Ok s;
  get_to_text_list l : get_text_list (to_text_list l) = Ok l;
  get_to_struct_list l : get_struct_list (to_struct_list l) = Ok l;
  (** a struct that is missing is read as the empty one *)
  get_null_struct : get_struct null = Ok (new_struct (mkStructSize 0 0));

  new_text_list_len n : text_list_len (new_text_list n) = n;
  new_text_list_get n i : (i < n)%N → text_list_get i (new_text_list n) = Ok "";
  set_text_list_len i t l : text_list_len (text_list_set i t l) = text_list_len l;
  get_set_text i t l : (i < text_list_len l)%N → text_list_get i (text_list_set i t l) = Ok t;
  get_set_text_ne i j t l : i ≠ j → text_list_get i (text_list_set j t l) = text_list_get i l;

  new_struct_list_len size n : struct_list_len (new_struct_list size n) = n;
  put_struct_list_len i s l : struct_list_len (struct_list_put i s l) = struct_list_len l;
  new_struct_list_get size n i : (i < n)%N → struct_list_get i (new_struct_list size n) = new_struct size;
  get_put_struct i s l : (i < struct_list_len l)%N → struct_list_get i (struct_list_put i s l) = s;
  get_put_struct_ne i j s l : i ≠ j → struct_list_get i (struct_list_put j s l) = struct_list_get i l;
}.

Section operations.
Context `{Capnp}.

(** [get_bool_field], [set_bool_field]; [Bool] is a field of one bit. *)
Definition get_bool_field (i : N) (reader : Struct) : bool := N.odd (get_data_field 1 i reader).
Definition set_bool_field (i : N) (value : bool) (builder : Struct) : Struct :=
  set_data_field 1 i (N.b2n value) builder.

(** [StructBuilder::is_pointer_field_null] *)
Definition is_pointer_field_null (i : N) (builder : Struct) : bool :=
  is_null (get_pointer_field i builder).

(** [PointerBuilder::init_struct]: the child is built, and is there when it is. *)
Definition init_struct (size : StructSize) (build : Struct → Result Struct) : Result Pointer :=
  to_struct <$> build (new_struct size).
(** [init_pointer] of [text_list] and [struct_list] builders *)
Definition init_text_list (len : N) (build : TextList → Result TextList) : Result Pointer :=
  to_text_list <$> build (new_text_list len).
Definition init_struct_list (size : StructSize) (len : N) (build : StructList → Result StructList)
  : Result Pointer := to_struct_list <$> build (new_struct_list size len).

(** The pointer section while the child at [i] is built *)
Definition build_pointer (i : N) (child : Result Pointer) (builder : Struct) : Result Struct :=
  (λ p, set_pointer_field i p builder) <$> child.

(** [struct_list::Builder::get]: the element is built in place. *)
Definition struct_list_build (i : N) (build : Struct → Result Struct) (l : StructList)
  : Result StructList := (λ s, struct_list_put i s l) <$> build (struct_list_get i l).
End operations.

(** ** The interface has a model

    Objects as trees, the data section as one number: what a message is when its
    pointers have been followed. *)
Module Tree.

Inductive Object : Type :=
  | Null
  | Text (t : string)
  | At (s : TreeStruct)
  | Texts (len : N) (l : N → string)
  | Structs (len : N) (l : N → TreeStruct)
with TreeStruct : Type :=
  | mkTree (size : StructSize) (bits : N) (ps : N → Object).

Definition update {A} (i : N) (a : A) (f : N → A) (j : N) : A := if (j =? i)%N then a else f j.

Definition size (s : TreeStruct) : StructSize := let 'mkTree size _ _ := s in size.
Definition empty (size : StructSize) : TreeStruct := mkTree size 0 (λ _, Null).

Definition slice (w i bits : N) : N := N.land (N.shiftr bits (w * i)) (N.ones w).
Definition splice (w i v bits : N) : N :=
  N.lor (N.ldiff bits (N.shiftl (N.ones w) (w * i))) (N.shiftl (N.land v (N.ones w)) (w * i)).

Definition get_data (w i : N) (s : TreeStruct) : N :=
  let 'mkTree size bits _ := s in if (w * i <? 64 * data size)%N then slice w i bits else 0%N.
Definition set_data (w i v : N) (s : TreeStruct) : TreeStruct :=
  let 'mkTree size bits ps := s in mkTree size (splice w i v bits) ps.
Definition get_pointer (i : N) (s : TreeStruct) : Object :=
  let 'mkTree size _ ps := s in if (i <? pointers size)%N then ps i else Null.
Definition set_pointer (i : N) (p : Object) (s : TreeStruct) : TreeStruct :=
  let 'mkTree size bits ps := s in mkTree size bits (update i p ps).

Definition wrong_kind {A} : Result A := Err (report "message contains a pointer of another kind").
Definition read_text (p : Object) : Result string :=
  match p with Null => Ok "" | Text t => Ok t | _ => wrong_kind end.
Definition read_struct (p : Object) : Result TreeStruct :=
  match p with Null => Ok (empty (mkStructSize 0 0)) | At s => Ok s | _ => wrong_kind end.
Definition read_texts (p : Object) : Result (N * (N → string)) :=
  match p with Null => Ok (0%N, λ _, ""%string) | Texts len l => Ok (len, l) | _ => wrong_kind end.
Definition read_structs (p : Object) : Result (N * (N → TreeStruct)) :=
  match p with
  | Null => Ok (0%N, λ _, empty (mkStructSize 0 0)) | Structs len l => Ok (len, l) | _ => wrong_kind
  end.

#[export] Instance tree_capnp : Capnp := {
  Struct := TreeStruct;
  Pointer := Object;
  TextList := N * (N → string);
  StructList := N * (N → TreeStruct);
  struct_size := size;
  new_struct := empty;
  get_data_field := get_data;
  set_data_field := set_data;
  get_pointer_field := get_pointer;
  set_pointer_field := set_pointer;
  null := Null;
  is_null p := match p with Null => true | _ => false end;
  to_text := Text;
  to_struct := At;
  to_text_list l := Texts l.1 l.2;
  to_struct_list l := Structs l.1 l.2;
  get_text := read_text;
  get_struct := read_struct;
  get_text_list := read_texts;
  get_struct_list := read_structs;
  new_text_list n := (n, λ _, ""%string);
  text_list_len := fst;
  text_list_get i l := Ok (l.2 i);
  text_list_set i t l := (l.1, update i t l.2);
  new_struct_list size n := (n, λ _, empty size);
  struct_list_len := fst;
  struct_list_get i l := l.2 i;
  struct_list_put i s l := (l.1, update i s l.2);
  not_in_schema x := report ("not in the schema: " +:+ show_N x);
}.

Lemma slice_bound w i bits : (slice w i bits < 2 ^ w)%N.
Proof. unfold slice. rewrite N.land_ones. apply N.mod_lt. by apply N.pow_nonzero. Qed.

Lemma slice_splice w i v bits : (v < 2 ^ w)%N → slice w i (splice w i v bits) = v.
Proof.
  intros Hv. apply N.bits_inj. intros n. unfold slice, splice.
  rewrite N.land_spec, N.shiftr_spec', N.lor_spec, N.ldiff_spec, !N.shiftl_spec_high' by lia.
  rewrite N.land_spec, N.add_sub. destruct (decide (n < w)%N).
  - by rewrite N.ones_spec_low, !andb_true_r, andb_false_r.
  - rewrite !N.ones_spec_high, !andb_false_r by lia.
    symmetry. rewrite <-(N.mod_small v (2 ^ w)) by done. apply N.mod_pow2_bits_high. lia.
Qed.

Lemma slice_splice_ne w i w' i' v bits :
  disjoint_fields w i w' i' → slice w i (splice w' i' v bits) = slice w i bits.
Proof.
  intros Hd. apply N.bits_inj. intros n. unfold slice, splice.
  rewrite !N.land_spec, !N.shiftr_spec'. destruct (decide (n < w)%N) as [Hn|Hn].
  2: { rewrite !N.ones_spec_high by lia. by rewrite !andb_false_r. }
  f_equal. rewrite N.lor_spec, N.ldiff_spec. unfold disjoint_fields in Hd.
  destruct (decide (n + w * i < w' * i')%N) as [Hlow|Hhigh].
  - rewrite !N.shiftl_spec_low by done. by rewrite orb_false_r, andb_true_r.
  - rewrite !N.shiftl_spec_high' by lia. rewrite N.land_spec, N.ones_spec_high by lia.
    by rewrite andb_false_r, orb_false_r, andb_true_r.
Qed.

#[export] Instance tree_laws : CapnpLaws.
Proof.
  split; cbn -[slice splice N.mul]; unfold update; try done.
  - by intros w i v [].
  - by intros i p [].
  - intros w i [sz bits ps]. cbn -[slice N.mul]. case_match; [apply slice_bound|].
    assert (2 ^ w ≠ 0)%N by (by apply N.pow_nonzero). lia.
  - intros sz w i. unfold slice. rewrite N.shiftr_0_l. by case_match.
  - intros w i [sz bits ps] Hle. cbn -[slice N.mul] in *. case_match eqn:Hb; [apply N.ltb_lt in Hb; lia|done].
  - intros w i v [sz bits ps] [Hw Hin] Hv. cbn -[slice splice N.mul] in *.
    rewrite (proj2 (N.ltb_lt _ _)) by lia. by apply slice_splice.
  - intros w i w' i' v [sz bits ps] Hd. cbn -[slice splice N.mul].
    case_match; [|done]. by apply slice_splice_ne.
  - by intros w i j p [].
  - intros sz i. by case_match.
  - intros i [sz bits ps] Hle. cbn in *. case_match eqn:Hb; [apply N.ltb_lt in Hb; lia|done].
  - intros i p [sz bits ps] Hlt. cbn -[N.eqb N.ltb] in *. rewrite (proj2 (N.ltb_lt _ _) Hlt). unfold update. by rewrite N.eqb_refl.
  - intros i j p [sz bits ps] Hne. cbn -[N.eqb]. unfold update. by rewrite (proj2 (N.eqb_neq _ _) Hne).
  - by intros i w j v [].
  - by intros [].
  - by intros [].
  - intros i t l _. by rewrite N.eqb_refl.
  - intros i j t l Hne. by rewrite (proj2 (N.eqb_neq _ _) Hne).
  - intros i s l _. by rewrite N.eqb_refl.
  - intros i j s l Hne. by rewrite (proj2 (N.eqb_neq _ _) Hne).
Qed.
End Tree.
