(* ===== verification/Schema.v ===== *)
(** * The generated accessors of the worker schema

    [crates/evix/src/generated/worker_capnp.rs], from
    [crates/evix/schema/worker.capnp]: for every struct of the schema a module of
    the same name with the struct's size, the readers' getters and unions and the
    builders' setters, those that [remote_proto.rs] uses, and the tests of which
    pointers are there, at the bits and pointers the generated code gives them.
    A builder's test is named after it. *)
From S2P Require Import Prelude Capnp.
Local Open Scope N_scope.

(** [mod string_pair] *)
Module string_pair.
Definition STRUCT_SIZE : StructSize := mkStructSize 0 2.
Definition get_from_pointer `{Capnp} (reader : Pointer) : Result Struct := get_struct reader.
Definition init_pointer `{Capnp} (build : Struct → Result Struct) : Result Pointer :=
  init_struct STRUCT_SIZE build.
Definition get_key `{Capnp} (reader : Struct) : Result string :=
  get_text (get_pointer_field 0 reader).
Definition has_key `{Capnp} (reader : Struct) : bool :=
  negb (is_null (get_pointer_field 0 reader)).
Definition get_value `{Capnp} (reader : Struct) : Result string :=
  get_text (get_pointer_field 1 reader).
Definition has_value `{Capnp} (reader : Struct) : bool :=
  negb (is_null (get_pointer_field 1 reader)).
Definition set_key `{Capnp} (value : string) (builder : Struct) : Struct :=
  set_pointer_field 0 (to_text value) builder.
Definition builder_has_key `{Capnp} (builder : Struct) : bool :=
  negb (is_pointer_field_null 0 builder).
Definition set_value `{Capnp} (value : string) (builder : Struct) : Struct :=
  set_pointer_field 1 (to_text value) builder.
Definition builder_has_value `{Capnp} (builder : Struct) : bool :=
  negb (is_pointer_field_null 1 builder).
End string_pair.

(** [mod text_opt] *)
Module text_opt.
Definition STRUCT_SIZE : StructSize := mkStructSize 1 1.
Definition get_from_pointer `{Capnp} (reader : Pointer) : Result Struct := get_struct reader.
Definition init_pointer `{Capnp} (build : Struct → Result Struct) : Result Pointer :=
  init_struct STRUCT_SIZE build.
Inductive Which (A0 : Type) : Type := None (a : unit) | Some (a : A0).
Arguments None {_} _.
Arguments Some {_} _.
Definition has_some `{Capnp} (reader : Struct) : bool :=
  if negb (get_data_field 16 0 reader =? 1) then false
  else negb (is_null (get_pointer_field 0 reader)).
Definition which `{Capnp} (reader : Struct) : Result (Which (Result string)) :=
  match get_data_field 16 0 reader with
  | 0 => Ok (None tt)
  | 1 => Ok (Some (get_text (get_pointer_field 0 reader)))
  | x => Err (not_in_schema x)
  end.
Definition set_none `{Capnp} (_ : unit) (builder : Struct) : Struct :=
  set_data_field 16 0 0 builder.
Definition set_some `{Capnp} (value : string) (builder : Struct) : Struct :=
  set_pointer_field 0 (to_text value) (set_data_field 16 0 1 builder).
Definition builder_has_some `{Capnp} (builder : Struct) : bool :=
  if negb (get_data_field 16 0 builder =? 1) then false
  else negb (is_pointer_field_null 0 builder).
End text_opt.

(** [mod text_list_opt] *)
Module text_list_opt.
Definition STRUCT_SIZE : StructSize := mkStructSize 1 1.
Definition get_from_pointer `{Capnp} (reader : Pointer) : Result Struct := get_struct reader.
Definition init_pointer `{Capnp} (build : Struct → Result Struct) : Result Pointer :=
  init_struct STRUCT_SIZE build.
Inductive Which (A0 : Type) : Type := None (a : unit) | Some (a : A0).
Arguments None {_} _.
Arguments Some {_} _.
Definition has_some `{Capnp} (reader : Struct) : bool :=
  if negb (get_data_field 16 0 reader =? 1) then false
  else negb (is_null (get_pointer_field 0 reader)).
Definition which `{Capnp} (reader : Struct) : Result (Which (Result TextList)) :=
  match get_data_field 16 0 reader with
  | 0 => Ok (None tt)
  | 1 => Ok (Some (get_text_list (get_pointer_field 0 reader)))
  | x => Err (not_in_schema x)
  end.
Definition set_none `{Capnp} (_ : unit) (builder : Struct) : Struct :=
  set_data_field 16 0 0 builder.
Definition init_some `{Capnp} (size : N) (build : TextList → Result TextList)
  (builder : Struct) : Result Struct :=
  build_pointer 0 (init_text_list size build) (set_data_field 16 0 1 builder).
Definition builder_has_some `{Capnp} (builder : Struct) : bool :=
  if negb (get_data_field 16 0 builder =? 1) then false
  else negb (is_pointer_field_null 0 builder).
End text_list_opt.

(** [mod input] *)
Module input.
Definition STRUCT_SIZE : StructSize := mkStructSize 1 1.
Definition get_from_pointer `{Capnp} (reader : Pointer) : Result Struct := get_struct reader.
Definition init_pointer `{Capnp} (build : Struct → Result Struct) : Result Pointer :=
  init_struct STRUCT_SIZE build.
Inductive Which (A0 A1 A2 : Type) : Type := Flake (a : A0) | Expr (a : A1) | File (a : A2).
Arguments Flake {_ _ _} _.
Arguments Expr {_ _ _} _.
Arguments File {_ _ _} _.
Definition has_flake `{Capnp} (reader : Struct) : bool :=
  if negb (get_data_field 16 0 reader =? 0) then false
  else negb (is_null (get_pointer_field 0 reader)).
Definition has_expr `{Capnp} (reader : Struct) : bool :=
  if negb (get_data_field 16 0 reader =? 1) then false
  else negb (is_null (get_pointer_field 0 reader)).
Definition has_file `{Capnp} (reader : Struct) : bool :=
  if negb (get_data_field 16 0 reader =? 2) then false
  else negb (is_null (get_pointer_field 0 reader)).
Definition which `{Capnp} (reader : Struct)
  : Result (Which (Result string) (Result string) (Result string)) :=
  match get_data_field 16 0 reader with
  | 0 => Ok (Flake (get_text (get_pointer_field 0 reader)))
  | 1 => Ok (Expr (get_text (get_pointer_field 0 reader)))
  | 2 => Ok (File (get_text (get_pointer_field 0 reader)))
  | x => Err (not_in_schema x)
  end.
Definition set_flake `{Capnp} (value : string) (builder : Struct) : Struct :=
  set_pointer_field 0 (to_text value) (set_data_field 16 0 0 builder).
Definition builder_has_flake `{Capnp} (builder : Struct) : bool :=
  if negb (get_data_field 16 0 builder =? 0) then false
  else negb (is_pointer_field_null 0 builder).
Definition set_expr `{Capnp} (value : string) (builder : Struct) : Struct :=
  set_pointer_field 0 (to_text value) (set_data_field 16 0 1 builder).
Definition builder_has_expr `{Capnp} (builder : Struct) : bool :=
  if negb (get_data_field 16 0 builder =? 1) then false
  else negb (is_pointer_field_null 0 builder).
Definition set_file `{Capnp} (value : string) (builder : Struct) : Struct :=
  set_pointer_field 0 (to_text value) (set_data_field 16 0 2 builder).
Definition builder_has_file `{Capnp} (builder : Struct) : bool :=
  if negb (get_data_field 16 0 builder =? 2) then false
  else negb (is_pointer_field_null 0 builder).
End input.

(** [mod auto_arg] *)
Module auto_arg.
Definition STRUCT_SIZE : StructSize := mkStructSize 1 2.
Definition get_from_pointer `{Capnp} (reader : Pointer) : Result Struct := get_struct reader.
Definition init_pointer `{Capnp} (build : Struct → Result Struct) : Result Pointer :=
  init_struct STRUCT_SIZE build.
Inductive Which (A0 A1 : Type) : Type := Expr (a : A0) | Str (a : A1).
Arguments Expr {_ _} _.
Arguments Str {_ _} _.
Definition get_name `{Capnp} (reader : Struct) : Result string :=
  get_text (get_pointer_field 0 reader).
Definition has_name `{Capnp} (reader : Struct) : bool :=
  negb (is_null (get_pointer_field 0 reader)).
Definition has_expr `{Capnp} (reader : Struct) : bool :=
  if negb (get_data_field 16 0 reader =? 0) then false
  else negb (is_null (get_pointer_field 1 reader)).
Definition has_str `{Capnp} (reader : Struct) : bool :=
  if negb (get_data_field 16 0 reader =? 1) then false
  else negb (is_null (get_pointer_field 1 reader)).
Definition which `{Capnp} (reader : Struct) : Result (Which (Result string) (Result string)) :=
  match get_data_field 16 0 reader with
  | 0 => Ok (Expr (get_text (get_pointer_field 1 reader)))
  | 1 => Ok (Str (get_text (get_pointer_field 1 reader)))
  | x => Err (not_in_schema x)
  end.
Definition set_name `{Capnp} (value : string) (builder : Struct) : Struct :=
  set_pointer_field 0 (to_text value) builder.
Definition builder_has_name `{Capnp} (builder : Struct) : bool :=
  negb (is_pointer_field_null 0 builder).
Definition set_expr `{Capnp} (value : string) (builder : Struct) : Struct :=
  set_pointer_field 1 (to_text value) (set_data_field 16 0 0 builder).
Definition builder_has_expr `{Capnp} (builder : Struct) : bool :=
  if negb (get_data_field 16 0 builder =? 0) then false
  else negb (is_pointer_field_null 1 builder).
Definition set_str `{Capnp} (value : string) (builder : Struct) : Struct :=
  set_pointer_field 1 (to_text value) (set_data_field 16 0 1 builder).
Definition builder_has_str `{Capnp} (builder : Struct) : bool :=
  if negb (get_data_field 16 0 builder =? 1) then false
  else negb (is_pointer_field_null 1 builder).
End auto_arg.

(** [mod output] *)
Module output.
Definition STRUCT_SIZE : StructSize := mkStructSize 1 2.
Definition get_from_pointer `{Capnp} (reader : Pointer) : Result Struct := get_struct reader.
Definition init_pointer `{Capnp} (build : Struct → Result Struct) : Result Pointer :=
  init_struct STRUCT_SIZE build.
Inductive Which (A0 : Type) : Type := Absent (a : unit) | Path (a : A0).
Arguments Absent {_} _.
Arguments Path {_} _.
Definition get_name `{Capnp} (reader : Struct) : Result string :=
  get_text (get_pointer_field 0 reader).
Definition has_name `{Capnp} (reader : Struct) : bool :=
  negb (is_null (get_pointer_field 0 reader)).
Definition has_path `{Capnp} (reader : Struct) : bool :=
  if negb (get_data_field 16 0 reader =? 1) then false
  else negb (is_null (get_pointer_field 1 reader)).
Definition which `{Capnp} (reader : Struct) : Result (Which (Result string)) :=
  match get_data_field 16 0 reader with
  | 0 => Ok (Absent tt)
  | 1 => Ok (Path (get_text (get_pointer_field 1 reader)))
  | x => Err (not_in_schema x)
  end.
Definition set_name `{Capnp} (value : string) (builder : Struct) : Struct :=
  set_pointer_field 0 (to_text value) builder.
Definition builder_has_name `{Capnp} (builder : Struct) : bool :=
  negb (is_pointer_field_null 0 builder).
Definition set_absent `{Capnp} (_ : unit) (builder : Struct) : Struct :=
  set_data_field 16 0 0 builder.
Definition set_path `{Capnp} (value : string) (builder : Struct) : Struct :=
  set_pointer_field 1 (to_text value) (set_data_field 16 0 1 builder).
Definition builder_has_path `{Capnp} (builder : Struct) : bool :=
  if negb (get_data_field 16 0 builder =? 1) then false
  else negb (is_pointer_field_null 1 builder).
End output.

(** [mod input_drv] *)
Module input_drv.
Definition STRUCT_SIZE : StructSize := mkStructSize 0 2.
Definition get_from_pointer `{Capnp} (reader : Pointer) : Result Struct := get_struct reader.
Definition init_pointer `{Capnp} (build : Struct → Result Struct) : Result Pointer :=
  init_struct STRUCT_SIZE build.
Definition get_drv_path `{Capnp} (reader : Struct) : Result string :=
  get_text (get_pointer_field 0 reader).
Definition has_drv_path `{Capnp} (reader : Struct) : bool :=
  negb (is_null (get_pointer_field 0 reader)).
Definition get_value_json `{Capnp} (reader : Struct) : Result string :=
  get_text (get_pointer_field 1 reader).
Definition has_value_json `{Capnp} (reader : Struct) : bool :=
  negb (is_null (get_pointer_field 1 reader)).
Definition set_drv_path `{Capnp} (value : string) (builder : Struct) : Struct :=
  set_pointer_field 0 (to_text value) builder.
Definition builder_has_drv_path `{Capnp} (builder : Struct) : bool :=
  negb (is_pointer_field_null 0 builder).
Definition set_value_json `{Capnp} (value : string) (builder : Struct) : Struct :=
  set_pointer_field 1 (to_text value) builder.
Definition builder_has_value_json `{Capnp} (builder : Struct) : bool :=
  negb (is_pointer_field_null 1 builder).
End input_drv.

(** [mod worker_config] *)
Module worker_config.
Definition STRUCT_SIZE : StructSize := mkStructSize 3 6.
Definition get_from_pointer `{Capnp} (reader : Pointer) : Result Struct := get_struct reader.
Definition init_pointer `{Capnp} (build : Struct → Result Struct) : Result Pointer :=
  init_struct STRUCT_SIZE build.
Definition get_input `{Capnp} (reader : Struct) : Result Struct :=
  input.get_from_pointer (get_pointer_field 0 reader).
Definition has_input `{Capnp} (reader : Struct) : bool :=
  negb (is_null (get_pointer_field 0 reader)).
Definition get_auto_args `{Capnp} (reader : Struct) : Result StructList :=
  get_struct_list (get_pointer_field 1 reader).
Definition has_auto_args `{Capnp} (reader : Struct) : bool :=
  negb (is_null (get_pointer_field 1 reader)).
Definition get_force_recurse `{Capnp} (reader : Struct) : bool := get_bool_field 0 reader.
Definition get_gc_roots_dir `{Capnp} (reader : Struct) : Result Struct :=
  text_opt.get_from_pointer (get_pointer_field 2 reader).
Definition has_gc_roots_dir `{Capnp} (reader : Struct) : bool :=
  negb (is_null (get_pointer_field 2 reader)).
Definition get_max_memory_size `{Capnp} (reader : Struct) : N := get_data_field 64 1 reader.
Definition get_meta `{Capnp} (reader : Struct) : bool := get_bool_field 1 reader.
Definition get_show_input_drvs `{Capnp} (reader : Struct) : bool := get_bool_field 2 reader.
Definition get_override_inputs `{Capnp} (reader : Struct) : Result StructList :=
  get_struct_list (get_pointer_field 3 reader).
Definition has_override_inputs `{Capnp} (reader : Struct) : bool :=
  negb (is_null (get_pointer_field 3 reader)).
Definition get_nix_options `{Capnp} (reader : Struct) : Result StructList :=
  get_struct_list (get_pointer_field 4 reader).
Definition has_nix_options `{Capnp} (reader : Struct) : bool :=
  negb (is_null (get_pointer_field 4 reader)).
Definition get_item_timeout_seconds `{Capnp} (reader : Struct) : N := get_data_field 64 2 reader.
Definition get_locked_flake_json `{Capnp} (reader : Struct) : Result Struct :=
  text_opt.get_from_pointer (get_pointer_field 5 reader).
Definition has_locked_flake_json `{Capnp} (reader : Struct) : bool :=
  negb (is_null (get_pointer_field 5 reader)).
Definition init_input `{Capnp} (build : Struct → Result Struct)
  (builder : Struct) : Result Struct :=
  build_pointer 0 (input.init_pointer build) builder.
Definition builder_has_input `{Capnp} (builder : Struct) : bool :=
  negb (is_pointer_field_null 0 builder).
Definition init_auto_args `{Capnp} (size : N) (build : StructList → Result StructList)
  (builder : Struct) : Result Struct :=
  build_pointer 1 (init_struct_list auto_arg.STRUCT_SIZE size build) builder.
Definition builder_has_auto_args `{Capnp} (builder : Struct) : bool :=
  negb (is_pointer_field_null 1 builder).
Definition set_force_recurse `{Capnp} (value : bool) (builder : Struct) : Struct :=
  set_bool_field 0 value builder.
Definition init_gc_roots_dir `{Capnp} (build : Struct → Result Struct)
  (builder : Struct) : Result Struct :=
  build_pointer 2 (text_opt.init_pointer build) builder.
Definition builder_has_gc_roots_dir `{Capnp} (builder : Struct) : bool :=
  negb (is_pointer_field_null 2 builder).
Definition set_max_memory_size `{Capnp} (value : N) (builder : Struct) : Struct :=
  set_data_field 64 1 value builder.
Definition set_meta `{Capnp} (value : bool) (builder : Struct) : Struct :=
  set_bool_field 1 value builder.
Definition set_show_input_drvs `{Capnp} (value : bool) (builder : Struct) : Struct :=
  set_bool_field 2 value builder.
Definition init_override_inputs `{Capnp} (size : N) (build : StructList → Result StructList)
  (builder : Struct) : Result Struct :=
  build_pointer 3 (init_struct_list string_pair.STRUCT_SIZE size build) builder.
Definition builder_has_override_inputs `{Capnp} (builder : Struct) : bool :=
  negb (is_pointer_field_null 3 builder).
Definition init_nix_options `{Capnp} (size : N) (build : StructList → Result StructList)
  (builder : Struct) : Result Struct :=
  build_pointer 4 (init_struct_list string_pair.STRUCT_SIZE size build) builder.
Definition builder_has_nix_options `{Capnp} (builder : Struct) : bool :=
  negb (is_pointer_field_null 4 builder).
Definition set_item_timeout_seconds `{Capnp} (value : N) (builder : Struct) : Struct :=
  set_data_field 64 2 value builder.
Definition init_locked_flake_json `{Capnp} (build : Struct → Result Struct)
  (builder : Struct) : Result Struct :=
  build_pointer 5 (text_opt.init_pointer build) builder.
Definition builder_has_locked_flake_json `{Capnp} (builder : Struct) : bool :=
  negb (is_pointer_field_null 5 builder).
End worker_config.

(** [mod setup] *)
Module setup.
Definition STRUCT_SIZE : StructSize := mkStructSize 1 3.
Definition get_from_pointer `{Capnp} (reader : Pointer) : Result Struct := get_struct reader.
Definition init_pointer `{Capnp} (build : Struct → Result Struct) : Result Pointer :=
  init_struct STRUCT_SIZE build.
Definition get_config `{Capnp} (reader : Struct) : Result Struct :=
  worker_config.get_from_pointer (get_pointer_field 0 reader).
Definition has_config `{Capnp} (reader : Struct) : bool :=
  negb (is_null (get_pointer_field 0 reader)).
Definition get_token `{Capnp} (reader : Struct) : Result Struct :=
  text_opt.get_from_pointer (get_pointer_field 1 reader).
Definition has_token `{Capnp} (reader : Struct) : bool :=
  negb (is_null (get_pointer_field 1 reader)).
Definition get_expected_store_dir `{Capnp} (reader : Struct) : Result Struct :=
  text_opt.get_from_pointer (get_pointer_field 2 reader).
Definition has_expected_store_dir `{Capnp} (reader : Struct) : bool :=
  negb (is_null (get_pointer_field 2 reader)).
Definition get_protocol_version `{Capnp} (reader : Struct) : N := get_data_field 32 0 reader.
Definition init_config `{Capnp} (build : Struct → Result Struct)
  (builder : Struct) : Result Struct :=
  build_pointer 0 (worker_config.init_pointer build) builder.
Definition builder_has_config `{Capnp} (builder : Struct) : bool :=
  negb (is_pointer_field_null 0 builder).
Definition init_token `{Capnp} (build : Struct → Result Struct)
  (builder : Struct) : Result Struct :=
  build_pointer 1 (text_opt.init_pointer build) builder.
Definition builder_has_token `{Capnp} (builder : Struct) : bool :=
  negb (is_pointer_field_null 1 builder).
Definition init_expected_store_dir `{Capnp} (build : Struct → Result Struct)
  (builder : Struct) : Result Struct :=
  build_pointer 2 (text_opt.init_pointer build) builder.
Definition builder_has_expected_store_dir `{Capnp} (builder : Struct) : bool :=
  negb (is_pointer_field_null 2 builder).
Definition set_protocol_version `{Capnp} (value : N) (builder : Struct) : Struct :=
  set_data_field 32 0 value builder.
End setup.

(** [mod work] *)
Module work.
Definition STRUCT_SIZE : StructSize := mkStructSize 0 1.
Definition get_from_pointer `{Capnp} (reader : Pointer) : Result Struct := get_struct reader.
Definition init_pointer `{Capnp} (build : Struct → Result Struct) : Result Pointer :=
  init_struct STRUCT_SIZE build.
Definition get_attr_path `{Capnp} (reader : Struct) : Result TextList :=
  get_text_list (get_pointer_field 0 reader).
Definition has_attr_path `{Capnp} (reader : Struct) : bool :=
  negb (is_null (get_pointer_field 0 reader)).
Definition init_attr_path `{Capnp} (size : N) (build : TextList → Result TextList)
  (builder : Struct) : Result Struct :=
  build_pointer 0 (init_text_list size build) builder.
Definition builder_has_attr_path `{Capnp} (builder : Struct) : bool :=
  negb (is_pointer_field_null 0 builder).
End work.

(** [mod attr_set] *)
Module attr_set.
Definition STRUCT_SIZE : StructSize := mkStructSize 0 3.
Definition get_from_pointer `{Capnp} (reader : Pointer) : Result Struct := get_struct reader.
Definition init_pointer `{Capnp} (build : Struct → Result Struct) : Result Pointer :=
  init_struct STRUCT_SIZE build.
Definition get_attr `{Capnp} (reader : Struct) : Result string :=
  get_text (get_pointer_field 0 reader).
Definition has_attr `{Capnp} (reader : Struct) : bool :=
  negb (is_null (get_pointer_field 0 reader)).
Definition get_attr_path `{Capnp} (reader : Struct) : Result TextList :=
  get_text_list (get_pointer_field 1 reader).
Definition has_attr_path `{Capnp} (reader : Struct) : bool :=
  negb (is_null (get_pointer_field 1 reader)).
Definition get_attrs `{Capnp} (reader : Struct) : Result TextList :=
  get_text_list (get_pointer_field 2 reader).
Definition has_attrs `{Capnp} (reader : Struct) : bool :=
  negb (is_null (get_pointer_field 2 reader)).
Definition set_attr `{Capnp} (value : string) (builder : Struct) : Struct :=
  set_pointer_field 0 (to_text value) builder.
Definition builder_has_attr `{Capnp} (builder : Struct) : bool :=
  negb (is_pointer_field_null 0 builder).
Definition init_attr_path `{Capnp} (size : N) (build : TextList → Result TextList)
  (builder : Struct) : Result Struct :=
  build_pointer 1 (init_text_list size build) builder.
Definition builder_has_attr_path `{Capnp} (builder : Struct) : bool :=
  negb (is_pointer_field_null 1 builder).
Definition init_attrs `{Capnp} (size : N) (build : TextList → Result TextList)
  (builder : Struct) : Result Struct :=
  build_pointer 2 (init_text_list size build) builder.
Definition builder_has_attrs `{Capnp} (builder : Struct) : bool :=
  negb (is_pointer_field_null 2 builder).
End attr_set.

(** [mod derivation] *)
Module derivation.
Definition STRUCT_SIZE : StructSize := mkStructSize 0 10.
Definition get_from_pointer `{Capnp} (reader : Pointer) : Result Struct := get_struct reader.
Definition init_pointer `{Capnp} (build : Struct → Result Struct) : Result Pointer :=
  init_struct STRUCT_SIZE build.
Definition get_attr `{Capnp} (reader : Struct) : Result string :=
  get_text (get_pointer_field 0 reader).
Definition has_attr `{Capnp} (reader : Struct) : bool :=
  negb (is_null (get_pointer_field 0 reader)).
Definition get_attr_path `{Capnp} (reader : Struct) : Result TextList :=
  get_text_list (get_pointer_field 1 reader).
Definition has_attr_path `{Capnp} (reader : Struct) : bool :=
  negb (is_null (get_pointer_field 1 reader)).
Definition get_name `{Capnp} (reader : Struct) : Result string :=
  get_text (get_pointer_field 2 reader).
Definition has_name `{Capnp} (reader : Struct) : bool :=
  negb (is_null (get_pointer_field 2 reader)).
Definition get_system `{Capnp} (reader : Struct) : Result string :=
  get_text (get_pointer_field 3 reader).
Definition has_system `{Capnp} (reader : Struct) : bool :=
  negb (is_null (get_pointer_field 3 reader)).
Definition get_drv_path `{Capnp} (reader : Struct) : Result string :=
  get_text (get_pointer_field 4 reader).
Definition has_drv_path `{Capnp} (reader : Struct) : bool :=
  negb (is_null (get_pointer_field 4 reader)).
Definition get_outputs `{Capnp} (reader : Struct) : Result StructList :=
  get_struct_list (get_pointer_field 5 reader).
Definition has_outputs `{Capnp} (reader : Struct) : bool :=
  negb (is_null (get_pointer_field 5 reader)).
Definition get_meta_json `{Capnp} (reader : Struct) : Result Struct :=
  text_opt.get_from_pointer (get_pointer_field 6 reader).
Definition has_meta_json `{Capnp} (reader : Struct) : bool :=
  negb (is_null (get_pointer_field 6 reader)).
Definition get_input_drvs `{Capnp} (reader : Struct) : Result StructList :=
  get_struct_list (get_pointer_field 7 reader).
Definition has_input_drvs `{Capnp} (reader : Struct) : bool :=
  negb (is_null (get_pointer_field 7 reader)).
Definition get_constituents `{Capnp} (reader : Struct) : Result Struct :=
  text_list_opt.get_from_pointer (get_pointer_field 8 reader).
Definition has_constituents `{Capnp} (reader : Struct) : bool :=
  negb (is_null (get_pointer_field 8 reader)).
Definition get_gc_root_error `{Capnp} (reader : Struct) : Result Struct :=
  text_opt.get_from_pointer (get_pointer_field 9 reader).
Definition has_gc_root_error `{Capnp} (reader : Struct) : bool :=
  negb (is_null (get_pointer_field 9 reader)).
Definition set_attr `{Capnp} (value : string) (builder : Struct) : Struct :=
  set_pointer_field 0 (to_text value) builder.
Definition builder_has_attr `{Capnp} (builder : Struct) : bool :=
  negb (is_pointer_field_null 0 builder).
Definition init_attr_path `{Capnp} (size : N) (build : TextList → Result TextList)
  (builder : Struct) : Result Struct :=
  build_pointer 1 (init_text_list size build) builder.
Definition builder_has_attr_path `{Capnp} (builder : Struct) : bool :=
  negb (is_pointer_field_null 1 builder).
Definition set_name `{Capnp} (value : string) (builder : Struct) : Struct :=
  set_pointer_field 2 (to_text value) builder.
Definition builder_has_name `{Capnp} (builder : Struct) : bool :=
  negb (is_pointer_field_null 2 builder).
Definition set_system `{Capnp} (value : string) (builder : Struct) : Struct :=
  set_pointer_field 3 (to_text value) builder.
Definition builder_has_system `{Capnp} (builder : Struct) : bool :=
  negb (is_pointer_field_null 3 builder).
Definition set_drv_path `{Capnp} (value : string) (builder : Struct) : Struct :=
  set_pointer_field 4 (to_text value) builder.
Definition builder_has_drv_path `{Capnp} (builder : Struct) : bool :=
  negb (is_pointer_field_null 4 builder).
Definition init_outputs `{Capnp} (size : N) (build : StructList → Result StructList)
  (builder : Struct) : Result Struct :=
  build_pointer 5 (init_struct_list output.STRUCT_SIZE size build) builder.
Definition builder_has_outputs `{Capnp} (builder : Struct) : bool :=
  negb (is_pointer_field_null 5 builder).
Definition init_meta_json `{Capnp} (build : Struct → Result Struct)
  (builder : Struct) : Result Struct :=
  build_pointer 6 (text_opt.init_pointer build) builder.
Definition builder_has_meta_json `{Capnp} (builder : Struct) : bool :=
  negb (is_pointer_field_null 6 builder).
Definition init_input_drvs `{Capnp} (size : N) (build : StructList → Result StructList)
  (builder : Struct) : Result Struct :=
  build_pointer 7 (init_struct_list input_drv.STRUCT_SIZE size build) builder.
Definition builder_has_input_drvs `{Capnp} (builder : Struct) : bool :=
  negb (is_pointer_field_null 7 builder).
Definition init_constituents `{Capnp} (build : Struct → Result Struct)
  (builder : Struct) : Result Struct :=
  build_pointer 8 (text_list_opt.init_pointer build) builder.
Definition builder_has_constituents `{Capnp} (builder : Struct) : bool :=
  negb (is_pointer_field_null 8 builder).
Definition init_gc_root_error `{Capnp} (build : Struct → Result Struct)
  (builder : Struct) : Result Struct :=
  build_pointer 9 (text_opt.init_pointer build) builder.
Definition builder_has_gc_root_error `{Capnp} (builder : Struct) : bool :=
  negb (is_pointer_field_null 9 builder).
End derivation.

(** [mod eval_error] *)
Module eval_error.
Definition STRUCT_SIZE : StructSize := mkStructSize 1 3.
Definition get_from_pointer `{Capnp} (reader : Pointer) : Result Struct := get_struct reader.
Definition init_pointer `{Capnp} (build : Struct → Result Struct) : Result Pointer :=
  init_struct STRUCT_SIZE build.
Definition get_attr `{Capnp} (reader : Struct) : Result string :=
  get_text (get_pointer_field 0 reader).
Definition has_attr `{Capnp} (reader : Struct) : bool :=
  negb (is_null (get_pointer_field 0 reader)).
Definition get_attr_path `{Capnp} (reader : Struct) : Result TextList :=
  get_text_list (get_pointer_field 1 reader).
Definition has_attr_path `{Capnp} (reader : Struct) : bool :=
  negb (is_null (get_pointer_field 1 reader)).
Definition get_error `{Capnp} (reader : Struct) : Result string :=
  get_text (get_pointer_field 2 reader).
Definition has_error `{Capnp} (reader : Struct) : bool :=
  negb (is_null (get_pointer_field 2 reader)).
Definition get_fatal `{Capnp} (reader : Struct) : bool := get_bool_field 0 reader.
Definition set_attr `{Capnp} (value : string) (builder : Struct) : Struct :=
  set_pointer_field 0 (to_text value) builder.
Definition builder_has_attr `{Capnp} (builder : Struct) : bool :=
  negb (is_pointer_field_null 0 builder).
Definition init_attr_path `{Capnp} (size : N) (build : TextList → Result TextList)
  (builder : Struct) : Result Struct :=
  build_pointer 1 (init_text_list size build) builder.
Definition builder_has_attr_path `{Capnp} (builder : Struct) : bool :=
  negb (is_pointer_field_null 1 builder).
Definition set_error `{Capnp} (value : string) (builder : Struct) : Struct :=
  set_pointer_field 2 (to_text value) builder.
Definition builder_has_error `{Capnp} (builder : Struct) : bool :=
  negb (is_pointer_field_null 2 builder).
Definition set_fatal `{Capnp} (value : bool) (builder : Struct) : Struct :=
  set_bool_field 0 value builder.
End eval_error.

(** [mod event] *)
Module event.
Definition STRUCT_SIZE : StructSize := mkStructSize 1 1.
Definition get_from_pointer `{Capnp} (reader : Pointer) : Result Struct := get_struct reader.
Definition init_pointer `{Capnp} (build : Struct → Result Struct) : Result Pointer :=
  init_struct STRUCT_SIZE build.
Inductive Which (A0 A1 A2 : Type) : Type := Derivation (a : A0) | AttrSet (a : A1) | Error (a : A2).
Arguments Derivation {_ _ _} _.
Arguments AttrSet {_ _ _} _.
Arguments Error {_ _ _} _.
Definition has_derivation `{Capnp} (reader : Struct) : bool :=
  if negb (get_data_field 16 0 reader =? 0) then false
  else negb (is_null (get_pointer_field 0 reader)).
Definition has_attr_set `{Capnp} (reader : Struct) : bool :=
  if negb (get_data_field 16 0 reader =? 1) then false
  else negb (is_null (get_pointer_field 0 reader)).
Definition has_error `{Capnp} (reader : Struct) : bool :=
  if negb (get_data_field 16 0 reader =? 2) then false
  else negb (is_null (get_pointer_field 0 reader)).
Definition which `{Capnp} (reader : Struct)
  : Result (Which (Result Struct) (Result Struct) (Result Struct)) :=
  match get_data_field 16 0 reader with
  | 0 => Ok (Derivation (derivation.get_from_pointer (get_pointer_field 0 reader)))
  | 1 => Ok (AttrSet (attr_set.get_from_pointer (get_pointer_field 0 reader)))
  | 2 => Ok (Error (eval_error.get_from_pointer (get_pointer_field 0 reader)))
  | x => Err (not_in_schema x)
  end.
Definition init_derivation `{Capnp} (build : Struct → Result Struct)
  (builder : Struct) : Result Struct :=
  build_pointer 0 (derivation.init_pointer build) (set_data_field 16 0 0 builder).
Definition builder_has_derivation `{Capnp} (builder : Struct) : bool :=
  if negb (get_data_field 16 0 builder =? 0) then false
  else negb (is_pointer_field_null 0 builder).
Definition init_attr_set `{Capnp} (build : Struct → Result Struct)
  (builder : Struct) : Result Struct :=
  build_pointer 0 (attr_set.init_pointer build) (set_data_field 16 0 1 builder).
Definition builder_has_attr_set `{Capnp} (builder : Struct) : bool :=
  if negb (get_data_field 16 0 builder =? 1) then false
  else negb (is_pointer_field_null 0 builder).
Definition init_error `{Capnp} (build : Struct → Result Struct)
  (builder : Struct) : Result Struct :=
  build_pointer 0 (eval_error.init_pointer build) (set_data_field 16 0 2 builder).
Definition builder_has_error `{Capnp} (builder : Struct) : bool :=
  if negb (get_data_field 16 0 builder =? 2) then false
  else negb (is_pointer_field_null 0 builder).
End event.

(** [enum WorkerStatus] *)
Module WorkerStatus.
Inductive t : Type := Ready | Restart.
Definition try_from `{Capnp} (value : N) : Result t :=
  match value with 0 => Ok Ready | 1 => Ok Restart | n => Err (not_in_schema n) end.
Definition to_u16 (x : t) : N := match x with Ready => 0 | Restart => 1 end.
End WorkerStatus.

(** [mod server_message] *)
Module server_message.
Definition STRUCT_SIZE : StructSize := mkStructSize 1 1.
Definition get_from_pointer `{Capnp} (reader : Pointer) : Result Struct := get_struct reader.
Definition init_pointer `{Capnp} (build : Struct → Result Struct) : Result Pointer :=
  init_struct STRUCT_SIZE build.
Inductive Which (A0 A1 : Type) : Type := Ready (a : unit) | Event (a : A0) | Status (a : Result WorkerStatus.t) | Error (a : A1).
Arguments Ready {_ _} _.
Arguments Event {_ _} _.
Arguments Status {_ _} _.
Arguments Error {_ _} _.
Definition has_event `{Capnp} (reader : Struct) : bool :=
  if negb (get_data_field 16 0 reader =? 1) then false
  else negb (is_null (get_pointer_field 0 reader)).
Definition has_error `{Capnp} (reader : Struct) : bool :=
  if negb (get_data_field 16 0 reader =? 3) then false
  else negb (is_null (get_pointer_field 0 reader)).
Definition which `{Capnp} (reader : Struct) : Result (Which (Result Struct) (Result string)) :=
  match get_data_field 16 0 reader with
  | 0 => Ok (Ready tt)
  | 1 => Ok (Event (event.get_from_pointer (get_pointer_field 0 reader)))
  | 2 => Ok (Status (WorkerStatus.try_from (get_data_field 16 1 reader)))
  | 3 => Ok (Error (get_text (get_pointer_field 0 reader)))
  | x => Err (not_in_schema x)
  end.
Definition set_ready `{Capnp} (_ : unit) (builder : Struct) : Struct :=
  set_data_field 16 0 0 builder.
Definition init_event `{Capnp} (build : Struct → Result Struct)
  (builder : Struct) : Result Struct :=
  build_pointer 0 (event.init_pointer build) (set_data_field 16 0 1 builder).
Definition builder_has_event `{Capnp} (builder : Struct) : bool :=
  if negb (get_data_field 16 0 builder =? 1) then false
  else negb (is_pointer_field_null 0 builder).
Definition set_status `{Capnp} (value : WorkerStatus.t) (builder : Struct) : Struct :=
  set_data_field 16 1 (WorkerStatus.to_u16 value) (set_data_field 16 0 2 builder).
Definition set_error `{Capnp} (value : string) (builder : Struct) : Struct :=
  set_pointer_field 0 (to_text value) (set_data_field 16 0 3 builder).
Definition builder_has_error `{Capnp} (builder : Struct) : bool :=
  if negb (get_data_field 16 0 builder =? 3) then false
  else negb (is_pointer_field_null 0 builder).
End server_message.

(** [mod client_message] *)
Module client_message.
Definition STRUCT_SIZE : StructSize := mkStructSize 1 1.
Definition get_from_pointer `{Capnp} (reader : Pointer) : Result Struct := get_struct reader.
Definition init_pointer `{Capnp} (build : Struct → Result Struct) : Result Pointer :=
  init_struct STRUCT_SIZE build.
Inductive Which (A0 A1 : Type) : Type := Setup (a : A0) | Work (a : A1) | Shutdown (a : unit).
Arguments Setup {_ _} _.
Arguments Work {_ _} _.
Arguments Shutdown {_ _} _.
Definition has_setup `{Capnp} (reader : Struct) : bool :=
  if negb (get_data_field 16 0 reader =? 0) then false
  else negb (is_null (get_pointer_field 0 reader)).
Definition has_work `{Capnp} (reader : Struct) : bool :=
  if negb (get_data_field 16 0 reader =? 1) then false
  else negb (is_null (get_pointer_field 0 reader)).
Definition which `{Capnp} (reader : Struct) : Result (Which (Result Struct) (Result Struct)) :=
  match get_data_field 16 0 reader with
  | 0 => Ok (Setup (setup.get_from_pointer (get_pointer_field 0 reader)))
  | 1 => Ok (Work (work.get_from_pointer (get_pointer_field 0 reader)))
  | 2 => Ok (Shutdown tt)
  | x => Err (not_in_schema x)
  end.
Definition init_setup `{Capnp} (build : Struct → Result Struct)
  (builder : Struct) : Result Struct :=
  build_pointer 0 (setup.init_pointer build) (set_data_field 16 0 0 builder).
Definition builder_has_setup `{Capnp} (builder : Struct) : bool :=
  if negb (get_data_field 16 0 builder =? 0) then false
  else negb (is_pointer_field_null 0 builder).
Definition init_work `{Capnp} (build : Struct → Result Struct) (builder : Struct) : Result Struct :=
  build_pointer 0 (work.init_pointer build) (set_data_field 16 0 1 builder).
Definition builder_has_work `{Capnp} (builder : Struct) : bool :=
  if negb (get_data_field 16 0 builder =? 1) then false
  else negb (is_pointer_field_null 0 builder).
Definition set_shutdown `{Capnp} (_ : unit) (builder : Struct) : Struct :=
  set_data_field 16 0 2 builder.
End client_message.

(** The fields that accessors read and write *)
Create HintDb accessors.
#[export] Hint Unfold string_pair.get_key string_pair.get_value string_pair.set_key
   string_pair.set_value : accessors.
#[export] Hint Unfold text_opt.which text_opt.set_none text_opt.set_some : accessors.
#[export] Hint Unfold text_list_opt.which text_list_opt.set_none : accessors.
#[export] Hint Unfold input.which input.set_flake input.set_expr input.set_file : accessors.
#[export] Hint Unfold auto_arg.get_name auto_arg.which auto_arg.set_name auto_arg.set_expr
   auto_arg.set_str : accessors.
#[export] Hint Unfold output.get_name output.which output.set_name output.set_absent
   output.set_path : accessors.
#[export] Hint Unfold input_drv.get_drv_path input_drv.get_value_json input_drv.set_drv_path
   input_drv.set_value_json : accessors.
#[export] Hint Unfold worker_config.get_input worker_config.get_auto_args
   worker_config.get_force_recurse worker_config.get_gc_roots_dir
   worker_config.get_max_memory_size worker_config.get_meta worker_config.get_show_input_drvs
   worker_config.get_override_inputs worker_config.get_nix_options
   worker_config.get_item_timeout_seconds worker_config.get_locked_flake_json
   worker_config.set_force_recurse worker_config.set_max_memory_size worker_config.set_meta
   worker_config.set_show_input_drvs worker_config.set_item_timeout_seconds : accessors.
#[export] Hint Unfold setup.get_config setup.get_token setup.get_expected_store_dir
   setup.get_protocol_version setup.set_protocol_version : accessors.
#[export] Hint Unfold work.get_attr_path : accessors.
#[export] Hint Unfold attr_set.get_attr attr_set.get_attr_path attr_set.get_attrs
   attr_set.set_attr : accessors.
#[export] Hint Unfold derivation.get_attr derivation.get_attr_path derivation.get_name
   derivation.get_system derivation.get_drv_path derivation.get_outputs derivation.get_meta_json
   derivation.get_input_drvs derivation.get_constituents derivation.get_gc_root_error
   derivation.set_attr derivation.set_name derivation.set_system derivation.set_drv_path : accessors.
#[export] Hint Unfold eval_error.get_attr eval_error.get_attr_path eval_error.get_error
   eval_error.get_fatal eval_error.set_attr eval_error.set_error eval_error.set_fatal : accessors.
#[export] Hint Unfold event.which : accessors.
#[export] Hint Unfold server_message.which server_message.set_ready server_message.set_status
   server_message.set_error : accessors.
#[export] Hint Unfold client_message.which client_message.set_shutdown : accessors.
