(* ===== verification/SchemaNodes.v ===== *)
(** * The schema tables of the generated code

    [crates/evix/src/generated/worker_capnp.rs]: for every struct of the schema,
    in a module of its name, the tables of its [mod _private]: its node, in the
    encoding of the Cap'n Proto schema compiler, the types of its fields, and its
    members by kind and order. [SchemaCheck.v] reads them. *)
From S2P Require Import Prelude.
Local Open Scope N_scope.

(** [capnp::word]: eight bytes, the lowest first *)
Definition word (b0 b1 b2 b3 b4 b5 b6 b7 : N) : N :=
  foldr (λ byte rest, byte + 256 * rest) 0 [b0; b1; b2; b3; b4; b5; b6; b7].

(** What [introspect] tells of a type; a struct or an enum by its id. *)
Inductive FieldType : Type :=
  | TVoid | TBool | TUInt32 | TUInt64 | TText
  | TList (element : FieldType)
  | TStruct (type_id : N)
  | TEnum (type_id : N).

#[export] Instance field_type_eq_dec : EqDecision FieldType.
Proof. solve_decision. Defined.

(** [RawStructSchema] and [RawBrandedStructSchema]; [None] is the panic for an
    index that is no field. *)
Record RawStructSchema := mkRawStructSchema {
  encoded_node : list N;
  nonunion_members : list N;
  members_by_discriminant : list N;
  members_by_name : list N;
}.
Record RawBrandedStructSchema := mkRawBrandedStructSchema {
  generic : RawStructSchema;
  field_types : N → option FieldType;
}.

(** [mod string_pair::_private] *)
Module string_pair.
Definition ENCODED_NODE : list N :=
  [word 0 0 0 0 6 0 6 0; word 40 38 180 165 45 26 60 128; word 13 0 0 0 1 0 0 0;
   word 71 249 242 178 159 141 76 167; word 2 0 7 0 0 0 0 0; word 0 0 0 0 0 0 0 0;
   word 221 3 0 0 20 4 0 0; word 21 0 0 0 194 0 0 0; word 29 0 0 0 7 0 0 0; word 0 0 0 0 0 0 0 0;
   word 25 0 0 0 119 0 0 0; word 0 0 0 0 0 0 0 0; word 0 0 0 0 0 0 0 0;
   word 119 111 114 107 101 114 46 99; word 97 112 110 112 58 83 116 114;
   word 105 110 103 80 97 105 114 0; word 0 0 0 0 1 0 1 0; word 8 0 0 0 3 0 4 0;
   word 0 0 0 0 0 0 0 0; word 0 0 1 0 0 0 0 0; word 0 0 0 0 0 0 0 0; word 41 0 0 0 34 0 0 0;
   word 0 0 0 0 0 0 0 0; word 36 0 0 0 3 0 1 0; word 48 0 0 0 2 0 1 0; word 1 0 0 0 1 0 0 0;
   word 0 0 1 0 1 0 0 0; word 0 0 0 0 0 0 0 0; word 45 0 0 0 50 0 0 0; word 0 0 0 0 0 0 0 0;
   word 40 0 0 0 3 0 1 0; word 52 0 0 0 2 0 1 0; word 107 101 121 0 0 0 0 0;
   word 12 0 0 0 0 0 0 0; word 0 0 0 0 0 0 0 0; word 0 0 0 0 0 0 0 0; word 0 0 0 0 0 0 0 0;
   word 12 0 0 0 0 0 0 0; word 0 0 0 0 0 0 0 0; word 0 0 0 0 0 0 0 0;
   word 118 97 108 117 101 0 0 0; word 12 0 0 0 0 0 0 0; word 0 0 0 0 0 0 0 0;
   word 0 0 0 0 0 0 0 0; word 0 0 0 0 0 0 0 0; word 12 0 0 0 0 0 0 0; word 0 0 0 0 0 0 0 0;
   word 0 0 0 0 0 0 0 0].
Definition get_field_types (index : N) : option FieldType :=
  match index with
  | 0 => Some TText
  | 1 => Some TText
  | _ => None
  end.
Definition NONUNION_MEMBERS : list N := [0; 1].
Definition MEMBERS_BY_DISCRIMINANT : list N := [].
Definition MEMBERS_BY_NAME : list N := [0; 1].
Definition TYPE_ID : N := 0x803c1a2da5b42628.
Definition RAW_SCHEMA : RawStructSchema :=
  mkRawStructSchema ENCODED_NODE NONUNION_MEMBERS MEMBERS_BY_DISCRIMINANT MEMBERS_BY_NAME.
Definition introspect : RawBrandedStructSchema :=
  mkRawBrandedStructSchema RAW_SCHEMA get_field_types.
End string_pair.

(** [mod text_opt::_private] *)
Module text_opt.
Definition ENCODED_NODE : list N :=
  [word 0 0 0 0 6 0 6 0; word 46 74 16 117 84 96 216 189; word 13 0 0 0 1 0 1 0;
   word 71 249 242 178 159 141 76 167; word 1 0 7 0 0 0 2 0; word 0 0 0 0 0 0 0 0;
   word 22 4 0 0 92 4 0 0; word 21 0 0 0 170 0 0 0; word 29 0 0 0 7 0 0 0; word 0 0 0 0 0 0 0 0;
   word 25 0 0 0 119 0 0 0; word 0 0 0 0 0 0 0 0; word 0 0 0 0 0 0 0 0;
   word 119 111 114 107 101 114 46 99; word 97 112 110 112 58 84 101 120;
   word 116 79 112 116 0 0 0 0; word 0 0 0 0 1 0 1 0; word 8 0 0 0 3 0 4 0;
   word 0 0 255 255 0 0 0 0; word 0 0 1 0 0 0 0 0; word 0 0 0 0 0 0 0 0; word 41 0 0 0 42 0 0 0;
   word 0 0 0 0 0 0 0 0; word 36 0 0 0 3 0 1 0; word 48 0 0 0 2 0 1 0; word 1 0 254 255 0 0 0 0;
   word 0 0 1 0 1 0 0 0; word 0 0 0 0 0 0 0 0; word 45 0 0 0 42 0 0 0; word 0 0 0 0 0 0 0 0;
   word 40 0 0 0 3 0 1 0; word 52 0 0 0 2 0 1 0; word 110 111 110 101 0 0 0 0;
   word 0 0 0 0 0 0 0 0; word 0 0 0 0 0 0 0 0; word 0 0 0 0 0 0 0 0; word 0 0 0 0 0 0 0 0;
   word 0 0 0 0 0 0 0 0; word 0 0 0 0 0 0 0 0; word 0 0 0 0 0 0 0 0;
   word 115 111 109 101 0 0 0 0; word 12 0 0 0 0 0 0 0; word 0 0 0 0 0 0 0 0;
   word 0 0 0 0 0 0 0 0; word 0 0 0 0 0 0 0 0; word 12 0 0 0 0 0 0 0; word 0 0 0 0 0 0 0 0;
   word 0 0 0 0 0 0 0 0].
Definition get_field_types (index : N) : option FieldType :=
  match index with
  | 0 => Some TVoid
  | 1 => Some TText
  | _ => None
  end.
Definition NONUNION_MEMBERS : list N := [].
Definition MEMBERS_BY_DISCRIMINANT : list N := [0; 1].
Definition MEMBERS_BY_NAME : list N := [0; 1].
Definition TYPE_ID : N := 0xbdd8605475104a2e.
Definition RAW_SCHEMA : RawStructSchema :=
  mkRawStructSchema ENCODED_NODE NONUNION_MEMBERS MEMBERS_BY_DISCRIMINANT MEMBERS_BY_NAME.
Definition introspect : RawBrandedStructSchema :=
  mkRawBrandedStructSchema RAW_SCHEMA get_field_types.
End text_opt.

(** [mod text_list_opt::_private] *)
Module text_list_opt.
Definition ENCODED_NODE : list N :=
  [word 0 0 0 0 6 0 6 0; word 98 128 50 5 13 124 51 137; word 13 0 0 0 1 0 1 0;
   word 71 249 242 178 159 141 76 167; word 1 0 7 0 0 0 2 0; word 0 0 0 0 0 0 0 0;
   word 202 6 0 0 26 7 0 0; word 21 0 0 0 202 0 0 0; word 33 0 0 0 7 0 0 0; word 0 0 0 0 0 0 0 0;
   word 29 0 0 0 119 0 0 0; word 0 0 0 0 0 0 0 0; word 0 0 0 0 0 0 0 0;
   word 119 111 114 107 101 114 46 99; word 97 112 110 112 58 84 101 120;
   word 116 76 105 115 116 79 112 116; word 0 0 0 0 0 0 0 0; word 0 0 0 0 1 0 1 0;
   word 8 0 0 0 3 0 4 0; word 0 0 255 255 0 0 0 0; word 0 0 1 0 0 0 0 0; word 0 0 0 0 0 0 0 0;
   word 41 0 0 0 42 0 0 0; word 0 0 0 0 0 0 0 0; word 36 0 0 0 3 0 1 0; word 48 0 0 0 2 0 1 0;
   word 1 0 254 255 0 0 0 0; word 0 0 1 0 1 0 0 0; word 0 0 0 0 0 0 0 0; word 45 0 0 0 42 0 0 0;
   word 0 0 0 0 0 0 0 0; word 40 0 0 0 3 0 1 0; word 68 0 0 0 2 0 1 0;
   word 110 111 110 101 0 0 0 0; word 0 0 0 0 0 0 0 0; word 0 0 0 0 0 0 0 0;
   word 0 0 0 0 0 0 0 0; word 0 0 0 0 0 0 0 0; word 0 0 0 0 0 0 0 0; word 0 0 0 0 0 0 0 0;
   word 0 0 0 0 0 0 0 0; word 115 111 109 101 0 0 0 0; word 14 0 0 0 0 0 0 0;
   word 0 0 0 0 0 0 0 0; word 0 0 0 0 0 0 0 0; word 0 0 0 0 3 0 1 0; word 12 0 0 0 0 0 0 0;
   word 0 0 0 0 0 0 0 0; word 0 0 0 0 0 0 0 0; word 0 0 0 0 0 0 0 0; word 14 0 0 0 0 0 0 0;
   word 0 0 0 0 0 0 0 0; word 0 0 0 0 0 0 0 0].
Definition get_field_types (index : N) : option FieldType :=
  match index with
  | 0 => Some TVoid
  | 1 => Some (TList TText)
  | _ => None
  end.
Definition NONUNION_MEMBERS : list N := [].
Definition MEMBERS_BY_DISCRIMINANT : list N := [0; 1].
Definition MEMBERS_BY_NAME : list N := [0; 1].
Definition TYPE_ID : N := 0x89337c0d05328062.
Definition RAW_SCHEMA : RawStructSchema :=
  mkRawStructSchema ENCODED_NODE NONUNION_MEMBERS MEMBERS_BY_DISCRIMINANT MEMBERS_BY_NAME.
Definition introspect : RawBrandedStructSchema :=
  mkRawBrandedStructSchema RAW_SCHEMA get_field_types.
End text_list_opt.

(** [mod input::_private] *)
Module input.
Definition ENCODED_NODE : list N :=
  [word 0 0 0 0 6 0 6 0; word 0 153 157 158 86 231 35 239; word 13 0 0 0 1 0 1 0;
   word 71 249 242 178 159 141 76 167; word 1 0 7 0 0 0 3 0; word 0 0 0 0 0 0 0 0;
   word 43 3 0 0 131 3 0 0; word 21 0 0 0 154 0 0 0; word 29 0 0 0 7 0 0 0; word 0 0 0 0 0 0 0 0;
   word 25 0 0 0 175 0 0 0; word 0 0 0 0 0 0 0 0; word 0 0 0 0 0 0 0 0;
   word 119 111 114 107 101 114 46 99; word 97 112 110 112 58 73 110 112;
   word 117 116 0 0 0 0 0 0; word 0 0 0 0 1 0 1 0; word 12 0 0 0 3 0 4 0;
   word 0 0 255 255 0 0 0 0; word 0 0 1 0 0 0 0 0; word 0 0 0 0 0 0 0 0; word 69 0 0 0 50 0 0 0;
   word 0 0 0 0 0 0 0 0; word 64 0 0 0 3 0 1 0; word 76 0 0 0 2 0 1 0; word 1 0 254 255 0 0 0 0;
   word 0 0 1 0 1 0 0 0; word 0 0 0 0 0 0 0 0; word 73 0 0 0 42 0 0 0; word 0 0 0 0 0 0 0 0;
   word 68 0 0 0 3 0 1 0; word 80 0 0 0 2 0 1 0; word 2 0 253 255 0 0 0 0; word 0 0 1 0 2 0 0 0;
   word 0 0 0 0 0 0 0 0; word 77 0 0 0 42 0 0 0; word 0 0 0 0 0 0 0 0; word 72 0 0 0 3 0 1 0;
   word 84 0 0 0 2 0 1 0; word 102 108 97 107 101 0 0 0; word 12 0 0 0 0 0 0 0;
   word 0 0 0 0 0 0 0 0; word 0 0 0 0 0 0 0 0; word 0 0 0 0 0 0 0 0; word 12 0 0 0 0 0 0 0;
   word 0 0 0 0 0 0 0 0; word 0 0 0 0 0 0 0 0; word 101 120 112 114 0 0 0 0;
   word 12 0 0 0 0 0 0 0; word 0 0 0 0 0 0 0 0; word 0 0 0 0 0 0 0 0; word 0 0 0 0 0 0 0 0;
   word 12 0 0 0 0 0 0 0; word 0 0 0 0 0 0 0 0; word 0 0 0 0 0 0 0 0;
   word 102 105 108 101 0 0 0 0; word 12 0 0 0 0 0 0 0; word 0 0 0 0 0 0 0 0;
   word 0 0 0 0 0 0 0 0; word 0 0 0 0 0 0 0 0; word 12 0 0 0 0 0 0 0; word 0 0 0 0 0 0 0 0;
   word 0 0 0 0 0 0 0 0].
Definition get_field_types (index : N) : option FieldType :=
  match index with
  | 0 => Some TText
  | 1 => Some TText
  | 2 => Some TText
  | _ => None
  end.
Definition NONUNION_MEMBERS : list N := [].
Definition MEMBERS_BY_DISCRIMINANT : list N := [0; 1; 2].
Definition MEMBERS_BY_NAME : list N := [1; 2; 0].
Definition TYPE_ID : N := 0xef23e7569e9d9900.
Definition RAW_SCHEMA : RawStructSchema :=
  mkRawStructSchema ENCODED_NODE NONUNION_MEMBERS MEMBERS_BY_DISCRIMINANT MEMBERS_BY_NAME.
Definition introspect : RawBrandedStructSchema :=
  mkRawBrandedStructSchema RAW_SCHEMA get_field_types.
End input.

(** [mod auto_arg::_private] *)
Module auto_arg.
Definition ENCODED_NODE : list N :=
  [word 0 0 0 0 6 0 6 0; word 165 129 143 223 110 63 24 131; word 13 0 0 0 1 0 1 0;
   word 71 249 242 178 159 141 76 167; word 2 0 7 0 0 0 2 0; word 0 0 0 0 0 0 0 0;
   word 133 3 0 0 219 3 0 0; word 21 0 0 0 170 0 0 0; word 29 0 0 0 7 0 0 0;
   word 0 0 0 0 0 0 0 0; word 25 0 0 0 175 0 0 0; word 0 0 0 0 0 0 0 0; word 0 0 0 0 0 0 0 0;
   word 119 111 114 107 101 114 46 99; word 97 112 110 112 58 65 117 116;
   word 111 65 114 103 0 0 0 0; word 0 0 0 0 1 0 1 0; word 12 0 0 0 3 0 4 0;
   word 0 0 0 0 0 0 0 0; word 0 0 1 0 0 0 0 0; word 0 0 0 0 0 0 0 0; word 69 0 0 0 42 0 0 0;
   word 0 0 0 0 0 0 0 0; word 64 0 0 0 3 0 1 0; word 76 0 0 0 2 0 1 0; word 1 0 255 255 1 0 0 0;
   word 0 0 1 0 1 0 0 0; word 0 0 0 0 0 0 0 0; word 73 0 0 0 42 0 0 0; word 0 0 0 0 0 0 0 0;
   word 68 0 0 0 3 0 1 0; word 80 0 0 0 2 0 1 0; word 2 0 254 255 1 0 0 0; word 0 0 1 0 2 0 0 0;
   word 0 0 0 0 0 0 0 0; word 77 0 0 0 34 0 0 0; word 0 0 0 0 0 0 0 0; word 72 0 0 0 3 0 1 0;
   word 84 0 0 0 2 0 1 0; word 110 97 109 101 0 0 0 0; word 12 0 0 0 0 0 0 0;
   word 0 0 0 0 0 0 0 0; word 0 0 0 0 0 0 0 0; word 0 0 0 0 0 0 0 0; word 12 0 0 0 0 0 0 0;
   word 0 0 0 0 0 0 0 0; word 0 0 0 0 0 0 0 0; word 101 120 112 114 0 0 0 0;
   word 12 0 0 0 0 0 0 0; word 0 0 0 0 0 0 0 0; word 0 0 0 0 0 0 0 0; word 0 0 0 0 0 0 0 0;
   word 12 0 0 0 0 0 0 0; word 0 0 0 0 0 0 0 0; word 0 0 0 0 0 0 0 0; word 115 116 114 0 0 0 0 0;
   word 12 0 0 0 0 0 0 0; word 0 0 0 0 0 0 0 0; word 0 0 0 0 0 0 0 0; word 0 0 0 0 0 0 0 0;
   word 12 0 0 0 0 0 0 0; word 0 0 0 0 0 0 0 0; word 0 0 0 0 0 0 0 0].
Definition get_field_types (index : N) : option FieldType :=
  match index with
  | 0 => Some TText
  | 1 => Some TText
  | 2 => Some TText
  | _ => None
  end.
Definition NONUNION_MEMBERS : list N := [0].
Definition MEMBERS_BY_DISCRIMINANT : list N := [1; 2].
Definition MEMBERS_BY_NAME : list N := [1; 0; 2].
Definition TYPE_ID : N := 0x83183f6edf8f81a5.
Definition RAW_SCHEMA : RawStructSchema :=
  mkRawStructSchema ENCODED_NODE NONUNION_MEMBERS MEMBERS_BY_DISCRIMINANT MEMBERS_BY_NAME.
Definition introspect : RawBrandedStructSchema :=
  mkRawBrandedStructSchema RAW_SCHEMA get_field_types.
End auto_arg.

(** [mod output::_private] *)
Module output.
Definition ENCODED_NODE : list N :=
  [word 0 0 0 0 6 0 6 0; word 111 3 113 70 91 119 89 196; word 13 0 0 0 1 0 1 0;
   word 71 249 242 178 159 141 76 167; word 2 0 7 0 0 0 2 0; word 0 0 0 0 0 0 0 0;
   word 49 6 0 0 137 6 0 0; word 21 0 0 0 162 0 0 0; word 29 0 0 0 7 0 0 0; word 0 0 0 0 0 0 0 0;
   word 25 0 0 0 175 0 0 0; word 0 0 0 0 0 0 0 0; word 0 0 0 0 0 0 0 0;
   word 119 111 114 107 101 114 46 99; word 97 112 110 112 58 79 117 116;
   word 112 117 116 0 0 0 0 0; word 0 0 0 0 1 0 1 0; word 12 0 0 0 3 0 4 0; word 0 0 0 0 0 0 0 0;
   word 0 0 1 0 0 0 0 0; word 0 0 0 0 0 0 0 0; word 69 0 0 0 42 0 0 0; word 0 0 0 0 0 0 0 0;
   word 64 0 0 0 3 0 1 0; word 76 0 0 0 2 0 1 0; word 1 0 255 255 0 0 0 0; word 0 0 1 0 1 0 0 0;
   word 0 0 0 0 0 0 0 0; word 73 0 0 0 58 0 0 0; word 0 0 0 0 0 0 0 0; word 68 0 0 0 3 0 1 0;
   word 80 0 0 0 2 0 1 0; word 2 0 254 255 1 0 0 0; word 0 0 1 0 2 0 0 0; word 0 0 0 0 0 0 0 0;
   word 77 0 0 0 42 0 0 0; word 0 0 0 0 0 0 0 0; word 72 0 0 0 3 0 1 0; word 84 0 0 0 2 0 1 0;
   word 110 97 109 101 0 0 0 0; word 12 0 0 0 0 0 0 0; word 0 0 0 0 0 0 0 0;
   word 0 0 0 0 0 0 0 0; word 0 0 0 0 0 0 0 0; word 12 0 0 0 0 0 0 0; word 0 0 0 0 0 0 0 0;
   word 0 0 0 0 0 0 0 0; word 97 98 115 101 110 116 0 0; word 0 0 0 0 0 0 0 0;
   word 0 0 0 0 0 0 0 0; word 0 0 0 0 0 0 0 0; word 0 0 0 0 0 0 0 0; word 0 0 0 0 0 0 0 0;
   word 0 0 0 0 0 0 0 0; word 0 0 0 0 0 0 0 0; word 112 97 116 104 0 0 0 0;
   word 12 0 0 0 0 0 0 0; word 0 0 0 0 0 0 0 0; word 0 0 0 0 0 0 0 0; word 0 0 0 0 0 0 0 0;
   word 12 0 0 0 0 0 0 0; word 0 0 0 0 0 0 0 0; word 0 0 0 0 0 0 0 0].
Definition get_field_types (index : N) : option FieldType :=
  match index with
  | 0 => Some TText
  | 1 => Some TVoid
  | 2 => Some TText
  | _ => None
  end.
Definition NONUNION_MEMBERS : list N := [0].
Definition MEMBERS_BY_DISCRIMINANT : list N := [1; 2].
Definition MEMBERS_BY_NAME : list N := [1; 0; 2].
Definition TYPE_ID : N := 0xc459775b4671036f.
Definition RAW_SCHEMA : RawStructSchema :=
  mkRawStructSchema ENCODED_NODE NONUNION_MEMBERS MEMBERS_BY_DISCRIMINANT MEMBERS_BY_NAME.
Definition introspect : RawBrandedStructSchema :=
  mkRawBrandedStructSchema RAW_SCHEMA get_field_types.
End output.

(** [mod input_drv::_private] *)
Module input_drv.
Definition ENCODED_NODE : list N :=
  [word 0 0 0 0 6 0 6 0; word 111 24 172 11 131 241 10 129; word 13 0 0 0 1 0 0 0;
   word 71 249 242 178 159 141 76 167; word 2 0 7 0 0 0 0 0; word 0 0 0 0 0 0 0 0;
   word 139 6 0 0 200 6 0 0; word 21 0 0 0 178 0 0 0; word 29 0 0 0 7 0 0 0;
   word 0 0 0 0 0 0 0 0; word 25 0 0 0 119 0 0 0; word 0 0 0 0 0 0 0 0; word 0 0 0 0 0 0 0 0;
   word 119 111 114 107 101 114 46 99; word 97 112 110 112 58 73 110 112;
   word 117 116 68 114 118 0 0 0; word 0 0 0 0 1 0 1 0; word 8 0 0 0 3 0 4 0;
   word 0 0 0 0 0 0 0 0; word 0 0 1 0 0 0 0 0; word 0 0 0 0 0 0 0 0; word 41 0 0 0 66 0 0 0;
   word 0 0 0 0 0 0 0 0; word 36 0 0 0 3 0 1 0; word 48 0 0 0 2 0 1 0; word 1 0 0 0 1 0 0 0;
   word 0 0 1 0 1 0 0 0; word 0 0 0 0 0 0 0 0; word 45 0 0 0 82 0 0 0; word 0 0 0 0 0 0 0 0;
   word 44 0 0 0 3 0 1 0; word 56 0 0 0 2 0 1 0; word 100 114 118 80 97 116 104 0;
   word 12 0 0 0 0 0 0 0; word 0 0 0 0 0 0 0 0; word 0 0 0 0 0 0 0 0; word 0 0 0 0 0 0 0 0;
   word 12 0 0 0 0 0 0 0; word 0 0 0 0 0 0 0 0; word 0 0 0 0 0 0 0 0;
   word 118 97 108 117 101 74 115 111; word 110 0 0 0 0 0 0 0; word 12 0 0 0 0 0 0 0;
   word 0 0 0 0 0 0 0 0; word 0 0 0 0 0 0 0 0; word 0 0 0 0 0 0 0 0; word 12 0 0 0 0 0 0 0;
   word 0 0 0 0 0 0 0 0; word 0 0 0 0 0 0 0 0].
Definition get_field_types (index : N) : option FieldType :=
  match index with
  | 0 => Some TText
  | 1 => Some TText
  | _ => None
  end.
Definition NONUNION_MEMBERS : list N := [0; 1].
Definition MEMBERS_BY_DISCRIMINANT : list N := [].
Definition MEMBERS_BY_NAME : list N := [0; 1].
Definition TYPE_ID : N := 0x810af1830bac186f.
Definition RAW_SCHEMA : RawStructSchema :=
  mkRawStructSchema ENCODED_NODE NONUNION_MEMBERS MEMBERS_BY_DISCRIMINANT MEMBERS_BY_NAME.
Definition introspect : RawBrandedStructSchema :=
  mkRawBrandedStructSchema RAW_SCHEMA get_field_types.
End input_drv.

(** [mod worker_config::_private] *)
Module worker_config.
Definition ENCODED_NODE : list N :=
  [word 0 0 0 0 6 0 6 0; word 228 173 88 49 109 121 210 214; word 13 0 0 0 1 0 3 0;
   word 71 249 242 178 159 141 76 167; word 6 0 7 0 0 0 0 0; word 0 0 0 0 0 0 0 0;
   word 220 1 0 0 41 3 0 0; word 21 0 0 0 210 0 0 0; word 33 0 0 0 7 0 0 0; word 0 0 0 0 0 0 0 0;
   word 29 0 0 0 111 2 0 0; word 0 0 0 0 0 0 0 0; word 0 0 0 0 0 0 0 0;
   word 119 111 114 107 101 114 46 99; word 97 112 110 112 58 87 111 114;
   word 107 101 114 67 111 110 102 105; word 103 0 0 0 0 0 0 0; word 0 0 0 0 1 0 1 0;
   word 44 0 0 0 3 0 4 0; word 0 0 0 0 0 0 0 0; word 0 0 1 0 0 0 0 0; word 0 0 0 0 0 0 0 0;
   word 37 1 0 0 50 0 0 0; word 0 0 0 0 0 0 0 0; word 32 1 0 0 3 0 1 0; word 44 1 0 0 2 0 1 0;
   word 1 0 0 0 1 0 0 0; word 0 0 1 0 1 0 0 0; word 0 0 0 0 0 0 0 0; word 41 1 0 0 74 0 0 0;
   word 0 0 0 0 0 0 0 0; word 40 1 0 0 3 0 1 0; word 68 1 0 0 2 0 1 0; word 2 0 0 0 0 0 0 0;
   word 0 0 1 0 2 0 0 0; word 0 0 0 0 0 0 0 0; word 65 1 0 0 106 0 0 0; word 0 0 0 0 0 0 0 0;
   word 64 1 0 0 3 0 1 0; word 76 1 0 0 2 0 1 0; word 3 0 0 0 2 0 0 0; word 0 0 1 0 3 0 0 0;
   word 0 0 0 0 0 0 0 0; word 73 1 0 0 90 0 0 0; word 0 0 0 0 0 0 0 0; word 72 1 0 0 3 0 1 0;
   word 84 1 0 0 2 0 1 0; word 4 0 0 0 1 0 0 0; word 0 0 1 0 4 0 0 0; word 0 0 0 0 0 0 0 0;
   word 81 1 0 0 114 0 0 0; word 0 0 0 0 0 0 0 0; word 80 1 0 0 3 0 1 0; word 92 1 0 0 2 0 1 0;
   word 5 0 0 0 1 0 0 0; word 0 0 1 0 5 0 0 0; word 0 0 0 0 0 0 0 0; word 89 1 0 0 42 0 0 0;
   word 0 0 0 0 0 0 0 0; word 84 1 0 0 3 0 1 0; word 96 1 0 0 2 0 1 0; word 6 0 0 0 2 0 0 0;
   word 0 0 1 0 6 0 0 0; word 0 0 0 0 0 0 0 0; word 93 1 0 0 114 0 0 0; word 0 0 0 0 0 0 0 0;
   word 92 1 0 0 3 0 1 0; word 104 1 0 0 2 0 1 0; word 7 0 0 0 3 0 0 0; word 0 0 1 0 7 0 0 0;
   word 0 0 0 0 0 0 0 0; word 101 1 0 0 122 0 0 0; word 0 0 0 0 0 0 0 0; word 100 1 0 0 3 0 1 0;
   word 128 1 0 0 2 0 1 0; word 8 0 0 0 4 0 0 0; word 0 0 1 0 8 0 0 0; word 0 0 0 0 0 0 0 0;
   word 125 1 0 0 90 0 0 0; word 0 0 0 0 0 0 0 0; word 124 1 0 0 3 0 1 0; word 152 1 0 0 2 0 1 0;
   word 9 0 0 0 2 0 0 0; word 0 0 1 0 9 0 0 0; word 0 0 0 0 0 0 0 0; word 149 1 0 0 154 0 0 0;
   word 0 0 0 0 0 0 0 0; word 152 1 0 0 3 0 1 0; word 164 1 0 0 2 0 1 0; word 10 0 0 0 5 0 0 0;
   word 0 0 1 0 10 0 0 0; word 0 0 0 0 0 0 0 0; word 161 1 0 0 130 0 0 0; word 0 0 0 0 0 0 0 0;
   word 160 1 0 0 3 0 1 0; word 172 1 0 0 2 0 1 0; word 105 110 112 117 116 0 0 0;
   word 16 0 0 0 0 0 0 0; word 0 153 157 158 86 231 35 239; word 0 0 0 0 0 0 0 0;
   word 0 0 0 0 0 0 0 0; word 16 0 0 0 0 0 0 0; word 0 0 0 0 0 0 0 0; word 0 0 0 0 0 0 0 0;
   word 97 117 116 111 65 114 103 115; word 0 0 0 0 0 0 0 0; word 14 0 0 0 0 0 0 0;
   word 0 0 0 0 0 0 0 0; word 0 0 0 0 0 0 0 0; word 0 0 0 0 3 0 1 0; word 16 0 0 0 0 0 0 0;
   word 165 129 143 223 110 63 24 131; word 0 0 0 0 0 0 0 0; word 0 0 0 0 0 0 0 0;
   word 14 0 0 0 0 0 0 0; word 0 0 0 0 0 0 0 0; word 0 0 0 0 0 0 0 0;
   word 102 111 114 99 101 82 101 99; word 117 114 115 101 0 0 0 0; word 1 0 0 0 0 0 0 0;
   word 0 0 0 0 0 0 0 0; word 0 0 0 0 0 0 0 0; word 0 0 0 0 0 0 0 0; word 1 0 0 0 0 0 0 0;
   word 0 0 0 0 0 0 0 0; word 0 0 0 0 0 0 0 0; word 103 99 82 111 111 116 115 68;
   word 105 114 0 0 0 0 0 0; word 16 0 0 0 0 0 0 0; word 46 74 16 117 84 96 216 189;
   word 0 0 0 0 0 0 0 0; word 0 0 0 0 0 0 0 0; word 16 0 0 0 0 0 0 0; word 0 0 0 0 0 0 0 0;
   word 0 0 0 0 0 0 0 0; word 109 97 120 77 101 109 111 114; word 121 83 105 122 101 0 0 0;
   word 9 0 0 0 0 0 0 0; word 0 0 0 0 0 0 0 0; word 0 0 0 0 0 0 0 0; word 0 0 0 0 0 0 0 0;
   word 9 0 0 0 0 0 0 0; word 0 0 0 0 0 0 0 0; word 0 0 0 0 0 0 0 0; word 109 101 116 97 0 0 0 0;
   word 1 0 0 0 0 0 0 0; word 0 0 0 0 0 0 0 0; word 0 0 0 0 0 0 0 0; word 0 0 0 0 0 0 0 0;
   word 1 0 0 0 0 0 0 0; word 0 0 0 0 0 0 0 0; word 0 0 0 0 0 0 0 0;
   word 115 104 111 119 73 110 112 117; word 116 68 114 118 115 0 0 0; word 1 0 0 0 0 0 0 0;
   word 0 0 0 0 0 0 0 0; word 0 0 0 0 0 0 0 0; word 0 0 0 0 0 0 0 0; word 1 0 0 0 0 0 0 0;
   word 0 0 0 0 0 0 0 0; word 0 0 0 0 0 0 0 0; word 111 118 101 114 114 105 100 101;
   word 73 110 112 117 116 115 0 0; word 14 0 0 0 0 0 0 0; word 0 0 0 0 0 0 0 0;
   word 0 0 0 0 0 0 0 0; word 0 0 0 0 3 0 1 0; word 16 0 0 0 0 0 0 0;
   word 40 38 180 165 45 26 60 128; word 0 0 0 0 0 0 0 0; word 0 0 0 0 0 0 0 0;
   word 14 0 0 0 0 0 0 0; word 0 0 0 0 0 0 0 0; word 0 0 0 0 0 0 0 0;
   word 110 105 120 79 112 116 105 111; word 110 115 0 0 0 0 0 0; word 14 0 0 0 0 0 0 0;
   word 0 0 0 0 0 0 0 0; word 0 0 0 0 0 0 0 0; word 0 0 0 0 3 0 1 0; word 16 0 0 0 0 0 0 0;
   word 40 38 180 165 45 26 60 128; word 0 0 0 0 0 0 0 0; word 0 0 0 0 0 0 0 0;
   word 14 0 0 0 0 0 0 0; word 0 0 0 0 0 0 0 0; word 0 0 0 0 0 0 0 0;
   word 105 116 101 109 84 105 109 101; word 111 117 116 83 101 99 111 110;
   word 100 115 0 0 0 0 0 0; word 9 0 0 0 0 0 0 0; word 0 0 0 0 0 0 0 0; word 0 0 0 0 0 0 0 0;
   word 0 0 0 0 0 0 0 0; word 9 0 0 0 0 0 0 0; word 0 0 0 0 0 0 0 0; word 0 0 0 0 0 0 0 0;
   word 108 111 99 107 101 100 70 108; word 97 107 101 74 115 111 110 0; word 16 0 0 0 0 0 0 0;
   word 46 74 16 117 84 96 216 189; word 0 0 0 0 0 0 0 0; word 0 0 0 0 0 0 0 0;
   word 16 0 0 0 0 0 0 0; word 0 0 0 0 0 0 0 0; word 0 0 0 0 0 0 0 0].
Definition get_field_types (index : N) : option FieldType :=
  match index with
  | 0 => Some (TStruct input.TYPE_ID)
  | 1 => Some (TList (TStruct auto_arg.TYPE_ID))
  | 2 => Some TBool
  | 3 => Some (TStruct text_opt.TYPE_ID)
  | 4 => Some TUInt64
  | 5 => Some TBool
  | 6 => Some TBool
  | 7 => Some (TList (TStruct string_pair.TYPE_ID))
  | 8 => Some (TList (TStruct string_pair.TYPE_ID))
  | 9 => Some TUInt64
  | 10 => Some (TStruct text_opt.TYPE_ID)
  | _ => None
  end.
Definition NONUNION_MEMBERS : list N := [0; 1; 2; 3; 4; 5; 6; 7; 8; 9; 10].
Definition MEMBERS_BY_DISCRIMINANT : list N := [].
Definition MEMBERS_BY_NAME : list N := [1; 2; 3; 0; 9; 10; 4; 5; 8; 7; 6].
Definition TYPE_ID : N := 0xd6d2796d3158ade4.
Definition RAW_SCHEMA : RawStructSchema :=
  mkRawStructSchema ENCODED_NODE NONUNION_MEMBERS MEMBERS_BY_DISCRIMINANT MEMBERS_BY_NAME.
Definition introspect : RawBrandedStructSchema :=
  mkRawBrandedStructSchema RAW_SCHEMA get_field_types.
End worker_config.

(** [mod setup::_private] *)
Module setup.
Definition ENCODED_NODE : list N :=
  [word 0 0 0 0 6 0 6 0; word 164 190 7 79 193 73 151 244; word 13 0 0 0 1 0 1 0;
   word 71 249 242 178 159 141 76 167; word 3 0 7 0 0 0 0 0; word 0 0 0 0 0 0 0 0;
   word 125 0 0 0 251 0 0 0; word 21 0 0 0 154 0 0 0; word 29 0 0 0 7 0 0 0;
   word 0 0 0 0 0 0 0 0; word 25 0 0 0 231 0 0 0; word 0 0 0 0 0 0 0 0; word 0 0 0 0 0 0 0 0;
   word 119 111 114 107 101 114 46 99; word 97 112 110 112 58 83 101 116;
   word 117 112 0 0 0 0 0 0; word 0 0 0 0 1 0 1 0; word 16 0 0 0 3 0 4 0; word 0 0 0 0 0 0 0 0;
   word 0 0 1 0 0 0 0 0; word 0 0 0 0 0 0 0 0; word 97 0 0 0 58 0 0 0; word 0 0 0 0 0 0 0 0;
   word 92 0 0 0 3 0 1 0; word 104 0 0 0 2 0 1 0; word 1 0 0 0 1 0 0 0; word 0 0 1 0 1 0 0 0;
   word 0 0 0 0 0 0 0 0; word 101 0 0 0 50 0 0 0; word 0 0 0 0 0 0 0 0; word 96 0 0 0 3 0 1 0;
   word 108 0 0 0 2 0 1 0; word 2 0 0 0 2 0 0 0; word 0 0 1 0 2 0 0 0; word 0 0 0 0 0 0 0 0;
   word 105 0 0 0 138 0 0 0; word 0 0 0 0 0 0 0 0; word 108 0 0 0 3 0 1 0;
   word 120 0 0 0 2 0 1 0; word 3 0 0 0 0 0 0 0; word 0 0 1 0 3 0 0 0; word 0 0 0 0 0 0 0 0;
   word 117 0 0 0 130 0 0 0; word 0 0 0 0 0 0 0 0; word 116 0 0 0 3 0 1 0;
   word 128 0 0 0 2 0 1 0; word 99 111 110 102 105 103 0 0; word 16 0 0 0 0 0 0 0;
   word 228 173 88 49 109 121 210 214; word 0 0 0 0 0 0 0 0; word 0 0 0 0 0 0 0 0;
   word 16 0 0 0 0 0 0 0; word 0 0 0 0 0 0 0 0; word 0 0 0 0 0 0 0 0;
   word 116 111 107 101 110 0 0 0; word 16 0 0 0 0 0 0 0; word 46 74 16 117 84 96 216 189;
   word 0 0 0 0 0 0 0 0; word 0 0 0 0 0 0 0 0; word 16 0 0 0 0 0 0 0; word 0 0 0 0 0 0 0 0;
   word 0 0 0 0 0 0 0 0; word 101 120 112 101 99 116 101 100; word 83 116 111 114 101 68 105 114;
   word 0 0 0 0 0 0 0 0; word 16 0 0 0 0 0 0 0; word 46 74 16 117 84 96 216 189;
   word 0 0 0 0 0 0 0 0; word 0 0 0 0 0 0 0 0; word 16 0 0 0 0 0 0 0; word 0 0 0 0 0 0 0 0;
   word 0 0 0 0 0 0 0 0; word 112 114 111 116 111 99 111 108; word 86 101 114 115 105 111 110 0;
   word 8 0 0 0 0 0 0 0; word 0 0 0 0 0 0 0 0; word 0 0 0 0 0 0 0 0; word 0 0 0 0 0 0 0 0;
   word 8 0 0 0 0 0 0 0; word 0 0 0 0 0 0 0 0; word 0 0 0 0 0 0 0 0].
Definition get_field_types (index : N) : option FieldType :=
  match index with
  | 0 => Some (TStruct worker_config.TYPE_ID)
  | 1 => Some (TStruct text_opt.TYPE_ID)
  | 2 => Some (TStruct text_opt.TYPE_ID)
  | 3 => Some TUInt32
  | _ => None
  end.
Definition NONUNION_MEMBERS : list N := [0; 1; 2; 3].
Definition MEMBERS_BY_DISCRIMINANT : list N := [].
Definition MEMBERS_BY_NAME : list N := [0; 2; 3; 1].
Definition TYPE_ID : N := 0xf49749c14f07bea4.
Definition RAW_SCHEMA : RawStructSchema :=
  mkRawStructSchema ENCODED_NODE NONUNION_MEMBERS MEMBERS_BY_DISCRIMINANT MEMBERS_BY_NAME.
Definition introspect : RawBrandedStructSchema :=
  mkRawBrandedStructSchema RAW_SCHEMA get_field_types.
End setup.

(** [mod work::_private] *)
Module work.
Definition ENCODED_NODE : list N :=
  [word 0 0 0 0 6 0 6 0; word 55 177 165 159 14 78 133 136; word 13 0 0 0 1 0 0 0;
   word 71 249 242 178 159 141 76 167; word 1 0 7 0 0 0 0 0; word 0 0 0 0 0 0 0 0;
   word 253 0 0 0 39 1 0 0; word 21 0 0 0 146 0 0 0; word 29 0 0 0 7 0 0 0; word 0 0 0 0 0 0 0 0;
   word 25 0 0 0 63 0 0 0; word 0 0 0 0 0 0 0 0; word 0 0 0 0 0 0 0 0;
   word 119 111 114 107 101 114 46 99; word 97 112 110 112 58 87 111 114; word 107 0 0 0 0 0 0 0;
   word 0 0 0 0 1 0 1 0; word 4 0 0 0 3 0 4 0; word 0 0 0 0 0 0 0 0; word 0 0 1 0 0 0 0 0;
   word 0 0 0 0 0 0 0 0; word 13 0 0 0 74 0 0 0; word 0 0 0 0 0 0 0 0; word 12 0 0 0 3 0 1 0;
   word 40 0 0 0 2 0 1 0; word 97 116 116 114 80 97 116 104; word 0 0 0 0 0 0 0 0;
   word 14 0 0 0 0 0 0 0; word 0 0 0 0 0 0 0 0; word 0 0 0 0 0 0 0 0; word 0 0 0 0 3 0 1 0;
   word 12 0 0 0 0 0 0 0; word 0 0 0 0 0 0 0 0; word 0 0 0 0 0 0 0 0; word 0 0 0 0 0 0 0 0;
   word 14 0 0 0 0 0 0 0; word 0 0 0 0 0 0 0 0; word 0 0 0 0 0 0 0 0].
Definition get_field_types (index : N) : option FieldType :=
  match index with
  | 0 => Some (TList TText)
  | _ => None
  end.
Definition NONUNION_MEMBERS : list N := [0].
Definition MEMBERS_BY_DISCRIMINANT : list N := [].
Definition MEMBERS_BY_NAME : list N := [0].
Definition TYPE_ID : N := 0x88854e0e9fa5b137.
Definition RAW_SCHEMA : RawStructSchema :=
  mkRawStructSchema ENCODED_NODE NONUNION_MEMBERS MEMBERS_BY_DISCRIMINANT MEMBERS_BY_NAME.
Definition introspect : RawBrandedStructSchema :=
  mkRawBrandedStructSchema RAW_SCHEMA get_field_types.
End work.

(** [mod attr_set::_private] *)
Module attr_set.
Definition ENCODED_NODE : list N :=
  [word 0 0 0 0 6 0 6 0; word 98 45 118 120 132 67 96 211; word 13 0 0 0 1 0 0 0;
   word 71 249 242 178 159 141 76 167; word 3 0 7 0 0 0 0 0; word 0 0 0 0 0 0 0 0;
   word 207 4 0 0 37 5 0 0; word 21 0 0 0 170 0 0 0; word 29 0 0 0 7 0 0 0; word 0 0 0 0 0 0 0 0;
   word 25 0 0 0 175 0 0 0; word 0 0 0 0 0 0 0 0; word 0 0 0 0 0 0 0 0;
   word 119 111 114 107 101 114 46 99; word 97 112 110 112 58 65 116 116;
   word 114 83 101 116 0 0 0 0; word 0 0 0 0 1 0 1 0; word 12 0 0 0 3 0 4 0;
   word 0 0 0 0 0 0 0 0; word 0 0 1 0 0 0 0 0; word 0 0 0 0 0 0 0 0; word 69 0 0 0 42 0 0 0;
   word 0 0 0 0 0 0 0 0; word 64 0 0 0 3 0 1 0; word 76 0 0 0 2 0 1 0; word 1 0 0 0 1 0 0 0;
   word 0 0 1 0 1 0 0 0; word 0 0 0 0 0 0 0 0; word 73 0 0 0 74 0 0 0; word 0 0 0 0 0 0 0 0;
   word 72 0 0 0 3 0 1 0; word 100 0 0 0 2 0 1 0; word 2 0 0 0 2 0 0 0; word 0 0 1 0 2 0 0 0;
   word 0 0 0 0 0 0 0 0; word 97 0 0 0 50 0 0 0; word 0 0 0 0 0 0 0 0; word 92 0 0 0 3 0 1 0;
   word 120 0 0 0 2 0 1 0; word 97 116 116 114 0 0 0 0; word 12 0 0 0 0 0 0 0;
   word 0 0 0 0 0 0 0 0; word 0 0 0 0 0 0 0 0; word 0 0 0 0 0 0 0 0; word 12 0 0 0 0 0 0 0;
   word 0 0 0 0 0 0 0 0; word 0 0 0 0 0 0 0 0; word 97 116 116 114 80 97 116 104;
   word 0 0 0 0 0 0 0 0; word 14 0 0 0 0 0 0 0; word 0 0 0 0 0 0 0 0; word 0 0 0 0 0 0 0 0;
   word 0 0 0 0 3 0 1 0; word 12 0 0 0 0 0 0 0; word 0 0 0 0 0 0 0 0; word 0 0 0 0 0 0 0 0;
   word 0 0 0 0 0 0 0 0; word 14 0 0 0 0 0 0 0; word 0 0 0 0 0 0 0 0; word 0 0 0 0 0 0 0 0;
   word 97 116 116 114 115 0 0 0; word 14 0 0 0 0 0 0 0; word 0 0 0 0 0 0 0 0;
   word 0 0 0 0 0 0 0 0; word 0 0 0 0 3 0 1 0; word 12 0 0 0 0 0 0 0; word 0 0 0 0 0 0 0 0;
   word 0 0 0 0 0 0 0 0; word 0 0 0 0 0 0 0 0; word 14 0 0 0 0 0 0 0; word 0 0 0 0 0 0 0 0;
   word 0 0 0 0 0 0 0 0].
Definition get_field_types (index : N) : option FieldType :=
  match index with
  | 0 => Some TText
  | 1 => Some (TList TText)
  | 2 => Some (TList TText)
  | _ => None
  end.
Definition NONUNION_MEMBERS : list N := [0; 1; 2].
Definition MEMBERS_BY_DISCRIMINANT : list N := [].
Definition MEMBERS_BY_NAME : list N := [0; 1; 2].
Definition TYPE_ID : N := 0xd360438478762d62.
Definition RAW_SCHEMA : RawStructSchema :=
  mkRawStructSchema ENCODED_NODE NONUNION_MEMBERS MEMBERS_BY_DISCRIMINANT MEMBERS_BY_NAME.
Definition introspect : RawBrandedStructSchema :=
  mkRawBrandedStructSchema RAW_SCHEMA get_field_types.
End attr_set.

(** [mod derivation::_private] *)
Module derivation.
Definition ENCODED_NODE : list N :=
  [word 0 0 0 0 6 0 6 0; word 254 12 11 176 54 63 124 184; word 13 0 0 0 1 0 0 0;
   word 71 249 242 178 159 141 76 167; word 10 0 7 0 0 0 0 0; word 0 0 0 0 0 0 0 0;
   word 39 5 0 0 47 6 0 0; word 21 0 0 0 194 0 0 0; word 29 0 0 0 7 0 0 0; word 0 0 0 0 0 0 0 0;
   word 25 0 0 0 55 2 0 0; word 0 0 0 0 0 0 0 0; word 0 0 0 0 0 0 0 0;
   word 119 111 114 107 101 114 46 99; word 97 112 110 112 58 68 101 114;
   word 105 118 97 116 105 111 110 0; word 0 0 0 0 1 0 1 0; word 40 0 0 0 3 0 4 0;
   word 0 0 0 0 0 0 0 0; word 0 0 1 0 0 0 0 0; word 0 0 0 0 0 0 0 0; word 9 1 0 0 42 0 0 0;
   word 0 0 0 0 0 0 0 0; word 4 1 0 0 3 0 1 0; word 16 1 0 0 2 0 1 0; word 1 0 0 0 1 0 0 0;
   word 0 0 1 0 1 0 0 0; word 0 0 0 0 0 0 0 0; word 13 1 0 0 74 0 0 0; word 0 0 0 0 0 0 0 0;
   word 12 1 0 0 3 0 1 0; word 40 1 0 0 2 0 1 0; word 2 0 0 0 2 0 0 0; word 0 0 1 0 2 0 0 0;
   word 0 0 0 0 0 0 0 0; word 37 1 0 0 42 0 0 0; word 0 0 0 0 0 0 0 0; word 32 1 0 0 3 0 1 0;
   word 44 1 0 0 2 0 1 0; word 3 0 0 0 3 0 0 0; word 0 0 1 0 3 0 0 0; word 0 0 0 0 0 0 0 0;
   word 41 1 0 0 58 0 0 0; word 0 0 0 0 0 0 0 0; word 36 1 0 0 3 0 1 0; word 48 1 0 0 2 0 1 0;
   word 4 0 0 0 4 0 0 0; word 0 0 1 0 4 0 0 0; word 0 0 0 0 0 0 0 0; word 45 1 0 0 66 0 0 0;
   word 0 0 0 0 0 0 0 0; word 40 1 0 0 3 0 1 0; word 52 1 0 0 2 0 1 0; word 5 0 0 0 5 0 0 0;
   word 0 0 1 0 5 0 0 0; word 0 0 0 0 0 0 0 0; word 49 1 0 0 66 0 0 0; word 0 0 0 0 0 0 0 0;
   word 44 1 0 0 3 0 1 0; word 72 1 0 0 2 0 1 0; word 6 0 0 0 6 0 0 0; word 0 0 1 0 6 0 0 0;
   word 0 0 0 0 0 0 0 0; word 69 1 0 0 74 0 0 0; word 0 0 0 0 0 0 0 0; word 68 1 0 0 3 0 1 0;
   word 80 1 0 0 2 0 1 0; word 7 0 0 0 7 0 0 0; word 0 0 1 0 7 0 0 0; word 0 0 0 0 0 0 0 0;
   word 77 1 0 0 82 0 0 0; word 0 0 0 0 0 0 0 0; word 76 1 0 0 3 0 1 0; word 104 1 0 0 2 0 1 0;
   word 8 0 0 0 8 0 0 0; word 0 0 1 0 8 0 0 0; word 0 0 0 0 0 0 0 0; word 101 1 0 0 106 0 0 0;
   word 0 0 0 0 0 0 0 0; word 100 1 0 0 3 0 1 0; word 112 1 0 0 2 0 1 0; word 9 0 0 0 9 0 0 0;
   word 0 0 1 0 9 0 0 0; word 0 0 0 0 0 0 0 0; word 109 1 0 0 98 0 0 0; word 0 0 0 0 0 0 0 0;
   word 108 1 0 0 3 0 1 0; word 120 1 0 0 2 0 1 0; word 97 116 116 114 0 0 0 0;
   word 12 0 0 0 0 0 0 0; word 0 0 0 0 0 0 0 0; word 0 0 0 0 0 0 0 0; word 0 0 0 0 0 0 0 0;
   word 12 0 0 0 0 0 0 0; word 0 0 0 0 0 0 0 0; word 0 0 0 0 0 0 0 0;
   word 97 116 116 114 80 97 116 104; word 0 0 0 0 0 0 0 0; word 14 0 0 0 0 0 0 0;
   word 0 0 0 0 0 0 0 0; word 0 0 0 0 0 0 0 0; word 0 0 0 0 3 0 1 0; word 12 0 0 0 0 0 0 0;
   word 0 0 0 0 0 0 0 0; word 0 0 0 0 0 0 0 0; word 0 0 0 0 0 0 0 0; word 14 0 0 0 0 0 0 0;
   word 0 0 0 0 0 0 0 0; word 0 0 0 0 0 0 0 0; word 110 97 109 101 0 0 0 0;
   word 12 0 0 0 0 0 0 0; word 0 0 0 0 0 0 0 0; word 0 0 0 0 0 0 0 0; word 0 0 0 0 0 0 0 0;
   word 12 0 0 0 0 0 0 0; word 0 0 0 0 0 0 0 0; word 0 0 0 0 0 0 0 0;
   word 115 121 115 116 101 109 0 0; word 12 0 0 0 0 0 0 0; word 0 0 0 0 0 0 0 0;
   word 0 0 0 0 0 0 0 0; word 0 0 0 0 0 0 0 0; word 12 0 0 0 0 0 0 0; word 0 0 0 0 0 0 0 0;
   word 0 0 0 0 0 0 0 0; word 100 114 118 80 97 116 104 0; word 12 0 0 0 0 0 0 0;
   word 0 0 0 0 0 0 0 0; word 0 0 0 0 0 0 0 0; word 0 0 0 0 0 0 0 0; word 12 0 0 0 0 0 0 0;
   word 0 0 0 0 0 0 0 0; word 0 0 0 0 0 0 0 0; word 111 117 116 112 117 116 115 0;
   word 14 0 0 0 0 0 0 0; word 0 0 0 0 0 0 0 0; word 0 0 0 0 0 0 0 0; word 0 0 0 0 3 0 1 0;
   word 16 0 0 0 0 0 0 0; word 111 3 113 70 91 119 89 196; word 0 0 0 0 0 0 0 0;
   word 0 0 0 0 0 0 0 0; word 14 0 0 0 0 0 0 0; word 0 0 0 0 0 0 0 0; word 0 0 0 0 0 0 0 0;
   word 109 101 116 97 74 115 111 110; word 0 0 0 0 0 0 0 0; word 16 0 0 0 0 0 0 0;
   word 46 74 16 117 84 96 216 189; word 0 0 0 0 0 0 0 0; word 0 0 0 0 0 0 0 0;
   word 16 0 0 0 0 0 0 0; word 0 0 0 0 0 0 0 0; word 0 0 0 0 0 0 0 0;
   word 105 110 112 117 116 68 114 118; word 115 0 0 0 0 0 0 0; word 14 0 0 0 0 0 0 0;
   word 0 0 0 0 0 0 0 0; word 0 0 0 0 0 0 0 0; word 0 0 0 0 3 0 1 0; word 16 0 0 0 0 0 0 0;
   word 111 24 172 11 131 241 10 129; word 0 0 0 0 0 0 0 0; word 0 0 0 0 0 0 0 0;
   word 14 0 0 0 0 0 0 0; word 0 0 0 0 0 0 0 0; word 0 0 0 0 0 0 0 0;
   word 99 111 110 115 116 105 116 117; word 101 110 116 115 0 0 0 0; word 16 0 0 0 0 0 0 0;
   word 98 128 50 5 13 124 51 137; word 0 0 0 0 0 0 0 0; word 0 0 0 0 0 0 0 0;
   word 16 0 0 0 0 0 0 0; word 0 0 0 0 0 0 0 0; word 0 0 0 0 0 0 0 0;
   word 103 99 82 111 111 116 69 114; word 114 111 114 0 0 0 0 0; word 16 0 0 0 0 0 0 0;
   word 46 74 16 117 84 96 216 189; word 0 0 0 0 0 0 0 0; word 0 0 0 0 0 0 0 0;
   word 16 0 0 0 0 0 0 0; word 0 0 0 0 0 0 0 0; word 0 0 0 0 0 0 0 0].
Definition get_field_types (index : N) : option FieldType :=
  match index with
  | 0 => Some TText
  | 1 => Some (TList TText)
  | 2 => Some TText
  | 3 => Some TText
  | 4 => Some TText
  | 5 => Some (TList (TStruct output.TYPE_ID))
  | 6 => Some (TStruct text_opt.TYPE_ID)
  | 7 => Some (TList (TStruct input_drv.TYPE_ID))
  | 8 => Some (TStruct text_list_opt.TYPE_ID)
  | 9 => Some (TStruct text_opt.TYPE_ID)
  | _ => None
  end.
Definition NONUNION_MEMBERS : list N := [0; 1; 2; 3; 4; 5; 6; 7; 8; 9].
Definition MEMBERS_BY_DISCRIMINANT : list N := [].
Definition MEMBERS_BY_NAME : list N := [0; 1; 8; 4; 9; 7; 6; 2; 5; 3].
Definition TYPE_ID : N := 0xb87c3f36b00b0cfe.
Definition RAW_SCHEMA : RawStructSchema :=
  mkRawStructSchema ENCODED_NODE NONUNION_MEMBERS MEMBERS_BY_DISCRIMINANT MEMBERS_BY_NAME.
Definition introspect : RawBrandedStructSchema :=
  mkRawBrandedStructSchema RAW_SCHEMA get_field_types.
End derivation.

(** [mod eval_error::_private] *)
Module eval_error.
Definition ENCODED_NODE : list N :=
  [word 0 0 0 0 6 0 6 0; word 58 25 6 45 119 48 206 200; word 13 0 0 0 1 0 1 0;
   word 71 249 242 178 159 141 76 167; word 3 0 7 0 0 0 0 0; word 0 0 0 0 0 0 0 0;
   word 28 7 0 0 128 7 0 0; word 21 0 0 0 186 0 0 0; word 29 0 0 0 7 0 0 0; word 0 0 0 0 0 0 0 0;
   word 25 0 0 0 231 0 0 0; word 0 0 0 0 0 0 0 0; word 0 0 0 0 0 0 0 0;
   word 119 111 114 107 101 114 46 99; word 97 112 110 112 58 69 118 97;
   word 108 69 114 114 111 114 0 0; word 0 0 0 0 1 0 1 0; word 16 0 0 0 3 0 4 0;
   word 0 0 0 0 0 0 0 0; word 0 0 1 0 0 0 0 0; word 0 0 0 0 0 0 0 0; word 97 0 0 0 42 0 0 0;
   word 0 0 0 0 0 0 0 0; word 92 0 0 0 3 0 1 0; word 104 0 0 0 2 0 1 0; word 1 0 0 0 1 0 0 0;
   word 0 0 1 0 1 0 0 0; word 0 0 0 0 0 0 0 0; word 101 0 0 0 74 0 0 0; word 0 0 0 0 0 0 0 0;
   word 100 0 0 0 3 0 1 0; word 128 0 0 0 2 0 1 0; word 2 0 0 0 2 0 0 0; word 0 0 1 0 2 0 0 0;
   word 0 0 0 0 0 0 0 0; word 125 0 0 0 50 0 0 0; word 0 0 0 0 0 0 0 0; word 120 0 0 0 3 0 1 0;
   word 132 0 0 0 2 0 1 0; word 3 0 0 0 0 0 0 0; word 0 0 1 0 3 0 0 0; word 0 0 0 0 0 0 0 0;
   word 129 0 0 0 50 0 0 0; word 0 0 0 0 0 0 0 0; word 124 0 0 0 3 0 1 0; word 136 0 0 0 2 0 1 0;
   word 97 116 116 114 0 0 0 0; word 12 0 0 0 0 0 0 0; word 0 0 0 0 0 0 0 0;
   word 0 0 0 0 0 0 0 0; word 0 0 0 0 0 0 0 0; word 12 0 0 0 0 0 0 0; word 0 0 0 0 0 0 0 0;
   word 0 0 0 0 0 0 0 0; word 97 116 116 114 80 97 116 104; word 0 0 0 0 0 0 0 0;
   word 14 0 0 0 0 0 0 0; word 0 0 0 0 0 0 0 0; word 0 0 0 0 0 0 0 0; word 0 0 0 0 3 0 1 0;
   word 12 0 0 0 0 0 0 0; word 0 0 0 0 0 0 0 0; word 0 0 0 0 0 0 0 0; word 0 0 0 0 0 0 0 0;
   word 14 0 0 0 0 0 0 0; word 0 0 0 0 0 0 0 0; word 0 0 0 0 0 0 0 0;
   word 101 114 114 111 114 0 0 0; word 12 0 0 0 0 0 0 0; word 0 0 0 0 0 0 0 0;
   word 0 0 0 0 0 0 0 0; word 0 0 0 0 0 0 0 0; word 12 0 0 0 0 0 0 0; word 0 0 0 0 0 0 0 0;
   word 0 0 0 0 0 0 0 0; word 102 97 116 97 108 0 0 0; word 1 0 0 0 0 0 0 0;
   word 0 0 0 0 0 0 0 0; word 0 0 0 0 0 0 0 0; word 0 0 0 0 0 0 0 0; word 1 0 0 0 0 0 0 0;
   word 0 0 0 0 0 0 0 0; word 0 0 0 0 0 0 0 0].
Definition get_field_types (index : N) : option FieldType :=
  match index with
  | 0 => Some TText
  | 1 => Some (TList TText)
  | 2 => Some TText
  | 3 => Some TBool
  | _ => None
  end.
Definition NONUNION_MEMBERS : list N := [0; 1; 2; 3].
Definition MEMBERS_BY_DISCRIMINANT : list N := [].
Definition MEMBERS_BY_NAME : list N := [0; 1; 2; 3].
Definition TYPE_ID : N := 0xc8ce30772d06193a.
Definition RAW_SCHEMA : RawStructSchema :=
  mkRawStructSchema ENCODED_NODE NONUNION_MEMBERS MEMBERS_BY_DISCRIMINANT MEMBERS_BY_NAME.
Definition introspect : RawBrandedStructSchema :=
  mkRawBrandedStructSchema RAW_SCHEMA get_field_types.
End eval_error.

(** [mod event::_private] *)
Module event.
Definition ENCODED_NODE : list N :=
  [word 0 0 0 0 6 0 6 0; word 195 236 193 174 187 63 68 193; word 13 0 0 0 1 0 1 0;
   word 71 249 242 178 159 141 76 167; word 1 0 7 0 0 0 3 0; word 0 0 0 0 0 0 0 0;
   word 94 4 0 0 205 4 0 0; word 21 0 0 0 154 0 0 0; word 29 0 0 0 7 0 0 0; word 0 0 0 0 0 0 0 0;
   word 25 0 0 0 175 0 0 0; word 0 0 0 0 0 0 0 0; word 0 0 0 0 0 0 0 0;
   word 119 111 114 107 101 114 46 99; word 97 112 110 112 58 69 118 101;
   word 110 116 0 0 0 0 0 0; word 0 0 0 0 1 0 1 0; word 12 0 0 0 3 0 4 0;
   word 0 0 255 255 0 0 0 0; word 0 0 1 0 0 0 0 0; word 0 0 0 0 0 0 0 0; word 69 0 0 0 90 0 0 0;
   word 0 0 0 0 0 0 0 0; word 68 0 0 0 3 0 1 0; word 80 0 0 0 2 0 1 0; word 1 0 254 255 0 0 0 0;
   word 0 0 1 0 1 0 0 0; word 0 0 0 0 0 0 0 0; word 77 0 0 0 66 0 0 0; word 0 0 0 0 0 0 0 0;
   word 72 0 0 0 3 0 1 0; word 84 0 0 0 2 0 1 0; word 2 0 253 255 0 0 0 0; word 0 0 1 0 2 0 0 0;
   word 0 0 0 0 0 0 0 0; word 81 0 0 0 50 0 0 0; word 0 0 0 0 0 0 0 0; word 76 0 0 0 3 0 1 0;
   word 88 0 0 0 2 0 1 0; word 100 101 114 105 118 97 116 105; word 111 110 0 0 0 0 0 0;
   word 16 0 0 0 0 0 0 0; word 254 12 11 176 54 63 124 184; word 0 0 0 0 0 0 0 0;
   word 0 0 0 0 0 0 0 0; word 16 0 0 0 0 0 0 0; word 0 0 0 0 0 0 0 0; word 0 0 0 0 0 0 0 0;
   word 97 116 116 114 83 101 116 0; word 16 0 0 0 0 0 0 0; word 98 45 118 120 132 67 96 211;
   word 0 0 0 0 0 0 0 0; word 0 0 0 0 0 0 0 0; word 16 0 0 0 0 0 0 0; word 0 0 0 0 0 0 0 0;
   word 0 0 0 0 0 0 0 0; word 101 114 114 111 114 0 0 0; word 16 0 0 0 0 0 0 0;
   word 58 25 6 45 119 48 206 200; word 0 0 0 0 0 0 0 0; word 0 0 0 0 0 0 0 0;
   word 16 0 0 0 0 0 0 0; word 0 0 0 0 0 0 0 0; word 0 0 0 0 0 0 0 0].
Definition get_field_types (index : N) : option FieldType :=
  match index with
  | 0 => Some (TStruct derivation.TYPE_ID)
  | 1 => Some (TStruct attr_set.TYPE_ID)
  | 2 => Some (TStruct eval_error.TYPE_ID)
  | _ => None
  end.
Definition NONUNION_MEMBERS : list N := [].
Definition MEMBERS_BY_DISCRIMINANT : list N := [0; 1; 2].
Definition MEMBERS_BY_NAME : list N := [1; 0; 2].
Definition TYPE_ID : N := 0xc1443fbbaec1ecc3.
Definition RAW_SCHEMA : RawStructSchema :=
  mkRawStructSchema ENCODED_NODE NONUNION_MEMBERS MEMBERS_BY_DISCRIMINANT MEMBERS_BY_NAME.
Definition introspect : RawBrandedStructSchema :=
  mkRawBrandedStructSchema RAW_SCHEMA get_field_types.
End event.

(** [mod worker_status] *)
Module worker_status.
Definition ENCODED_NODE : list N :=
  [word 0 0 0 0 6 0 6 0; word 29 19 203 208 53 122 129 237; word 13 0 0 0 2 0 0 0;
   word 71 249 242 178 159 141 76 167; word 0 0 0 0 0 0 0 0; word 0 0 0 0 0 0 0 0;
   word 171 1 0 0 218 1 0 0; word 21 0 0 0 210 0 0 0; word 33 0 0 0 7 0 0 0;
   word 0 0 0 0 0 0 0 0; word 29 0 0 0 55 0 0 0; word 0 0 0 0 0 0 0 0; word 0 0 0 0 0 0 0 0;
   word 119 111 114 107 101 114 46 99; word 97 112 110 112 58 87 111 114;
   word 107 101 114 83 116 97 116 117; word 115 0 0 0 0 0 0 0; word 0 0 0 0 1 0 1 0;
   word 8 0 0 0 1 0 2 0; word 0 0 0 0 0 0 0 0; word 17 0 0 0 50 0 0 0; word 0 0 0 0 0 0 0 0;
   word 1 0 0 0 0 0 0 0; word 9 0 0 0 66 0 0 0; word 0 0 0 0 0 0 0 0;
   word 114 101 97 100 121 0 0 0; word 114 101 115 116 97 114 116 0].
Definition TYPE_ID : N := 0xed817a35d0cb131d.
End worker_status.

(** [mod server_message::_private] *)
Module server_message.
Definition ENCODED_NODE : list N :=
  [word 0 0 0 0 6 0 6 0; word 69 95 204 158 16 69 182 160; word 13 0 0 0 1 0 1 0;
   word 71 249 242 178 159 141 76 167; word 1 0 7 0 0 0 4 0; word 0 0 0 0 0 0 0 0;
   word 41 1 0 0 169 1 0 0; word 21 0 0 0 218 0 0 0; word 33 0 0 0 7 0 0 0; word 0 0 0 0 0 0 0 0;
   word 29 0 0 0 231 0 0 0; word 0 0 0 0 0 0 0 0; word 0 0 0 0 0 0 0 0;
   word 119 111 114 107 101 114 46 99; word 97 112 110 112 58 83 101 114;
   word 118 101 114 77 101 115 115 97; word 103 101 0 0 0 0 0 0; word 0 0 0 0 1 0 1 0;
   word 16 0 0 0 3 0 4 0; word 0 0 255 255 0 0 0 0; word 0 0 1 0 0 0 0 0; word 0 0 0 0 0 0 0 0;
   word 97 0 0 0 50 0 0 0; word 0 0 0 0 0 0 0 0; word 92 0 0 0 3 0 1 0; word 104 0 0 0 2 0 1 0;
   word 1 0 254 255 0 0 0 0; word 0 0 1 0 1 0 0 0; word 0 0 0 0 0 0 0 0; word 101 0 0 0 50 0 0 0;
   word 0 0 0 0 0 0 0 0; word 96 0 0 0 3 0 1 0; word 108 0 0 0 2 0 1 0; word 2 0 253 255 1 0 0 0;
   word 0 0 1 0 2 0 0 0; word 0 0 0 0 0 0 0 0; word 105 0 0 0 58 0 0 0; word 0 0 0 0 0 0 0 0;
   word 100 0 0 0 3 0 1 0; word 112 0 0 0 2 0 1 0; word 3 0 252 255 0 0 0 0;
   word 0 0 1 0 3 0 0 0; word 0 0 0 0 0 0 0 0; word 109 0 0 0 50 0 0 0; word 0 0 0 0 0 0 0 0;
   word 104 0 0 0 3 0 1 0; word 116 0 0 0 2 0 1 0; word 114 101 97 100 121 0 0 0;
   word 0 0 0 0 0 0 0 0; word 0 0 0 0 0 0 0 0; word 0 0 0 0 0 0 0 0; word 0 0 0 0 0 0 0 0;
   word 0 0 0 0 0 0 0 0; word 0 0 0 0 0 0 0 0; word 0 0 0 0 0 0 0 0;
   word 101 118 101 110 116 0 0 0; word 16 0 0 0 0 0 0 0; word 195 236 193 174 187 63 68 193;
   word 0 0 0 0 0 0 0 0; word 0 0 0 0 0 0 0 0; word 16 0 0 0 0 0 0 0; word 0 0 0 0 0 0 0 0;
   word 0 0 0 0 0 0 0 0; word 115 116 97 116 117 115 0 0; word 15 0 0 0 0 0 0 0;
   word 29 19 203 208 53 122 129 237; word 0 0 0 0 0 0 0 0; word 0 0 0 0 0 0 0 0;
   word 15 0 0 0 0 0 0 0; word 0 0 0 0 0 0 0 0; word 0 0 0 0 0 0 0 0;
   word 101 114 114 111 114 0 0 0; word 12 0 0 0 0 0 0 0; word 0 0 0 0 0 0 0 0;
   word 0 0 0 0 0 0 0 0; word 0 0 0 0 0 0 0 0; word 12 0 0 0 0 0 0 0; word 0 0 0 0 0 0 0 0;
   word 0 0 0 0 0 0 0 0].
Definition get_field_types (index : N) : option FieldType :=
  match index with
  | 0 => Some TVoid
  | 1 => Some (TStruct event.TYPE_ID)
  | 2 => Some (TEnum worker_status.TYPE_ID)
  | 3 => Some TText
  | _ => None
  end.
Definition NONUNION_MEMBERS : list N := [].
Definition MEMBERS_BY_DISCRIMINANT : list N := [0; 1; 2; 3].
Definition MEMBERS_BY_NAME : list N := [3; 1; 0; 2].
Definition TYPE_ID : N := 0xa0b645109ecc5f45.
Definition RAW_SCHEMA : RawStructSchema :=
  mkRawStructSchema ENCODED_NODE NONUNION_MEMBERS MEMBERS_BY_DISCRIMINANT MEMBERS_BY_NAME.
Definition introspect : RawBrandedStructSchema :=
  mkRawBrandedStructSchema RAW_SCHEMA get_field_types.
End server_message.

(** [mod client_message::_private] *)
Module client_message.
Definition ENCODED_NODE : list N :=
  [word 0 0 0 0 6 0 6 0; word 2 151 164 165 197 100 209 193; word 13 0 0 0 1 0 1 0;
   word 71 249 242 178 159 141 76 167; word 1 0 7 0 0 0 3 0; word 0 0 0 0 0 0 0 0;
   word 22 0 0 0 123 0 0 0; word 21 0 0 0 218 0 0 0; word 33 0 0 0 7 0 0 0; word 0 0 0 0 0 0 0 0;
   word 29 0 0 0 175 0 0 0; word 0 0 0 0 0 0 0 0; word 0 0 0 0 0 0 0 0;
   word 119 111 114 107 101 114 46 99; word 97 112 110 112 58 67 108 105;
   word 101 110 116 77 101 115 115 97; word 103 101 0 0 0 0 0 0; word 0 0 0 0 1 0 1 0;
   word 12 0 0 0 3 0 4 0; word 0 0 255 255 0 0 0 0; word 0 0 1 0 0 0 0 0; word 0 0 0 0 0 0 0 0;
   word 69 0 0 0 50 0 0 0; word 0 0 0 0 0 0 0 0; word 64 0 0 0 3 0 1 0; word 76 0 0 0 2 0 1 0;
   word 1 0 254 255 0 0 0 0; word 0 0 1 0 1 0 0 0; word 0 0 0 0 0 0 0 0; word 73 0 0 0 42 0 0 0;
   word 0 0 0 0 0 0 0 0; word 68 0 0 0 3 0 1 0; word 80 0 0 0 2 0 1 0; word 2 0 253 255 0 0 0 0;
   word 0 0 1 0 2 0 0 0; word 0 0 0 0 0 0 0 0; word 77 0 0 0 74 0 0 0; word 0 0 0 0 0 0 0 0;
   word 76 0 0 0 3 0 1 0; word 88 0 0 0 2 0 1 0; word 115 101 116 117 112 0 0 0;
   word 16 0 0 0 0 0 0 0; word 164 190 7 79 193 73 151 244; word 0 0 0 0 0 0 0 0;
   word 0 0 0 0 0 0 0 0; word 16 0 0 0 0 0 0 0; word 0 0 0 0 0 0 0 0; word 0 0 0 0 0 0 0 0;
   word 119 111 114 107 0 0 0 0; word 16 0 0 0 0 0 0 0; word 55 177 165 159 14 78 133 136;
   word 0 0 0 0 0 0 0 0; word 0 0 0 0 0 0 0 0; word 16 0 0 0 0 0 0 0; word 0 0 0 0 0 0 0 0;
   word 0 0 0 0 0 0 0 0; word 115 104 117 116 100 111 119 110; word 0 0 0 0 0 0 0 0;
   word 0 0 0 0 0 0 0 0; word 0 0 0 0 0 0 0 0; word 0 0 0 0 0 0 0 0; word 0 0 0 0 0 0 0 0;
   word 0 0 0 0 0 0 0 0; word 0 0 0 0 0 0 0 0; word 0 0 0 0 0 0 0 0].
Definition get_field_types (index : N) : option FieldType :=
  match index with
  | 0 => Some (TStruct setup.TYPE_ID)
  | 1 => Some (TStruct work.TYPE_ID)
  | 2 => Some TVoid
  | _ => None
  end.
Definition NONUNION_MEMBERS : list N := [].
Definition MEMBERS_BY_DISCRIMINANT : list N := [0; 1; 2].
Definition MEMBERS_BY_NAME : list N := [0; 2; 1].
Definition TYPE_ID : N := 0xc1d164c5a5a49702.
Definition RAW_SCHEMA : RawStructSchema :=
  mkRawStructSchema ENCODED_NODE NONUNION_MEMBERS MEMBERS_BY_DISCRIMINANT MEMBERS_BY_NAME.
Definition introspect : RawBrandedStructSchema :=
  mkRawBrandedStructSchema RAW_SCHEMA get_field_types.
End client_message.
