(* ===== verification/SchemaCheck.v ===== *)
(** * The schema and its generated code agree

    The compiler of [crates/evix/schema/worker.capnp] writes every struct twice into
    [crates/evix/src/generated/worker_capnp.rs]: as accessors ([Schema.v]) and as an
    encoded node with its tables ([SchemaNodes.v]). Here are a reader of encoded
    nodes, after the published Cap'n Proto encoding and its [schema.capnp], the
    schema as declared, and that the three agree. *)
From S2P Require Import Prelude Capnp SchemaNodes Schema.
Local Open Scope N_scope.

(** ** Reading an encoded message

    A message of one segment is its words; positions are in words. *)

Definition bits (w low len : N) : N := N.land (N.shiftr w low) (N.ones len).

(** A struct: its data section and its pointer section. *)
Record View := mkView { v_data : Z; v_words : N; v_pointers : N }.
Definition null_view : View := mkView 0 0 0.

Section message.
Context (message : list N).

Definition word_at (pos : Z) : N := default 0 (message !! Z.to_nat pos).

(** The 30-bit offset of a pointer, from the word after it. *)
Definition target (pos : Z) : Z :=
  let offset := Z.of_N (bits (word_at pos) 2 30) in
  (pos + 1 + if offset <? 2 ^ 29 then offset else offset - 2 ^ 30)%Z.

Definition struct_at (pos : Z) : option View :=
  let w := word_at pos in
  if w =? 0 then Some null_view
  else if bits w 0 2 =? 0 then Some (mkView (target pos) (bits w 32 16) (bits w 48 16))
  else None.

(** The field of [w] bits at offset [i], as in [Capnp.get_data_field]. *)
Definition data_field (w i : N) (v : View) : N :=
  if w * (i + 1) <=? 64 * v_words v
  then bits (word_at (v_data v + Z.of_N (w * i / 64))) ((w * i) mod 64) w else 0.

Definition pointer_pos (i : N) (v : View) : option Z :=
  if i <? v_pointers v then Some (v_data v + Z.of_N (v_words v + i))%Z else None.

(** A list pointer: the size class of its elements, their count, its first word. *)
Definition list_at (pos : Z) : option (N * N * Z) :=
  let w := word_at pos in
  if bits w 0 2 =? 1 then Some (bits w 32 3, bits w 35 29, target pos) else None.

(** A list of structs, whose first word tells their size. *)
Definition structs_at (pos : Z) : option (list View) :=
  if word_at pos =? 0 then Some []
  else
    '(size, _, start) ← list_at pos;
    if size =? 7 then
      let tag := word_at start in
      let words := bits tag 32 16 in
      let pointers := bits tag 48 16 in
      Some ((λ k, mkView (start + 1 + Z.of_nat k * Z.of_N (words + pointers)) words pointers)
              <$> seq 0 (N.to_nat (bits tag 2 30)))
    else None.

Definition byte_at (start : Z) (k : nat) : ascii :=
  ascii_of_N (bits (word_at (start + Z.of_nat (k / 8))) (8 * N.of_nat (k mod 8)) 8).

(** A text: bytes, with a NUL after them. *)
Definition text_at (pos : Z) : option string :=
  '(size, count, start) ← list_at pos;
  if size =? 2
  then Some (str_of_chars (byte_at start <$> seq 0 (N.to_nat count - 1))) else None.

Definition struct_field (i : N) (v : View) : option View := pointer_pos i v ≫= struct_at.
Definition structs_field (i : N) (v : View) : option (list View) := pointer_pos i v ≫= structs_at.
Definition text_field (i : N) (v : View) : option string := pointer_pos i v ≫= text_at.

(** ** Nodes: the structs of [schema.capnp] *)

(** [Type], with its list elements down to [depth] *)
Fixpoint read_type (depth : nat) (v : View) : option FieldType :=
  match data_field 16 0 v with
  | 0 => Some TVoid
  | 1 => Some TBool
  | 8 => Some TUInt32
  | 9 => Some TUInt64
  | 12 => Some TText
  | 14 => match depth with
          | O => None
          | S depth => TList <$> (struct_field 0 v ≫= read_type depth)
          end
  | 15 => Some (TEnum (data_field 64 1 v))
  | 16 => Some (TStruct (data_field 64 1 v))
  | _ => None
  end.
End message.

(** [Field]: name, ordinal, union discriminant, offset and type *)
Record Slot := mkSlot {
  sl_name : string;
  sl_ordinal : N;
  sl_discriminant : option N;
  sl_offset : N;
  sl_type : FieldType;
}.

(** [Node] of a struct *)
Record Node := mkNode {
  nd_id : N;
  nd_name : string;
  nd_size : StructSize;
  nd_discriminants : N;
  nd_discriminant_offset : N;
  nd_fields : list Slot;
}.

Section nodes.
Context (message : list N).

Definition read_field (v : View) : option Slot :=
  name ← text_field message 0 v;
  field_type ← struct_field message 2 v ≫= read_type message 4;
  let discriminant := N.lxor (data_field message 16 1 v) 65535 in
  if (data_field message 16 4 v =? 0) && (data_field message 16 5 v =? 1)
  then Some (mkSlot name (data_field message 16 6 v)
               (if discriminant =? 65535 then None else Some discriminant)
               (data_field message 32 1 v) field_type)
  else None.

(** The display name without the prefix of its file. *)
Definition short_name (v : View) : option string :=
  name ← text_field message 0 v;
  Some (str_of_chars (drop (N.to_nat (data_field message 32 2 v)) (str_chars name))).

Definition read_node : option Node :=
  v ← struct_at message 0;
  name ← short_name v;
  fields ← structs_field message 3 v ≫= mapM read_field;
  if data_field message 16 6 v =? 1
  then Some (mkNode (data_field message 64 0 v) name
               (mkStructSize (data_field message 16 7 v) (data_field message 16 12 v))
               (data_field message 16 15 v) (data_field message 32 8 v) fields)
  else None.

(** [Node] of an enum: its id and its enumerants *)
Definition read_enum : option (N * string * list string) :=
  v ← struct_at message 0;
  name ← short_name v;
  enumerants ← structs_field message 3 v ≫= mapM (text_field message 0);
  if data_field message 16 6 v =? 2
  then Some (data_field message 64 0 v, name, enumerants) else None.
End nodes.
(** ** The schema as declared *)

Inductive DeclType : Type :=
  | DVoid | DBool | DUInt32 | DUInt64 | DText
  | DList (element : DeclType)
  | DNamed (name : string).

Record FieldDecl := mkFieldDecl { fd_name : string; fd_ordinal : N; fd_type : DeclType }.

(** A struct: its fields outside of and in its union *)
Record StructDecl := mkStructDecl {
  sd_name : string;
  sd_fields : list FieldDecl;
  sd_union : list FieldDecl;
}.

Record EnumDecl := mkEnumDecl { ed_name : string; ed_enumerants : list string }.

Module worker_schema.
Definition ClientMessage : StructDecl := mkStructDecl "ClientMessage"
    []
    [mkFieldDecl "setup" 0 (DNamed "Setup");
     mkFieldDecl "work" 1 (DNamed "Work");
     mkFieldDecl "shutdown" 2 DVoid].
Definition Setup : StructDecl := mkStructDecl "Setup"
    [mkFieldDecl "config" 0 (DNamed "WorkerConfig");
     mkFieldDecl "token" 1 (DNamed "TextOpt");
     mkFieldDecl "expectedStoreDir" 2 (DNamed "TextOpt");
     mkFieldDecl "protocolVersion" 3 DUInt32]
    [].
Definition Work : StructDecl := mkStructDecl "Work"
    [mkFieldDecl "attrPath" 0 (DList DText)]
    [].
Definition ServerMessage : StructDecl := mkStructDecl "ServerMessage"
    []
    [mkFieldDecl "ready" 0 DVoid;
     mkFieldDecl "event" 1 (DNamed "Event");
     mkFieldDecl "status" 2 (DNamed "WorkerStatus");
     mkFieldDecl "error" 3 DText].
Definition WorkerConfig : StructDecl := mkStructDecl "WorkerConfig"
    [mkFieldDecl "input" 0 (DNamed "Input");
     mkFieldDecl "autoArgs" 1 (DList (DNamed "AutoArg"));
     mkFieldDecl "forceRecurse" 2 DBool;
     mkFieldDecl "gcRootsDir" 3 (DNamed "TextOpt");
     mkFieldDecl "maxMemorySize" 4 DUInt64;
     mkFieldDecl "meta" 5 DBool;
     mkFieldDecl "showInputDrvs" 6 DBool;
     mkFieldDecl "overrideInputs" 7 (DList (DNamed "StringPair"));
     mkFieldDecl "nixOptions" 8 (DList (DNamed "StringPair"));
     mkFieldDecl "itemTimeoutSeconds" 9 DUInt64;
     mkFieldDecl "lockedFlakeJson" 10 (DNamed "TextOpt")]
    [].
Definition Input : StructDecl := mkStructDecl "Input"
    []
    [mkFieldDecl "flake" 0 DText;
     mkFieldDecl "expr" 1 DText;
     mkFieldDecl "file" 2 DText].
Definition AutoArg : StructDecl := mkStructDecl "AutoArg"
    [mkFieldDecl "name" 0 DText]
    [mkFieldDecl "expr" 1 DText;
     mkFieldDecl "str" 2 DText].
Definition StringPair : StructDecl := mkStructDecl "StringPair"
    [mkFieldDecl "key" 0 DText;
     mkFieldDecl "value" 1 DText]
    [].
Definition TextOpt : StructDecl := mkStructDecl "TextOpt"
    []
    [mkFieldDecl "none" 0 DVoid;
     mkFieldDecl "some" 1 DText].
Definition Event : StructDecl := mkStructDecl "Event"
    []
    [mkFieldDecl "derivation" 0 (DNamed "Derivation");
     mkFieldDecl "attrSet" 1 (DNamed "AttrSet");
     mkFieldDecl "error" 2 (DNamed "EvalError")].
Definition AttrSet : StructDecl := mkStructDecl "AttrSet"
    [mkFieldDecl "attr" 0 DText;
     mkFieldDecl "attrPath" 1 (DList DText);
     mkFieldDecl "attrs" 2 (DList DText)]
    [].
Definition Derivation : StructDecl := mkStructDecl "Derivation"
    [mkFieldDecl "attr" 0 DText;
     mkFieldDecl "attrPath" 1 (DList DText);
     mkFieldDecl "name" 2 DText;
     mkFieldDecl "system" 3 DText;
     mkFieldDecl "drvPath" 4 DText;
     mkFieldDecl "outputs" 5 (DList (DNamed "Output"));
     mkFieldDecl "metaJson" 6 (DNamed "TextOpt");
     mkFieldDecl "inputDrvs" 7 (DList (DNamed "InputDrv"));
     mkFieldDecl "constituents" 8 (DNamed "TextListOpt");
     mkFieldDecl "gcRootError" 9 (DNamed "TextOpt")]
    [].
Definition Output : StructDecl := mkStructDecl "Output"
    [mkFieldDecl "name" 0 DText]
    [mkFieldDecl "absent" 1 DVoid;
     mkFieldDecl "path" 2 DText].
Definition InputDrv : StructDecl := mkStructDecl "InputDrv"
    [mkFieldDecl "drvPath" 0 DText;
     mkFieldDecl "valueJson" 1 DText]
    [].
Definition TextListOpt : StructDecl := mkStructDecl "TextListOpt"
    []
    [mkFieldDecl "none" 0 DVoid;
     mkFieldDecl "some" 1 (DList DText)].
Definition EvalError : StructDecl := mkStructDecl "EvalError"
    [mkFieldDecl "attr" 0 DText;
     mkFieldDecl "attrPath" 1 (DList DText);
     mkFieldDecl "error" 2 DText;
     mkFieldDecl "fatal" 3 DBool]
    [].
Definition WorkerStatus : EnumDecl := mkEnumDecl "WorkerStatus" ["ready"; "restart"].
End worker_schema.

(** ** The tables of a struct *)

#[export] Instance slot_eq_dec : EqDecision Slot.
Proof. solve_decision. Defined.

Definition schemas : list RawStructSchema :=
  generic <$>
    [SchemaNodes.string_pair.introspect; SchemaNodes.text_opt.introspect;
     SchemaNodes.text_list_opt.introspect; SchemaNodes.input.introspect;
     SchemaNodes.auto_arg.introspect; SchemaNodes.output.introspect;
     SchemaNodes.input_drv.introspect; SchemaNodes.worker_config.introspect;
     SchemaNodes.setup.introspect; SchemaNodes.work.introspect;
     SchemaNodes.attr_set.introspect; SchemaNodes.derivation.introspect;
     SchemaNodes.eval_error.introspect; SchemaNodes.event.introspect;
     SchemaNodes.server_message.introspect; SchemaNodes.client_message.introspect].
Definition nodes : list Node := omap (λ s, read_node (encoded_node s)) schemas.

Definition node_named (name : string) : option Node :=
  head (filter (λ n, nd_name n = name) nodes).
Definition size_of (id : N) : StructSize :=
  default (mkStructSize 0 0) (nd_size <$> head (filter (λ n, nd_id n = id) nodes)).

(** A declared type, its names by the ids of their nodes *)
Fixpoint resolve (t : DeclType) : option FieldType :=
  match t with
  | DVoid => Some TVoid
  | DBool => Some TBool
  | DUInt32 => Some TUInt32
  | DUInt64 => Some TUInt64
  | DText => Some TText
  | DList element => TList <$> resolve element
  | DNamed name =>
      if bool_decide (name = ed_name worker_schema.WorkerStatus)
      then Some (TEnum worker_status.TYPE_ID) else TStruct ∘ nd_id <$> node_named name
  end.

Definition in_union (s : Slot) : bool := bool_decide (is_Some (sl_discriminant s)).

(** The fields of a node are those that are declared, in the order of their
    ordinals: first the fields outside of the union. *)
Definition declared (d : StructDecl) (n : Node) : Prop :=
  (λ s, (sl_name s, sl_ordinal s, Some (sl_type s), in_union s)) <$> nd_fields n =
  ((λ f, (fd_name f, fd_ordinal f, resolve (fd_type f), false)) <$> sd_fields d) ++
  ((λ f, (fd_name f, fd_ordinal f, resolve (fd_type f), true)) <$> sd_union d).

(** Where a field is: in the data section, with its width, or a pointer *)
Inductive Place : Type := Nowhere | Data (w i : N) | Ptr (i : N).
Definition place (s : Slot) : Place :=
  match sl_type s with
  | TVoid => Nowhere
  | TBool => Data 1 (sl_offset s)
  | TUInt32 => Data 32 (sl_offset s)
  | TUInt64 => Data 64 (sl_offset s)
  | TEnum _ => Data 16 (sl_offset s)
  | _ => Ptr (sl_offset s)
  end.
Definition is_pointer (s : Slot) : bool := match place s with Ptr _ => true | _ => false end.
Definition place_in (size : StructSize) (p : Place) : bool :=
  match p with
  | Nowhere => true
  | Data w i => w * (i + 1) <=? 64 * data size
  | Ptr i => i <? pointers size
  end.
Definition apart (p q : Place) : bool :=
  match p, q with
  | Data w i, Data w' i' => (w * (i + 1) <=? w' * i') || (w' * (i' + 1) <=? w * i)
  | Ptr i, Ptr j => negb (i =? j)
  | _, _ => true
  end.

(** The place of the discriminant *)
Definition tag (n : Node) : Place :=
  if nd_discriminants n =? 0 then Nowhere else Data 16 (nd_discriminant_offset n).

(** Every field is within the struct, no two that can be there at once share a bit
    or a pointer, and none shares the discriminant of the union. Names and
    discriminants are distinct, and the latter are counted. *)
Definition laid_out (n : Node) : bool :=
  place_in (nd_size n) (tag n) &&
  forallb (λ s, place_in (nd_size n) (place s) && apart (place s) (tag n)) (nd_fields n) &&
  forallb (λ s, forallb (λ t,
      bool_decide (s = t) || (in_union s && in_union t) || apart (place s) (place t))
    (nd_fields n)) (nd_fields n) &&
  bool_decide (NoDup (sl_name <$> nd_fields n)) &&
  bool_decide (NoDup (omap sl_discriminant (nd_fields n))) &&
  forallb (λ d, d <? N.min (nd_discriminants n) (2 ^ 16)) (omap sl_discriminant (nd_fields n)).

(** The members of a node: outside of the union, in the order of discriminants,
    and in the order of names *)
Definition indices (n : Node) : list N := N.of_nat <$> seq 0 (length (nd_fields n)).
Definition slot_at (n : Node) (i : N) : option Slot := nd_fields n !! N.to_nat i.
Definition nonunion (n : Node) : list N :=
  filter (λ i, (in_union <$> slot_at n i) = Some false) (indices n).
Definition with_discriminant (n : Node) (d : N) : list N :=
  filter (λ i, (slot_at n i ≫= sl_discriminant) = Some d) (indices n).
Definition by_discriminant (n : Node) : list N :=
  concat (with_discriminant n ∘ N.of_nat <$> seq 0 (N.to_nat (nd_discriminants n))).
Definition name_le (n : Node) (i j : N) : bool :=
  String.leb (default "" (sl_name <$> slot_at n i)) (default "" (sl_name <$> slot_at n j)).
Definition by_name (n : Node) : list N := merge_sort (λ i j, name_le n i j) (indices n).

Record tables_of (b : RawBrandedStructSchema) (id : N) (size : StructSize) (n : Node) : Prop := {
  table_node : read_node (encoded_node (generic b)) = Some n;
  table_id : nd_id n = id;
  table_size : nd_size n = size;
  table_types : ∀ i, field_types b i = sl_type <$> slot_at n i;
  table_nonunion : nonunion_members (generic b) = nonunion n;
  table_discriminants : members_by_discriminant (generic b) = by_discriminant n;
  table_union : length (by_discriminant n) = length (filter in_union (nd_fields n));
  table_names : members_by_name (generic b) = by_name n;
}.

(** ** The accessors a node asks for *)

Section accessors.
Context `{Capnp}.

(** What is read of a field *)
Inductive Value : Type :=
  | VVoid
  | VBool (b : bool)
  | VU32 (x : N)
  | VU64 (x : N)
  | VEnum (s : Result WorkerStatus.t)
  | VText (t : Result string)
  | VStruct (s : Result Struct)
  | VTexts (l : Result TextList)
  | VStructs (l : Result StructList).

Definition read_slot (s : Slot) (reader : Struct) : option Value :=
  let pointer := get_pointer_field (sl_offset s) reader in
  match sl_type s with
  | TVoid => Some VVoid
  | TBool => Some (VBool (get_bool_field (sl_offset s) reader))
  | TUInt32 => Some (VU32 (get_data_field 32 (sl_offset s) reader))
  | TUInt64 => Some (VU64 (get_data_field 64 (sl_offset s) reader))
  | TText => Some (VText (get_text pointer))
  | TStruct _ => Some (VStruct (get_struct pointer))
  | TEnum id =>
      if id =? worker_status.TYPE_ID
      then Some (VEnum (WorkerStatus.try_from (get_data_field 16 (sl_offset s) reader))) else None
  | TList TText => Some (VTexts (get_text_list pointer))
  | TList (TStruct _) => Some (VStructs (get_struct_list pointer))
  | TList _ => None
  end.

(** The member of the union that the discriminant tells *)
Definition read_union (n : Node) (reader : Struct) : option (Result (string * Value)) :=
  let d := get_data_field 16 (nd_discriminant_offset n) reader in
  match head (filter (λ s, sl_discriminant s = Some d) (nd_fields n)) with
  | Some s => (λ v, Ok (sl_name s, v)) <$> read_slot s reader
  | None => Some (Err (not_in_schema d))
  end.

(** What a field is set to: a value, or a child that is built in its place *)
Inductive Given : Type :=
  | GVoid
  | GBool (b : bool)
  | GU32 (x : N)
  | GU64 (x : N)
  | GEnum (s : WorkerStatus.t)
  | GText (t : string)
  | GStruct (build : Struct → Result Struct)
  | GTexts (size : N) (build : TextList → Result TextList)
  | GStructs (size : N) (build : StructList → Result StructList).

(** A member of a union is selected before it is set. *)
Definition select (n : Node) (s : Slot) (builder : Struct) : Struct :=
  match sl_discriminant s with
  | Some d => set_data_field 16 (nd_discriminant_offset n) d builder
  | None => builder
  end.

Definition write_slot (n : Node) (s : Slot) (g : Given) (builder : Struct) : option (Result Struct) :=
  let builder := select n s builder in
  let set_data w x := Some (Ok (set_data_field w (sl_offset s) x builder)) in
  let set_child child := Some (build_pointer (sl_offset s) child builder) in
  match sl_type s, g with
  | TVoid, GVoid => Some (Ok builder)
  | TBool, GBool b => Some (Ok (set_bool_field (sl_offset s) b builder))
  | TUInt32, GU32 x => set_data 32 x
  | TUInt64, GU64 x => set_data 64 x
  | TEnum id, GEnum x => if id =? worker_status.TYPE_ID then set_data 16 (WorkerStatus.to_u16 x) else None
  | TText, GText t => Some (Ok (set_pointer_field (sl_offset s) (to_text t) builder))
  | TStruct id, GStruct build => set_child (init_struct (size_of id) build)
  | TList TText, GTexts size build => set_child (init_text_list size build)
  | TList (TStruct id), GStructs size build => set_child (init_struct_list (size_of id) size build)
  | _, _ => None
  end.

(** Whether the pointer of a field is there; a member of the union has to be selected. *)
Definition selected (n : Node) (s : Slot) (reader : Struct) : bool :=
  match sl_discriminant s with
  | Some d => get_data_field 16 (nd_discriminant_offset n) reader =? d
  | None => true
  end.
Definition has_slot (n : Node) (s : Slot) (reader : Struct) : bool :=
  if negb (selected n s reader) then false else negb (is_null (get_pointer_field (sl_offset s) reader)).

(** ** The accessors that were generated *)

Definition Setter : Type := Given → Struct → option (Result Struct).
Definition on_void (set : unit → Struct → Struct) : Setter := λ g b,
  match g with GVoid => Some (Ok (set tt b)) | _ => None end.
Definition on_bool (set : bool → Struct → Struct) : Setter := λ g b,
  match g with GBool x => Some (Ok (set x b)) | _ => None end.
Definition on_u32 (set : N → Struct → Struct) : Setter := λ g b,
  match g with GU32 x => Some (Ok (set x b)) | _ => None end.
Definition on_u64 (set : N → Struct → Struct) : Setter := λ g b,
  match g with GU64 x => Some (Ok (set x b)) | _ => None end.
Definition on_enum (set : WorkerStatus.t → Struct → Struct) : Setter := λ g b,
  match g with GEnum x => Some (Ok (set x b)) | _ => None end.
Definition on_text (set : string → Struct → Struct) : Setter := λ g b,
  match g with GText t => Some (Ok (set t b)) | _ => None end.
Definition on_struct (init : (Struct → Result Struct) → Struct → Result Struct) : Setter := λ g b,
  match g with GStruct build => Some (init build b) | _ => None end.
Definition on_texts (init : N → (TextList → Result TextList) → Struct → Result Struct) : Setter :=
  λ g b, match g with GTexts size build => Some (init size build b) | _ => None end.
Definition on_structs (init : N → (StructList → Result StructList) → Struct → Result Struct) : Setter :=
  λ g b, match g with GStructs size build => Some (init size build b) | _ => None end.

(** A struct as the compiler wrote it: its declaration, its tables, and its accessors by
    field; [has_] is a reader's and a builder's. *)
Record Compiled := mkCompiled {
  co_decl : StructDecl;
  co_schema : RawBrandedStructSchema;
  co_id : N;
  co_size : StructSize;
  co_getters : list (string * (Struct → Value));
  co_which : option (Struct → Result (string * Value));
  co_setters : list (string * Setter);
  co_has : list (string * (Struct → bool) * (Struct → bool));
}.

Definition string_pair_code : Compiled :=
  mkCompiled worker_schema.StringPair SchemaNodes.string_pair.introspect
    SchemaNodes.string_pair.TYPE_ID string_pair.STRUCT_SIZE
    [("key", λ r, VText (string_pair.get_key r));
     ("value", λ r, VText (string_pair.get_value r))]
    None
    [("key", on_text string_pair.set_key);
     ("value", on_text string_pair.set_value)]
    [("key", string_pair.has_key, string_pair.builder_has_key);
     ("value", string_pair.has_value, string_pair.builder_has_value)].
Definition text_opt_which (reader : Struct) : Result (string * Value) :=
  (λ w, match w with
        | text_opt.None _ => ("none", VVoid)
        | text_opt.Some x => ("some", VText x)
        end) <$> text_opt.which reader.
Definition text_opt_code : Compiled :=
  mkCompiled worker_schema.TextOpt SchemaNodes.text_opt.introspect
    SchemaNodes.text_opt.TYPE_ID text_opt.STRUCT_SIZE
    []
    (Some text_opt_which)
    [("none", on_void text_opt.set_none);
     ("some", on_text text_opt.set_some)]
    [("some", text_opt.has_some, text_opt.builder_has_some)].
Definition text_list_opt_which (reader : Struct) : Result (string * Value) :=
  (λ w, match w with
        | text_list_opt.None _ => ("none", VVoid)
        | text_list_opt.Some x => ("some", VTexts x)
        end) <$> text_list_opt.which reader.
Definition text_list_opt_code : Compiled :=
  mkCompiled worker_schema.TextListOpt SchemaNodes.text_list_opt.introspect
    SchemaNodes.text_list_opt.TYPE_ID text_list_opt.STRUCT_SIZE
    []
    (Some text_list_opt_which)
    [("none", on_void text_list_opt.set_none);
     ("some", on_texts text_list_opt.init_some)]
    [("some", text_list_opt.has_some, text_list_opt.builder_has_some)].
Definition input_which (reader : Struct) : Result (string * Value) :=
  (λ w, match w with
        | input.Flake x => ("flake", VText x)
        | input.Expr x => ("expr", VText x)
        | input.File x => ("file", VText x)
        end) <$> input.which reader.
Definition input_code : Compiled :=
  mkCompiled worker_schema.Input SchemaNodes.input.introspect
    SchemaNodes.input.TYPE_ID input.STRUCT_SIZE
    []
    (Some input_which)
    [("flake", on_text input.set_flake);
     ("expr", on_text input.set_expr);
     ("file", on_text input.set_file)]
    [("flake", input.has_flake, input.builder_has_flake);
     ("expr", input.has_expr, input.builder_has_expr);
     ("file", input.has_file, input.builder_has_file)].
Definition auto_arg_which (reader : Struct) : Result (string * Value) :=
  (λ w, match w with
        | auto_arg.Expr x => ("expr", VText x)
        | auto_arg.Str x => ("str", VText x)
        end) <$> auto_arg.which reader.
Definition auto_arg_code : Compiled :=
  mkCompiled worker_schema.AutoArg SchemaNodes.auto_arg.introspect
    SchemaNodes.auto_arg.TYPE_ID auto_arg.STRUCT_SIZE
    [("name", λ r, VText (auto_arg.get_name r))]
    (Some auto_arg_which)
    [("name", on_text auto_arg.set_name);
     ("expr", on_text auto_arg.set_expr);
     ("str", on_text auto_arg.set_str)]
    [("name", auto_arg.has_name, auto_arg.builder_has_name);
     ("expr", auto_arg.has_expr, auto_arg.builder_has_expr);
     ("str", auto_arg.has_str, auto_arg.builder_has_str)].
Definition output_which (reader : Struct) : Result (string * Value) :=
  (λ w, match w with
        | output.Absent _ => ("absent", VVoid)
        | output.Path x => ("path", VText x)
        end) <$> output.which reader.
Definition output_code : Compiled :=
  mkCompiled worker_schema.Output SchemaNodes.output.introspect
    SchemaNodes.output.TYPE_ID output.STRUCT_SIZE
    [("name", λ r, VText (output.get_name r))]
    (Some output_which)
    [("name", on_text output.set_name);
     ("absent", on_void output.set_absent);
     ("path", on_text output.set_path)]
    [("name", output.has_name, output.builder_has_name);
     ("path", output.has_path, output.builder_has_path)].
Definition input_drv_code : Compiled :=
  mkCompiled worker_schema.InputDrv SchemaNodes.input_drv.introspect
    SchemaNodes.input_drv.TYPE_ID input_drv.STRUCT_SIZE
    [("drvPath", λ r, VText (input_drv.get_drv_path r));
     ("valueJson", λ r, VText (input_drv.get_value_json r))]
    None
    [("drvPath", on_text input_drv.set_drv_path);
     ("valueJson", on_text input_drv.set_value_json)]
    [("drvPath", input_drv.has_drv_path, input_drv.builder_has_drv_path);
     ("valueJson", input_drv.has_value_json, input_drv.builder_has_value_json)].
Definition worker_config_code : Compiled :=
  mkCompiled worker_schema.WorkerConfig SchemaNodes.worker_config.introspect
    SchemaNodes.worker_config.TYPE_ID worker_config.STRUCT_SIZE
    [("input", λ r, VStruct (worker_config.get_input r));
     ("autoArgs", λ r, VStructs (worker_config.get_auto_args r));
     ("forceRecurse", λ r, VBool (worker_config.get_force_recurse r));
     ("gcRootsDir", λ r, VStruct (worker_config.get_gc_roots_dir r));
     ("maxMemorySize", λ r, VU64 (worker_config.get_max_memory_size r));
     ("meta", λ r, VBool (worker_config.get_meta r));
     ("showInputDrvs", λ r, VBool (worker_config.get_show_input_drvs r));
     ("overrideInputs", λ r, VStructs (worker_config.get_override_inputs r));
     ("nixOptions", λ r, VStructs (worker_config.get_nix_options r));
     ("itemTimeoutSeconds", λ r, VU64 (worker_config.get_item_timeout_seconds r));
     ("lockedFlakeJson", λ r, VStruct (worker_config.get_locked_flake_json r))]
    None
    [("input", on_struct worker_config.init_input);
     ("autoArgs", on_structs worker_config.init_auto_args);
     ("forceRecurse", on_bool worker_config.set_force_recurse);
     ("gcRootsDir", on_struct worker_config.init_gc_roots_dir);
     ("maxMemorySize", on_u64 worker_config.set_max_memory_size);
     ("meta", on_bool worker_config.set_meta);
     ("showInputDrvs", on_bool worker_config.set_show_input_drvs);
     ("overrideInputs", on_structs worker_config.init_override_inputs);
     ("nixOptions", on_structs worker_config.init_nix_options);
     ("itemTimeoutSeconds", on_u64 worker_config.set_item_timeout_seconds);
     ("lockedFlakeJson", on_struct worker_config.init_locked_flake_json)]
    [("input", worker_config.has_input, worker_config.builder_has_input);
     ("autoArgs", worker_config.has_auto_args, worker_config.builder_has_auto_args);
     ("gcRootsDir", worker_config.has_gc_roots_dir, worker_config.builder_has_gc_roots_dir);
     ("overrideInputs", worker_config.has_override_inputs, worker_config.builder_has_override_inputs);
     ("nixOptions", worker_config.has_nix_options, worker_config.builder_has_nix_options);
     ("lockedFlakeJson", worker_config.has_locked_flake_json, worker_config.builder_has_locked_flake_json)].
Definition setup_code : Compiled :=
  mkCompiled worker_schema.Setup SchemaNodes.setup.introspect
    SchemaNodes.setup.TYPE_ID setup.STRUCT_SIZE
    [("config", λ r, VStruct (setup.get_config r));
     ("token", λ r, VStruct (setup.get_token r));
     ("expectedStoreDir", λ r, VStruct (setup.get_expected_store_dir r));
     ("protocolVersion", λ r, VU32 (setup.get_protocol_version r))]
    None
    [("config", on_struct setup.init_config);
     ("token", on_struct setup.init_token);
     ("expectedStoreDir", on_struct setup.init_expected_store_dir);
     ("protocolVersion", on_u32 setup.set_protocol_version)]
    [("config", setup.has_config, setup.builder_has_config);
     ("token", setup.has_token, setup.builder_has_token);
     ("expectedStoreDir", setup.has_expected_store_dir, setup.builder_has_expected_store_dir)].
Definition work_code : Compiled :=
  mkCompiled worker_schema.Work SchemaNodes.work.introspect
    SchemaNodes.work.TYPE_ID work.STRUCT_SIZE
    [("attrPath", λ r, VTexts (work.get_attr_path r))]
    None
    [("attrPath", on_texts work.init_attr_path)]
    [("attrPath", work.has_attr_path, work.builder_has_attr_path)].
Definition attr_set_code : Compiled :=
  mkCompiled worker_schema.AttrSet SchemaNodes.attr_set.introspect
    SchemaNodes.attr_set.TYPE_ID attr_set.STRUCT_SIZE
    [("attr", λ r, VText (attr_set.get_attr r));
     ("attrPath", λ r, VTexts (attr_set.get_attr_path r));
     ("attrs", λ r, VTexts (attr_set.get_attrs r))]
    None
    [("attr", on_text attr_set.set_attr);
     ("attrPath", on_texts attr_set.init_attr_path);
     ("attrs", on_texts attr_set.init_attrs)]
    [("attr", attr_set.has_attr, attr_set.builder_has_attr);
     ("attrPath", attr_set.has_attr_path, attr_set.builder_has_attr_path);
     ("attrs", attr_set.has_attrs, attr_set.builder_has_attrs)].
Definition derivation_code : Compiled :=
  mkCompiled worker_schema.Derivation SchemaNodes.derivation.introspect
    SchemaNodes.derivation.TYPE_ID derivation.STRUCT_SIZE
    [("attr", λ r, VText (derivation.get_attr r));
     ("attrPath", λ r, VTexts (derivation.get_attr_path r));
     ("name", λ r, VText (derivation.get_name r));
     ("system", λ r, VText (derivation.get_system r));
     ("drvPath", λ r, VText (derivation.get_drv_path r));
     ("outputs", λ r, VStructs (derivation.get_outputs r));
     ("metaJson", λ r, VStruct (derivation.get_meta_json r));
     ("inputDrvs", λ r, VStructs (derivation.get_input_drvs r));
     ("constituents", λ r, VStruct (derivation.get_constituents r));
     ("gcRootError", λ r, VStruct (derivation.get_gc_root_error r))]
    None
    [("attr", on_text derivation.set_attr);
     ("attrPath", on_texts derivation.init_attr_path);
     ("name", on_text derivation.set_name);
     ("system", on_text derivation.set_system);
     ("drvPath", on_text derivation.set_drv_path);
     ("outputs", on_structs derivation.init_outputs);
     ("metaJson", on_struct derivation.init_meta_json);
     ("inputDrvs", on_structs derivation.init_input_drvs);
     ("constituents", on_struct derivation.init_constituents);
     ("gcRootError", on_struct derivation.init_gc_root_error)]
    [("attr", derivation.has_attr, derivation.builder_has_attr);
     ("attrPath", derivation.has_attr_path, derivation.builder_has_attr_path);
     ("name", derivation.has_name, derivation.builder_has_name);
     ("system", derivation.has_system, derivation.builder_has_system);
     ("drvPath", derivation.has_drv_path, derivation.builder_has_drv_path);
     ("outputs", derivation.has_outputs, derivation.builder_has_outputs);
     ("metaJson", derivation.has_meta_json, derivation.builder_has_meta_json);
     ("inputDrvs", derivation.has_input_drvs, derivation.builder_has_input_drvs);
     ("constituents", derivation.has_constituents, derivation.builder_has_constituents);
     ("gcRootError", derivation.has_gc_root_error, derivation.builder_has_gc_root_error)].
Definition eval_error_code : Compiled :=
  mkCompiled worker_schema.EvalError SchemaNodes.eval_error.introspect
    SchemaNodes.eval_error.TYPE_ID eval_error.STRUCT_SIZE
    [("attr", λ r, VText (eval_error.get_attr r));
     ("attrPath", λ r, VTexts (eval_error.get_attr_path r));
     ("error", λ r, VText (eval_error.get_error r));
     ("fatal", λ r, VBool (eval_error.get_fatal r))]
    None
    [("attr", on_text eval_error.set_attr);
     ("attrPath", on_texts eval_error.init_attr_path);
     ("error", on_text eval_error.set_error);
     ("fatal", on_bool eval_error.set_fatal)]
    [("attr", eval_error.has_attr, eval_error.builder_has_attr);
     ("attrPath", eval_error.has_attr_path, eval_error.builder_has_attr_path);
     ("error", eval_error.has_error, eval_error.builder_has_error)].
Definition event_which (reader : Struct) : Result (string * Value) :=
  (λ w, match w with
        | event.Derivation x => ("derivation", VStruct x)
        | event.AttrSet x => ("attrSet", VStruct x)
        | event.Error x => ("error", VStruct x)
        end) <$> event.which reader.
Definition event_code : Compiled :=
  mkCompiled worker_schema.Event SchemaNodes.event.introspect
    SchemaNodes.event.TYPE_ID event.STRUCT_SIZE
    []
    (Some event_which)
    [("derivation", on_struct event.init_derivation);
     ("attrSet", on_struct event.init_attr_set);
     ("error", on_struct event.init_error)]
    [("derivation", event.has_derivation, event.builder_has_derivation);
     ("attrSet", event.has_attr_set, event.builder_has_attr_set);
     ("error", event.has_error, event.builder_has_error)].
Definition server_message_which (reader : Struct) : Result (string * Value) :=
  (λ w, match w with
        | server_message.Ready _ => ("ready", VVoid)
        | server_message.Event x => ("event", VStruct x)
        | server_message.Status x => ("status", VEnum x)
        | server_message.Error x => ("error", VText x)
        end) <$> server_message.which reader.
Definition server_message_code : Compiled :=
  mkCompiled worker_schema.ServerMessage SchemaNodes.server_message.introspect
    SchemaNodes.server_message.TYPE_ID server_message.STRUCT_SIZE
    []
    (Some server_message_which)
    [("ready", on_void server_message.set_ready);
     ("event", on_struct server_message.init_event);
     ("status", on_enum server_message.set_status);
     ("error", on_text server_message.set_error)]
    [("event", server_message.has_event, server_message.builder_has_event);
     ("error", server_message.has_error, server_message.builder_has_error)].
Definition client_message_which (reader : Struct) : Result (string * Value) :=
  (λ w, match w with
        | client_message.Setup x => ("setup", VStruct x)
        | client_message.Work x => ("work", VStruct x)
        | client_message.Shutdown _ => ("shutdown", VVoid)
        end) <$> client_message.which reader.
Definition client_message_code : Compiled :=
  mkCompiled worker_schema.ClientMessage SchemaNodes.client_message.introspect
    SchemaNodes.client_message.TYPE_ID client_message.STRUCT_SIZE
    []
    (Some client_message_which)
    [("setup", on_struct client_message.init_setup);
     ("work", on_struct client_message.init_work);
     ("shutdown", on_void client_message.set_shutdown)]
    [("setup", client_message.has_setup, client_message.builder_has_setup);
     ("work", client_message.has_work, client_message.builder_has_work)].
Definition compiled : list Compiled :=
  [string_pair_code; text_opt_code; text_list_opt_code; input_code; auto_arg_code;
   output_code; input_drv_code; worker_config_code; setup_code; work_code; attr_set_code;
   derivation_code; eval_error_code; event_code; server_message_code; client_message_code].

(** ** Agreement *)

(** The code of [c] is what its node [n] asks for: a getter for each field outside
    of the union, the union, a setter for each field, and for each pointer the tests
    whether it is there. *)
Record implements (c : Compiled) (n : Node) : Prop := {
  code_getters : Forall2 (λ s g, g.1 = sl_name s ∧ ∀ reader, read_slot s reader = Some (g.2 reader))
                   (filter (λ s, in_union s = false) (nd_fields n)) (co_getters c);
  code_which : match co_which c with
               | None => nd_discriminants n = 0
               | Some which => 0 < nd_discriminants n ∧
                   ∀ reader, read_union n reader = Some (which reader)
               end;
  code_setters : Forall2 (λ s f, f.1 = sl_name s ∧
                     ∀ g builder, write_slot n s g builder = f.2 g builder)
                   (nd_fields n) (co_setters c);
  code_has : Forall2 (λ s h, h.1.1 = sl_name s ∧
                 ∀ b, h.1.2 b = has_slot n s b ∧ h.2 b = has_slot n s b)
               (filter (λ s, is_pointer s = true) (nd_fields n)) (co_has c);
}.

Record agrees (c : Compiled) (n : Node) : Prop := {
  agrees_name : nd_name n = sd_name (co_decl c);
  agrees_tables : tables_of (co_schema c) (co_id c) (co_size c) n;
  agrees_declared : declared (co_decl c) n;
  agrees_layout : laid_out n = true;
  agrees_code : implements c n;
}.

End accessors.

(** The enum: its node, and its numbers are the places of its enumerants. *)
Record enum_agrees `{Capnp} (e : EnumDecl) : Prop := {
  enum_node : read_enum worker_status.ENCODED_NODE =
              Some (worker_status.TYPE_ID, ed_name e, ed_enumerants e);
  enum_number : ∀ x, match WorkerStatus.try_from x with
                     | Ok s => WorkerStatus.to_u16 s = x ∧ x < N.of_nat (length (ed_enumerants e))
                     | Err r => r = not_in_schema x ∧ N.of_nat (length (ed_enumerants e)) ≤ x
                     end;
  enum_all : ∀ s, WorkerStatus.try_from (WorkerStatus.to_u16 s) = Ok s;
}.

(** *** Evaluating the tables *)

Lemma field_types_of (f : N → option FieldType) (slots : list Slot) :
  f <$> (N.of_nat <$> seq 0 (length slots)) = Some ∘ sl_type <$> slots →
  (∀ i, N.of_nat (length slots) ≤ i → f i = None) →
  ∀ i, f i = sl_type <$> slots !! N.to_nat i.
Proof.
  intros Hin Hout i. destruct (slots !! N.to_nat i) as [s|] eqn:E; simpl.
  - pose proof (lookup_lt_Some _ _ _ E) as Hlt.
    apply (f_equal (.!! N.to_nat i)) in Hin. rewrite !list_lookup_fmap, E in Hin.
    rewrite lookup_seq_lt in Hin by done. simpl in Hin.
    rewrite N2Nat.id in Hin. by simplify_eq.
  - apply lookup_ge_None in E. apply Hout. lia.
Qed.

(** An index, by its lowest bits: enough for the longest table *)
Ltac small_index i :=
  destruct i as [|[[[[?|?|]|[?|?|]|]|[[?|?|]|[?|?|]|]|]|[[[?|?|]|[?|?|]|]|[[?|?|]|[?|?|]|]|]|]].
Ltac check_tables :=
  split; [vm_compute; reflexivity ..| | vm_compute; reflexivity | vm_compute; reflexivity
         | vm_compute; reflexivity | vm_compute; reflexivity];
  apply field_types_of; [vm_compute; reflexivity | intros i; small_index i; vm_compute; done].
Ltac check_fields :=
  match goal with |- Forall2 ?P ?l ?k =>
    let l' := eval vm_compute in l in
    let k' := eval lazy [co_getters co_setters co_has] in k in
    let k' := eval hnf in k' in
    change (Forall2 P l' k') end; repeat constructor.
(** The discriminant stays opaque until it is told by its lowest bits. *)
Ltac check_union :=
  lazymatch goal with |- match co_which ?c with _ => _ end =>
    let w := eval hnf in (co_which c) in change (co_which c) with w; cbv iota end;
  first [reflexivity
  | split; [done |]; intros reader; lazy -[get_data_field];
    generalize (get_data_field 16 0 reader); intros [|[[?|?|]|[?|?|]|]]; reflexivity].
Ltac check_code :=
  split; [check_fields; intros reader; vm_compute; reflexivity | check_union
         | check_fields; intros [] builder; vm_compute; reflexivity
         | check_fields; intros b; split; vm_compute; reflexivity].
Ltac check_struct :=
  eexists; split; [| check_tables | vm_compute; reflexivity .. | check_code]; vm_compute; reflexivity.

Lemma compiled_agree `{Capnp} : Forall (λ c, ∃ n, agrees c n) compiled.
Proof. unfold compiled. repeat apply Forall_cons_2; [check_struct ..| apply Forall_nil_2]. Qed.

(** C23 (schema): the schema, the tables and the accessors of the generated code agree.
    For each struct: the words of its encoded node are a node of the struct's name and
    id, with the size the accessors use; its fields are those declared, with the
    declared ordinals, types and places in or out of the union; the tables of members
    and types are the node's; the fields lie in the struct and share no bit with
    another field that can be there, or with the discriminant; and every getter,
    every setter, every test of a pointer and the union do what the node asks for,
    of any message. The
    enum's numbers are its enumerants, and the ids are distinct. *)
Theorem schema_agrees `{Capnp} :
  Forall (λ c, ∃ n, agrees c n) compiled ∧ enum_agrees worker_schema.WorkerStatus ∧
  NoDup (co_id <$> compiled).
Proof.
  split; [apply compiled_agree |].
  split; [| apply (bool_decide_unpack _); vm_compute; exact I].
  split; [vm_compute; reflexivity | | by intros []].
  intros [|[?|?|]]; simpl; lia || (split; [done | lia]).
Qed.
