(* ===== verification/SchemaLaws.v ===== *)
(** * What the accessors of a schema promise

    A setter and the getter of its field agree, and a setter leaves alone the other
    fields that can be there at once: of any node that is laid out ([SchemaCheck.v]),
    and so of every struct of [crates/evix/src/generated/worker_capnp.rs]. *)
From S2P Require Import Prelude Capnp SchemaNodes Schema SchemaCheck.
Local Open Scope N_scope.

Section laws.
Context `{CapnpLaws}.

(** ** Places *)

(** The content of a place is the same. *)
Definition same_at (p : Place) (b b' : Struct) : Prop :=
  match p with
  | Nowhere => True
  | Data w i => get_data_field w i b' = get_data_field w i b
  | Ptr i => get_pointer_field i b' = get_pointer_field i b
  end.

Lemma same_at_trans p b b' b'' : same_at p b b' → same_at p b' b'' → same_at p b b''.
Proof. destruct p; simpl; congruence. Qed.

Lemma same_at_data p w i v b : apart p (Data w i) = true → same_at p b (set_data_field w i v b).
Proof.
  destruct p as [|w' i'|j]; simpl; [done | | intros _; apply pointer_set_data].
  intros Hp. apply get_set_data_ne. unfold disjoint_fields.
  apply orb_true_iff in Hp as [Hp | Hp]; apply N.leb_le in Hp; lia.
Qed.

Lemma same_at_pointer p i v b : apart p (Ptr i) = true → same_at p b (set_pointer_field i v b).
Proof.
  destruct p as [|w' i'|j]; simpl; [done | intros _; apply data_set_pointer |].
  intros Hp. apply get_set_pointer_ne. by apply negb_true_iff, N.eqb_neq in Hp.
Qed.

Lemma apart_sym p q : apart p q = apart q p.
Proof. destruct p, q; simpl; [done .. | apply orb_comm | done | done | done |]. by rewrite N.eqb_sym. Qed.

(** What is read of a field is the content of its place. *)
Lemma read_same t b b' : same_at (place t) b b' → read_slot t b' = read_slot t b.
Proof.
  unfold read_slot, place, get_bool_field. destruct (sl_type t) as [| | | | |[]| |]; simpl; by try intros ->.
Qed.

(** ** Writing a field *)

(** A number fits the field of its type. *)
Definition given_fits (g : Given) : Prop :=
  match g with GU32 x => x < 2 ^ 32 | GU64 x => x < 2 ^ 64 | _ => True end.

(** What is read after a field was set; a child is the one that was built. *)
Definition given_read (g : Given) (v : Value) : Prop :=
  match g, v with
  | GVoid, VVoid => True
  | GBool b, VBool b' => b' = b
  | GU32 x, VU32 y | GU64 x, VU64 y => y = x
  | GEnum s, VEnum r => r = Ok s
  | GText t, VText r => r = Ok t
  | GStruct build, VStruct (Ok s) => ∃ size, build (new_struct size) = Ok s
  | GTexts len build, VTexts (Ok l) => build (new_text_list len) = Ok l
  | GStructs len build, VStructs (Ok l) => ∃ size, build (new_struct_list size len) = Ok l
  | _, _ => False
  end.

(** A child whose pointer was set could be built. *)
Ltac built :=
  repeat match goal with Hc : context [fmap _ ?r] |- _ => destruct r eqn:?; simplify_eq/= end.

Section node.
Context (n : Node).

Lemma write_same p s g b b' :
  write_slot n s g b = Some (Ok b') → apart p (place s) = true → same_at p (select n s b) b'.
Proof.
  unfold write_slot, place, build_pointer, set_bool_field. intros Hw Hp.
  destruct (sl_type s) as [| | | | |[]| |], g; simplify_eq/=;
    repeat case_match; simplify_eq/=; try by apply same_at_data.
  all: try by apply same_at_pointer. all: try (by destruct p).
  all: built.
  all: by apply same_at_pointer.
Qed.

Lemma select_size s b : struct_size (select n s b) = struct_size b.
Proof. unfold select. destruct (sl_discriminant s); [apply set_data_size | done]. Qed.

Lemma select_same p s b :
  (in_union s → tag n = Data 16 (nd_discriminant_offset n)) →
  apart p (tag n) = true → same_at p b (select n s b).
Proof.
  unfold select, in_union. intros Ht Hp. destruct (sl_discriminant s) as [d|] eqn:E.
  - apply same_at_data. rewrite <- Ht; [done | by case_bool_decide; eauto].
  - by destruct p.
Qed.

Lemma read_written_data w i v s b :
  place_in (nd_size n) (Data w i) = true → 0 < w → v < 2 ^ w → struct_size b = nd_size n →
  get_data_field w i (set_data_field w i v (select n s b)) = v.
Proof.
  intros Hin Hw Hv Hb. apply get_set_data; [| done].
  unfold field_in. rewrite select_size, Hb. by apply N.leb_le in Hin.
Qed.

Lemma read_written_pointer i p s b :
  place_in (nd_size n) (Ptr i) = true → struct_size b = nd_size n →
  get_pointer_field i (set_pointer_field i p (select n s b)) = p.
Proof. intros Hin Hb. apply get_set_pointer. rewrite select_size, Hb. by apply N.ltb_lt. Qed.

(** The field that was written is read back. *)
Lemma write_read s g b b' :
  write_slot n s g b = Some (Ok b') → struct_size b = nd_size n → place_in (nd_size n) (place s) = true →
  given_fits g → ∃ v, read_slot s b' = Some v ∧ given_read g v.
Proof.
  unfold write_slot, read_slot, place, build_pointer, get_bool_field, set_bool_field.
  intros Hw Hsize Hin Hfit.
  destruct (sl_type s) as [| | | | |[]| |], g; simplify_eq/=;
    repeat case_match; simplify_eq/=.
  all: unfold init_struct, init_text_list, init_struct_list in *; built.
  all: eexists; (split; [done |]); cbn [given_read].
  all: rewrite ?read_written_data, ?read_written_pointer
         by (done || lia || by destruct b0 || by destruct s0).
  all: rewrite ?get_to_text, ?get_to_text_list, ?get_to_struct_list, ?get_to_struct; try done; eauto.
  - by destruct b0.
  - by destruct s0.
Qed.

(** A child or a text that was written is there. *)
Lemma write_present s g b b' :
  write_slot n s g b = Some (Ok b') → struct_size b = nd_size n → place_in (nd_size n) (place s) = true →
  is_pointer s = true → is_null (get_pointer_field (sl_offset s) b') = false.
Proof.
  unfold write_slot, is_pointer, place, build_pointer, init_struct, init_text_list, init_struct_list.
  intros Hw Hsize Hin Hp.
  destruct (sl_type s) as [| | | | |[]| |], g; simplify_eq/=; repeat case_match; simplify_eq/=.
  all: built.
  all: rewrite ?read_written_pointer by done.
  all: auto using text_not_null, struct_not_null, text_list_not_null, struct_list_not_null.
Qed.

(** ** The union *)

Lemma head_filter_unique {A} (P : A → Prop) `{∀ x, Decision (P x)} (l : list A) x :
  x ∈ l → P x → (∀ y, y ∈ l → P y → y = x) → head (filter P l) = Some x.
Proof.
  intros Hx Hp Hall. destruct (filter P l) as [|y k] eqn:E.
  - assert (Hf : x ∈ filter P l) by (by apply list_elem_of_filter). rewrite E in Hf.
    by apply elem_of_nil in Hf.
  - assert (Hf : y ∈ filter P l) by (rewrite E; left).
    apply list_elem_of_filter in Hf as [??]. simpl. by rewrite (Hall y).
Qed.

Lemma NoDup_omap_inj {A B} (f : A → option B) (l : list A) x y d :
  NoDup (omap f l) → x ∈ l → y ∈ l → f x = Some d → f y = Some d → x = y.
Proof.
  intros Hd Hx Hy Hfx Hfy. induction l as [|z l IH]; [by apply elem_of_nil in Hx |].
  simpl in Hd. rewrite !elem_of_cons in Hx, Hy.
  assert (Hz : ∀ w, f z = Some d → f w = Some d → w ∈ l → False).
  { intros w Ez Ew Hw. rewrite Ez in Hd. apply NoDup_cons in Hd as [Hn _].
    apply Hn, list_elem_of_omap. eauto. }
  destruct Hx as [-> | Hx], Hy as [-> | Hy]; [done | by destruct (Hz y) | by destruct (Hz x) |].
  apply IH; [| done ..]. destruct (f z); [by apply NoDup_cons in Hd as [_ ?] | done].
Qed.

(** ** A node that is laid out *)

Record well_laid : Prop := {
  wl_tag : place_in (nd_size n) (tag n) = true;
  wl_field s : s ∈ nd_fields n → place_in (nd_size n) (place s) = true ∧ apart (place s) (tag n) = true;
  wl_apart s t : s ∈ nd_fields n → t ∈ nd_fields n →
    s = t ∨ (in_union s ∧ in_union t) ∨ apart (place t) (place s) = true;
  wl_names : NoDup (sl_name <$> nd_fields n);
  wl_discriminants : NoDup (omap sl_discriminant (nd_fields n));
  wl_count s d : s ∈ nd_fields n → sl_discriminant s = Some d →
    (d < 2 ^ 16) ∧ tag n = Data 16 (nd_discriminant_offset n);
}.

Lemma laid_out_well : laid_out n = true → well_laid.
Proof.
  unfold laid_out. rewrite !andb_true_iff, !forallb_forall, !bool_decide_eq_true.
  intros [[[[[Htag Hf] Ha] Hn] Hd] Hc]. split; try done.
  - intros s Hs. by apply list_elem_of_In, Hf, andb_true_iff in Hs.
  - intros s t Hs%list_elem_of_In Ht%list_elem_of_In.
    apply Ha in Ht. rewrite forallb_forall in Ht. specialize (Ht s Hs).
    rewrite !orb_true_iff, andb_true_iff, bool_decide_eq_true in Ht.
    destruct Ht as [[-> | [??]] | ?]; rewrite ?Is_true_true; auto.
  - intros s d Hs E. assert (Hlt : (d <? N.min (nd_discriminants n) (2 ^ 16)) = true).
    { apply Hc, list_elem_of_In, list_elem_of_omap. eauto. }
    apply N.ltb_lt in Hlt. split; [lia |]. unfold tag.
    destruct (N.eqb_spec (nd_discriminants n) 0); [lia | done].
Qed.

Hypothesis Hwell : well_laid.

Lemma in_union_tag s : s ∈ nd_fields n → in_union s → tag n = Data 16 (nd_discriminant_offset n).
Proof.
  unfold in_union. intros Hs [d Hd]%bool_decide_unpack. by eapply (wl_count Hwell).
Qed.

Lemma write_other s t g b b' :
  s ∈ nd_fields n → t ∈ nd_fields n → s ≠ t → ¬ (in_union s ∧ in_union t) →
  write_slot n s g b = Some (Ok b') → same_at (place t) b b'.
Proof.
  intros Hs Ht Hne Hu Hw.
  apply same_at_trans with (select n s b).
  - apply select_same; [exact (in_union_tag s Hs) | by apply (wl_field Hwell)].
  - eapply write_same; [done |]. by destruct (wl_apart Hwell s t) as [?|[?|?]].
Qed.

Lemma write_discriminant s g b b' d :
  s ∈ nd_fields n → sl_discriminant s = Some d → write_slot n s g b = Some (Ok b') →
  struct_size b = nd_size n → get_data_field 16 (nd_discriminant_offset n) b' = d.
Proof.
  intros Hs Hd Hw Hsize. destruct (wl_count Hwell s d Hs Hd) as [Hlt Ht].
  assert (Hsame : same_at (tag n) (select n s b) b').
  { eapply write_same; [done |]. rewrite apart_sym. by apply (wl_field Hwell). }
  rewrite Ht in Hsame. simpl in Hsame. rewrite Hsame. unfold select. rewrite Hd.
  apply get_set_data; [| done].
  pose proof (wl_tag Hwell) as Hp. rewrite Ht in Hp. apply N.leb_le in Hp.
  rewrite Hsize. by split; [lia |].
Qed.

(** A member of the union is selected by its setter... *)
Lemma write_selects s g b b' v :
  s ∈ nd_fields n → in_union s → write_slot n s g b = Some (Ok b') → struct_size b = nd_size n →
  read_slot s b' = Some v → read_union n b' = Some (Ok (sl_name s, v)).
Proof.
  intros Hs [d Hd]%bool_decide_unpack Hw Hsize Hv.
  pose proof (write_discriminant s g b b' d Hs Hd Hw Hsize) as Hread.
  unfold read_union. rewrite Hread.
  rewrite (head_filter_unique _ _ s); [by rewrite Hv | done .. |].
  intros t Ht' Hd'. by eapply NoDup_omap_inj; [apply (wl_discriminants Hwell) | ..].
Qed.

Lemma write_keeps_discriminant s g b b' :
  s ∈ nd_fields n → in_union s = false → write_slot n s g b = Some (Ok b') →
  tag n = Data 16 (nd_discriminant_offset n) →
  get_data_field 16 (nd_discriminant_offset n) b' = get_data_field 16 (nd_discriminant_offset n) b.
Proof.
  intros Hs Hin Hw Ht.
  assert (Hsel : select n s b = b).
  { unfold select. unfold in_union in Hin. destruct (sl_discriminant s); [| done].
    apply bool_decide_eq_false in Hin. destruct Hin. eauto. }
  assert (Hsame : same_at (tag n) (select n s b) b').
  { eapply write_same; [done |]. rewrite apart_sym. by apply (wl_field Hwell). }
  by rewrite Ht, Hsel in Hsame.
Qed.

(** ... and the others leave the union alone. *)
Lemma write_keeps_union s g b b' :
  s ∈ nd_fields n → in_union s = false → write_slot n s g b = Some (Ok b') →
  0 < nd_discriminants n → read_union n b' = read_union n b.
Proof.
  intros Hs Hin Hw Hd.
  assert (Ht : tag n = Data 16 (nd_discriminant_offset n)).
  { unfold tag. destruct (N.eqb_spec (nd_discriminants n) 0); [lia | done]. }
  unfold read_union. rewrite (write_keeps_discriminant s g b b') by done.
  destruct (head _) as [t|] eqn:E; [| done].
  assert (Hm : t ∈ filter (λ s, sl_discriminant s = Some
             (get_data_field 16 (nd_discriminant_offset n) b)) (nd_fields n)).
  { destruct (filter _ _); [done |]. simplify_eq/=. left. }
  apply list_elem_of_filter in Hm as [Htd Hm].
  rewrite (read_same t b b'); [done |]. apply (write_other s t g); try done.
  - intros ->. unfold in_union in Hin. rewrite Htd in Hin. done.
  - intros [Hi _]. by rewrite Hin in Hi.
Qed.

(** ** Pointers that are there *)

Lemma has_written s g b b' :
  s ∈ nd_fields n → is_pointer s = true → write_slot n s g b = Some (Ok b') →
  struct_size b = nd_size n → has_slot n s b' = true.
Proof.
  intros Hs Hp Hw Hsize. unfold has_slot, selected.
  rewrite (write_present s g b b') by (done || by apply (wl_field Hwell)).
  destruct (sl_discriminant s) as [d|] eqn:Hd; [| done].
  by rewrite (write_discriminant s g b b' d), N.eqb_refl.
Qed.

Lemma has_other s t g b b' :
  s ∈ nd_fields n → t ∈ nd_fields n → s ≠ t → ¬ (in_union s ∧ in_union t) → is_pointer t = true →
  write_slot n s g b = Some (Ok b') → has_slot n t b' = has_slot n t b.
Proof.
  intros Hs Ht Hne Hu Hp Hw. pose proof (write_other s t g b b' Hs Ht Hne Hu Hw) as Hsame.
  assert (Hptr : get_pointer_field (sl_offset t) b' = get_pointer_field (sl_offset t) b).
  { unfold is_pointer, place in *. by destruct (sl_type t). }
  unfold has_slot, selected. rewrite Hptr. destruct (sl_discriminant t) as [d|] eqn:Hd; [| done].
  destruct (wl_count Hwell t d Ht Hd) as [_ Htag].
  rewrite (write_keeps_discriminant s g b b'); [done .. | | done | done].
  destruct (in_union s); [| done]. destruct Hu. split; [done |].
  unfold in_union. rewrite Hd. done.
Qed.

Lemma has_unselected s t g b b' :
  s ∈ nd_fields n → t ∈ nd_fields n → s ≠ t → in_union s → in_union t →
  write_slot n s g b = Some (Ok b') → struct_size b = nd_size n → has_slot n t b' = false.
Proof.
  intros Hs Ht Hne [d Hd]%bool_decide_unpack [d' Hd']%bool_decide_unpack Hw Hsize.
  unfold has_slot, selected. rewrite Hd', (write_discriminant s g b b' d) by done.
  destruct (N.eqb_spec d d') as [<- |]; [| done].
  destruct Hne. by eapply NoDup_omap_inj; [apply (wl_discriminants Hwell) | ..].
Qed.
End node.

(** ** The generated accessors *)

Section code.
Context (c : Compiled) (n : Node) (Hcode : implements c n).

Lemma getter_slot name get :
  (name, get) ∈ co_getters c →
  ∃ s, s ∈ nd_fields n ∧ in_union s = false ∧ sl_name s = name ∧
       ∀ reader, read_slot s reader = Some (get reader).
Proof.
  intros [i Hi]%list_elem_of_lookup.
  destruct (Forall2_lookup_r _ _ _ _ _ (code_getters _ _ Hcode) Hi) as (s & Hs & Hn & Hr).
  apply list_elem_of_lookup_2, list_elem_of_filter in Hs as [??]. eauto.
Qed.

Lemma setter_slot name set :
  (name, set) ∈ co_setters c →
  ∃ s, s ∈ nd_fields n ∧ sl_name s = name ∧ ∀ g b, write_slot n s g b = set g b.
Proof.
  intros [i Hi]%list_elem_of_lookup.
  destruct (Forall2_lookup_r _ _ _ _ _ (code_setters _ _ Hcode) Hi) as (s & Hs & Hn & Hw).
  apply list_elem_of_lookup_2 in Hs. eauto.
Qed.

Lemma has_of_slot name has has' :
  (name, has, has') ∈ co_has c →
  ∃ s, s ∈ nd_fields n ∧ is_pointer s = true ∧ sl_name s = name ∧
       ∀ b, has b = has_slot n s b ∧ has' b = has_slot n s b.
Proof.
  intros [i Hi]%list_elem_of_lookup.
  destruct (Forall2_lookup_r _ _ _ _ _ (code_has _ _ Hcode) Hi) as (s & Hs & Hn & Hr).
  apply list_elem_of_lookup_2, list_elem_of_filter in Hs as [??]. eauto.
Qed.

(** The names of the getters are the names of the fields outside of the union. *)
Lemma getter_named s :
  s ∈ nd_fields n → in_union s = false → sl_name s ∈ (co_getters c).*1.
Proof.
  intros Hs Hu. assert (Hf : s ∈ filter (λ s, in_union s = false) (nd_fields n))
    by (by apply list_elem_of_filter).
  apply list_elem_of_lookup in Hf as [i Hi].
  destruct (Forall2_lookup_l _ _ _ _ _ (code_getters _ _ Hcode) Hi) as (g & Hg & <- & _).
  apply list_elem_of_fmap. exists g. split; [done |]. by eapply list_elem_of_lookup_2.
Qed.

Lemma slot_of_name s t :
  NoDup (sl_name <$> nd_fields n) → s ∈ nd_fields n → t ∈ nd_fields n → sl_name s = sl_name t → s = t.
Proof.
  intros Hd [i Hi]%list_elem_of_lookup [j Hj]%list_elem_of_lookup E.
  assert (i = j) as ->; [| by simplify_eq].
  eapply (NoDup_lookup _ i j (sl_name s) Hd); rewrite list_lookup_fmap, ?Hi, ?Hj; simpl; congruence.
Qed.
(** A name that is not a getter's is that of a member of the union. *)
Lemma union_named s :
  NoDup (sl_name <$> nd_fields n) → s ∈ nd_fields n →
  in_union s ↔ sl_name s ∉ (co_getters c).*1.
Proof.
  intros Hd Hs. split.
  - intros Hin [[name get] [Hname Hget]]%list_elem_of_fmap. simpl in Hname.
    destruct (getter_slot name get Hget) as (t & Ht & Hu & Hn & _).
    rewrite (slot_of_name s t) in Hin; [by rewrite Hu in Hin | done .. | congruence].
  - intros Hn. destruct (in_union s) eqn:E; [done |]. by destruct Hn; apply getter_named.
Qed.
End code.

(** C22 (accessors): the accessors of a struct agree, for every struct of the schema: a
    field that a setter sets (a value within its type, a child that could be built)
    is what its getter reads, or, when it is a member of the union, is the member that
    [which] tells; the getters of the other fields read what they did, and setting a
    field outside of the union leaves the union as it was. A pointer that was set is
    there, for a reader and for a builder; the others are there if they were, but
    members of the union that another member has replaced are not. *)
Theorem accessors_agree c name set g b b' :
  c ∈ compiled → (name, set) ∈ co_setters c → set g b = Some (Ok b') →
  struct_size b = co_size c → given_fits g →
  ∃ v, given_read g v ∧
    (∀ get, (name, get) ∈ co_getters c → get b' = v) ∧
    (name ∉ (co_getters c).*1 → ∃ which, co_which c = Some which ∧ which b' = Ok (name, v)) ∧
    (∀ other get, (other, get) ∈ co_getters c → other ≠ name → get b' = get b) ∧
    (name ∈ (co_getters c).*1 → ∀ which, co_which c = Some which → which b' = which b) ∧
    (∀ has has', (name, has, has') ∈ co_has c → has b' = true ∧ has' b' = true) ∧
    (∀ other has has', (other, has, has') ∈ co_has c → other ≠ name →
       if decide (name ∈ (co_getters c).*1 ∨ other ∈ (co_getters c).*1)
       then has b' = has b ∧ has' b' = has' b else has b' = false ∧ has' b' = false).
Proof.
  intros Hc Hset Hb Hsize Hfit.
  destruct (proj1 (Forall_forall _ _) compiled_agree c Hc) as [n [_ Htab _ Hlaid Hcode]].
  apply laid_out_well in Hlaid as Hw.
  destruct (setter_slot c n Hcode name set Hset) as (s & Hs & <- & Hws). rewrite <- Hws in Hb.
  rewrite <- (table_size _ _ _ _ Htab) in Hsize.
  destruct (write_read n s g b b' Hb Hsize) as (v & Hv & Hg); [by apply (wl_field _ Hw) | done |].
  pose proof (union_named c n Hcode s (wl_names _ Hw) Hs) as Hunion.
  exists v. split; [done |]. split_and!.
  - intros get Hget. destruct (getter_slot c n Hcode _ get Hget) as (t & Ht & _ & Hn & Hr).
    rewrite (slot_of_name n t s) in Hr; [| apply (wl_names _ Hw) | done ..].
    rewrite Hr in Hv. by simplify_eq.
  - intros Hu%Hunion. pose proof (write_selects n Hw s g b b' v Hs Hu Hb Hsize Hv) as Hr.
    pose proof (code_which _ _ Hcode) as Hwhich. destruct (co_which c) as [which|].
    + exists which. destruct Hwhich as [_ Hwhich]. rewrite Hwhich in Hr. by simplify_eq.
    + pose proof (in_union_tag n Hw s Hs Hu) as Ht. unfold tag in Ht. by rewrite Hwhich in Ht.
  - intros other get Hget Hne. destruct (getter_slot c n Hcode _ get Hget) as (t & Ht & Hu & <- & Hr).
    assert (Hsame : read_slot t b' = read_slot t b).
    { eapply read_same, (write_other n Hw s); [done .. | | | done]; [congruence |].
      intros [_ Hi]. by rewrite Hu in Hi. }
    rewrite !Hr in Hsame. by simplify_eq.
  - intros Hn which Ew. pose proof (code_which _ _ Hcode) as Hwhich. rewrite Ew in Hwhich.
    destruct Hwhich as [Hd Hwhich].
    assert (Hu : in_union s = false) by (destruct (in_union s); [by destruct (proj1 Hunion) | done]).
    assert (Hsame : read_union n b' = read_union n b).
    { eapply write_keeps_union; eauto. }
    rewrite !Hwhich in Hsame. by simplify_eq.
  - intros has has' Hhas. destruct (has_of_slot c n Hcode _ _ _ Hhas) as (t & Ht & Hp & Hn & Hr).
    pose proof (slot_of_name n t s (wl_names _ Hw) Ht Hs Hn) as ->.
    destruct (Hr b') as [-> ->]. split; by eapply has_written.
  - intros other has has' Hhas Hne.
    destruct (has_of_slot c n Hcode _ _ _ Hhas) as (t & Ht & Hp & <- & Hr).
    assert (s ≠ t) by congruence.
    pose proof (union_named c n Hcode t (wl_names _ Hw) Ht) as Htu.
    destruct (Hr b') as [-> ->], (Hr b) as [-> ->]. case_decide as Hd.
    + split; apply (has_other n Hw s t g); try done; intros [?%Hunion ?%Htu]; tauto.
    + split; apply (has_unselected n Hw s t g b); try done; (apply Hunion || apply Htu); tauto.
Qed.
End laws.

Import Capnp.Tree.

Lemma accessors_agree_witness :
  let b := new_struct string_pair.STRUCT_SIZE in
  let b' := string_pair.set_key "k" b in
  (struct_size b = co_size string_pair_code ∧ string_pair.get_value b' = string_pair.get_value b) ∧
  ∃ v, given_read (GText "k") v ∧ VText (string_pair.get_key b') = v.
Proof.
  intros b b'.
  destruct (accessors_agree string_pair_code "key" (on_text string_pair.set_key) (GText "k") b b')
    as (v & Hg & Hget & _ & Hother & _).
  - left.
  - left.
  - reflexivity.
  - reflexivity.
  - exact I.
  - split; [split; [reflexivity |] | exists v; split; [exact Hg |]].
    + pose proof (Hother "value" (λ r, VText (string_pair.get_value r))
        ltac:(right; left) ltac:(discriminate)) as Hv. cbn in Hv. by simplify_eq.
    + apply (Hget (λ r, VText (string_pair.get_key r))). left.
Defined.
