(* ===== verification/Wire.v ===== *)
(** * The worker protocol on the wire

    [crates/evix/src/remote_proto.rs] again, as it is written: every message
    built and read through the generated accessors of [Schema.v], field by field
    and in the source's order. The theorems show that this implements the
    messages of [RemoteProto.v], of which the rest of the development speaks. *)
From S2P Require Import Prelude Types Config WorkerProcess RemoteProto Capnp Schema.

(** [for (index, a) in l.iter().enumerate() { .. }] and
    [for index in 0..len { out.push(..) }] *)
Fixpoint for_enumerate {A S} (index : N) (l : list A) (body : N → A → S → Result S) (s : S)
  : Result S :=
  match l with
  | [] => Ok s
  | a :: l => s ← body index a s; for_enumerate (index + 1)%N l body s
  end.
Definition for_range {B} (len : N) (body : N → Result B) : Result (list B) :=
  collect_results body (N.of_nat <$> seq 0 (N.to_nat len)).

Definition out_of_range : Report := report "out of range integral type conversion attempted".

Definition list_len (len : nat) (field : string) : Result N :=
  ok_or (context (field +:+ " length exceeds Cap'n Proto list limit") out_of_range)
    (u32_try_from (N.of_nat len)).
Definition list_index (index : N) : Result N :=
  ok_or (context "Cap'n Proto list index exceeds u32" out_of_range) (u32_try_from index).

(** [usize::try_from] of a [u64], and [usize as u64]: [usize] is 64 bits wide. *)
Definition usize_try_from (n : N) : Result N := if (n <=? usize_max)%N then Ok n else Err out_of_range.

Section wire.
Context `{Capnp}.
Context (debug_path : string → string).
Context (json_to_string : Json → Result string) (json_from_str : string → Result Json).
Context (strings_to_string : list string → Result string).
Context (strings_from_str : string → Result (list string)).

(** ** Parts *)

Definition set_text_opt (value : option string) (builder : Struct) : Struct :=
  match value with
  | Some value => text_opt.set_some value builder
  | None => text_opt.set_none tt builder
  end.
Definition read_text_opt (reader : Struct) : Result (option string) :=
  which ← text_opt.which reader;
  match which with
  | text_opt.None _ => Ok None
  | text_opt.Some value => value ← value; Some <$> read_text value
  end.

Definition set_text_list (values : list string) (builder : TextList) : Result TextList :=
  for_enumerate 0 values (λ index value builder,
    i ← list_index index; Ok (text_list_set i value builder)) builder.
Definition read_text_list (reader : TextList) : Result (list string) :=
  for_range (text_list_len reader) (λ index, text ← text_list_get index reader; read_text text).
Definition read_text_list_opt (reader : Struct) : Result (option (list string)) :=
  which ← text_list_opt.which reader;
  match which with
  | text_list_opt.None _ => Ok None
  | text_list_opt.Some value => value ← value; Some <$> read_text_list value
  end.

Definition set_pairs (pairs : list (string * string)) (builder : StructList) : Result StructList :=
  for_enumerate 0 pairs (λ index pair builder,
    i ← list_index index;
    struct_list_build i (λ item,
      Ok (string_pair.set_value pair.2 (string_pair.set_key pair.1 item))) builder) builder.
Definition read_pair (item : Struct) : Result (string * string) :=
  key ← string_pair.get_key item; key ← read_text key;
  value ← string_pair.get_value item; value ← read_text value;
  Ok (key, value).
Definition read_pairs (items : StructList) : Result (list (string * string)) :=
  for_range (struct_list_len items) (λ index, read_pair (struct_list_get index items)).

(** ** Worker configurations *)

Definition set_input (input : Input) (builder : Struct) : Result Struct :=
  match input with
  | Flake value => Ok (input.set_flake value builder)
  | Expr value => Ok (input.set_expr value builder)
  | File path =>
      path ← path_text debug_path "input file" path; Ok (input.set_file path builder)
  end.
Definition read_input (reader : Struct) : Result Input :=
  which ← input.which reader;
  match which with
  | input.Flake value => value ← value; Flake <$> read_text value
  | input.Expr value => value ← value; Expr <$> read_text value
  | input.File value => value ← value; File <$> read_text value
  end.

Definition set_auto_arg (arg : string * AutoArg) (item : Struct) : Struct :=
  let item := auto_arg.set_name arg.1 item in
  match arg.2 with
  | ArgExpr expr => auto_arg.set_expr expr item
  | ArgStr value => auto_arg.set_str value item
  end.
Definition set_auto_args (args : list (string * AutoArg)) (builder : StructList)
  : Result StructList :=
  for_enumerate 0 args (λ index arg builder,
    i ← list_index index;
    struct_list_build i (λ item, Ok (set_auto_arg arg item)) builder) builder.
Definition read_auto_arg (item : Struct) : Result (string * AutoArg) :=
  name ← auto_arg.get_name item; name ← read_text name;
  which ← auto_arg.which item;
  value ← match which with
          | auto_arg.Expr expr => expr ← expr; ArgExpr <$> read_text expr
          | auto_arg.Str value => value ← value; ArgStr <$> read_text value
          end;
  Ok (name, value).
Definition read_auto_args (items : StructList) : Result (list (string * AutoArg)) :=
  for_range (struct_list_len items) (λ index, read_auto_arg (struct_list_get index items)).

Definition set_worker_config (config : WorkerConfig) (builder : Struct) : Result Struct :=
  builder ← worker_config.init_input (set_input (wc_input config)) builder;
  len ← list_len (length (wc_auto_args config)) "auto args";
  builder ← worker_config.init_auto_args len (set_auto_args (wc_auto_args config)) builder;
  let builder := worker_config.set_force_recurse (wc_force_recurse config) builder in
  dir ← transpose (path_text debug_path "gc roots directory") (wc_gc_roots_dir config);
  builder ← worker_config.init_gc_roots_dir (λ b, Ok (set_text_opt dir b)) builder;
  let builder := worker_config.set_max_memory_size (wc_max_memory_size config) builder in
  let builder :=
    worker_config.set_item_timeout_seconds (wc_item_timeout_seconds config) builder in
  let builder := worker_config.set_meta (wc_meta config) builder in
  let builder := worker_config.set_show_input_drvs (wc_show_input_drvs config) builder in
  len ← list_len (length (wc_override_inputs config)) "override inputs";
  builder ← worker_config.init_override_inputs len (set_pairs (wc_override_inputs config)) builder;
  len ← list_len (length (wc_nix_options config)) "nix options";
  builder ← worker_config.init_nix_options len (set_pairs (wc_nix_options config)) builder;
  worker_config.init_locked_flake_json
    (λ b, Ok (set_text_opt (wc_locked_flake_json config) b)) builder.

Definition read_item_timeout_seconds (reader : Struct) : N :=
  match worker_config.get_item_timeout_seconds reader with
  | 0%N => DEFAULT_ITEM_TIMEOUT_SECONDS
  | seconds => seconds
  end.

Definition read_worker_config (reader : Struct) : Result WorkerConfig :=
  input ← worker_config.get_input reader; input ← read_input input;
  auto_args ← worker_config.get_auto_args reader; auto_args ← read_auto_args auto_args;
  gc_roots_dir ← worker_config.get_gc_roots_dir reader; gc_roots_dir ← read_text_opt gc_roots_dir;
  max_memory_size ← with_context "maxMemorySize exceeds this platform's usize"
                      (usize_try_from (worker_config.get_max_memory_size reader));
  override_inputs ← worker_config.get_override_inputs reader;
  override_inputs ← read_pairs override_inputs;
  nix_options ← worker_config.get_nix_options reader; nix_options ← read_pairs nix_options;
  locked ← worker_config.get_locked_flake_json reader; locked ← read_text_opt locked;
  Ok (mkWorkerConfig input auto_args (worker_config.get_force_recurse reader) gc_roots_dir
        max_memory_size (read_item_timeout_seconds reader) (worker_config.get_meta reader)
        (worker_config.get_show_input_drvs reader) override_inputs nix_options locked).

(** ** Events *)

Definition set_output (output : string * option string) (item : Struct) : Struct :=
  let item := output.set_name output.1 item in
  match output.2 with
  | Some path => output.set_path path item
  | None => output.set_absent tt item
  end.
Definition set_outputs (outputs : list (string * option string)) (builder : StructList)
  : Result StructList :=
  for_enumerate 0 outputs (λ index output builder,
    i ← list_index index;
    struct_list_build i (λ item, Ok (set_output output item)) builder) builder.
Definition read_output (item : Struct) : Result (string * option string) :=
  which ← output.which item;
  value ← match which with
          | output.Absent _ => Ok None
          | output.Path path => path ← path; Some <$> read_text path
          end;
  name ← output.get_name item; name ← read_text name;
  Ok (name, value).

Definition set_input_drvs (input_drvs : list (string * list string)) (builder : StructList)
  : Result StructList :=
  for_enumerate 0 input_drvs (λ index drv builder,
    i ← list_index index;
    struct_list_build i (λ item,
      let item := input_drv.set_drv_path drv.1 item in
      json ← strings_to_string drv.2; Ok (input_drv.set_value_json json item)) builder) builder.
Definition read_input_drv (item : Struct) : Result (string * list string) :=
  drv_path ← input_drv.get_drv_path item; drv_path ← read_text drv_path;
  json ← input_drv.get_value_json item; json ← read_text json;
  outputs ← with_context "parsing inputDrv outputs" (strings_from_str json);
  Ok (drv_path, outputs).

Definition set_constituents (constituents : option (list string)) (builder : Struct)
  : Result Struct :=
  derivation.init_constituents (λ b,
    match constituents with
    | Some constituents =>
        len ← list_len (length constituents) "constituents";
        text_list_opt.init_some len (set_text_list constituents) b
    | None => Ok (text_list_opt.set_none tt b)
    end) builder.

Definition set_derivation (d : Derivation) (builder : Struct) : Result Struct :=
  let builder := derivation.set_attr (d_attr d) builder in
  len ← list_len (length (d_attr_path d)) "derivation attr path";
  builder ← derivation.init_attr_path len (set_text_list (d_attr_path d)) builder;
  let builder := derivation.set_name (d_name d) builder in
  let builder := derivation.set_system (d_system d) builder in
  let builder := derivation.set_drv_path (d_drv_path d) builder in
  let outputs := btree_iter (d_outputs d) in
  len ← list_len (length outputs) "derivation outputs";
  builder ← derivation.init_outputs len (set_outputs outputs) builder;
  meta_json ← transpose json_to_string (d_meta d);
  builder ← derivation.init_meta_json (λ b, Ok (set_text_opt meta_json b)) builder;
  let input_drvs := btree_iter (d_input_drvs d) in
  len ← list_len (length input_drvs) "input drvs";
  builder ← derivation.init_input_drvs len (set_input_drvs input_drvs) builder;
  builder ← set_constituents (d_constituents d) builder;
  derivation.init_gc_root_error (λ b, Ok (set_text_opt (d_gc_root_error d) b)) builder.

Definition read_derivation (reader : Struct) : Result Derivation :=
  outputs ← derivation.get_outputs reader;
  outputs ← for_range (struct_list_len outputs) (λ i, read_output (struct_list_get i outputs));
  input_drvs ← derivation.get_input_drvs reader;
  input_drvs ← for_range (struct_list_len input_drvs)
                 (λ i, read_input_drv (struct_list_get i input_drvs));
  attr ← derivation.get_attr reader; attr ← read_text attr;
  attr_path ← derivation.get_attr_path reader; attr_path ← read_text_list attr_path;
  name ← derivation.get_name reader; name ← read_text name;
  system ← derivation.get_system reader; system ← read_text system;
  drv_path ← derivation.get_drv_path reader; drv_path ← read_text drv_path;
  meta_json ← derivation.get_meta_json reader; meta_json ← read_text_opt meta_json;
  meta ← with_context "parsing meta JSON value" (transpose json_from_str meta_json);
  constituents ← derivation.get_constituents reader;
  constituents ← read_text_list_opt constituents;
  gc_root_error ← derivation.get_gc_root_error reader;
  gc_root_error ← read_text_opt gc_root_error;
  Ok (mkDerivation attr attr_path name system drv_path (collect_map outputs) meta
        (collect_map input_drvs) constituents gc_root_error).

Definition set_eval_error (e : EvalError) (builder : Struct) : Result Struct :=
  let builder := eval_error.set_attr (e_attr e) builder in
  len ← list_len (length (e_attr_path e)) "error attr path";
  builder ← eval_error.init_attr_path len (set_text_list (e_attr_path e)) builder;
  Ok (eval_error.set_fatal (e_fatal e) (eval_error.set_error (e_error e) builder)).
Definition read_eval_error (reader : Struct) : Result EvalError :=
  attr ← eval_error.get_attr reader; attr ← read_text attr;
  attr_path ← eval_error.get_attr_path reader; attr_path ← read_text_list attr_path;
  error ← eval_error.get_error reader; error ← read_text error;
  Ok (mkEvalError attr attr_path error (eval_error.get_fatal reader)).

Definition set_attr_set (attr : string) (attr_path attrs : list string) (builder : Struct)
  : Result Struct :=
  let builder := attr_set.set_attr attr builder in
  len ← list_len (length attr_path) "attr path";
  builder ← attr_set.init_attr_path len (set_text_list attr_path) builder;
  len ← list_len (length attrs) "attr set children";
  attr_set.init_attrs len (set_text_list attrs) builder.
Definition read_attr_set (reader : Struct) : Result Event :=
  attr ← attr_set.get_attr reader; attr ← read_text attr;
  attr_path ← attr_set.get_attr_path reader; attr_path ← read_text_list attr_path;
  attrs ← attr_set.get_attrs reader; attrs ← read_text_list attrs;
  Ok (EvAttrSet attr attr_path attrs).

Definition set_event (event : Event) (builder : Struct) : Result Struct :=
  match event with
  | EvDerivation d => event.init_derivation (set_derivation d) builder
  | EvAttrSet attr attr_path attrs =>
      event.init_attr_set (set_attr_set attr attr_path attrs) builder
  | EvError e => event.init_error (set_eval_error e) builder
  end.
Definition read_event (reader : Struct) : Result Event :=
  which ← event.which reader;
  match which with
  | event.Derivation d => d ← d; EvDerivation <$> read_derivation d
  | event.AttrSet attr_set => attr_set ← attr_set; read_attr_set attr_set
  | event.Error e => e ← e; EvError <$> read_eval_error e
  end.

(** ** Messages: the root of what is written, and of what is read *)

Definition set_setup (config : WorkerConfig) (token expected_store_dir : option string)
    (setup : Struct) : Result Struct :=
  setup ← setup.init_config (set_worker_config config) setup;
  setup ← setup.init_token (λ b, Ok (set_text_opt token b)) setup;
  setup ← setup.init_expected_store_dir (λ b, Ok (set_text_opt expected_store_dir b)) setup;
  Ok (setup.set_protocol_version WORKER_PROTOCOL_VERSION setup).

Definition write_client (message : ClientMessage) : Result Struct :=
  let root := new_struct client_message.STRUCT_SIZE in
  match message with
  | Setup config token expected_store_dir =>
      client_message.init_setup (set_setup config token expected_store_dir) root
  | Work path =>
      client_message.init_work (λ work,
        len ← list_len (length path) "work attr path";
        work.init_attr_path len (set_text_list path) work) root
  | Shutdown => Ok (client_message.set_shutdown tt root)
  end.

Definition decode_client (root : Struct) : Result ClientMessage :=
  which ← client_message.which root;
  match which with
  | client_message.Setup setup =>
      setup ← setup;
      _ ← validate_worker_protocol (setup.get_protocol_version setup);
      config ← setup.get_config setup; config ← read_worker_config config;
      token ← setup.get_token setup; token ← read_text_opt token;
      dir ← setup.get_expected_store_dir setup; dir ← read_text_opt dir;
      Ok (Setup config token dir)
  | client_message.Work work =>
      work ← work; path ← work.get_attr_path work; Work <$> read_text_list path
  | client_message.Shutdown _ => Ok Shutdown
  end.

Definition encode_server (message : ServerMessage) : Result Struct :=
  let root := new_struct server_message.STRUCT_SIZE in
  match message with
  | SrvReady => Ok (server_message.set_ready tt root)
  | SrvEvent event => server_message.init_event (set_event event) root
  | SrvStatus status =>
      Ok (server_message.set_status
            match status with
            | Ready => WorkerStatus.Ready | Restart => WorkerStatus.Restart
            end root)
  | SrvError error => Ok (server_message.set_error error root)
  end.

Definition read_server (root : Struct) : Result ServerMessage :=
  which ← server_message.which root;
  match which with
  | server_message.Ready _ => Ok SrvReady
  | server_message.Event event => event ← event; SrvEvent <$> read_event event
  | server_message.Status status =>
      status ← status;
      Ok (SrvStatus match status with
                    | WorkerStatus.Ready => Ready | WorkerStatus.Restart => Restart
                    end)
  | server_message.Error error => error ← error; SrvError <$> read_text error
  end.
End wire.

(** ** Refinement

    [refines R low high]: both fail with the same report, or both succeed with
    related results. *)
Definition refines {A B} (R : B → A → Prop) (low : Result B) (high : Result A) : Prop :=
  match high with
  | Ok a => ∃ b, low = Ok b ∧ R b a
  | Err e => low = Err e
  end.

Lemma refines_bind {A A' B B'} (R : B → A → Prop) (R' : B' → A' → Prop) low high f g :
  refines R low high → (∀ b a, R b a → refines R' (f b) (g a)) →
  refines R' (low ≫= f) (high ≫= g).
Proof. destruct high as [a|e]; simpl; [intros (b & -> & Hb) Hfg; by apply Hfg|by intros ->]. Qed.

Lemma refines_bind_assoc {A A' X B B'} (R : B → A → Prop) (R' : B' → A' → Prop)
    (low : Result X) (next : X → Result B) high f g :
  refines R (low ≫= next) high → (∀ b a, R b a → refines R' (f b) (g a)) →
  refines R' (low ≫= λ x, next x ≫= f) (high ≫= g).
Proof.
  intros Hl Hfg. replace (low ≫= λ x, next x ≫= f) with ((low ≫= next) ≫= f) by by destruct low.
  by eapply refines_bind.
Qed.

(** A step of the lower side that the other one does not take *)
Lemma refines_step {A A' B B'} (R : B → A → Prop) (R' : B' → A' → Prop) low a high f :
  refines R low (Ok a) → (∀ b, R b a → refines R' (f b) high) → refines R' (low ≫= f) high.
Proof. intros (b & -> & Hb) Hf. by apply Hf. Qed.

Lemma refines_weaken {A B} (R R' : B → A → Prop) low high :
  refines R low high → (∀ b a, R b a → R' b a) → refines R' low high.
Proof. destruct high; simpl; [naive_solver|done]. Qed.

Lemma refines_fmap {A B B'} (R : B → A → Prop) (R' : B' → A → Prop) low high f :
  refines R low high → (∀ b a, R b a → R' (f b) a) → refines R' (f <$> low) high.
Proof. destruct high as [a|e]; simpl; [intros (b & -> & Hb) Hf|by intros ->]. eexists; split; eauto. Qed.

Lemma refines_fmap_high {A A' B} (R : B → A → Prop) (R' : B → A' → Prop) low high f :
  refines R low high → (∀ b a, R b a → R' b (f a)) → refines R' low (f <$> high).
Proof. destruct high as [a|e]; simpl; [intros (b & -> & Hb) Hf|done]. eexists; split; eauto. Qed.

Lemma refines_ok {A B} (R : B → A → Prop) b a : R b a → refines R (Ok b) (Ok a).
Proof. intros. by exists b. Qed.

Lemma refines_eq {A} (r : Result A) : refines eq r r.
Proof. destruct r; [by eexists|done]. Qed.

(** ** What a struct on the wire represents, by what its getters read *)

(** A getter that reads something which represents [a] *)
Definition reads {A B} (R : B → A → Prop) (r : Result B) (a : A) : Prop := ∃ b, r = Ok b ∧ R b a.

Section representation.
Context `{Capnp}.

Definition texts_rep (l : TextList) (texts : list string) : Prop :=
  text_list_len l = N.of_nat (length texts)
  ∧ ∀ i t, texts !! i = Some t → text_list_get (N.of_nat i) l = Ok t.
Definition structs_rep {A} (R : Struct → A → Prop) (l : StructList) (items : list A) : Prop :=
  struct_list_len l = N.of_nat (length items)
  ∧ ∀ i a, items !! i = Some a → R (struct_list_get (N.of_nat i) l) a.

Definition text_opt_rep (s : Struct) (o : option string) : Prop :=
  text_opt.which s
  = Ok match o with None => text_opt.None tt | Some t => text_opt.Some (Ok t) end.
Definition text_list_opt_rep (s : Struct) (o : option (list string)) : Prop :=
  match o with
  | None => text_list_opt.which s = Ok (text_list_opt.None tt)
  | Some texts => ∃ l, text_list_opt.which s = Ok (text_list_opt.Some (Ok l)) ∧ texts_rep l texts
  end.
Definition pair_rep (s : Struct) (p : string * string) : Prop :=
  string_pair.get_key s = Ok p.1 ∧ string_pair.get_value s = Ok p.2.
Definition input_rep (s : Struct) (m : InputMsg) : Prop :=
  input.which s
  = Ok match m with
       | InFlake t => input.Flake (Ok t) | InExpr t => input.Expr (Ok t)
       | InFile t => input.File (Ok t)
       end.
Definition auto_arg_rep (s : Struct) (m : string * ArgMsg) : Prop :=
  auto_arg.get_name s = Ok m.1
  ∧ auto_arg.which s
    = Ok match m.2 with InArgExpr t => auto_arg.Expr (Ok t) | InArgStr t => auto_arg.Str (Ok t) end.

Record config_rep (s : Struct) (m : WorkerConfigMsg) : Prop := {
  rep_input : reads input_rep (worker_config.get_input s) (wm_input m);
  rep_auto_args :
    reads (structs_rep auto_arg_rep) (worker_config.get_auto_args s) (wm_auto_args m);
  rep_force_recurse : worker_config.get_force_recurse s = wm_force_recurse m;
  rep_gc_roots_dir : reads text_opt_rep (worker_config.get_gc_roots_dir s) (wm_gc_roots_dir m);
  rep_max_memory_size : worker_config.get_max_memory_size s = wm_max_memory_size m;
  rep_meta : worker_config.get_meta s = wm_meta m;
  rep_show_input_drvs : worker_config.get_show_input_drvs s = wm_show_input_drvs m;
  rep_override_inputs :
    reads (structs_rep pair_rep) (worker_config.get_override_inputs s) (wm_override_inputs m);
  rep_nix_options :
    reads (structs_rep pair_rep) (worker_config.get_nix_options s) (wm_nix_options m);
  rep_item_timeout_seconds :
    worker_config.get_item_timeout_seconds s = wm_item_timeout_seconds m;
  rep_locked_flake_json :
    reads text_opt_rep (worker_config.get_locked_flake_json s) (wm_locked_flake_json m);
}.

Definition output_rep (s : Struct) (m : string * option string) : Prop :=
  output.get_name s = Ok m.1
  ∧ output.which s
    = Ok match m.2 with None => output.Absent tt | Some t => output.Path (Ok t) end.
Definition input_drv_rep (s : Struct) (m : string * string) : Prop :=
  input_drv.get_drv_path s = Ok m.1 ∧ input_drv.get_value_json s = Ok m.2.

Record derivation_rep (s : Struct) (m : DerivationMsg) : Prop := {
  rep_attr : derivation.get_attr s = Ok (dm_attr m);
  rep_attr_path : reads texts_rep (derivation.get_attr_path s) (dm_attr_path m);
  rep_name : derivation.get_name s = Ok (dm_name m);
  rep_system : derivation.get_system s = Ok (dm_system m);
  rep_drv_path : derivation.get_drv_path s = Ok (dm_drv_path m);
  rep_outputs : reads (structs_rep output_rep) (derivation.get_outputs s) (dm_outputs m);
  rep_meta_json : reads text_opt_rep (derivation.get_meta_json s) (dm_meta_json m);
  rep_input_drvs :
    reads (structs_rep input_drv_rep) (derivation.get_input_drvs s) (dm_input_drvs m);
  rep_constituents : reads text_list_opt_rep (derivation.get_constituents s) (dm_constituents m);
  rep_gc_root_error : reads text_opt_rep (derivation.get_gc_root_error s) (dm_gc_root_error m);
}.

Record eval_error_rep (s : Struct) (m : EvalErrorMsg) : Prop := {
  rep_error_attr : eval_error.get_attr s = Ok (em_attr m);
  rep_error_path : reads texts_rep (eval_error.get_attr_path s) (em_attr_path m);
  rep_error : eval_error.get_error s = Ok (em_error m);
  rep_fatal : eval_error.get_fatal s = em_fatal m;
}.

Definition attr_set_rep (s : Struct) (m : string * list string * list string) : Prop :=
  attr_set.get_attr s = Ok m.1.1
  ∧ reads texts_rep (attr_set.get_attr_path s) m.1.2
  ∧ reads texts_rep (attr_set.get_attrs s) m.2.

Definition event_rep (s : Struct) (m : EventMsg) : Prop :=
  match m with
  | MDerivation d => ∃ c, event.which s = Ok (event.Derivation (Ok c)) ∧ derivation_rep c d
  | MAttrSet attr attr_path attrs =>
      ∃ c, event.which s = Ok (event.AttrSet (Ok c)) ∧ attr_set_rep c (attr, attr_path, attrs)
  | MEvalError e => ∃ c, event.which s = Ok (event.Error (Ok c)) ∧ eval_error_rep c e
  end.

Definition setup_rep (s : Struct) (config : WorkerConfigMsg) (token dir : option string)
    (version : N) : Prop :=
  reads config_rep (setup.get_config s) config
  ∧ reads text_opt_rep (setup.get_token s) token
  ∧ reads text_opt_rep (setup.get_expected_store_dir s) dir
  ∧ setup.get_protocol_version s = version.

Definition client_rep (s : Struct) (m : ClientMsg) : Prop :=
  match m with
  | MSetup config token dir version =>
      ∃ c, client_message.which s = Ok (client_message.Setup (Ok c))
           ∧ setup_rep c config token dir version
  | MWork path =>
      ∃ c, client_message.which s = Ok (client_message.Work (Ok c))
           ∧ reads texts_rep (work.get_attr_path c) path
  | MShutdown => client_message.which s = Ok (client_message.Shutdown tt)
  end.

Definition server_rep (s : Struct) (m : ServerMsg) : Prop :=
  match m with
  | MReady => server_message.which s = Ok (server_message.Ready tt)
  | MEvent e =>
      ∃ c, server_message.which s = Ok (server_message.Event (Ok c)) ∧ event_rep c e
  | MStatus status =>
      server_message.which s
      = Ok (server_message.Status
              (Ok match status with
                  | Ready => WorkerStatus.Ready | Restart => WorkerStatus.Restart
                  end))
  | MError t => server_message.which s = Ok (server_message.Error (Ok t))
  end.
End representation.

(** ** Reading implements [decode] of [RemoteProto.v] *)

Lemma for_range_collect {A B} (body : N → Result B) (read : A → Result B) l n :
  n = N.of_nat (length l) → (∀ i a, l !! i = Some a → body (N.of_nat i) = read a) →
  for_range n body = collect_results read l.
Proof.
  intros -> Hbody. unfold for_range. rewrite Nat2N.id.
  assert (∀ k, (∀ i a, l !! i = Some a → body (N.of_nat (k + i)) = read a) →
    collect_results body (N.of_nat <$> seq k (length l)) = collect_results read l) as Hall.
  { clear Hbody. induction l as [|a l IH]; intros k Hk; [done|]. simpl.
    rewrite <-(Nat.add_0_r k) at 1. rewrite (Hk 0%nat a) by done.
    rewrite IH; [done|]. intros i b Hi. rewrite <-(Hk (S i) b) by done. do 2 f_equal. lia. }
  by apply Hall.
Qed.

Section reading.
Context `{CapnpLaws}.
Context (json_from_str : string → Result Json) (strings_from_str : string → Result (list string)).

Lemma read_texts_rep l texts :
  texts_rep l texts → read_text_list l = RemoteProto.read_text_list texts.
Proof. intros [Hlen Hl]. apply for_range_collect; [done|]. intros i t Hi. by rewrite (Hl i t Hi). Qed.

Lemma read_structs_rep {A B} (R : Struct → A → Prop) (low : Struct → Result B) high l items :
  (∀ s a, R s a → low s = high a) → structs_rep R l items →
  for_range (struct_list_len l) (λ i, low (struct_list_get i l)) = collect_results high items.
Proof. intros Hread [Hlen Hl]. apply for_range_collect; [done|]. eauto. Qed.

Lemma read_text_opt_rep s o : text_opt_rep s o → read_text_opt s = RemoteProto.read_text_opt o.
Proof. unfold read_text_opt. intros ->. by destruct o. Qed.

Lemma read_text_list_opt_rep s o :
  text_list_opt_rep s o → read_text_list_opt s = transpose RemoteProto.read_text_list o.
Proof.
  unfold read_text_list_opt. destruct o as [texts|]; simpl.
  - intros (l & -> & Hl). simpl. by rewrite (read_texts_rep _ _ Hl).
  - by intros ->.
Qed.

Lemma read_pair_rep s p : pair_rep s p → read_pair s = RemoteProto.read_pair p.
Proof. unfold read_pair. by intros [-> ->]. Qed.

Lemma read_input_rep s m : input_rep s m → read_input s = RemoteProto.read_input m.
Proof. unfold read_input. intros ->. by destruct m. Qed.

Lemma read_auto_arg_rep s m : auto_arg_rep s m → read_auto_arg s = RemoteProto.read_auto_arg m.
Proof. unfold read_auto_arg. intros [-> ->]. by destruct m as [name []]. Qed.

Lemma usize_try_from_field w i s : (w ≤ 64)%N → usize_try_from (get_data_field w i s) = Ok (get_data_field w i s).
Proof.
  intros Hw. unfold usize_try_from. pose proof (data_field_bound w i s) as Hb.
  pose proof (N.pow_le_mono_r 2 w 64 ltac:(done) Hw). unfold usize_max, usize_modulus.
  by rewrite (proj2 (N.leb_le _ _)) by lia.
Qed.

Lemma read_config_rep s m :
  config_rep s m → read_worker_config s = RemoteProto.read_worker_config m.
Proof.
  intros [(? & Hin & Ri) (? & Ha & Ra) Hf (? & Hg & Rg) Hmem Hmeta Hs (? & Ho & Ro) (? & Hn & Rn)
    Ht (? & Hl & Rl)].
  unfold read_worker_config, RemoteProto.read_worker_config.
  rewrite Hin, Ha, Hf, Hg, Hmeta, Hs, Ho, Hn, Hl. cbn [mbind result_bind].
  rewrite (read_input_rep _ _ Ri). unfold read_auto_args, read_pairs.
  rewrite (read_structs_rep _ _ _ _ _ read_auto_arg_rep Ra), (read_text_opt_rep _ _ Rg),
    (read_structs_rep _ _ _ _ _ read_pair_rep Ro), (read_structs_rep _ _ _ _ _ read_pair_rep Rn),
    (read_text_opt_rep _ _ Rl).
  unfold worker_config.get_max_memory_size in *. rewrite usize_try_from_field, Hmem by done.
  replace (read_item_timeout_seconds s) with (RemoteProto.read_item_timeout_seconds m); [done|].
  unfold read_item_timeout_seconds, RemoteProto.read_item_timeout_seconds. rewrite Ht.
  by destruct (wm_item_timeout_seconds m).
Qed.

Lemma read_output_rep s m : output_rep s m → read_output s = RemoteProto.read_output m.
Proof. unfold read_output. intros [-> ->]. by destruct m as [name []]. Qed.

Lemma read_input_drv_rep s m :
  input_drv_rep s m →
  read_input_drv strings_from_str s = RemoteProto.read_input_drv strings_from_str m.
Proof. unfold read_input_drv. by intros [-> ->]. Qed.

Lemma read_derivation_rep s m :
  derivation_rep s m →
  read_derivation json_from_str strings_from_str s
  = RemoteProto.read_derivation json_from_str strings_from_str m.
Proof.
  intros [Ha (? & Hp & Rp) Hn Hs Hd (? & Ho & Ro) (? & Hm & Rm) (? & Hi & Ri) (? & Hc & Rc)
    (? & Hg & Rg)].
  unfold read_derivation, RemoteProto.read_derivation.
  rewrite Ha, Hp, Hn, Hs, Hd, Ho, Hm, Hi, Hc, Hg. cbn [mbind result_bind].
  by rewrite (read_structs_rep _ _ _ _ _ read_output_rep Ro),
    (read_structs_rep _ _ _ _ _ read_input_drv_rep Ri), (read_texts_rep _ _ Rp),
    (read_text_opt_rep _ _ Rm), (read_text_list_opt_rep _ _ Rc), (read_text_opt_rep _ _ Rg).
Qed.

Lemma read_event_rep s m :
  event_rep s m →
  read_event json_from_str strings_from_str s
  = RemoteProto.read_event json_from_str strings_from_str m.
Proof.
  unfold read_event. destruct m as [d|attr attr_path attrs|e]; simpl.
  - intros (c & -> & Hd). simpl. by rewrite (read_derivation_rep _ _ Hd).
  - intros (c & -> & Ha & (? & Hp & Rp) & (? & Hs & Rs)). simpl in *. unfold read_attr_set.
    rewrite Ha, Hp, Hs. cbn [mbind result_bind].
    by rewrite (read_texts_rep _ _ Rp), (read_texts_rep _ _ Rs).
  - intros (c & -> & [Ha (? & Hp & Rp) He Hf]). simpl. unfold read_eval_error, RemoteProto.read_eval_error.
    rewrite Ha, Hp, He, Hf. cbn [mbind result_bind]. by rewrite (read_texts_rep _ _ Rp).
Qed.

Lemma decode_client_rep s m : client_rep s m → decode_client s = RemoteProto.decode_client m.
Proof.
  unfold decode_client. destruct m as [config token dir version|path|]; simpl.
  - intros (c & -> & (? & Hc & Rc) & (? & Ht & Rt) & (? & Hd & Rd) & Hv). simpl.
    rewrite Hc, Ht, Hd, Hv. cbn [mbind result_bind].
    by rewrite (read_config_rep _ _ Rc), (read_text_opt_rep _ _ Rt), (read_text_opt_rep _ _ Rd).
  - intros (c & -> & l & Hl & Rl). simpl. rewrite Hl. simpl. by rewrite (read_texts_rep _ _ Rl).
  - by intros ->.
Qed.

Lemma read_server_rep s m :
  server_rep s m →
  read_server json_from_str strings_from_str s
  = decode_server json_from_str strings_from_str m.
Proof.
  unfold read_server. destruct m as [|e|[]|t]; simpl.
  - by intros ->.
  - intros (c & -> & He). simpl. by rewrite (read_event_rep _ _ He).
  - by intros ->.
  - by intros ->.
  - by intros ->.
Qed.
End reading.

(** ** Writing implements [encode] of [RemoteProto.v] *)

(** Filling a list, index by index: [get] and [put] are the operations of a list of
    texts or of structs, whose elements are [fresh] before they are set. *)
Section filling.
Context {A M L I O : Type} (len : L → N) (get : N → L → O) (put : N → I → L → L) (inj : I → O).
Hypothesis len_put : ∀ i e l, len (put i e l) = len l.
Hypothesis get_put : ∀ i e l, (i < len l)%N → get i (put i e l) = inj e.
Hypothesis get_put_ne : ∀ i j e l, i ≠ j → get i (put j e l) = get i l.
Context (R : O → M → Prop) (fresh : O) (edit : A → O → Result I) (set : A → Result M).

Definition fill (index : N) (a : A) (l : L) : Result L :=
  i ← list_index index; (λ e, put i e l) <$> edit a (get i l).

Lemma list_index_ok i : (i ≤ u32_max)%N → list_index i = Ok i.
Proof. intros Hi. unfold list_index, u32_try_from. by rewrite (proj2 (N.leb_le _ _) Hi). Qed.

Lemma fill_fresh i a l :
  (i ≤ u32_max)%N → get i l = fresh → fill i a l = (λ e, put i e l) <$> edit a fresh.
Proof. intros Hi Hf. unfold fill. rewrite list_index_ok by done. simpl. by rewrite Hf. Qed.

Lemma for_enumerate_fill xs k l :
  len l = (k + N.of_nat (length xs))%N → (len l ≤ u32_max)%N →
  (∀ i, (k ≤ i)%N → (i < len l)%N → get i l = fresh) →
  Forall (λ a, refines (λ e m, R (inj e) m) (edit a fresh) (set a)) xs →
  refines (λ l' ms, len l' = len l ∧ (∀ j, (j < k)%N → get j l' = get j l)
                    ∧ length ms = length xs
                    ∧ ∀ i m, ms !! i = Some m → R (get (k + N.of_nat i)%N l') m)
    (for_enumerate k xs fill l) (collect_results set xs).
Proof.
  revert k l. induction xs as [|a xs IH]; intros k l Hlen Hmax Hfresh Hxs; simpl.
  { by exists l. }
  apply Forall_cons in Hxs as [Ha Hxs]. simpl in Hlen.
  rewrite fill_fresh by (lia || apply Hfresh; lia).
  destruct (set a) as [m|e]; simpl in Ha |- *; [|by rewrite Ha].
  destruct Ha as (e & -> & Hm). cbn [fmap result_fmap].
  specialize (IH (k + 1)%N (put k e l)). rewrite len_put in IH.
  assert (∀ i, i ≠ k → get i (put k e l) = get i l) as Hne by (intros; by apply get_put_ne).
  ospecialize* IH; [lia|done| |done|].
  { intros i Hi Hi'. rewrite Hne by lia. apply Hfresh; lia. }
  destruct (collect_results set xs) as [ms|e']; simpl in IH |- *; [|done].
  destruct IH as (l' & -> & Hlen' & Hlow & Hms & Hall). exists l'.
  split_and!; [done|lia| |by rewrite Hms|].
  - intros j Hj. rewrite Hlow by lia. apply Hne. lia.
  - intros [|i] m' Hi; simpl in Hi.
    + injection Hi as <-. rewrite N.add_0_r, Hlow by lia. by rewrite get_put by lia.
    + replace (k + N.of_nat (S i))%N with (k + 1 + N.of_nat i)%N by lia. by apply Hall.
Qed.
End filling.

Lemma b2n_bit b : (N.b2n b < 2 ^ 1)%N.
Proof. by destruct b. Qed.
Lemma odd_b2n b : N.odd (N.b2n b) = b.
Proof. by destruct b. Qed.

(** What a getter reads below a row of setters: [size] is the size of the struct
    they were applied to. *)
Ltac in_struct size :=
  repeat first [rewrite set_data_size | rewrite set_pointer_size]; rewrite ?new_struct_size, ?size;
  vm_compute; repeat split; solve [discriminate | reflexivity].
Ltac fields size :=
  repeat first
    [ rewrite data_set_pointer | rewrite pointer_set_data
    | rewrite get_set_pointer by in_struct size | rewrite get_set_pointer_ne by done
    | rewrite get_set_data by first [assumption | apply b2n_bit | in_struct size]
    | rewrite get_set_data_ne by (unfold disjoint_fields; lia) ].

Section writing.
Context `{CapnpLaws}.

Lemma set_text_opt_rep o s :
  struct_size s = text_opt.STRUCT_SIZE → text_opt_rep (set_text_opt o s) o.
Proof.
  intros Hs. unfold text_opt_rep, text_opt.which. destruct o as [t|]; simpl;
    unfold text_opt.set_some, text_opt.set_none; fields Hs; [|done].
  by rewrite get_to_text.
Qed.

(** A list is counted, made and filled: this is [set_list]. *)
Lemma set_list_refines {A M L I O} (len : L → N) (get : N → L → O) (put : N → I → L → L)
    (inj : I → O) (R : O → M → Prop) (fresh : O) (edit : A → O → Result I) (set : A → Result M)
    (make : N → L) (to : L → Pointer) (rep : L → list M → Prop) i field xs s :
  (∀ i e l, len (put i e l) = len l) →
  (∀ i e l, (i < len l)%N → get i (put i e l) = inj e) →
  (∀ i j e l, i ≠ j → get i (put j e l) = get i l) →
  (∀ n, len (make n) = n) →
  (∀ n j, (j < n)%N → get j (make n) = fresh) →
  (∀ l ms, len l = N.of_nat (length ms) →
     (∀ i m, ms !! i = Some m → R (get (N.of_nat i) l) m) → rep l ms) →
  Forall (λ a, refines (λ e m, R (inj e) m) (edit a fresh) (set a)) xs →
  refines (λ s' ms, ∃ l, s' = set_pointer_field i (to l) s ∧ rep l ms)
    (n ← list_len (length xs) field;
     build_pointer i (to <$> for_enumerate 0 xs (fill get put edit) (make n)) s)
    (set_list field set xs).
Proof.
  intros Hlen Hget Hne Hmake Hfresh Hrep Hxs. unfold set_list, list_len, RemoteProto.list_len, u32_try_from.
  destruct (N.leb_spec (N.of_nat (length xs)) u32_max) as [Hmax|]; [|done].
  cbn [mbind result_bind ok_or]. unfold build_pointer.
  pose proof (for_enumerate_fill len get put inj Hlen Hget Hne R fresh edit set xs 0
    (make (N.of_nat (length xs)))) as Hfill. rewrite Hmake in Hfill.
  ospecialize* Hfill; [done|done|intros; by apply Hfresh|done|].
  destruct (collect_results set xs) as [ms|e]; simpl in Hfill |- *; [|by rewrite Hfill].
  destruct Hfill as (l & -> & Hl & _ & Hms & Hall). simpl. eexists. split; [done|].
  exists l. split; [done|]. apply Hrep; [by rewrite Hl, Hms|]. intros j m Hj. by apply (Hall j).
Qed.

Lemma text_list_refines i field texts s :
  refines (λ s' ms, ∃ l, s' = set_pointer_field i (to_text_list l) s ∧ texts_rep l ms)
    (n ← list_len (length texts) field; build_pointer i (init_text_list n (set_text_list texts)) s)
    (RemoteProto.set_text_list field texts).
Proof.
  apply (set_list_refines text_list_len text_list_get text_list_set Ok (λ r t, r = Ok t)
    (Ok "") (λ t _, Ok t) Ok new_text_list to_text_list texts_rep).
  - apply set_text_list_len.
  - intros. by apply get_set_text.
  - intros. by apply get_set_text_ne.
  - apply new_text_list_len.
  - apply new_text_list_get.
  - by split.
  - apply Forall_true. intros t. by exists t.
Qed.

Lemma struct_list_refines {A M} (R : Struct → M → Prop) size (edit : A → Struct → Result Struct)
    (set : A → Result M) i field xs s :
  Forall (λ a, refines R (edit a (new_struct size)) (set a)) xs →
  refines (λ s' ms, ∃ l, s' = set_pointer_field i (to_struct_list l) s ∧ structs_rep R l ms)
    (n ← list_len (length xs) field;
     build_pointer i (init_struct_list size n (for_enumerate 0 xs (λ index a l,
       i ← list_index index; struct_list_build i (edit a) l))) s)
    (set_list field set xs).
Proof.
  apply (set_list_refines struct_list_len struct_list_get struct_list_put id R (new_struct size)
    edit set (new_struct_list size) to_struct_list (structs_rep R)).
  - apply put_struct_list_len.
  - intros. by apply get_put_struct.
  - intros. by apply get_put_struct_ne.
  - apply new_struct_list_len.
  - intros. by apply new_struct_list_get.
  - by split.
Qed.

(** A child built at a pointer *)
Lemma init_struct_refines {M} (R : Struct → M → Prop) i size build high s :
  refines R (build (new_struct size)) high →
  refines (λ s' m, ∃ c, s' = set_pointer_field i (to_struct c) s ∧ R c m)
    (build_pointer i (init_struct size build) s) high.
Proof.
  unfold build_pointer, init_struct. destruct high as [m|e]; simpl; [|by intros ->].
  intros (c & -> & Hc). simpl. eauto.
Qed.

Lemma pair_refines pair :
  refines pair_rep (Ok (string_pair.set_value pair.2 (string_pair.set_key pair.1
    (new_struct string_pair.STRUCT_SIZE)))) (Ok pair).
Proof.
  apply refines_ok. split; unfold string_pair.get_key, string_pair.get_value,
    string_pair.set_key, string_pair.set_value; fields new_struct_size; apply get_to_text.
Qed.

Lemma input_refines debug_path input :
  refines input_rep (set_input debug_path input (new_struct input.STRUCT_SIZE))
    (RemoteProto.set_input debug_path input).
Proof.
  destruct input as [t|t|path]; simpl; [..|destruct (path_text _ _ _) as [t|]; [|done]]; simpl;
    eexists; (split; [done|]); unfold input_rep, input.which, input.set_flake, input.set_expr,
      input.set_file; fields new_struct_size; by rewrite get_to_text.
Qed.

Lemma auto_arg_refines arg :
  refines auto_arg_rep (Ok (set_auto_arg arg (new_struct auto_arg.STRUCT_SIZE)))
    (RemoteProto.set_auto_arg arg).
Proof.
  apply refines_ok. destruct arg as [name [t|t]]; unfold auto_arg_rep, set_auto_arg,
    auto_arg.which, auto_arg.get_name, auto_arg.set_name, auto_arg.set_expr, auto_arg.set_str;
    simpl; fields new_struct_size; by rewrite !get_to_text.
Qed.

Lemma output_refines output :
  refines output_rep (Ok (set_output output (new_struct output.STRUCT_SIZE)))
    (RemoteProto.set_output output).
Proof.
  apply refines_ok. destruct output as [name [t|]]; unfold output_rep, set_output,
    output.which, output.get_name, output.set_name, output.set_path, output.set_absent;
    simpl; fields new_struct_size; by rewrite !get_to_text.
Qed.

Lemma input_drv_refines strings_to_string drv :
  refines input_drv_rep
    (let item := input_drv.set_drv_path drv.1 (new_struct input_drv.STRUCT_SIZE) in
     json ← strings_to_string drv.2; Ok (input_drv.set_value_json json item))
    (RemoteProto.set_input_drv strings_to_string drv).
Proof.
  unfold RemoteProto.set_input_drv. eapply refines_bind; [apply refines_eq|].
  intros json _ <-. apply refines_ok. unfold input_drv_rep, input_drv.get_drv_path,
    input_drv.get_value_json, input_drv.set_drv_path, input_drv.set_value_json.
  fields new_struct_size. by rewrite !get_to_text.
Qed.

(** A text that may be absent, at a pointer *)
Lemma text_opt_refines i o s :
  refines (λ s' m, ∃ c, s' = set_pointer_field i (to_struct c) s ∧ text_opt_rep c m)
    (build_pointer i (text_opt.init_pointer (λ b, Ok (set_text_opt o b))) s) (Ok o).
Proof.
  apply init_struct_refines, refines_ok, set_text_opt_rep, new_struct_size.
Qed.

(** The integers of a configuration fit their fields. *)
Definition config_words (c : WorkerConfig) : Prop :=
  (wc_max_memory_size c < 2 ^ 64)%N ∧ (wc_item_timeout_seconds c < 2 ^ 64)%N.

(** A configuration's struct before its last child *)
Definition worker_config_fields (c : WorkerConfig) (gc input : Struct)
    (args overrides options : StructList) : Struct :=
  set_pointer_field 4 (to_struct_list options) (set_pointer_field 3 (to_struct_list overrides)
    (worker_config.set_show_input_drvs (wc_show_input_drvs c) (worker_config.set_meta (wc_meta c)
      (worker_config.set_item_timeout_seconds (wc_item_timeout_seconds c)
        (worker_config.set_max_memory_size (wc_max_memory_size c)
          (set_pointer_field 2 (to_struct gc)
            (worker_config.set_force_recurse (wc_force_recurse c)
              (set_pointer_field 1 (to_struct_list args) (set_pointer_field 0 (to_struct input)
                (new_struct worker_config.STRUCT_SIZE)))))))))).

Lemma worker_config_refines debug_path c :
  config_words c →
  refines config_rep (set_worker_config debug_path c (new_struct worker_config.STRUCT_SIZE))
    (RemoteProto.set_worker_config debug_path c).
Proof.
  intros [Hmem Htime]. unfold set_worker_config, RemoteProto.set_worker_config.
  eapply refines_bind; [apply init_struct_refines, input_refines|].
  intros ? input (b & -> & Hinput).
  eapply refines_bind_assoc.
  { apply struct_list_refines, Forall_true. apply auto_arg_refines. }
  intros ? auto_args (l & -> & Hargs).
  eapply refines_bind; [apply refines_eq|]. intros ? dir <-.
  eapply refines_step; [apply text_opt_refines|]. intros ? (gc & -> & Hgc).
  eapply refines_bind_assoc.
  { apply struct_list_refines, Forall_true. apply pair_refines. }
  intros ? overrides (ol & -> & Hol).
  eapply refines_bind_assoc.
  { apply struct_list_refines, Forall_true. apply pair_refines. }
  intros ? options (nl & -> & Hnl).
  destruct (text_opt_refines 5 (wc_locked_flake_json c)
    (worker_config_fields c gc b l ol nl)) as (s & Hs & lk & -> & Hlk).
  eexists. split; [exact Hs|]. unfold worker_config_fields.
  split; autounfold with accessors; unfold get_bool_field, set_bool_field, reads;
    cbn [wm_input wm_auto_args wm_force_recurse wm_gc_roots_dir wm_max_memory_size wm_meta
      wm_show_input_drvs wm_override_inputs wm_nix_options wm_item_timeout_seconds
      wm_locked_flake_json]; fields (@new_struct_size); rewrite ?odd_b2n; eauto using get_to_struct, get_to_struct_list.
Qed.

(** Each field of a struct, below the setters that made it *)
Ltac struct_fields :=
  autounfold with accessors; unfold get_bool_field, set_bool_field, reads; cbn;
  fields (@new_struct_size); rewrite ?odd_b2n, ?get_to_text;
  eauto using get_to_text, get_to_struct, get_to_text_list, get_to_struct_list.

Lemma constituents_refines o s :
  refines (λ s' m, ∃ c, s' = set_pointer_field 8 (to_struct c) s ∧ text_list_opt_rep c m)
    (set_constituents o s) (transpose (RemoteProto.set_text_list "constituents") o).
Proof.
  apply init_struct_refines. destruct o as [texts|]; simpl.
  - eapply refines_fmap_high; [apply text_list_refines|]. intros ? ms (l & -> & Hl). simpl.
    eexists. split; [|exact Hl]. struct_fields. by rewrite get_to_text_list.
  - eexists. split; [done|]. struct_fields.
Qed.

Section events.
Context (json_to_string : Json → Result string) (strings_to_string : list string → Result string).

Lemma derivation_refines d :
  refines derivation_rep
    (set_derivation json_to_string strings_to_string d (new_struct derivation.STRUCT_SIZE))
    (RemoteProto.set_derivation json_to_string strings_to_string d).
Proof.
  unfold set_derivation, RemoteProto.set_derivation.
  eapply refines_bind_assoc; [apply text_list_refines|]. intros ? path (pl & -> & Hpath).
  eapply refines_bind_assoc.
  { apply struct_list_refines, Forall_true. apply output_refines. }
  intros ? outputs (ol & -> & Hol).
  eapply refines_bind; [apply refines_eq|]. intros ? meta <-.
  eapply refines_step; [apply text_opt_refines|]. intros ? (mc & -> & Hmc).
  eapply refines_bind_assoc.
  { apply struct_list_refines, Forall_true. apply input_drv_refines. }
  intros ? drvs (dl & -> & Hdl).
  eapply refines_bind; [apply constituents_refines|]. intros ? cons (cc & -> & Hcc).
  edestruct (text_opt_refines 9 (d_gc_root_error d)) as (s & Hs & gc & -> & Hgc).
  eexists. split; [exact Hs|]. clear Hs. split; struct_fields.
Qed.

Lemma eval_error_refines e :
  refines eval_error_rep (set_eval_error e (new_struct eval_error.STRUCT_SIZE))
    (RemoteProto.set_eval_error e).
Proof.
  unfold set_eval_error, RemoteProto.set_eval_error.
  eapply refines_bind_assoc; [apply text_list_refines|]. intros ? path (pl & -> & Hpath).
  apply refines_ok. split; struct_fields.
Qed.

Lemma attr_set_refines attr attr_path attrs :
  refines attr_set_rep (set_attr_set attr attr_path attrs (new_struct attr_set.STRUCT_SIZE))
    (path ← RemoteProto.set_text_list "attr path" attr_path;
     attrs ← RemoteProto.set_text_list "attr set children" attrs; Ok (attr, path, attrs)).
Proof.
  unfold set_attr_set.
  eapply refines_bind_assoc; [apply text_list_refines|]. intros ? path (pl & -> & Hpath).
  eapply refines_fmap_high; [apply text_list_refines|]. intros ? ms (l & -> & Hl).
  split_and!; struct_fields.
Qed.

Lemma event_refines event :
  refines event_rep
    (set_event json_to_string strings_to_string event (new_struct event.STRUCT_SIZE))
    (RemoteProto.set_event json_to_string strings_to_string event).
Proof.
  destruct event as [d|attr attr_path attrs|e]; simpl.
  - eapply refines_fmap_high; [apply init_struct_refines, derivation_refines|].
    intros ? m (c & -> & Hc). exists c. split; [|done]. struct_fields. by rewrite get_to_struct.
  - pose proof (init_struct_refines _ 0 _ _ _ (set_data_field 16 0 1 (new_struct event.STRUCT_SIZE))
      (attr_set_refines attr attr_path attrs)) as Hset.
    unfold event.init_attr_set, attr_set.init_pointer.
    destruct (RemoteProto.set_text_list _ attr_path) as [path|]; [|done]. simpl in Hset |- *.
    destruct (RemoteProto.set_text_list _ attrs) as [l|]; [|done]. simpl in Hset |- *.
    destruct Hset as (? & -> & c & -> & Hc). eexists. split; [done|]. exists c. split; [|done].
    struct_fields. by rewrite get_to_struct.
  - eapply refines_fmap_high; [apply init_struct_refines, eval_error_refines|].
    intros ? m (c & -> & Hc). exists c. split; [|done]. struct_fields. by rewrite get_to_struct.
Qed.

Lemma encode_server_refines m :
  refines server_rep (encode_server json_to_string strings_to_string m)
    (RemoteProto.encode_server json_to_string strings_to_string m).
Proof.
  destruct m as [|event|status|error]; simpl.
  - eexists. split; [done|]. struct_fields.
  - eapply refines_fmap_high; [apply init_struct_refines, event_refines|].
    intros ? m (c & -> & Hc). exists c. split; [|done]. struct_fields. by rewrite get_to_struct.
  - eexists. split; [done|]. destruct status; struct_fields.
  - eexists. split; [done|]. struct_fields.
Qed.
End events.

Definition client_words (m : ClientMessage) : Prop :=
  match m with Setup config _ _ => config_words config | _ => True end.

Lemma setup_refines debug_path config token dir :
  config_words config →
  refines (λ s m, setup_rep s m token dir WORKER_PROTOCOL_VERSION)
    (set_setup debug_path config token dir (new_struct setup.STRUCT_SIZE))
    (RemoteProto.set_worker_config debug_path config).
Proof.
  intros Hw. unfold set_setup. rewrite <-(bind_pure (RemoteProto.set_worker_config _ _)).
  eapply refines_bind; [by apply init_struct_refines, worker_config_refines|].
  intros ? m (c & -> & Hc).
  eapply refines_step; [apply text_opt_refines|]. intros ? (tc & -> & Htc).
  eapply refines_step; [apply text_opt_refines|]. intros ? (dc & -> & Hdc).
  apply refines_ok. split_and!; struct_fields.
Qed.

Lemma write_client_refines debug_path m :
  client_words m →
  refines client_rep (write_client debug_path m) (encode_client debug_path m).
Proof.
  destruct m as [config token dir|path|]; simpl; intros Hw.
  - rewrite (bind_fmap (λ config, MSetup config token dir WORKER_PROTOCOL_VERSION)).
    eapply refines_fmap_high.
    { by apply init_struct_refines, setup_refines. }
    intros ? m (c & -> & Hc). exists c. split; [|done]. struct_fields. by rewrite get_to_struct.
  - eapply refines_fmap_high.
    { apply init_struct_refines, text_list_refines. }
    intros ? m (c & -> & Hc). exists c. split; [struct_fields; by rewrite get_to_struct|].
    destruct Hc as (l & -> & Hl). struct_fields.
  - eexists. split; [done|]. struct_fields.
Qed.
End writing.

(** ** Messages that are not ours *)

Section foreign.
Context `{CapnpLaws}.

(** A message without fields, the shortest one, is a setup of version 0. *)
Lemma empty_message : is_err (decode_client (new_struct (mkStructSize 0 0))) = true.
Proof.
  unfold decode_client, client_message.which. rewrite new_data_field. cbn [mbind result_bind].
  rewrite new_pointer_field. unfold setup.get_from_pointer. rewrite get_null_struct.
  cbn [mbind result_bind]. unfold setup.get_protocol_version. by rewrite new_data_field.
Qed.

Lemma foreign_version root setup :
  client_message.which root = Ok (client_message.Setup (Ok setup)) →
  setup.get_protocol_version setup ≠ WORKER_PROTOCOL_VERSION →
  is_err (decode_client root) = true.
Proof.
  intros Hroot Hv. unfold decode_client. rewrite Hroot. cbn [mbind result_bind].
  unfold validate_worker_protocol. by rewrite (proj2 (N.eqb_neq _ _) Hv).
Qed.

Lemma foreign_client root :
  (2 < get_data_field 16 0 root)%N →
  decode_client root = Err (not_in_schema (get_data_field 16 0 root)).
Proof.
  unfold decode_client, client_message.which. intros Hn.
  destruct (get_data_field 16 0 root) as [|[[]|[]|]]; done || lia.
Qed.

Lemma foreign_server json_from_str strings_from_str root :
  (3 < get_data_field 16 0 root)%N →
  read_server json_from_str strings_from_str root
  = Err (not_in_schema (get_data_field 16 0 root)).
Proof.
  unfold read_server, server_message.which. intros Hn.
  destruct (get_data_field 16 0 root) as [|[[]|[]|]]; done || lia.
Qed.

(** A configuration from before [itemTimeoutSeconds] and [lockedFlakeJson] were in
    the schema has two words of data and five pointers: it is read with the default
    timeout and without a lock. *)
Lemma short_configuration_data s :
  (data (struct_size s) ≤ 2)%N → read_item_timeout_seconds s = DEFAULT_ITEM_TIMEOUT_SECONDS.
Proof.
  intros Hs. unfold read_item_timeout_seconds, worker_config.get_item_timeout_seconds.
  by rewrite data_field_default by lia.
Qed.

Lemma short_configuration_pointers s :
  (pointers (struct_size s) ≤ 5)%N →
  (worker_config.get_locked_flake_json s ≫= read_text_opt) = Ok None.
Proof.
  intros Hs. unfold worker_config.get_locked_flake_json, text_opt.get_from_pointer.
  rewrite pointer_field_default, get_null_struct by done. cbn [mbind result_bind].
  unfold read_text_opt, text_opt.which. by rewrite new_data_field.
Qed.
End foreign.

Lemma refines_err {A B} (R : B → A → Prop) low high e :
  refines R low high → low = Err e ↔ high = Err e.
Proof. destruct high; simpl; [intros (b & -> & _); by split|intros ->; split; by intros [= ->]]. Qed.

(** A value that round-trips as a message does so on the wire. *)
Lemma refines_round_trips {A B M C} (R : B → M → Prop) low high (read : B → Result C)
    (decode : M → Result C) (a : A) c :
  refines R (low a) (high a) → (∀ b m, R b m → read b = decode m) →
  round_trips high decode a c → round_trips low read a c.
Proof.
  intros Hr Hread (m & Hm & Hc). rewrite Hm in Hr. destruct Hr as (b & Hb & HR).
  exists b. split; [done|]. by rewrite (Hread b m).
Qed.


Definition sample_setup : ClientMessage :=
  Setup (mkWorkerConfig (Expr "import ./.") [("system", ArgStr "x86_64-linux")] true
           (Some "/nix/var/gcroots") 4096 600 false true [("nixpkgs", "github:NixOS/nixpkgs")]
           [("cores", "1")] None) (Some "secret") None.

(** The bits and pointers of a setup, written and read by the tree of objects *)
Example sample_setup_read :
  (root ← write_client (H := Tree.tree_capnp) id sample_setup;
   decode_client (H := Tree.tree_capnp) root) = Ok sample_setup.
Proof. vm_compute. reflexivity. Qed.

Lemma sample_setup_wf : client_wf sample_setup.
Proof.
  split; [split|split]; try done; try (by intros ? [= <-]);
    (split; [done|by repeat constructor]).
Qed.

