(* ===== verification/Eval.v ===== *)
(** * The evaluation of one attribute

    [crates/evix/src/eval.rs]: navigation to an attribute, its classification as
    derivation, attribute set or error, the data read from a derivation, and the
    garbage-collector root it may get. Values, store and evaluator belong to the
    Nix bindings: their operations are the interface [NixApi]. *)
From S2P Require Import Prelude Types Config Paths Traversal.

Definition NIX_GCROOTS_DIR : string := "/nix/var/nix/gcroots".
Definition MAX_ATTR_DEPTH : nat := 64.

(** ** The interface of the Nix bindings *)

Inductive ValueType : Type :=
  | TThunk | TInt | TFloat | TBool | TString | TPath | TNull | TAttrs | TList
  | TFunction | TExternal.
#[export] Instance value_type_eq_dec : EqDecision ValueType.
Proof. solve_decision. Defined.

(** Values, store paths and derivations read from the store; a float is its
    bits, and [val_number] is [Number::from_f64]. *)
Class NixApi (V P D : Type) := {
  value_type : V → ValueType;
  force : V → Result V;
  get_attr : V → string → Result V;
  has_attr : V → string → Result bool;
  attr_keys : V → Result (list string);
  val_bool : V → Result bool;
  val_int : V → Result Z;
  val_float : V → Result N;
  number_from_f64 : N → option Number;
  val_string : V → Result string;
  val_path : V → Result string;
  list_len : V → Result nat;
  list_get : V → nat → Result V;
  call : V → V → Result V;
  auto_call_function : option V → V → Result V;
  get_derivation : V → Result (option P);
  print_path : P → Result string;
  read_derivation : P → Result D;
  drv_to_json : D → Result string;
  parse_json : string → Result Json;
  store_dir_setting : Result string;
}.

(** ** Garbage-collector roots *)

(** The files a registration touches, in order, and what the system answers. *)
Inductive GcEffect : Type :=
  | GcCreateDirAll (path : string)
  | GcSymlink (target link : string).

Record GcWorld := mkGcWorld {
  g_create_dir_all : string → Result unit;
  g_canonicalize : string → Result string;
  g_link_metadata : string → result IoError unit;
  g_symlink : string → string → Result unit;
}.

(** The loop of [normalize_absolute]: the absolute flag and the parts. *)
Fixpoint normalize_components (path : string) (absolute : bool) (parts : list string)
    (l : list Component) : Result (bool * list string) :=
  match l with
  | [] => Ok (absolute, parts)
  | RootDir :: l => normalize_components path true [] l
  | CurDir :: l => normalize_components path absolute parts l
  | Normal part :: l => normalize_components path absolute (parts ++ [part]) l
  | ParentDir :: l =>
      match parts with
      | [] => Err (report ("path escapes filesystem root: " +:+ path))
      | _ => normalize_components path absolute (removelast parts) l
      end
  end.

Definition normalize_absolute (path : string) : Result string :=
  '(absolute, parts) ← normalize_components path false [] (components path);
  if negb absolute then Err (report ("gc roots dir must be absolute: " +:+ path))
  else Ok (foldl path_join "/" parts).

Definition validate_gc_roots_dir_path (gc_dir : string) : Result string :=
  normalized ← normalize_absolute gc_dir;
  if negb (path_starts_with normalized NIX_GCROOTS_DIR)
  then Err (report ("gc roots dir must be under " +:+ NIX_GCROOTS_DIR +:+ ": " +:+ gc_dir))
  else Ok normalized.

Definition ensure_gc_roots_dir (w : GcWorld) (gc_dir : string) : list GcEffect * Result unit :=
  match validate_gc_roots_dir_path gc_dir with
  | Err err => ([], Err err)
  | Ok normalized =>
      ([GcCreateDirAll normalized],
       _ ← with_context ("creating gc roots dir " +:+ normalized) (g_create_dir_all w normalized);
       root ← with_context ("canonicalizing " +:+ NIX_GCROOTS_DIR)
                (g_canonicalize w NIX_GCROOTS_DIR);
       canonical ← with_context ("canonicalizing " +:+ normalized) (g_canonicalize w normalized);
       if negb (path_starts_with canonical root)
       then Err (report ("gc roots dir resolves outside " +:+ NIX_GCROOTS_DIR +:+ ": " +:+ gc_dir))
       else Ok tt)
  end.

Definition create_gc_root_link (w : GcWorld) (gc_dir drv_path : string)
  : list GcEffect * Result unit :=
  match file_name drv_path with
  | None => ([], Err (report "drv path has no filename"))
  | Some name =>
      let link := path_join gc_dir name in
      match g_link_metadata w link with
      | Ok _ => ([], Ok tt)
      | Err err =>
          match io_kind err with
          | NotFound =>
              ([GcSymlink drv_path link],
               with_context ("symlinking " +:+ link +:+ " -> " +:+ drv_path)
                 (g_symlink w drv_path link))
          | _ => ([], Err (context ("checking gc root " +:+ link) (io_report err)))
          end
      end
  end.

Definition register_gc_root (w : GcWorld) (gc_dir drv_path : string)
  : list GcEffect * Result unit :=
  match ensure_gc_roots_dir w gc_dir with
  | (effects, Err err) => (effects, Err err)
  | (effects, Ok _) =>
      let '(more, r) := create_gc_root_link w gc_dir drv_path in (effects ++ more, r)
  end.

(** [absolute_store_path] *)
Definition absolute_store_path (store_dir path : string) : string :=
  if starts_with "/" path then path else store_dir +:+ "/" +:+ path.

(** ** Reading a derivation *)

(** [Result::unwrap_or] and [Result::unwrap_or_default] *)
Definition unwrap_or {A} (a : A) (r : Result A) : A :=
  match r with Ok a => a | Err _ => a end.

Section eval.
Context {V P D : Type} `{NixApi V P D}.
(** [Display] of a report, and [Debug] of a path that is not UTF-8. *)
Context (display : Report → string).
Context (debug_path : string → string).
Implicit Types (value root : V) (path : list string).

Record EvalHelpers := mkEvalHelpers {
  eh_output_paths : V;
  eh_store_dir : string;
}.

Definition store_dir : string := unwrap_or "/nix/store" store_dir_setting.

(** The state of [process_attr]: the auto-call arguments, the options, the
    helpers, and the file system. *)
Record EvalEnv := mkEvalEnv {
  ev_auto_args : option V;
  ev_options : EvalOptions;
  ev_helpers : EvalHelpers;
  ev_world : GcWorld;
}.

Definition step_into (auto_args : option V) (current : V) (key : string) : Result V :=
  raw ← get_attr current key; auto_call_function auto_args raw.

Fixpoint navigate_from (auto_args : option V) (current : V) path : Result V :=
  match path with
  | [] => Ok current
  | key :: path => next ← step_into auto_args current key; navigate_from auto_args next path
  end.

Definition navigate root path (auto_args : option V) : Result V :=
  match path with
  | [] => auto_call_function auto_args root
  | _ => navigate_from auto_args root path
  end.

Definition collect_recurse value path (force_recurse : bool) : list string :=
  match attr_keys value with
  | Err _ => []
  | Ok keys =>
      let recurse :=
        force_recurse || bool_decide (path = [])
        || unwrap_or false (v ← get_attr value "recurseForDerivations"; val_bool v) in
      if recurse then List.filter (λ k, negb (str_eqb k "recurseForDerivations")) keys else []
  end.

(** [J::Number(i.into())] for an [i64] *)
Definition number_of_int (i : Z) : Number := if (i <? 0)%Z then NegInt i else PosInt (Z.to_N i).

(** The items of a list; an unreadable one ends it with [None]. *)
Fixpoint list_to_json (convert : V → Result (option Json)) value (indices : list nat)
  : Result (option (list Json)) :=
  match indices with
  | [] => Ok (Some [])
  | i :: indices =>
      match list_get value i with
      | Err _ => Ok None
      | Ok item =>
          json ← convert item;
          rest ← list_to_json convert value indices;
          Ok (option_map (cons (default JNull json)) rest)
      end
  end.

(** The readable attributes of a set. *)
Fixpoint attrs_to_json (convert : V → Result (option Json)) value
    (map : list (string * Json)) (keys : list string) : Result (list (string * Json)) :=
  match keys with
  | [] => Ok map
  | key :: keys =>
      match get_attr value key with
      | Err _ => attrs_to_json convert value map keys
      | Ok child =>
          json ← convert child;
          attrs_to_json convert value
            match json with Some json => jmap_insert key json map | None => map end keys
      end
  end.

(** [value_to_json], on the remaining depth *)
Fixpoint value_to_json (depth_remaining : nat) value : Result (option Json) :=
  match depth_remaining with
  | 0 => Ok None
  | S depth =>
      match force value with
      | Err _ => Ok None
      | Ok value =>
          match value_type value with
          | TNull => Ok (Some JNull)
          | TBool => Ok (JBool <$> ok (val_bool value))
          | TInt => Ok ((λ i, JNumber (number_of_int i)) <$> ok (val_int value))
          | TFloat => Ok (JNumber <$> (ok (val_float value) ≫= number_from_f64))
          | TString => Ok (JString <$> ok (val_string value))
          | TPath =>
              match val_path value with
              | Err _ => Ok None
              | Ok p =>
                  match to_str p with
                  | Some s => Ok (Some (JString s))
                  | None => Err (report ("meta path " +:+ debug_path p
                                         +:+ " is not valid UTF-8"))
                  end
              end
          | TList =>
              match list_len value with
              | Err _ => Ok None
              | Ok len =>
                  items ← list_to_json (value_to_json depth) value (seq 0 len);
                  Ok (option_map JArray items)
              end
          | TAttrs =>
              match attr_keys value with
              | Err _ => Ok None
              | Ok keys =>
                  map ← attrs_to_json (value_to_json depth) value [] keys;
                  Ok (Some (JObject map))
              end
          | TThunk | TFunction | TExternal => Ok None
          end
      end
  end.

Definition read_meta value : Result (option Json) :=
  if negb (unwrap_or false (has_attr value "meta")) then Ok None
  else match get_attr value "meta" with
       | Err _ => Ok None
       | Ok meta => value_to_json 64 meta
       end.

Definition read_constituents value : option (list string) :=
  if negb (unwrap_or false (has_attr value "constituents")) then None
  else
    list ← ok (get_attr value "constituents");
    list ← ok (force list);
    len ← ok (list_len list);
    Some (omap (λ i, item ← ok (list_get list i); ok (val_string item)) (seq 0 len)).

(** The derivation of the store as JSON; every failure is logged. *)
Definition derivation_json (drv_path : P) : Result Json :=
  drv ← read_derivation drv_path;
  json ← drv_to_json drv;
  parse_json json.

Definition input_drv_outputs (value : Json) : option (list string) :=
  json_to_strings (default value (json_get "outputs" value)).

Definition read_input_drvs (drv_path : P) : gmap string (list string) :=
  match derivation_json drv_path with
  | Err _ => ∅
  | Ok parsed =>
      match (json_get "inputs" parsed ≫= json_get "drvs") ≫= as_object with
      | None => ∅
      | Some drvs =>
          foldl (λ map '(key, value),
            match input_drv_outputs value with
            | Some outputs => <[absolute_store_path store_dir key := outputs]> map
            | None => map
            end) ∅ drvs
      end
  end.

Fixpoint insert_output_paths (prefix : string) (paths : V) (map : gmap string (option string))
    (names : list string) : Result (gmap string (option string)) :=
  match names with
  | [] => Ok map
  | name :: names =>
      v ← get_attr paths name;
      path ← val_string v;
      insert_output_paths prefix paths
        (<[name := if starts_with prefix path then Some path else None]> map) names
  end.

Definition value_output_paths value (helpers : EvalHelpers)
  : Result (gmap string (option string)) :=
  paths ← call (eh_output_paths helpers) value;
  names ← attr_keys paths;
  insert_output_paths (eh_store_dir helpers +:+ "/") paths ∅ names.

(** The path of an output in the JSON of a derivation. *)
Definition json_output_path (env : option Json) (name : string) (output : Json) : option string :=
  match json_get "path" output ≫= as_str with
  | Some path => Some (absolute_store_path store_dir path)
  | None =>
      path ← (env ≫= json_get name) ≫= as_str;
      if starts_with (store_dir +:+ "/") path then Some path else None
  end.

Definition output_paths (drv_path : P) : gmap string (option string) :=
  match derivation_json drv_path with
  | Err _ => ∅
  | Ok parsed =>
      match json_get "outputs" parsed ≫= as_object with
      | None => ∅
      | Some outputs =>
          foldl (λ map '(name, output),
            <[name := json_output_path (json_get "env" parsed) name output]> map) ∅ outputs
      end
  end.

(** [make_job]: the files touched, and the event. *)
Definition make_job value path (drv_path : P) (env : EvalEnv) : list GcEffect * Result Event :=
  let options := ev_options env in
  let read :=
    drv_path_str ← with_context "printing drv path" (print_path drv_path);
    name ← with_context "reading .name" (v ← get_attr value "name"; val_string v);
    meta ← if eo_meta options then read_meta value else Ok None;
    Ok (drv_path_str, name, meta) in
  match read with
  | Err err => ([], Err err)
  | Ok (drv_path_str, name, meta) =>
      let system := unwrap_or EmptyString (v ← get_attr value "system"; val_string v) in
      let outputs := match value_output_paths value (ev_helpers env) with
                     | Ok outputs => outputs
                     | Err _ => output_paths drv_path
                     end in
      let constituents := read_constituents value in
      let input_drvs := if eo_show_input_drvs options then read_input_drvs drv_path else ∅ in
      let '(effects, gc_root_error) :=
        match eo_gc_roots_dir options with
        | None => ([], None)
        | Some dir =>
            let '(effects, r) := register_gc_root (ev_world env) dir drv_path_str in
            (effects, match r with Ok _ => None | Err err => Some (display err) end)
        end in
      (effects,
       Ok (EvDerivation (mkDerivation (str_join "." path) path name system drv_path_str
             outputs meta input_drvs constituents gc_root_error)))
  end.

Definition attr_error path (error : string) : Event :=
  EvError (mkEvalError (str_join "." path) path error false).

Definition depth_error : string :=
  "attrset exceeds the maximum traversal depth of " +:+ show_N (N.of_nat MAX_ATTR_DEPTH).

Definition process_attr root path (env : EvalEnv) : list GcEffect * Event :=
  match navigate root path (ev_auto_args env) with
  | Err e => ([], attr_error path (display e))
  | Ok value =>
      if negb (bool_decide (value_type value = TAttrs))
      then ([], EvAttrSet (str_join "." path) path [])
      else match get_derivation value with
      | Ok (Some drv_path) =>
          match make_job value path drv_path env with
          | (effects, Ok ev) => (effects, ev)
          | (effects, Err e) => (effects, attr_error path (display e))
          end
      | Ok None =>
          if MAX_ATTR_DEPTH <=? length path
          then ([], attr_error path depth_error)
          else ([], EvAttrSet (str_join "." path) path
                      (collect_recurse value path (eo_force_recurse (ev_options env))))
      | Err e => ([], attr_error path (display e))
      end
  end.
End eval.

(** ** Lemmas: classification *)

Section recursion.
Context {V P D : Type} `{NixApi V P D}.

Lemma collect_recurse_spec (v : V) path force name :
  name ∈ collect_recurse v path force ↔
  ∃ keys, attr_keys v = Ok keys ∧ name ∈ keys ∧ name ≠ "recurseForDerivations"
    ∧ (force = true ∨ path = []
       ∨ ∃ w, get_attr v "recurseForDerivations" = Ok w ∧ val_bool w = Ok true).
Proof.
  unfold collect_recurse. destruct (attr_keys v) as [keys|] eqn:Hk.
  2:{ split; [by intros ?%elem_of_nil|]. by intros (? & ? & _). }
  assert (unwrap_or false (w ← get_attr v "recurseForDerivations"; val_bool w) = true
    ↔ ∃ w, get_attr v "recurseForDerivations" = Ok w ∧ val_bool w = Ok true) as Hr.
  { destruct (get_attr _ _) as [w|]; simpl; [|split; [done|by intros (? & ? & _)]].
    split; [|by intros (? & [= <-] & ->)]. intros Hw. exists w. split; [done|].
    destruct (val_bool w); by simplify_eq/=. }
  case_match eqn:Hrec.
  - rewrite !orb_true_iff, bool_decide_eq_true, Hr in Hrec.
    rewrite list_elem_of_In, filter_In, <-list_elem_of_In, negb_true_iff, str_eqb_false.
    split; [intros [? ?]; exists keys; split_and!; try done; tauto|].
    by intros (? & [= <-] & ? & ? & _).
  - rewrite !orb_false_iff, bool_decide_eq_false in Hrec. destruct Hrec as [[Hf Hp] Hb].
    split; [by intros ?%elem_of_nil|].
    intros (? & _ & _ & _ & [?|[?|Hw%Hr]]); congruence.
Qed.
End recursion.

Section eval_lemmas.
Context {V P D : Type} `{NixApi V P D}.
Context (display : Report → string) (debug_path : string → string).
Context (root : V) (env : @EvalEnv V).
Implicit Types (path : list string).

Definition outcome_of path : Event := (process_attr display debug_path root path env).2.

Lemma make_job_event value path p effects ev :
  make_job display debug_path value path p env = (effects, Ok ev) →
  ∃ d, ev = EvDerivation d ∧ d_attr_path d = path ∧ d_attr d = str_join "." path
    ∧ print_path p = Ok (d_drv_path d).
Proof.
  unfold make_job. destruct (_ ≫= _) as [[[drv name] meta]|] eqn:Hread; [|done].
  apply bind_ok in Hread as (drv' & Hp & Hread). apply with_context_ok in Hp. ok_inv.
  repeat case_match; simplify_eq; intros [= <- <-]; eexists; by split_and!.
Qed.

Lemma outcome_path path :
  event_attr_path (outcome_of path) = path ∧ event_attr (outcome_of path) = str_join "." path.
Proof.
  unfold outcome_of, process_attr. destruct (navigate _ _ _) as [v|]; [|done].
  case_match; [done|]. destruct (get_derivation v) as [[p|]|]; [|by case_match|done].
  destruct (make_job _ _ _ _ _ _) as [effects [ev|]] eqn:Hj; [|done].
  apply make_job_event in Hj as (d & -> & ? & ? & _). done.
Qed.

Lemma outcome_children path name :
  path ++ [name] ∈ children path (outcome_of path) ↔
  ∃ v, navigate root path (ev_auto_args env) = Ok v ∧ value_type v = TAttrs
    ∧ get_derivation v = Ok None ∧ length path < MAX_ATTR_DEPTH
    ∧ name ∈ collect_recurse v path (eo_force_recurse (ev_options env)).
Proof.
  assert (∀ names : list string,
    path ++ [name] ∈ (λ name, path ++ [name]) <$> names ↔ name ∈ names) as Hmap.
  { intros names. rewrite list_elem_of_fmap. split; [|by eauto].
    intros (n & Hn & ?). by simplify_list_eq. }
  unfold outcome_of, process_attr. destruct (navigate _ _ _) as [v|] eqn:Hn.
  2:{ split; [by intros ?%elem_of_nil|by intros (? & ? & _)]. }
  destruct (decide (value_type v = TAttrs)) as [Ht|Ht].
  2:{ rewrite bool_decide_eq_false_2 by done. split; [by intros ?%elem_of_nil|].
      by intros (? & [= <-] & ? & _). }
  rewrite bool_decide_eq_true_2 by done. cbn [negb].
  destruct (get_derivation v) as [[p|]|] eqn:Hd.
  - destruct (make_job _ _ _ _ _ _) as [effects [ev|]] eqn:Hj; simpl.
    1: apply make_job_event in Hj as (d & -> & _).
    all: split; [by intros ?%elem_of_nil|]; intros (? & [= <-] & _ & ? & _); congruence.
  - destruct (Nat.leb_spec MAX_ATTR_DEPTH (length path)) as [Hlen|Hlen]; cbn [snd].
    + split; [by intros ?%elem_of_nil|]. intros (? & _ & _ & _ & ? & _). lia.
    + unfold children. rewrite Hmap. split; [by eauto 10|].
      by intros (? & [= <-] & _ & _ & _ & ?).
  - split; [by intros ?%elem_of_nil|]. intros (? & [= <-] & _ & ? & _). congruence.
Qed.

Lemma outcome_depth_bounded : depth_bounded outcome_of MAX_ATTR_DEPTH.
Proof.
  intros path Hlen. destruct (children path (outcome_of path)) as [|child rest] eqn:Hc; [done|].
  assert (child ∈ children path (outcome_of path)) as Hin by (rewrite Hc; by left).
  assert (∃ name, child = path ++ [name]) as [name ->].
  { unfold children in Hin. destruct (outcome_of path); try by apply elem_of_nil in Hin.
    apply list_elem_of_fmap in Hin as (name & -> & _). eauto. }
  apply outcome_children in Hin as (_ & _ & _ & _ & ? & _). lia.
Qed.
End eval_lemmas.

(** ** Lemmas: normalized paths *)

Lemma normalize_components_wf path absolute parts l absolute' parts' :
  Forall part_wf parts → (∀ part, Normal part ∈ l → part_wf part) →
  normalize_components path absolute parts l = Ok (absolute', parts') →
  Forall part_wf parts'.
Proof.
  revert absolute parts. induction l as [|c l IH]; intros absolute parts Hp Hl; simpl.
  { by intros [= _ <-]. }
  assert (∀ part, Normal part ∈ l → part_wf part) as Hl' by (intros; apply Hl; by right).
  destruct c as [| | |part].
  - by apply IH.
  - by apply IH.
  - destruct parts as [|a parts]; [done|]. apply IH; [|done].
    rewrite removelast_firstn_len. by apply Forall_take.
  - apply IH; [|done]. apply Forall_app. split; [done|]. apply Forall_singleton, Hl. by left.
Qed.

Lemma normalize_components_normal path absolute parts parts' :
  normalize_components path absolute parts (Normal <$> parts') = Ok (absolute, parts ++ parts').
Proof.
  revert parts. induction parts' as [|p parts' IH]; intros parts; simpl.
  - by rewrite app_nil_r.
  - by rewrite IH, <-(assoc_L (++)).
Qed.

(** The components of an absolute path after the root. *)
Lemma components_absolute path :
  is_absolute path = true →
  ∃ l, components path = RootDir :: l ∧ (∀ c, c ∈ l → c = ParentDir ∨ ∃ part, c = Normal part).
Proof.
  intros Habs. unfold components. rewrite Habs. eexists. split; [done|].
  intros c (part & _ & Hc)%list_elem_of_omap. unfold component_of in Hc.
  repeat case_match; simplify_eq; eauto.
Qed.

Lemma components_relative path : is_absolute path = false → RootDir ∉ components path.
Proof.
  intros Habs. unfold components. rewrite Habs. intros [Hin|Hin]%elem_of_app.
  - repeat case_match; by repeat (apply elem_of_cons in Hin as [Hin|Hin] || apply elem_of_nil in Hin).
  - apply list_elem_of_omap in Hin as (part & _ & Hc). unfold component_of in Hc.
    repeat case_match; simplify_eq.
Qed.

Lemma normalize_components_flag path absolute parts l absolute' parts' :
  normalize_components path absolute parts l = Ok (absolute', parts') →
  absolute' = true → absolute = true ∨ RootDir ∈ l.
Proof.
  revert absolute parts. induction l as [|c l IH]; intros absolute parts; simpl.
  { intros [= -> ->]. by left. }
  destruct c as [| | |part]; [intros _ _; right; by left| | |]; repeat case_match; try done;
    intros Hn Ht; destruct (IH _ _ Hn Ht); (by left) || (right; by right).
Qed.

Lemma components_root : components "/" = [RootDir].
Proof. reflexivity. Qed.

Lemma normalize_absolute_ok path n :
  normalize_absolute path = Ok n →
  is_absolute path = true
  ∧ ∃ parts, Forall part_wf parts ∧ n = foldl path_join "/" parts
    ∧ components n = RootDir :: (Normal <$> parts)
    ∧ (ParentDir ∉ components path → components n = components path).
Proof.
  unfold normalize_absolute. intros ([absolute parts] & Hc & Hn)%bind_ok.
  destruct absolute; [|done]. injection Hn as <-.
  assert (is_absolute path = true) as Habs.
  { destruct (is_absolute path) eqn:Habs; [done|].
    destruct (normalize_components_flag _ _ _ _ _ _ Hc eq_refl) as [?|Hr]; [done|].
    by apply components_relative in Hr. }
  split; [done|]. exists parts.
  assert (Forall part_wf parts) as Hwf.
  { eapply normalize_components_wf; [by constructor| |exact Hc]. apply components_normal_wf. }
  destruct (components_joins "/" parts eq_refl Hwf) as [_ Hn].
  rewrite components_root in Hn. split_and!; [done|done|done|]. intros Hnp.
  destruct (components_absolute path Habs) as (l & Hl & Hcs). rewrite Hl in Hc, Hnp |- *.
  rewrite Hn. simpl in Hc |- *. f_equal.
  assert (∃ names, l = Normal <$> names) as [names ->].
  { clear -Hcs Hnp. assert (ParentDir ∉ l) as Hl by (intros ?; apply Hnp; by right).
    clear Hnp. induction l as [|c l IH]; [by exists []|]. apply not_elem_of_cons in Hl as [Hc Hl].
    destruct (IH (λ c' Hc', Hcs c' (list_elem_of_further _ _ _ Hc')) Hl) as [names ->].
    destruct (Hcs c) as [->|[part ->]]; [by left|done|by exists (part :: names)]. }
  rewrite normalize_components_normal in Hc. by injection Hc as <-.
Qed.

Lemma normalize_absolute_idempotent path n :
  normalize_absolute path = Ok n → normalize_absolute n = Ok n.
Proof.
  intros (_ & parts & Hwf & -> & Hc & _)%normalize_absolute_ok.
  unfold normalize_absolute. rewrite Hc. simpl. by rewrite normalize_components_normal.
Qed.

Lemma validate_gc_roots_ok gc_dir n :
  validate_gc_roots_dir_path gc_dir = Ok n →
  normalize_absolute gc_dir = Ok n ∧ components NIX_GCROOTS_DIR `prefix_of` components n.
Proof.
  unfold validate_gc_roots_dir_path. intros (n' & Hn & Hv)%bind_ok.
  destruct (path_starts_with n' _) eqn:Hs; [|done]. simpl in Hv. injection Hv as <-.
  by apply path_starts_with_spec in Hs.
Qed.

Lemma ensure_gc_roots_ok w gc_dir effects :
  ensure_gc_roots_dir w gc_dir = (effects, Ok tt) →
  ∃ n root canonical, validate_gc_roots_dir_path gc_dir = Ok n
    ∧ effects = [GcCreateDirAll n]
    ∧ g_canonicalize w NIX_GCROOTS_DIR = Ok root ∧ g_canonicalize w n = Ok canonical
    ∧ components root `prefix_of` components canonical.
Proof.
  unfold ensure_gc_roots_dir. destruct (validate_gc_roots_dir_path gc_dir) as [n|]; [|done].
  intros [= <- Hr]. apply bind_ok in Hr as ([] & _ & Hr).
  apply bind_ok in Hr as (root & Hroot%with_context_ok & Hr).
  apply bind_ok in Hr as (canonical & Hcan%with_context_ok & Hr).
  destruct (path_starts_with canonical root) eqn:Hs; [|done].
  apply path_starts_with_spec in Hs. by exists n, root, canonical.
Qed.

(** ** Lemmas: the size of [meta] *)

Fixpoint json_depth (json : Json) : nat :=
  S match json with
    | JArray items => foldr (λ item n, Nat.max (json_depth item) n) 0 items
    | JObject entries => foldr (λ kv n, Nat.max (json_depth kv.2) n) 0 entries
    | _ => 0
    end.

Lemma foldr_max_bound {A} (f : A → nat) (l : list A) bound :
  foldr (λ a n, Nat.max (f a) n) 0 l ≤ bound ↔ ∀ a, a ∈ l → f a ≤ bound.
Proof.
  induction l as [|a l IH]; simpl.
  - split; [by intros _ ? ?%elem_of_nil|lia].
  - rewrite Nat.max_lub_iff, IH. split.
    + intros [Ha Hl] b [->|?]%elem_of_cons; auto.
    + intros Hl. split; [apply Hl; by left|]. intros b Hb. apply Hl. by right.
Qed.

Section meta_lemmas.
Context {V P D : Type} `{NixApi V P D}.
Context (debug_path : string → string).

Lemma list_to_json_bound convert (v : V) indices items bound :
  (∀ w json, convert w = Ok (Some json) → json_depth json ≤ S bound) →
  list_to_json convert v indices = Ok (Some items) →
  ∀ item, item ∈ items → json_depth item ≤ S bound.
Proof.
  intros Hconv. revert items. induction indices as [|i indices IH]; intros items; simpl.
  { intros [= <-] item ?%elem_of_nil. done. }
  destruct (list_get v i) as [w|]; [|done].
  intros (json & Hj & Hr)%bind_ok. apply bind_ok in Hr as ([rest|] & Hrest & [= <-]).
  intros item [->|Hin]%elem_of_cons; [|by eapply IH].
  destruct json as [json|]; simpl; [by eapply Hconv|lia].
Qed.

Lemma attrs_to_json_bound convert (v : V) map keys map' bound :
  (∀ w json, convert w = Ok (Some json) → json_depth json ≤ bound) →
  (∀ kv, kv ∈ map → json_depth kv.2 ≤ bound) →
  attrs_to_json convert v map keys = Ok map' →
  ∀ kv, kv ∈ map' → json_depth kv.2 ≤ bound.
Proof.
  intros Hconv. revert map. induction keys as [|key keys IH]; intros map Hmap; simpl.
  { by intros [= <-]. }
  destruct (get_attr v key) as [w|]; [|by apply IH].
  intros (json & Hj & Hr)%bind_ok. eapply IH; [|exact Hr].
  destruct json as [json|]; [|done].
  intros kv [->|?]%jmap_insert_elem; [by eapply Hconv|by apply Hmap].
Qed.

Lemma value_to_json_bound depth (v : V) json :
  value_to_json debug_path depth v = Ok (Some json) → json_depth json ≤ S depth.
Proof.
  revert v json. induction depth as [|depth IH]; intros v json; simpl; [done|].
  destruct (force v) as [w|]; [|done].
  destruct (value_type w); try (repeat case_match; by intros [= <-]; simpl; lia); try done.
  - intros [= Hj]. destruct (val_int w); simplify_eq/=; lia.
  - intros [= Hj]. destruct (val_float w) as [f|]; simpl in Hj; [|done].
    destruct (number_from_f64 f); simplify_eq/=; lia.
  - intros [= Hj]. destruct (val_bool w); simplify_eq/=; lia.
  - intros [= Hj]. destruct (val_string w); simplify_eq/=; lia.
  - destruct (attr_keys w) as [keys|]; [|done].
    intros (map & Hm & [= <-])%bind_ok. simpl. apply le_n_S, foldr_max_bound.
    eapply attrs_to_json_bound; [apply IH| |exact Hm]. by intros ? ?%elem_of_nil.
  - destruct (list_len w) as [len|]; [|done].
    intros ([items|] & Hi & [= <-])%bind_ok. simpl. apply le_n_S, foldr_max_bound.
    eapply list_to_json_bound; [apply IH|exact Hi].
Qed.

Lemma insert_output_paths_bound prefix (paths : V) map names map' :
  (∀ name path, map !! name = Some (Some path) → starts_with prefix path = true) →
  insert_output_paths prefix paths map names = Ok map' →
  ∀ name path, map' !! name = Some (Some path) → starts_with prefix path = true.
Proof.
  revert map. induction names as [|n names IH]; intros map Hmap; simpl.
  { by intros [= <-]. }
  intros (v & _ & Hr)%bind_ok. apply bind_ok in Hr as (path & _ & Hr).
  eapply IH; [|exact Hr]. intros name p [[<- Hp]|[_ ?]]%lookup_insert_Some; [|by eapply Hmap].
  destruct (starts_with prefix path) eqn:?; by simplify_eq.
Qed.

Lemma starts_with_app s t : starts_with s (s +:+ t) = true.
Proof.
  induction s as [|c s IH]; [done|]. unfold starts_with in *. simpl. by rewrite decide_True.
Qed.

Lemma absolute_store_path_bound dir path :
  starts_with "/" (absolute_store_path dir path) = true
  ∨ starts_with (dir +:+ "/") (absolute_store_path dir path) = true.
Proof.
  unfold absolute_store_path. case_match eqn:Hs; [by left|right].
  rewrite <-str_app_assoc. apply starts_with_app.
Qed.

Lemma output_paths_bound (drv_path : P) name path :
  output_paths drv_path !! name = Some (Some path) →
  starts_with "/" path = true ∨ starts_with (store_dir +:+ "/") path = true.
Proof.
  unfold output_paths. destruct (derivation_json drv_path) as [parsed|];
    [|by rewrite lookup_empty].
  destruct (json_get "outputs" parsed ≫= as_object) as [outputs|]; [|by rewrite lookup_empty].
  assert (∀ map : gmap string (option string), (∀ path, map !! name = Some (Some path) →
      starts_with "/" path = true ∨ starts_with (store_dir +:+ "/") path = true) →
    foldl (λ map '(name, output),
      <[name := json_output_path (json_get "env" parsed) name output]> map) map outputs !! name
      = Some (Some path) →
    starts_with "/" path = true ∨ starts_with (store_dir +:+ "/") path = true) as Hfold.
  { induction outputs as [|[n output] outputs IH]; intros map Hmap; simpl; [apply Hmap|].
    apply IH. intros p [[<- Hp]|[_ ?]]%lookup_insert_Some; [|by apply Hmap].
    unfold json_output_path in Hp. case_match; [simplify_eq; apply absolute_store_path_bound|].
    apply bind_Some in Hp as (q & _ & Hq). case_match eqn:Hs; simplify_eq. by right. }
  apply Hfold. intros p. by rewrite lookup_empty.
Qed.
End meta_lemmas.

(** ** Properties *)

(** The traversal of any value is bounded. Whatever the evaluator
    answers, no attribute at a depth of [MAX_ATTR_DEPTH] or more announces
    children; so the traversal with that fuel is the complete one, more fuel
    changes nothing, no event lies deeper, and every event names the path it
    was asked for. *)
Theorem evaluation_depth_bounded {V P D} `{NixApi V P D} display debug_path root env :
  let outcome := outcome_of display debug_path root env in
  depth_bounded outcome MAX_ATTR_DEPTH
  ∧ (∀ path, event_attr_path (outcome path) = path
       ∧ event_attr (outcome path) = str_join "." path)
  ∧ (∀ fuel, MAX_ATTR_DEPTH ≤ fuel →
       traverse outcome fuel [] = traverse outcome MAX_ATTR_DEPTH [])
  ∧ (∀ fuel event, event ∈ traverse outcome fuel [] →
       length (event_attr_path event) ≤ MAX_ATTR_DEPTH).
Proof.
  intros outcome.
  assert (depth_bounded outcome MAX_ATTR_DEPTH) as Hd by apply outcome_depth_bounded.
  assert (∀ fuel, MAX_ATTR_DEPTH ≤ fuel →
    traverse outcome fuel [] = traverse outcome MAX_ATTR_DEPTH []) as Hfuel.
  { intros fuel Hf. rewrite !(traverse_fuel outcome MAX_ATTR_DEPTH) by (done || simpl; lia). done. }
  split_and!; [done|apply outcome_path|done|]. intros fuel event Hin.
  destruct (Nat.le_ge_cases MAX_ATTR_DEPTH fuel) as [Hle|Hle].
  - rewrite Hfuel in Hin by done. eapply traverse_length in Hin; [|apply outcome_path].
    cbn [length] in Hin. lia.
  - eapply traverse_length in Hin; [|apply outcome_path]. cbn [length] in Hin. lia.
Qed.


(** A garbage-collector root is confined. A link is made only at a
    free name, to the given derivation, and only after the configured directory,
    normalized, lies under the roots of Nix both lexically and on the disk; its
    name is the derivation's. When the directory is spelled without [..] the
    link is in the very directory that was checked. *)
Theorem gc_root_confined w gc_dir drv_path effects r target link :
  register_gc_root w gc_dir drv_path = (effects, r) → GcSymlink target link ∈ effects →
  ∃ n root canonical name,
    target = drv_path ∧ file_name drv_path = Some name ∧ link = path_join gc_dir name
    ∧ normalize_absolute gc_dir = Ok n ∧ normalize_absolute n = Ok n
    ∧ components NIX_GCROOTS_DIR `prefix_of` components n
    ∧ g_canonicalize w NIX_GCROOTS_DIR = Ok root ∧ g_canonicalize w n = Ok canonical
    ∧ components root `prefix_of` components canonical
    ∧ (∃ err, g_link_metadata w link = Err err ∧ io_kind err = NotFound)
    ∧ (ParentDir ∉ components gc_dir →
       components link = components n ++ [Normal name]).
Proof.
  unfold register_gc_root. intros Hr Hin.
  destruct (ensure_gc_roots_dir w gc_dir) as [made [[]|err]] eqn:Hensure.
  2:{ injection Hr as <- _. unfold ensure_gc_roots_dir in Hensure.
      case_match; simplify_eq; by repeat (apply elem_of_cons in Hin as [Hin|Hin] || apply elem_of_nil in Hin). }
  apply ensure_gc_roots_ok in Hensure as (n & root & canonical & Hv & -> & Hroot & Hcan & Hpre).
  apply validate_gc_roots_ok in Hv as [Hn Hunder].
  pose proof (normalize_absolute_idempotent _ _ Hn) as Hidem.
  destruct (normalize_absolute_ok _ _ Hn) as (Habs & parts & Hwf & _ & _ & Hplain).
  destruct (create_gc_root_link w gc_dir drv_path) as [more r'] eqn:Hlink.
  injection Hr as <- _. apply elem_of_cons in Hin as [?|Hin]; [done|].
  unfold create_gc_root_link in Hlink. destruct (file_name drv_path) as [name|] eqn:Hname.
  2:{ injection Hlink as <- _. by apply elem_of_nil in Hin. }
  destruct (g_link_metadata w _) as [|err] eqn:Hmeta;
    [injection Hlink as <- _; by apply elem_of_nil in Hin|].
  destruct (io_kind err) eqn:Hkind; injection Hlink as <- _; try by apply elem_of_nil in Hin.
  apply list_elem_of_singleton in Hin as [= -> ->].
  exists n, root, canonical, name. split_and!; try done; [by exists err|].
  intros Hnp. rewrite Hplain by done. apply components_join; [done|].
  unfold file_name in Hname. destruct (last (components drv_path)) as [[]|] eqn:Hlast; simplify_eq.
  by eapply components_normal_wf, last_Some_elem_of.
Qed.


(** ** A concrete evaluator: trees of attribute sets and derivations *)

Inductive Tree : Type :=
  | Leaf (text : string)
  | Attrs (entries : list (string * Tree))
  | Drv (drv_path : string) (entries : list (string * Tree)).

Definition tree_entries (t : Tree) : list (string * Tree) :=
  match t with Leaf _ => [] | Attrs entries | Drv _ entries => entries end.

Definition no_value {A} : Result A := Err (report "no such value").

Definition tree_attr (t : Tree) (name : string) : Result Tree :=
  match List.find (λ kv, str_eqb kv.1 name) (tree_entries t) with
  | Some (_, child) => Ok child
  | None => no_value
  end.

#[export] Instance tree_api : NixApi Tree string unit := {
  value_type t := match t with Leaf _ => TString | _ => TAttrs end;
  force t := Ok t;
  get_attr := tree_attr;
  has_attr t name := Ok (existsb (λ kv, str_eqb kv.1 name) (tree_entries t));
  attr_keys t := Ok (tree_entries t).*1;
  val_bool t := match t with Leaf "true" => Ok true | _ => no_value end;
  val_int _ := no_value;
  val_float _ := no_value;
  number_from_f64 _ := None;
  val_string t := match t with Leaf s => Ok s | _ => no_value end;
  val_path _ := no_value;
  list_len _ := no_value;
  list_get _ _ := no_value;
  call _ _ := Ok (Attrs [("out", Leaf "/nix/store/0-hello")]);
  auto_call_function _ t := Ok t;
  get_derivation t := match t with Drv p _ => Ok (Some p) | _ => Ok None end;
  print_path p := Ok p;
  read_derivation _ := no_value;
  drv_to_json _ := no_value;
  parse_json _ := no_value;
  store_dir_setting := Ok "/nix/store";
}.

Definition tree_root : Tree :=
  Attrs [("pkgs", Attrs [("recurseForDerivations", Leaf "true");
                         ("hello", Drv "/nix/store/0-hello.drv"
                                     [("name", Leaf "hello"); ("meta", Leaf "nice")])])].

Definition tree_world : GcWorld :=
  mkGcWorld (λ _, Ok tt) (λ p, Ok p) (λ _, Err (mkIoError NotFound (report "none")))
    (λ _ _, Ok tt).

Definition tree_env : @EvalEnv Tree :=
  mkEvalEnv None (mkEvalOptions false (Some "/nix/var/nix/gcroots/evix") true false)
    (mkEvalHelpers (Leaf "") "/nix/store") tree_world.

Definition quiet_display (err : Report) : string := "error".

Lemma gc_root_confined_witness :
  components "/nix/var/nix/gcroots/evix/0-hello.drv"
  = components "/nix/var/nix/gcroots/evix" ++ [Normal "0-hello.drv"].
Proof.
  destruct (gc_root_confined tree_world "/nix/var/nix/gcroots/evix" "/nix/store/0-hello.drv"
    [GcCreateDirAll "/nix/var/nix/gcroots/evix";
     GcSymlink "/nix/store/0-hello.drv" "/nix/var/nix/gcroots/evix/0-hello.drv"] (Ok tt)
    "/nix/store/0-hello.drv" "/nix/var/nix/gcroots/evix/0-hello.drv"
    ltac:(vm_compute; reflexivity) ltac:(right; left))
    as (n & root & canonical & name & _ & Hname & _ & Hn & _ & _ & _ & _ & _ & _ & Hc).
  vm_compute in Hn, Hname. injection Hn as <-. injection Hname as <-. apply Hc.
  intros Hin. apply list_elem_of_In in Hin. vm_compute in Hin.
  repeat destruct Hin as [Hin|Hin]; discriminate || exact Hin.
Defined.

