(* ===== verification/Flake.v ===== *)
(** * Inputs of an evaluation and locked flakes

    [crates/evix/src/worker.rs]: flake references, the lock the master exports,
    its import by a worker, the root value of every kind of input, and the
    worker's set-up. *)
From S2P Require Import Prelude Types Config Paths Fork Traversal Eval RemoteProto.

(** ** Flake references *)

(** [is_local_flake_reference], as written: without a fragment the path is the
    reference with its scheme. *)
Definition is_local_flake_reference (reference : string) : bool :=
  let stripped := default reference (strip_prefix "path:" reference) in
  let path := match split_once "#" stripped with Some (path, _) => path | None => reference end in
  str_is_empty path || str_eqb path "." || str_eqb path ".."
  || starts_with "./" path || starts_with "../" path || is_absolute path.

Inductive LockMode : Type := LockCheck | LockVirtual.
Definition flake_lock_mode (local_flake : bool) : LockMode :=
  if local_flake then LockCheck else LockVirtual.

(** ** The interface of the flake bindings *)

(** Parse flags [F], references [R], lock flags [K], locked flakes [L] and imported
    ones [I]; the outputs of an imported flake depend on the store paths the
    evaluator's state allows. *)
Record FlakeApi (V F R K L I : Type) := mkFlakeApi {
  fa_settings : Result unit;
  fa_fetchers : Result unit;
  fa_current_dir : Result string;
  fa_parse_flags : Result F;
  fa_set_base_directory : F → string → Result F;
  fa_parse : F → string → Result (R * string);
  fa_lock_flags : Result K;
  fa_set_mode : K → LockMode → Result K;
  fa_add_input_override : K → string → R → Result K;
  fa_lock : K → R → Result L;
  fa_output_attrs : L → Result V;
  fa_export_json : L → Result string;
  fa_import_json : string → Result I;
  fa_allow_store_path : string → Result unit;
  fa_imported_output_attrs : gset string → I → Result V;
}.
Arguments mkFlakeApi {V F R K L I}.
Arguments fa_settings {V F R K L I}.
Arguments fa_fetchers {V F R K L I}.
Arguments fa_current_dir {V F R K L I}.
Arguments fa_parse_flags {V F R K L I}.
Arguments fa_set_base_directory {V F R K L I}.
Arguments fa_parse {V F R K L I}.
Arguments fa_lock_flags {V F R K L I}.
Arguments fa_set_mode {V F R K L I}.
Arguments fa_add_input_override {V F R K L I}.
Arguments fa_lock {V F R K L I}.
Arguments fa_output_attrs {V F R K L I}.
Arguments fa_export_json {V F R K L I}.
Arguments fa_import_json {V F R K L I}.
Arguments fa_allow_store_path {V F R K L I}.
Arguments fa_imported_output_attrs {V F R K L I}.

(** The evaluator's state: evaluation and construction of values. *)
Class NixState (V : Type) := {
  eval_from_string : string → string → Result V;
  eval_from_file : string → Result V;
  make_string : string → Result V;
  make_attrs : list (string * V) → Result V;
}.

Section flake.
Context {V F R K L I : Type}.
Context (debug : string → string) (api : FlakeApi V F R K L I).

(** ** Parsing and locking *)

(** [flake_parse_flags]: without a base directory when it is not UTF-8. *)
Definition flake_parse_flags : Result F :=
  base_dir ← with_context "resolving flake base directory" (fa_current_dir api);
  flags ← with_context "parse flags" (fa_parse_flags api);
  match to_str base_dir with
  | None => Ok flags
  | Some base_dir =>
      with_context ("setting flake base directory " +:+ base_dir)
        (fa_set_base_directory api flags base_dir)
  end.

(** What [eval_flake] and [export_locked_flake] begin with. *)
Definition parse_input (flake_ref_str : string) : Result (F * R * string) :=
  _ ← with_context "flake settings" (fa_settings api);
  _ ← with_context "fetcher settings" (fa_fetchers api);
  parse_flags ← flake_parse_flags;
  '(flake_ref, fragment) ← with_context "parsing flake reference"
                             (fa_parse api parse_flags flake_ref_str);
  Ok (parse_flags, flake_ref, fragment).

(** The loop of [lock_flake] over the overrides. *)
Fixpoint add_overrides (parse_flags : F) (lock_flags : K) (overrides : list (string * string))
  : Result K :=
  match overrides with
  | [] => Ok lock_flags
  | (name, value) :: overrides =>
      '(override_ref, _) ← with_context
          ("parsing --override-input " +:+ name +:+ " reference " +:+ debug value)
          (fa_parse api parse_flags value);
      lock_flags ← with_context ("applying --override-input " +:+ name)
          (fa_add_input_override api lock_flags name override_ref);
      add_overrides parse_flags lock_flags overrides
  end.

Definition lock_flake (parse_flags : F) (flake_ref_str : string)
    (override_inputs : list (string * string)) (flake_ref : R) : Result L :=
  let local_flake := is_local_flake_reference flake_ref_str in
  lock_flags ← with_context "lock flags" (fa_lock_flags api);
  lock_flags ← with_context "setting lock mode"
                 (fa_set_mode api lock_flags (flake_lock_mode local_flake));
  lock_flags ← add_overrides parse_flags lock_flags override_inputs;
  with_context (if local_flake then "locking local flake with an up-to-date flake.lock"
                else "locking flake") (fa_lock api lock_flags flake_ref).

(** [export_locked_flake]; [opened] is the opening of the context, the store and
    the evaluator's state. *)
Definition export_locked_flake (opened : Result unit) (config : Config)
  : Result (option string) :=
  match c_input config with
  | Flake flake_ref_str =>
      _ ← opened;
      '(parse_flags, flake_ref, _) ← parse_input flake_ref_str;
      locked ← lock_flake parse_flags flake_ref_str (c_override_inputs config) flake_ref;
      with_context "exporting locked flake graph" (Some <$> fa_export_json api locked)
  | _ => Ok None
  end.

(** ** Importing a lock *)

(** The store path a locked node lies in. *)
Definition imported_root (store_dir path : string) : Result string :=
  relative ← ok_or (report "locked flake node path is outside the worker store")
    (rest ← strip_prefix store_dir path; strip_prefix "/" rest);
  name ← ok_or (report "locked flake node path is missing its store path")
    (name ← head (str_split separator relative);
     if str_is_empty name then None else Some name);
  Ok (store_dir +:+ "/" +:+ name).

(** The roots of [allow_imported_flake_paths], a [BTreeSet]. *)
Definition imported_roots (store_dir : Result string) (graph : Json) : Result (gset string) :=
  paths ← ok_or (report "locked flake graph is missing node paths")
    (json_get "nodePaths" graph ≫= as_object);
  store_dir ← with_context "reading Nix store directory" store_dir;
  roots ← collect_results (λ kv,
    path ← ok_or (report "locked flake node path is not a string") (as_str kv.2);
    imported_root store_dir path) paths;
  Ok (list_to_set roots).
End flake.

Section eval.
Context {V P D : Type} `{NixApi V P D} `{NixState V}.
Context {F R K L I : Type} (debug : string → string) (api : FlakeApi V F R K L I).
Context (json_from_str : string → Result Json).

(** [allow_imported_flake_paths] gives the store paths it has allowed. *)
Definition allow_imported_flake_paths (json : string) : Result (gset string) :=
  graph ← with_context "parsing locked flake graph" (json_from_str json);
  roots ← imported_roots store_dir_setting graph;
  _ ← collect_results (fa_allow_store_path api) (merge_sort String.le (elements roots));
  Ok roots.

(** The loop of [eval_flake] over the fragment. *)
Fixpoint fragment_value (current : V) (parts : list string) : Result V :=
  match parts with
  | [] => Ok current
  | part :: parts =>
      raw ← with_context ("fragment attr " +:+ debug part) (get_attr current part);
      next ← with_context ("auto-calling fragment " +:+ debug part) (auto_call_function None raw);
      fragment_value next parts
  end.

Definition eval_flake (flake_ref_str : string) (override_inputs : list (string * string))
    (locked_flake_json : option string) : Result V :=
  '(parse_flags, flake_ref, fragment) ← parse_input api flake_ref_str;
  outputs ← match locked_flake_json with
            | Some json =>
                allowed ← allow_imported_flake_paths json;
                imported ← with_context "importing locked flake graph" (fa_import_json api json);
                with_context "flake outputs" (fa_imported_output_attrs api allowed imported)
            | None =>
                locked ← lock_flake debug api parse_flags flake_ref_str override_inputs flake_ref;
                with_context "flake outputs" (fa_output_attrs api locked)
            end;
  if str_is_empty fragment then Ok outputs
  else fragment_value outputs (str_split "." fragment).

Definition eval_root (config : WorkerConfig) (auto_args : option V) : Result V :=
  match wc_input config with
  | Flake flake_ref =>
      eval_flake flake_ref (wc_override_inputs config) (wc_locked_flake_json config)
  | Expr expr =>
      v ← with_context "evaluating expression" (eval_from_string expr "<cmdline>");
      auto_call_function auto_args v
  | File file =>
      v ← with_context "evaluating file" (eval_from_file file);
      auto_call_function auto_args v
  end.

(** ** The worker's set-up *)

Definition build_auto_arg (arg : string * AutoArg) : Result (string * V) :=
  let '(name, arg) := arg in
  val ← match arg with
        | ArgExpr expr => with_context ("--arg " +:+ name) (eval_from_string expr "<arg>")
        | ArgStr s => with_context ("--argstr " +:+ name) (make_string s)
        end;
  Ok (name, val).

Definition build_auto_args (args : list (string * AutoArg)) : Result (option V) :=
  match args with
  | [] => Ok None
  | _ =>
      pairs ← collect_results build_auto_arg args;
      attrs ← with_context "building auto-args attrset" (make_attrs pairs);
      Ok (Some attrs)
  end.

(** The helper expression of [EvalHelpers::new]. *)
Definition OUTPUT_PATHS_EXPR : string :=
  String newline ("  drv: builtins.listToAttrs (map (name: {" +:+ String newline
  ("    inherit name;" +:+ String newline
  ("    value = builtins.unsafeDiscardStringContext drv.${name}.outPath;" +:+ String newline
  ("  }) (drv.drvAttrs.outputs or drv.outputs or [ " +:+ String quote_char ("out"
   +:+ String quote_char (" ]))" +:+ String newline EmptyString)))))).

(** What [run] does between its set-up message and its loop. [opened] is the
    opening of the context and the store, [slots] the inherited fork slots,
    [built] the building of the evaluator's state. *)
Definition worker_setup (opened built : Result unit) (slots : Result (list ForkSlot))
    (uri : Result string) (world : GcWorld) (config : WorkerConfig)
  : Result (V * @EvalEnv V * Forker) :=
  _ ← opened;
  forker ← forker_from_env slots uri (wc_max_memory_size config);
  _ ← built;
  auto_args ← build_auto_args (wc_auto_args config);
  root ← eval_root config auto_args;
  output_paths ← with_context "evaluating output path helper"
                   (eval_from_string OUTPUT_PATHS_EXPR "<evix>");
  Ok (root,
      mkEvalEnv auto_args (eval_options_from config) (mkEvalHelpers output_paths store_dir) world,
      forker).
End eval.

(** ** Lemmas *)

(** A path of the store lies in its store path. *)
Definition below (root path : string) : Prop := path = root ∨ ∃ rest, path = root +:+ "/" +:+ rest.

(** A store path itself: one name under the store. *)
Definition store_root (store_dir root : string) : Prop :=
  ∃ name, root = store_dir +:+ "/" +:+ name ∧ name ≠ EmptyString
    ∧ str_contains separator name = false.

Lemma str_split_head c s :
  ∃ a, head (str_split c s) = Some a ∧ str_contains c a = false
    ∧ (s = a ∨ ∃ b, s = a +:+ String c b).
Proof.
  destruct (split_once c s) as [[a b]|] eqn:Hs.
  - apply split_once_some in Hs as [-> Ha]. exists a.
    rewrite str_split_app, (str_split_no c a) by done. eauto.
  - apply split_once_none in Hs. exists s. rewrite str_split_no by done. eauto.
Qed.

(** The root of a node is the store path it lies in, and only paths outside the
    store have none. *)
Lemma imported_root_spec store_dir path root :
  imported_root store_dir path = Ok root ↔ store_root store_dir root ∧ below root path.
Proof.
  unfold imported_root. rewrite bind_ok. setoid_rewrite bind_ok. split.
  - intros (relative & Hrel & name & Hname & [= <-]). ok_inv.
    destruct (strip_prefix store_dir path) as [rest|] eqn:Hstrip; [|done]. cbn in Hrel.
    apply strip_prefix_some in Hstrip as ->. apply (strip_prefix_some "/") in Hrel as ->.
    destruct (str_split_head separator relative) as (a & Ha & Hsep & Hcases). rewrite Ha in Hname.
    cbn in Hname. destruct (str_is_empty a) eqn:Hempty; [done|]. injection Hname as <-. split.
    + exists a. split_and!; [done| |done]. by intros ->.
    + destruct Hcases as [->|[b ->]]; [by left|right]. exists b. by rewrite !str_app_assoc.
  - intros [(name & -> & Hne & Hsep) Hbelow].
    assert (∃ relative, path = store_dir +:+ ("/" +:+ relative)
      ∧ head (str_split separator relative) = Some name) as (relative & -> & Hhead).
    { destruct Hbelow as [->|[rest ->]].
      - exists name. split; [done|]. by rewrite str_split_no.
      - exists (name +:+ String separator rest). split; [by rewrite !str_app_assoc|].
        by rewrite str_split_app, (str_split_no _ name). }
    exists relative. split.
    + rewrite (proj2 (strip_prefix_some store_dir _ _) eq_refl). done.
    + exists name. rewrite Hhead. cbn. by destruct name.
Qed.

(** The store paths of the nodes, and no others. *)
Lemma imported_roots_spec store_dir graph paths roots :
  json_get "nodePaths" graph = Some (JObject paths) →
  imported_roots (Ok store_dir) graph = Ok roots →
  (∀ k p, (k, JString p) ∈ paths → ∃ root, root ∈ roots ∧ below root p)
  ∧ ∀ root, root ∈ roots → store_root store_dir root
      ∧ ∃ k p, (k, JString p) ∈ paths ∧ below root p.
Proof.
  intros Hpaths Hroots. unfold imported_roots in Hroots. rewrite Hpaths in Hroots.
  cbn [mbind option_bind as_object ok_or with_context map_err result_bind] in Hroots.
  apply bind_ok in Hroots as (l & Hall%collect_results_ok & [= <-]). split.
  - intros k p [i Hi]%list_elem_of_lookup.
    destruct (Forall2_lookup_l _ _ _ _ _ Hall Hi) as (root & Hroot & Hr).
    cbn in Hr. apply imported_root_spec in Hr as [_ Hbelow]. exists root. split; [|done].
    apply elem_of_list_to_set. by eapply list_elem_of_lookup_2.
  - intros root [i Hi]%elem_of_list_to_set%list_elem_of_lookup.
    destruct (Forall2_lookup_r _ _ _ _ _ Hall Hi) as ([k v] & Hkv & Hr).
    apply bind_ok in Hr as (p & Hp%ok_or_ok & Hr). cbn in Hp. destruct v; try done.
    injection Hp as ->. apply imported_root_spec in Hr as [Hroot Hbelow]. split; [done|].
    exists k, p. split; [|done]. by eapply list_elem_of_lookup_2.
Qed.

(** Every path of the store is accepted. *)
Lemma imported_roots_total store_dir graph paths :
  json_get "nodePaths" graph = Some (JObject paths) →
  Forall (λ kv, ∃ root p, kv.2 = JString p ∧ store_root store_dir root ∧ below root p) paths →
  ∃ roots, imported_roots (Ok store_dir) graph = Ok roots.
Proof.
  intros Hpaths Hall. unfold imported_roots. rewrite Hpaths.
  cbn [mbind option_bind as_object ok_or with_context map_err result_bind].
  assert (∃ l, Forall2 (λ (kv : string * Json) root, ∃ p,
    kv.2 = JString p ∧ imported_root store_dir p = Ok root) paths l) as [l Hl].
  { clear Hpaths. induction Hall as [|kv paths (root & p & Hv & Hroot) _ [l IH]]; [by exists []|].
    exists (root :: l). constructor; [|done]. exists p. split; [done|]. by apply imported_root_spec. }
  setoid_rewrite bind_ok. eexists _, l. split; [|done]. apply collect_results_ok.
  eapply Forall2_impl; [exact Hl|]. intros [k v] root (p & Hv & Hroot). cbn in *. by rewrite Hv.
Qed.

(** ** A lock shared with the workers *)

(** What the bindings promise of an exported lock: its nodes lie in the store, and
    whoever imports it and may read those store paths has the outputs of the lock. *)
Definition lock_portable {V F R K L I} (json_from_str : string → Result Json) (store_dir : string)
    (master worker : FlakeApi V F R K L I) : Prop :=
  ∀ l json, fa_export_json master l = Ok json → ∃ graph paths i,
    json_from_str json = Ok graph ∧ json_get "nodePaths" graph = Some (JObject paths)
    ∧ Forall (λ kv, ∃ root p, kv.2 = JString p ∧ store_root store_dir root ∧ below root p) paths
    ∧ fa_import_json worker json = Ok i
    ∧ ∀ allowed, (∀ k p, (k, JString p) ∈ paths → ∃ root, root ∈ allowed ∧ below root p) →
        fa_imported_output_attrs worker allowed i = fa_output_attrs master l.

(** The default timeout a worker may have read changes nothing in its root. *)
Lemma eval_root_received {V P D F R K L I} `{NixApi V P D} `{NixState V} debug
    (api : FlakeApi V F R K L I) json_from_str config auto_args :
  eval_root debug api json_from_str (with_item_timeout config) auto_args
  = eval_root debug api json_from_str config auto_args.
Proof. unfold with_item_timeout. by destruct (_ =? _)%N. Qed.


(** Trees as the outputs of a flake whose only node is a store path; the worker
    cannot lock. *)
#[export] Instance tree_state : NixState Tree := {
  eval_from_string _ _ := Ok tree_root;
  eval_from_file _ := Ok tree_root;
  make_string s := Ok (Leaf s);
  make_attrs attrs := Ok (Attrs attrs);
}.

Definition tree_flake (locked : Result unit) : FlakeApi Tree unit string unit unit unit :=
  mkFlakeApi (Ok tt) (Ok tt) (Ok "/home/user") (Ok tt) (λ _ _, Ok tt)
    (λ _ reference, Ok (default (reference, EmptyString) (split_once "#" reference)))
    (Ok tt) (λ _ _, Ok tt) (λ _ _ _, Ok tt) (λ _ _, locked) (λ _, Ok tree_root)
    (λ _, Ok "graph") (λ _, Ok tt) (λ _, Ok tt)
    (λ allowed _, if existsb (λ root, starts_with root "/nix/store/0-source/sub") (elements allowed)
                  then Ok tree_root else Err (report "access to path is forbidden")).

Definition tree_graph (text : string) : Result Json :=
  Ok (JObject [("nodePaths", JObject [("root", JString "/nix/store/0-source/sub")])]).

Lemma tree_flake_portable locked :
  lock_portable tree_graph "/nix/store" (tree_flake (Ok tt)) (tree_flake locked).
Proof.
  assert (store_root "/nix/store" "/nix/store/0-source") as Hroot by (by exists "0-source").
  intros l json _. eexists _, _, tt. split; [done|]. split; [done|]. split.
  - apply Forall_singleton. exists "/nix/store/0-source", "/nix/store/0-source/sub".
    split_and!; [done|done|]. right. by exists "sub".
  - split; [done|]. intros allowed Hallowed. simpl.
    destruct (Hallowed "root" "/nix/store/0-source/sub" (list_elem_of_here _ _)) as (root & Hin & Hbelow).
    rewrite (proj2 (existsb_elem_of _ _)); [done|]. exists root. split; [by apply elem_of_elements|].
    destruct Hbelow as [->|[rest ->]]; [|apply starts_with_app].
    rewrite <-(str_app_nil root) at 2. apply starts_with_app.
Qed.

Definition flake_config : Config := config_default <| c_input := Flake "repo#pkgs" |>.
Definition flake_worker_config : WorkerConfig :=
  (worker_config_from flake_config) <| wc_locked_flake_json := Some "graph" |>.

