(* ===== verification/Worker.v ===== *)
(** * Workers and their conversation with the master

    [crates/evix/src/worker.rs]: the worker's loop over the protocol of
    [RemoteProto.v], after the set-up of [Flake.v]; and the other end of the conversation, the
    protocol side of [WorkerProcess] in [crates/evix/src/worker_process.rs]. *)
From S2P Require Import Prelude Types Config Paths Fork WorkerProcess Traversal Eval RemoteProto.

(** ** The worker's loop *)

Section worker.
Context {V P D : Type} `{NixApi V P D}.
Context (display : Report → string) (debug : string → string).

Definition should_restart (max_rss_kb max_memory_mb : N) : bool :=
  (saturating_mul max_memory_mb 1024 <? max_rss_kb)%N.

(** How a conversation ends: still waiting for a message, the process returned,
    or this process became the child of a fork with its slot. *)
Inductive WorkerEnd : Type :=
  | Waiting
  | Returned (r : Result unit)
  | BecameChild (slot : ForkSlot).

(** [get_maxrss_kb], from the answer of [getrusage]: kibibytes, but bytes on macOS. *)
Definition get_maxrss_kb (macos : bool) (ru_maxrss : result IoError Z) : Result N :=
  match ru_maxrss with
  | Err err => Err (context "getrusage(RUSAGE_SELF)" (io_report err))
  | Ok rss =>
      rss ← ok_or (context "getrusage returned a negative ru_maxrss"
                     (report "out of range integral type conversion attempted"))
              (if (rss <? 0)%Z then None else Some (Z.to_N rss));
      Ok (if macos then (rss / 1024)%N else rss)
  end.

(** What surrounds the evaluation of the [n]th item: the system and the memory in use after
    it, the children that still run, the turns of the forker. *)
Record WorkerWorld := mkWorkerWorld {
  ww_macos : bool;
  ww_getrusage : nat → result IoError Z;
  ww_running : nat → N → bool;
  ww_turns : nat → N → ForkTurn;
  ww_replaced : Result unit;
}.
Definition ww_max_rss_kb (world : WorkerWorld) (completed : nat) : Result N :=
  get_maxrss_kb (ww_macos world) (ww_getrusage world completed).

(** [serde_json] on metadata and lists of strings. *)
Context (json_to_string : Json → Result string).
Context (strings_to_string : list string → Result string).
Abbreviation encode_server := (encode_server json_to_string strings_to_string).

Section loop.
Context (root : V) (env : @EvalEnv V) (max_memory_size : N) (world : WorkerWorld).

(** The loop of [run], on the messages it reads; it gives the messages it wrote. *)
Fixpoint worker_loop (completed : nat) (f : Forker) (inputs : list (Result ClientMessage))
  : list ServerMsg * WorkerEnd :=
  match inputs with
  | [] => ([], Waiting)
  | Err err :: _ => ([], Returned (Err err))
  | Ok Shutdown :: _ => ([], Returned (Ok tt))
  | Ok (Setup _ _ _) :: _ => ([], Returned (Err (report "worker setup sent twice")))
  | Ok (Work path) :: inputs =>
      let response := (process_attr display debug root path env).2 in
      match encode_server (SrvEvent response) with
      | Err err => ([], Returned (Err err))
      | Ok event =>
          match with_context "checking worker memory usage" (ww_max_rss_kb world completed) with
          | Err err => ([event], Returned (Err err))
          | Ok max_rss_kb =>
              if should_restart max_rss_kb max_memory_size
              then ([event; MStatus Restart], Returned (Ok tt))
              else
                let f := reap (ww_running world completed) f in
                let '(f, due) := fork_due (ww_turns world completed) (ww_replaced world)
                                   (N.of_nat (S completed)) max_rss_kb f in
                match due with
                | Err err => ([event; MStatus Ready], Returned (Err err))
                | Ok (Some slot) => ([event; MStatus Ready], BecameChild slot)
                | Ok None =>
                    let '(out, e) := worker_loop (S completed) f inputs in
                    (event :: MStatus Ready :: out, e)
                end
          end
      end
  end.

(** A forked child announces itself on its slot and goes on there, without
    slots of its own. *)
Definition child_loop (completed : nat) (f : Forker) (inputs : list (Result ClientMessage))
  : list ServerMsg * WorkerEnd :=
  let '(out, e) := worker_loop completed f inputs in (MReady :: out, e).
End loop.

(** [run]: the set-up message, the evaluator's state, and the loop. *)
Definition worker_run (debug_message : ClientMessage → string)
    (initialise : WorkerConfig → Result (V * @EvalEnv V * Forker)) (world : WorkerWorld)
    (inputs : list (Result ClientMessage)) : list ServerMsg * WorkerEnd :=
  match inputs with
  | [] => ([], Waiting)
  | Err err :: _ => ([], Returned (Err err))
  | Ok (Setup config _ _) :: inputs =>
      match initialise config with
      | Err err => ([], Returned (Err err))
      | Ok (root, env, f) =>
          let '(out, e) := worker_loop root env (wc_max_memory_size config) world 0 f inputs in
          (MReady :: out, e)
      end
  | Ok other :: _ =>
      ([], Returned (Err (report ("worker expected setup message, got " +:+ debug_message other))))
  end.
End worker.

(** ** The master's end *)

(** What is left of a worker that failed: the status of a process of its own,
    and the tail of its standard error. *)
Record Remains := mkRemains { rm_status : option string; rm_stderr : string }.

Section client.
Context (display : Report → string) (debug_server : ServerMessage → string).
Context (debug_path : list string → string).
Context (json_from_str : string → Result Json) (strings_from_str : string → Result (list string)).
Context (label : string) (remains : Remains).

Abbreviation decode_server := (decode_server json_from_str strings_from_str).

Definition exit_error (phase attr : string) (source : Report) : Report :=
  let stderr := str_trim (rm_stderr remains) in
  let message := "evix worker " +:+ label +:+ " failed while reading " +:+ phase +:+ " for "
                 +:+ attr +:+ ": " +:+ display source in
  let message := match rm_status remains with
                 | Some status => message +:+ " (status: " +:+ status +:+ ")"
                 | None => message
                 end in
  report (if str_is_empty stderr then message
          else message +:+ String newline "worker stderr:" +:+ String newline stderr).

(** The messages from the worker; none left is the end of its output. *)
Definition read_message (phase attr : string) (input : list (Result ServerMsg))
  : Result ServerMessage * list (Result ServerMsg) :=
  match input with
  | [] => (Err (exit_error phase attr (report "premature end of file")), [])
  | message :: input =>
      (map_err (exit_error phase attr) (m ← message; decode_server m), input)
  end.

Definition worker_failed (error : string) : Report :=
  report ("worker " +:+ label +:+ " failed: " +:+ error).

Definition read_ready (input : list (Result ServerMsg)) : Result unit * list (Result ServerMsg) :=
  let '(message, input) := read_message "handshake" "<startup>" input in
  (message ← message;
   match message with
   | SrvReady => Ok tt
   | SrvError error => Err (worker_failed error)
   | other => Err (report ("unexpected worker handshake: " +:+ debug_server other))
   end, input).

Definition read_event (path : list string) (input : list (Result ServerMsg))
  : Result Event * list (Result ServerMsg) :=
  let '(message, input) := read_message "event" (str_join "." path) input in
  (message ← message;
   match message with
   | SrvEvent event => Ok event
   | SrvError error => Err (worker_failed error)
   | other => Err (report ("unexpected worker event for " +:+ debug_path path
                           +:+ ": " +:+ debug_server other))
   end, input).

Definition read_status (attr : string) (input : list (Result ServerMsg))
  : Result WorkerStatus * list (Result ServerMsg) :=
  let '(message, input) := read_message "status" attr input in
  (message ← message;
   match message with
   | SrvStatus status => Ok status
   | SrvError error => Err (worker_failed error)
   | other => Err (report ("unexpected worker status for " +:+ attr
                           +:+ ": " +:+ debug_server other))
   end, input).

(** [WorkerProcess::work], after the request was written *)
Definition work (path : list string) (input : list (Result ServerMsg))
  : Result (Event * WorkerStatus) * list (Result ServerMsg) :=
  let '(event, input) := read_event path input in
  match event with
  | Err err => (Err err, input)
  | Ok event =>
      let '(status, input) := read_status (str_join "." path) input in
      (status ← status; Ok (event, status), input)
  end.

(** A sequence of works on one worker, up to the first that is not [Ready]. *)
Fixpoint works (paths : list (list string)) (input : list (Result ServerMsg))
  : list (Result (Event * WorkerStatus)) :=
  match paths with
  | [] => []
  | path :: paths =>
      let '(r, input) := work path input in
      r :: match r with Ok (_, Ready) => works paths input | _ => [] end
  end.
End client.

(** ** The conversation *)

(** Whatever is due, this process goes on as the parent. *)
Definition stays_parent (world : WorkerWorld) : Prop :=
  ∀ n completed max_rss_kb f, ∃ f',
    fork_due (ww_turns world n) (ww_replaced world) completed max_rss_kb f = (f', Ok None).

(** Without slots no process is forked. *)
Lemma fork_due_no_slots turns replaced completed max_rss_kb f :
  fk_slots f = [] → fork_due turns replaced completed max_rss_kb f = (f, Ok None).
Proof. unfold fork_due. destruct f as [slots forked children kb]. simpl. by intros ->. Qed.

(** When forking always fails or gives a parent, and the system can be asked. *)
Lemma stays_parent_intro world :
  (∀ n k, ft_fork (ww_turns world n k) ≠ ForkedChild
     ∧ ft_threads (ww_turns world n k) = Ok [] ∧ ft_fds (ww_turns world n k) = Ok []) →
  stays_parent world.
Proof.
  intros H n completed kb [slots forked children mem]. unfold fork_due. simpl.
  revert forked children. induction slots as [|slot slots IH]; intros forked children; simpl; [eauto|].
  destruct (is_due _ _ _); [|eauto]. unfold fork_hazard.
  destruct (H n forked) as (Hf & -> & ->). destruct (_ <? _)%N; simpl; [eauto|].
  destruct (ft_fork _); [eauto|apply IH|done].
Qed.

(** The statuses a worker answers with, by the memory it uses. *)
Definition restarts (world : WorkerWorld) (max_memory_size : N) (n : nat) : bool :=
  match ww_max_rss_kb world n with
  | Ok kb => should_restart kb max_memory_size
  | Err _ => false
  end.

(** The answers the master expects: ready until the limit is exceeded. *)
Fixpoint expected_works (outcome : list string → Event) (restarts : nat → bool) (n : nat)
    (paths : list (list string)) : list (Result (Event * WorkerStatus)) :=
  match paths with
  | [] => []
  | path :: paths =>
      if restarts n then [Ok (outcome path, Restart)]
      else Ok (outcome path, Ready) :: expected_works outcome restarts (S n) paths
  end.

Definition expected_end (restarts : nat → bool) (n : nat) (paths : list (list string))
  : WorkerEnd :=
  if existsb restarts (seq n (length paths)) then Returned (Ok tt) else Waiting.

Section conversation.
Context {V P D : Type} `{NixApi V P D}.
Context (display : Report → string) (debug debug_path : string → string).
Context (debug_server : ServerMessage → string) (debug_list : list string → string).
Context (json_to_string : Json → Result string) (json_from_str : string → Result Json).
Context (strings_to_string : list string → Result string).
Context (strings_from_str : string → Result (list string)).
Context (root : V) (env : @EvalEnv V) (max_memory_size : N) (world : WorkerWorld).
Context (label : string) (remains : Remains).

Abbreviation outcome := (outcome_of display debug root env).
Abbreviation works := (works display debug_server debug_list json_from_str strings_from_str
                         label remains).
Abbreviation worker_loop := (worker_loop display debug json_to_string strings_to_string
                               root env max_memory_size world).

Lemma work_answer path event em status rest :
  decode_server json_from_str strings_from_str em = Ok (SrvEvent event) →
  work display debug_server debug_list json_from_str strings_from_str label remains path
    (Ok em :: Ok (MStatus status) :: rest) = (Ok (event, status), rest).
Proof.
  intros Hem. unfold work, read_event, read_status, read_message.
  cbn [mbind result_bind map_err]. rewrite Hem. reflexivity.
Qed.

Lemma conversation_spec n f paths :
  stays_parent world →
  (∀ k, is_err (ww_max_rss_kb world k) = false) →
  (∀ path, path ∈ paths →
     event_wf json_to_string json_from_str strings_to_string strings_from_str (outcome path)) →
  let '(out, e) := worker_loop n f ((λ path, Ok (Work path)) <$> paths) in
  works paths (Ok <$> out) = expected_works outcome (restarts world max_memory_size) n paths
  ∧ e = expected_end (restarts world max_memory_size) n paths.
Proof.
  intros Hparent Hrss. revert n f. induction paths as [|path paths IH]; intros n f Hwf; [done|].
  destruct (server_round_trips json_to_string json_from_str strings_to_string strings_from_str
    (SrvEvent (outcome path)) (Hwf path (list_elem_of_here _ _))) as (em & Henc & Hdec).
  unfold outcome_of in Henc. cbn [fmap list_fmap Worker.worker_loop].
  rewrite Henc. pose proof (Hrss n) as Hn. unfold expected_end. cbn [length seq existsb].
  cbn [expected_works]. unfold restarts at 1 3.
  destruct (ww_max_rss_kb world n) as [kb|]; [|done]. cbn [with_context map_err].
  destruct (should_restart kb max_memory_size).
  - split; [|done]. cbn [fmap list_fmap Worker.works]. by rewrite (work_answer _ _ _ _ _ Hdec).
  - destruct (Hparent n (N.of_nat (S n)) kb (reap (ww_running world n) f)) as [f' ->].
    specialize (IH (S n) f' (λ p Hp, Hwf p (list_elem_of_further _ _ _ Hp))).
    cbn [fmap list_fmap] in IH. destruct (worker_loop _ _ _) as [out e].
    destruct IH as [IH ->]. split; [|done].
    cbn [fmap list_fmap Worker.works]. rewrite (work_answer _ _ _ _ _ Hdec). by f_equal.
Qed.

(** The requests the worker reads are those the master sent. *)
Lemma requests_decoded (paths : list (list string)) :
  (∀ path, path ∈ paths → texts_wf path) →
  (λ path, encode_client debug_path (Work path) ≫= decode_client) <$> paths
  = (λ path, Ok (Work path)) <$> paths.
Proof.
  intros Hwf. apply list_fmap_ext. intros i path Hpath%list_elem_of_lookup_2.
  destruct (client_round_trips debug_path (Work path)) as (m & Hm & Hd); [by apply Hwf|].
  by rewrite Hm.
Qed.

(** C17 (lockstep): master and worker understand each other. The master sends the
    paths one by one, each encoded and decoded by the protocol; the worker, as
    long as it stays the parent of its forks, answers each with exactly two
    messages, which the master reads back as the event of [process_attr] for
    that very path and a status: ready, until an evaluation leaves the memory
    above the limit, which is answered with a restart and ends the process. *)
Theorem worker_conversation f paths :
  stays_parent world →
  (∀ k, is_err (ww_max_rss_kb world k) = false) →
  (∀ path, path ∈ paths → texts_wf path
     ∧ event_wf json_to_string json_from_str strings_to_string strings_from_str (outcome path)) →
  let requests := (λ path, encode_client debug_path (Work path) ≫= decode_client) <$> paths in
  let '(out, e) := worker_loop 0 f requests in
  works paths (Ok <$> out) = expected_works outcome (restarts world max_memory_size) 0 paths
  ∧ e = expected_end (restarts world max_memory_size) 0 paths
  ∧ ∀ path event status, (path, Ok (event, status)) ∈ zip paths (works paths (Ok <$> out)) →
      event_attr_path event = path.
Proof.
  intros Hparent Hrss Hwf requests.
  unfold requests. rewrite requests_decoded by (intros; by apply Hwf).
  pose proof (conversation_spec 0 f paths Hparent Hrss (λ p Hp, proj2 (Hwf p Hp))) as Hspec.
  destruct (worker_loop _ _ _) as [out e]. destruct Hspec as [-> ->]. split_and!; [done|done|].
  clear. generalize 0 as n.
  induction paths as [|p paths IH]; intros n path event status; cbn [expected_works].
  { by intros ?%elem_of_nil. }
  destruct (restarts world max_memory_size n); cbn [zip zip_with];
    intros [Heq|Hin]%elem_of_cons.
  1,3: simplify_eq; apply outcome_path.
  - by apply elem_of_zip_r, elem_of_nil in Hin.
  - by eapply IH.
Qed.
End conversation.

Definition calm_world : WorkerWorld :=
  mkWorkerWorld false (λ n, Ok (if decide (n = 1) then 5000%Z else 10%Z)) (λ _ _, true)
    (λ _ _, mkForkTurn 0 (Ok []) (Ok []) ForkFailed) (Ok tt).

Lemma calm_world_parent : stays_parent calm_world.
Proof. apply stays_parent_intro. intros n k. by split_and!. Qed.

Lemma calm_world_memory k : is_err (ww_max_rss_kb calm_world k) = false.
Proof. unfold ww_max_rss_kb. simpl. by case_decide. Qed.

Lemma tree_requests_wf path :
  path ∈ [[]; ["pkgs"]; []] →
  texts_wf path
  ∧ event_wf print_json parse_string print_strings parse_strings
      (outcome_of quiet_display id tree_root tree_env path).
Proof.
  intros Hpath. assert (path = [] ∨ path = ["pkgs"]) as [-> | ->].
  { repeat (apply elem_of_cons in Hpath as [->|Hpath]; [by auto|]). by apply elem_of_nil in Hpath. }
  all: assert (∀ l : list string, forallb utf8_valid l && (length l <=? 9) = true → texts_wf l)
    as Htexts by (intros l [Hl ?%Nat.leb_le]%andb_true_iff; split;
      [unfold fits, u32_max; lia|by apply Forall_forall, forallb_elem_of]).
  - split; [by apply Htexts|].
    change (outcome_of quiet_display id tree_root tree_env []) with (EvAttrSet "" [] ["pkgs"]).
    by split_and!; [|apply Htexts|apply Htexts].
  - split; [by apply Htexts|].
    change (outcome_of quiet_display id tree_root tree_env ["pkgs"])
      with (EvAttrSet "pkgs" ["pkgs"] ["hello"]).
    by split_and!; [|apply Htexts|apply Htexts].
Qed.

Lemma worker_conversation_witness :
  works quiet_display (λ _, "message") (str_join ".") parse_string parse_strings "local"
    (mkRemains None EmptyString) [[]; ["pkgs"]; []]
    (Ok <$> (worker_loop quiet_display id print_json print_strings tree_root tree_env 1 calm_world
       0 (mkForker [] 0 [] 0)
       ((λ path, encode_client id (Work path) ≫= decode_client) <$> [[]; ["pkgs"]; []])).1)
  = [Ok (EvAttrSet "" [] ["pkgs"], Ready); Ok (EvAttrSet "pkgs" ["pkgs"] ["hello"], Restart)].
Proof.
  pose proof (worker_conversation quiet_display id id (λ _, "message") (str_join ".")
    print_json parse_string print_strings parse_strings tree_root tree_env 1 calm_world "local"
    (mkRemains None EmptyString) (mkForker [] 0 [] 0) [[]; ["pkgs"]; []]
    calm_world_parent calm_world_memory tree_requests_wf) as Hspec. cbv zeta in Hspec.
  destruct (worker_loop _ _ _ _ _ _ _ _ _ _ _) as [out e]. destruct Hspec as [Hworks _].
  cbn [fst]. rewrite Hworks. vm_compute. reflexivity.
Defined.
