(* ===== verification/LocalProcess.v ===== *)
(** * Local worker processes

    [crates/evix/src/worker_process.rs]: starting a worker process with its
    environment and its set-up message, attaching a forked one, and the calls
    that stop, abort or wait for either. The conversation itself is in
    [Worker.v], the settings file and standard error in [WorkerProcess.v]. *)
From S2P Require Import Prelude Types Config Paths Fork Connections WorkerProcess Traversal Eval RemoteProto Worker.

Definition WORKER_ENV : string := "EVIX_WORKER".

(** ** The process and what is done to it *)

(** [Process]: a child of its own, or a child of another worker by its pidfd. *)
Inductive ProcessKind : Type := Spawned | Forked (pidfd : N).

(** [WorkerProcess]: [lp_stderr] is whether the capture task was not awaited yet,
    [lp_input] what can still be read from the worker. *)
Record LocalProcess := mkLocalProcess {
  lp_label : string;
  lp_kind : ProcessKind;
  lp_stderr : bool;
  lp_options : option NixOptionsFile;
  lp_input : list (Result ServerMsg);
}.
#[export] Instance eta_local_process : EtaRecord LocalProcess := λ p,
  mkLocalProcess (lp_label p) (lp_kind p) (lp_stderr p) (lp_options p) (lp_input p).

(** The command a worker is started with: the variables set over the parent's
    environment, and the descriptors that stay open in it. *)
Record Command := mkCommand {
  cm_exe : string;
  cm_env : list (string * string);
  cm_fds : list N;
}.

(** What the master does to the outside, in order. *)
Inductive ProcessEffect : Type :=
  | WriteOptions (path : string)
  | RemoveOptions (path : string)
  | StartChild (command : Command)
  | SendShutdown
  | KillChild
  | WaitChild
  | DrainOutput
  | AwaitStderr.

(** [take_stderr]: the task is awaited by the first that asks for it. *)
Definition take_stderr (p : LocalProcess) : LocalProcess * list ProcessEffect :=
  (p <| lp_stderr := false |>, if lp_stderr p then [AwaitStderr] else []).

(** [wait] *)
Definition wait (p : LocalProcess) : LocalProcess * list ProcessEffect :=
  let '(p', effects) := take_stderr p in
  match lp_kind p with
  | Spawned => (p', WaitChild :: effects)
  | Forked _ => (p' <| lp_input := [] |>, DrainOutput :: effects)
  end.

Definition stop (p : LocalProcess) : LocalProcess * list ProcessEffect :=
  let '(p, effects) := wait p in (p, SendShutdown :: effects).

(** [abort]; [kill_pidfd] and [start_kill] send the same signal. *)
Definition abort (p : LocalProcess) : LocalProcess * list ProcessEffect :=
  let '(p, effects) := wait p in (p, KillChild :: effects).

Definition wait_for_restart (p : LocalProcess) : LocalProcess * list ProcessEffect := wait p.

(** The effects of [exit_error], whose report is in [Worker.v]: the status of a
    forked worker is its parent's. *)
Definition exit_effects (p : LocalProcess) : LocalProcess * list ProcessEffect :=
  let '(p', effects) := take_stderr p in
  match lp_kind p with
  | Spawned => (p', WaitChild :: effects)
  | Forked _ => (p', effects)
  end.

(** [Drop for WorkerProcess], [kill_on_drop], and the drop of the settings file. *)
Definition drop_options (file : option NixOptionsFile) : list ProcessEffect :=
  match file with Some f => [RemoveOptions (no_path f)] | None => [] end.
Definition drop_process (p : LocalProcess) : list ProcessEffect :=
  KillChild :: drop_options (lp_options p).

(** ** Starting a process *)

(** What the system answers while a worker starts: the path of this program, the
    start of the child, the writing of its set-up, what it writes, whether the
    handshake ends in time, or is cut short when it already took the standard
    error, and what remains of a worker that fails. *)
Record SpawnWorld := mkSpawnWorld {
  sw_exe : Result string;
  sw_nix : NixEnv;
  sw_start : Command → Result unit;
  sw_write : Result unit;
  sw_output : Command → ClientMsg → list (Result ServerMsg);
  sw_in_time : bool;
  sw_taken : bool;
  sw_remains : Remains;
}.

Section spawn.
Context (display : Report → string) (debug_server : ServerMessage → string).
Context (debug_path : string → string).
Context (json_from_str : string → Result Json) (strings_from_str : string → Result (list string)).
Context (w : SpawnWorld).

(** The worker's descriptors, without the close-on-exec flag in the child. *)
Definition slot_fds_of (slots : list ForkSlot) : list N := slots ≫= slot_fds.

Definition worker_command (exe : string) (file : option NixOptionsFile) (slots : list ForkSlot)
  : Command :=
  mkCommand exe
    ((WORKER_ENV, "1")
     :: match file with Some f => [("NIX_USER_CONF_FILES", no_conf_files f)] | None => [] end
     ++ match slots with [] => [] | _ => [(FORK_FDS_ENV, env_value slots)] end)
    (slot_fds_of slots).

(** What [prepare_nix_options_env] wrote, even when it fails afterwards. *)
Definition options_effects (options : list (string * string)) : list ProcessEffect :=
  match options with
  | [] => []
  | _ => match _ ← collect_results validate_nix_option options; ne_write (sw_nix w) with
         | Ok _ => [WriteOptions (ne_temp_path (sw_nix w))]
         | Err _ => []
         end
  end.

Definition not_started (seconds : N) : Report :=
  report ("worker did not start within " +:+ show_N seconds +:+ "s").

(** A message that cannot be read is the end of the worker. *)
Definition read_effects (label : string) (remains : Remains) (input : list (Result ServerMsg))
    (p : LocalProcess) : LocalProcess * list ProcessEffect :=
  match (read_message display json_from_str strings_from_str label remains "handshake" "<startup>"
           input).1 with
  | Err _ => exit_effects p
  | Ok _ => (p, [])
  end.

(** The handshake of [spawn_local]: the set-up message and the answer. *)
Definition handshake (label : string) (command : Command) (config : WorkerConfig) (p : LocalProcess)
  : LocalProcess * list ProcessEffect * Result unit :=
  match m ← encode_client debug_path (Setup config None None); _ ← sw_write w; Ok m with
  | Err err =>
      let '(p, effects) := exit_effects p in
      (p, effects, Err (exit_error display label (sw_remains w) "setup" "<startup>" err))
  | Ok m =>
      let '(ready, input) := read_ready display debug_server json_from_str strings_from_str label
                               (sw_remains w) (sw_output w command m) in
      let '(p, effects) := read_effects label (sw_remains w) (sw_output w command m) p in
      (p <| lp_input := input |>, effects, ready)
  end.

(** [WorkerProcess::spawn_local]; on an error the process is dropped. *)
Definition spawn_local (config : WorkerConfig) (label : string) (worker_exe : option string)
    (slots : list ForkSlot) : list ProcessEffect * Result LocalProcess :=
  match match worker_exe with
        | Some path => Ok path
        | None => with_context "resolving current exe" (sw_exe w)
        end with
  | Err err => ([], Err err)
  | Ok exe =>
      let options := options_effects (wc_nix_options config) in
      match prepare_nix_options_env (sw_nix w) (wc_nix_options config) with
      | Err err => (options, Err err)
      | Ok file =>
          let command := worker_command exe file slots in
          match with_context ("spawning worker process for " +:+ label) (sw_start w command) with
          | Err err => (options ++ drop_options file, Err err)
          | Ok _ =>
              let p := mkLocalProcess label Spawned true file [] in
              let effects := options ++ [StartChild command] in
              if sw_in_time w then
                let '(p, done, r) := handshake label command config p in
                match r with
                | Ok _ => (effects ++ done, Ok p)
                | Err err => (effects ++ done ++ drop_process p, Err err)
                end
              else
                let '(p, exited) := exit_effects (p <| lp_stderr := negb (sw_taken w) |>) in
                (effects ++ KillChild :: exited ++ drop_process p,
                 Err (exit_error display label (sw_remains w) "handshake" "<startup>"
                        (not_started (wc_item_timeout_seconds config))))
          end
      end
  end.

(** ** Attaching a forked worker *)

(** [u32::from_le_bytes] and [u32::to_le_bytes] *)
Definition to_le_bytes (n : N) : list N :=
  [n `mod` 256; (n / 256) `mod` 256; (n / 65536) `mod` 256; (n / 16777216) `mod` 256]%N.
Definition from_le_bytes (bytes : list N) : N := foldr (λ b n, b + 256 * n)%N 0%N bytes.

(** [libc::pid_t::try_from]: a positive number of 31 bits *)
Definition read_pid (bytes : list N) : option N :=
  let pid := from_le_bytes bytes in
  if ((pid <=? i32_max) && (0 <? pid))%N then Some pid else None.

(** [pidfd_open], from the answer of the system call. *)
Definition pidfd_open (pid : N) (fd : result IoError Z) : Result N :=
  match fd with
  | Err err =>
      Err (context ("opening a pidfd for forked worker " +:+ show_N pid) (io_report err))
  | Ok fd =>
      ok_or (context "pidfd out of range" (report "out of range integral type conversion attempted"))
        (if (Z.of_N i32_max <? fd)%Z then None else Some (Z.to_N fd))
  end.

(** What arrives on the socket of a slot: four bytes or an error, which may be the
    end of the stream ([gr_eof]), then messages. *)
Record Greeting := mkGreeting {
  gr_nonblocking : Result unit;
  gr_stream : Result unit;
  gr_pid : result IoError (list N);
  gr_eof : bool;
  gr_stderr : Result unit;
  gr_pidfd : N → result IoError Z;
  gr_input : list (Result ServerMsg);
  gr_in_time : bool;
  gr_attached : bool;
}.

(** [attach]; a worker that was never forked closes its end without a byte. *)
Definition attach (label : string) (g : Greeting) (remains : Remains)
  : list ProcessEffect * Result (option LocalProcess) :=
  match _ ← gr_nonblocking g; gr_stream g with
  | Err err => ([], Err err)
  | Ok _ =>
      match gr_pid g with
      | Err err =>
          if gr_eof g then ([], Ok None)
          else ([], Err (context "reading forked worker pid" (io_report err)))
      | Ok bytes =>
          match _ ← ok_or (report "forked worker sent an invalid pid") (read_pid bytes);
                _ ← with_context "reading forked worker stderr" (gr_stderr g);
                pidfd_open (from_le_bytes bytes) (gr_pidfd g (from_le_bytes bytes)) with
          | Err err => ([], Err err)
          | Ok pidfd =>
              let '(ready, input) := read_ready display debug_server json_from_str strings_from_str
                                       label remains (gr_input g) in
              let p := mkLocalProcess label (Forked pidfd) true None input in
              let '(p, effects) := read_effects label remains (gr_input g) p in
              match ready with
              | Ok _ => (effects, Ok (Some p))
              | Err err => (effects ++ drop_process p, Err err)
              end
          end
      end
  end.

(** [WorkerProcess::attach_forked]; an attached process is dropped with the
    attempt. *)
Definition attach_forked (config : WorkerConfig) (label : string) (g : Greeting) (remains : Remains)
  : list ProcessEffect * Result (option LocalProcess) :=
  if gr_in_time g then attach label g remains
  else (if gr_attached g then [KillChild] else [],
        Err (context ("forked worker " +:+ label +:+ " did not start within "
                          +:+ show_N (wc_item_timeout_seconds config) +:+ "s")
                   (report "deadline has elapsed"))).
End spawn.

(** ** Lemmas *)

Lemma le_bytes_pid pid :
  (0 < pid ≤ i32_max)%N → from_le_bytes (to_le_bytes pid) = pid ∧ read_pid (to_le_bytes pid) = Some pid.
Proof.
  intros Hpid. assert (from_le_bytes (to_le_bytes pid) = pid) as Hle.
  { unfold from_le_bytes, to_le_bytes. cbn [foldr]. unfold i32_max in Hpid.
    pose proof (N.div_mod pid 256 ltac:(lia)).
    pose proof (N.div_mod (pid / 256) 256 ltac:(lia)) as H1.
    pose proof (N.div_mod (pid / 65536) 256 ltac:(lia)) as H2.
    rewrite N.Div0.div_div in H1, H2. change (256 * 256)%N with 65536%N in H1.
    change (65536 * 256)%N with 16777216%N in H2.
    rewrite (N.mod_small (pid / 16777216)) by (apply N.Div0.div_lt_upper_bound; lia). lia. }
  split; [done|]. unfold read_pid. rewrite Hle.
  destruct (N.leb_spec pid i32_max); [|lia]. destruct (N.ltb_spec 0 pid); [done|lia].
Qed.

Section start.
Context (display : Report → string) (debug_server : ServerMessage → string).
Context (debug_path : string → string).
Context (json_from_str : string → Result Json).
Context (strings_from_str : string → Result (list string)).

(** The first message of a worker is [Ready], or nothing. *)
Lemma read_ready_worker label remains output :
  read_ready display debug_server json_from_str strings_from_str label remains
    (Ok <$> (MReady :: output)) = (Ok tt, Ok <$> output).
Proof. done. Qed.

Lemma read_ready_nothing label remains :
  read_ready display debug_server json_from_str strings_from_str label remains []
  = (Err (exit_error display label remains "handshake" "<startup>"
            (report "premature end of file")), []).
Proof. done. Qed.

Lemma setup_round_trips config :
  worker_config_wf config →
  ∃ m, encode_client debug_path (Setup config None None) = Ok m
    ∧ decode_client m = Ok (Setup (with_item_timeout config) None None).
Proof.
  intros Hwf. destruct (client_round_trips debug_path (Setup config None None)) as (m & Hm & Hd);
    [done|]. by exists m.
Qed.
End start.

(** How often the standard error of a process is awaited. *)
Definition is_await (e : ProcessEffect) : bool := match e with AwaitStderr => true | _ => false end.
Definition awaits (effects : list ProcessEffect) : nat := length (List.filter is_await effects).

Lemma awaits_app l k : awaits (l ++ k) = awaits l + awaits k.
Proof. unfold awaits. by rewrite List.filter_app, length_app. Qed.

(** The calls on a worker, in any order. *)
Inductive ProcessCall : Type := CallStop | CallAbort | CallWaitForRestart | CallExitError.
Definition call_process (call : ProcessCall) (p : LocalProcess)
  : LocalProcess * list ProcessEffect :=
  match call with
  | CallStop => stop p
  | CallAbort => abort p
  | CallWaitForRestart => wait_for_restart p
  | CallExitError => exit_effects p
  end.
Fixpoint call_all (calls : list ProcessCall) (p : LocalProcess)
  : LocalProcess * list ProcessEffect :=
  match calls with
  | [] => (p, [])
  | call :: calls =>
      let '(p, effects) := call_process call p in
      let '(p, more) := call_all calls p in (p, effects ++ more)
  end.

Lemma call_awaits call p :
  let '(p', effects) := call_process call p in
  awaits effects = (if lp_stderr p then 1 else 0) ∧ lp_stderr p' = false.
Proof. destruct p as [label [|pidfd] [|] options input], call; done. Qed.

(** However a worker is stopped, aborted, awaited or found dead, in any order, the
    capture of its standard error is awaited once at most: awaiting it a second
    time would panic. *)
Lemma stderr_awaited_once calls p :
  awaits (call_all calls p).2 ≤ if lp_stderr p then 1 else 0.
Proof.
  revert p. induction calls as [|call calls IH]; intros p; simpl; [destruct (lp_stderr p); unfold awaits; simpl; lia|].
  pose proof (call_awaits call p) as H. destruct (call_process call p) as [p' effects].
  destruct H as [Hn Hf]. specialize (IH p'). rewrite Hf in IH.
  destruct (call_all calls p') as [p'' more]. simpl in *. rewrite awaits_app. lia.
Qed.

(** What a child finds in its environment. *)
Definition env_get (name : string) (env : list (string * string)) : option string :=
  head (omap (λ kv, if str_eqb kv.1 name then Some kv.2 else None) env).

Lemma worker_command_slots exe file slots :
  env_get FORK_FDS_ENV (cm_env (worker_command exe file slots))
  = match slots with [] => None | _ => Some (env_value slots) end.
Proof. by destruct file, slots. Qed.

(** ** Properties *)


(** A system that starts the worker of [Worker.v] on the tree of [Eval.v]. *)
Definition tree_initialise (config : WorkerConfig) : Result (Tree * @EvalEnv Tree * Forker) :=
  Ok (tree_root, tree_env, mkForker [] 0 [] 0).
Definition tree_inputs : list (Result ClientMessage) := [Ok (Work []); Ok Shutdown].
Definition tree_output (command : Command) (m : ClientMsg) : list (Result ServerMsg) :=
  Ok <$> (worker_run quiet_display id print_json print_strings (λ _, "message") tree_initialise
            calm_world (decode_client m :: tree_inputs)).1.
Definition tree_spawn_world : SpawnWorld :=
  mkSpawnWorld (Ok "/bin/evix") plain_nix_env (λ _, Ok tt) (Ok tt) tree_output true false
    (mkRemains None EmptyString).
Definition tree_config : WorkerConfig :=
  worker_config_from (config_default <| c_input := Expr "{ }" |>).

Lemma tree_config_wf : worker_config_wf tree_config.
Proof.
  split; try done; (split; [|constructor]; unfold fits, u32_max; simpl; lia).
Qed.


(** C31 (attach): a forked worker and the master find each other. The process id the
    child writes first is the one the master opens its descriptor with, for every
    id a process can have, and what follows is the child's conversation, which the
    master goes on to read; a slot whose worker was never forked gives nothing,
    not an error. Whatever is done to a worker later, it is never waited for as a
    child of the master unless the master started it. *)
Theorem forked_worker_attaches {V P D} `{NixApi V P D} display debug debug_server json_to_string
    json_from_str strings_to_string strings_from_str root env max_memory_size world completed f
    inputs config label g remains pid pidfd :
  (0 < pid ≤ i32_max)%N →
  gr_nonblocking g = Ok tt → gr_stream g = Ok tt → gr_stderr g = Ok tt → gr_in_time g = true →
  gr_pidfd g pid = Ok (Z.of_N pidfd) → (pidfd ≤ i32_max)%N →
  let attached := attach_forked display debug_server json_from_str strings_from_str config label
                    g remains in
  (gr_pid g = Ok (to_le_bytes pid) →
   gr_input g = Ok <$> (child_loop (V := V) display debug json_to_string strings_to_string root env
                          max_memory_size world completed f inputs).1 →
   ∃ worker, attached = ([], Ok (Some worker)) ∧ lp_kind worker = Forked pidfd
     ∧ lp_input worker = Ok <$> (worker_loop display debug json_to_string strings_to_string root env
                                   max_memory_size world completed f inputs).1
     ∧ ∀ calls, WaitChild ∉ (call_all calls worker).2)
  ∧ (∀ err, gr_pid g = Err err → gr_eof g = true → attached = ([], Ok None)).
Proof.
  intros Hpid Hnb Hstream Hstderr Htime Hfd Hmax attached. unfold attached, attach_forked, attach.
  assert (pidfd_open pid (gr_pidfd g pid) = Ok pidfd) as Hopen.
  { unfold pidfd_open. rewrite Hfd, (proj2 (Z.ltb_ge _ _)) by lia. cbn [ok_or]. by rewrite N2Z.id. }
  rewrite Htime, Hnb, Hstream. cbn [mbind result_bind]. split.
  - intros Hbytes Hinput. rewrite Hbytes.
    destruct (le_bytes_pid pid Hpid) as [Hle ->]. rewrite Hstderr, Hle.
    cbn [ok_or with_context map_err mbind result_bind]. rewrite Hopen, Hinput. unfold child_loop.
    destruct (worker_loop _ _ _ _ _ _ _ _ _ _ _) as [out e]. cbn [fst].
    unfold read_effects. rewrite read_ready_worker. cbn. eexists. split; [done|].
    split_and!; [done|done|].
    assert (∀ calls p, lp_kind p = Forked pidfd → WaitChild ∉ (call_all calls p).2) as Hcalls;
      [|intros calls; by apply Hcalls].
    intros calls. induction calls as [|call calls IH]; intros p Hp; simpl; [by apply not_elem_of_nil|].
    assert (lp_kind (call_process call p).1 = Forked pidfd ∧ WaitChild ∉ (call_process call p).2)
      as [Hk Hw].
    { destruct p as [l k [|] o i]; simpl in Hp; subst k; destruct call; simpl; (split; [done|]);
        intros Hin; repeat (apply elem_of_cons in Hin as [Hin|Hin]; [done|]); by apply elem_of_nil in Hin. }
    destruct (call_process call p) as [p' effects]. simpl in Hk, Hw. specialize (IH p' Hk).
    destruct (call_all calls p') as [p'' more]. simpl in *. by rewrite not_elem_of_app.
  - intros err Hbytes Heof. by rewrite Hbytes, Heof.
Qed.

Definition tree_greeting : Greeting :=
  mkGreeting (Ok tt) (Ok tt) (Ok (to_le_bytes 4321)) false (Ok tt) (λ _, Ok 9%Z)
    (Ok <$> (child_loop quiet_display id print_json print_strings tree_root tree_env 1 calm_world 5
               (mkForker [] 0 [] 0) tree_inputs).1) true true.

Lemma forked_worker_attaches_witness :
  ∃ worker, attach_forked quiet_display (λ _, "message") parse_string parse_strings tree_config
      "local" tree_greeting (mkRemains None EmptyString) = ([], Ok (Some worker))
    ∧ WaitChild ∉ (call_all [CallAbort; CallStop] worker).2.
Proof.
  destruct (forked_worker_attaches quiet_display id (λ _, "message") print_json parse_string
    print_strings parse_strings tree_root tree_env 1 calm_world 5 (mkForker [] 0 [] 0) tree_inputs
    tree_config "local" tree_greeting (mkRemains None EmptyString) 4321 9) as [Hattach _];
    [split; [reflexivity|vm_compute; discriminate]|reflexivity..|vm_compute; discriminate|].
  destruct (Hattach eq_refl eq_refl) as (worker & Hworker & _ & _ & Hcalls).
  exists worker. split; [exact Hworker|apply Hcalls].
Defined.

Lemma handshake_options display debug_server debug_path json_from_str strings_from_str w label
    command config p :
  lp_options (handshake display debug_server debug_path json_from_str strings_from_str w label
    command config p).1.1 = lp_options p.
Proof.
  unfold handshake. destruct (mbind _ _) as [m|err].
  - destruct (read_ready _ _ _ _ _ _ _) as [ready input]. unfold read_effects, exit_effects.
    destruct (read_message _ _ _ _ _ _ _ _).1; [done|]. simpl. by destruct (lp_kind p).
  - unfold exit_effects. simpl. by destruct (lp_kind p).
Qed.

(** A start that fails leaves no process behind, and no settings file if it got as
    far as the process. *)
Lemma failed_start_cleans_up display debug_server debug_path json_from_str strings_from_str w config
    label worker_exe slots effects err :
  spawn_local display debug_server debug_path json_from_str strings_from_str w config label
    worker_exe slots = (effects, Err err) →
  (∀ command, StartChild command ∈ effects → KillChild ∈ effects)
  ∧ (∀ file, prepare_nix_options_env (sw_nix w) (wc_nix_options config) = Ok (Some file) →
       is_err (match worker_exe with Some path => Ok path | None => sw_exe w end) = false →
       RemoveOptions (no_path file) ∈ effects).
Proof.
  unfold spawn_local. intros Hspawn.
  destruct (match worker_exe with
            | Some path => Ok path
            | None => with_context "resolving current exe" (sw_exe w)
            end) as [exe|e] eqn:Hexe.
  2:{ injection Hspawn as <- <-. split; [by intros c ?%elem_of_nil|].
      intros file _. destruct worker_exe; [done|]. by destruct (sw_exe w). }
  assert (∀ path command, StartChild command ∉ options_effects w path) as Hoptions.
  { intros path command. unfold options_effects. repeat case_match; intros Hin;
      repeat (apply elem_of_cons in Hin as [Hin|Hin]; [done|]); by apply elem_of_nil in Hin. }
  destruct (prepare_nix_options_env _ _) as [file|e] eqn:Hfile.
  2:{ injection Hspawn as <- <-. split; [|done]. intros c Hc. by apply Hoptions in Hc. }
  destruct (with_context _ (sw_start w _)) as [[]|e].
  2:{ injection Hspawn as <- <-. split.
      - intros c [Hc|Hc]%elem_of_app; [by apply Hoptions in Hc|].
        destruct file; [apply elem_of_cons in Hc as [?|?%elem_of_nil]|apply elem_of_nil in Hc]; done.
      - intros f [= ->] _. apply elem_of_app. right. by left. }
  destruct (sw_in_time w).
  - pose proof (handshake_options display debug_server debug_path json_from_str strings_from_str w
      label (worker_command exe file slots) config (mkLocalProcess label Spawned true file [])) as Hp.
    destruct (handshake _ _ _ _ _ _ _ _ _ _) as [[p handshaken] [[]|e]]; [done|].
    injection Hspawn as <- <-. simpl in Hp. unfold drop_process. rewrite Hp. split.
    + intros c _. apply elem_of_app. right. apply elem_of_app. right. by left.
    + intros f [= ->] _. apply elem_of_app. right. apply elem_of_app. right. right. by left.
  - injection Hspawn as <- <-. split.
    + intros c _. apply elem_of_app. right. by left.
    + intros f [= ->] _. apply elem_of_app. right. right. right. apply elem_of_app. right. right. by left.
Qed.

(** When the search path cannot be joined, the settings file was written before
    anything owns it, and stays. *)
Lemma settings_file_left :
  spawn_local (λ _, EmptyString) (λ _, EmptyString) id parse_string parse_strings
    (mkSpawnWorld (Ok "/bin/evix") (mkNixEnv None None None (λ _, false) "/tmp:1/evix.conf" (Ok tt))
       (λ _, Ok tt) (Ok tt) (λ _ _, []) true false (mkRemains None EmptyString))
    (worker_config_from (config_default <| c_nix_options := [("access-tokens", "secret")] |>))
    "local" None []
  = ([WriteOptions "/tmp:1/evix.conf"],
     Err (context "joining NIX_USER_CONF_FILES" (report "path segment contains separator `:`"))).
Proof. vm_compute. reflexivity. Qed.
