(* ===== verification/RemoteWorker.v ===== *)
(** * Remote workers

    [crates/evix/src/remote_worker.rs]: the server that runs a worker for a
    remote master, behind a token and a check of the configuration, and the
    master's end of the connection. *)
From S2P Require Import Prelude Types Config WorkerProcess RemoteProto.

Definition REMOTE_SETUP_TIMEOUT : N := 30.
Definition ALLOWED_REMOTE_NIX_OPTIONS : list string :=
  ["accept-flake-config"; "allow-import-from-derivation"; "allowed-uris";
   "experimental-features"; "extra-experimental-features"; "restrict-eval"].

(** ** Authentication *)

(** [bytes.get(index).copied().unwrap_or(0)] *)
Definition byte_at (bytes : list ascii) (index : nat) : N :=
  default 0%N (N_of_ascii <$> bytes !! index).

(** [token_matches]: every byte of the longer token is compared. *)
Definition token_matches (actual expected : option string) : bool :=
  match expected with
  | None => match actual with None => true | Some _ => false end
  | Some expected =>
      match actual with
      | None => false
      | Some actual =>
          let actual := str_chars actual in
          let expected := str_chars expected in
          let diff := N.lxor (N.of_nat (length actual)) (N.of_nat (length expected)) in
          let diff := foldl (λ diff index,
            N.lor diff (N.lxor (byte_at actual index) (byte_at expected index)))
            diff (seq 0 (Nat.max (length actual) (length expected))) in
          (diff =? 0)%N
      end
  end.

Definition validate_store_dir_against (expected actual : string) : Result unit :=
  if str_eqb actual expected then Ok tt
  else Err (report ("remote worker store dir mismatch: master uses " +:+ expected
                    +:+ ", remote uses " +:+ actual)).

(** ** The server *)

(** What ends an item in flight: the worker's answer or a message of the client. *)
Inductive InflightResult : Type :=
  | InflightWorker (response : Result (Event * WorkerStatus))
  | InflightClient (message : Result ClientMessage).

(** What the server does: worker processes started, aborted, stopped, awaited,
    and replies. *)
Inductive ServeEffect : Type :=
  | SpawnWorker (config : WorkerConfig)
  | AbortWorker
  | StopWorker
  | AwaitRestart
  | Reply (message : ServerMsg).

(** A turn of the loop: the message, and for a [Work] message how its item
    ended and whether a new worker could be started. *)
Record ServeTurn := mkServeTurn {
  st_message : Result ClientMessage;
  st_inflight : InflightResult;
  st_spawn : Result unit;
}.

Section server.
Context (display : Report → string) (debug : string → string).
Context (debug_message : ClientMessage → string).
Context (json_to_string : Json → Result string) (strings_to_string : list string → Result string).
Context (local_store_dir : Result string).

Abbreviation encode_server := (encode_server json_to_string strings_to_string).

(** [serve], up to its loop; connections beyond the limit are dropped there. *)
Definition serve_token (token : option string) : Result unit :=
  match token with
  | Some EmptyString => Err (report "remote worker token must not be empty")
  | _ => Ok tt
  end.

Definition validate_remote_config (config : WorkerConfig) : Result unit :=
  _ ← collect_results (λ option : string * string,
    if existsb (str_eqb option.1) ALLOWED_REMOTE_NIX_OPTIONS then Ok tt
    else Err (report ("remote worker rejected unsupported nix option " +:+ debug option.1)))
    (wc_nix_options config);
  Ok tt.

Definition validate_store_dir (expected : option string) : Result unit :=
  match expected with
  | None => Ok tt
  | Some expected => actual ← local_store_dir; validate_store_dir_against expected actual
  end.

Definition handle_inflight_client_message (message : Result ClientMessage) : Result unit :=
  match message with
  | Ok Shutdown => Ok tt
  | Ok (Work _) =>
      Err (report "remote worker received new work while an attribute was in flight")
  | Ok (Setup _ _ _) => Err (report "remote worker setup sent twice")
  | Err err => Err (context "reading remote worker request during work" err)
  end.

(** [write_server] *)
Definition reply (message : ServerMessage) : Result (list ServeEffect) :=
  m ← encode_server message; Ok [Reply m].

(** The loop of [serve_connection]; [None] while it waits for a message. *)
Fixpoint serve_loop (config : WorkerConfig) (turns : list ServeTurn)
  : list ServeEffect * option (Result unit) :=
  match turns with
  | [] => ([], None)
  | turn :: turns =>
      match st_message turn with
      | Ok (Work path) =>
          match st_inflight turn with
          | InflightClient message =>
              ([AbortWorker], Some (handle_inflight_client_message message))
          | InflightWorker (Err err) =>
              match reply (SrvError (display err)) with
              | Err err => ([], Some (Err err))
              | Ok replies => (replies, Some (Err err))
              end
          | InflightWorker (Ok (event, status)) =>
              match reply (SrvEvent event) with
              | Err err => ([], Some (Err err))
              | Ok replies =>
                  let replies := replies ++ [Reply (MStatus status)] in
                  match status with
                  | Ready =>
                      let '(effects, r) := serve_loop config turns in (replies ++ effects, r)
                  | Restart =>
                      let replies := replies ++ [AwaitRestart; SpawnWorker config] in
                      match st_spawn turn with
                      | Err err => (replies, Some (Err err))
                      | Ok _ =>
                          let '(effects, r) := serve_loop config turns in (replies ++ effects, r)
                      end
                  end
              end
          end
      | Ok Shutdown => ([StopWorker], Some (Ok tt))
      | Ok (Setup _ _ _) => ([], Some (Err (report "remote worker setup sent twice")))
      | Err err => ([AbortWorker], Some (Err (context "reading remote worker request" err)))
      end
  end.

(** [serve_connection]: the first message, or its timeout, and the turns. *)
Definition serve_connection (expected_token : option string) (first : Result ClientMessage)
    (spawn : Result unit) (turns : list ServeTurn)
  : list ServeEffect * option (Result unit) :=
  match first with
  | Err err => ([], Some (Err err))
  | Ok (Setup config token expected_store_dir) =>
      if negb (token_matches token expected_token) then
        match reply (SrvError "remote worker authentication failed") with
        | Err err => ([], Some (Err err))
        | Ok replies => (replies, Some (Err (report "remote worker authentication failed")))
        end
      else match _ ← validate_store_dir expected_store_dir; validate_remote_config config with
      | Err err => ([], Some (Err err))
      | Ok _ =>
          match spawn with
          | Err err => ([SpawnWorker config], Some (Err err))
          | Ok _ =>
              let '(effects, r) := serve_loop config turns in
              (SpawnWorker config :: Reply MReady :: effects, r)
          end
      end
  | Ok other =>
      ([], Some (Err (report ("expected setup as first remote worker message, got "
                              +:+ debug_message other))))
  end.
End server.

(** ** The master's end *)

Record RemoteTimeouts := mkRemoteTimeouts { rt_setup : N; rt_work_response : N }.
Definition timeouts_from_config (config : WorkerConfig) : RemoteTimeouts :=
  mkRemoteTimeouts REMOTE_SETUP_TIMEOUT (wc_item_timeout_seconds config).

Section client.
Context (debug_server : ServerMessage → string).
Context (json_from_str : string → Result Json) (strings_from_str : string → Result (list string)).
Context (label : string).

(** The messages the server sent; a timeout or a broken connection is an error,
    and so is the end of the stream. *)
Definition read_server (note : string) (input : list (Result ServerMsg))
  : Result ServerMessage * list (Result ServerMsg) :=
  match input with
  | [] => (Err (context note (report "premature end of file")), [])
  | message :: input =>
      (with_context note (m ← message; decode_server json_from_str strings_from_str m), input)
  end.

(** [RemoteWorker::work]; [open] says that the stream was not taken by an abort. *)
Definition remote_work (open : bool) (request : Result unit) (input : list (Result ServerMsg))
  : Result Event * list (Result ServerMsg) :=
  if negb open then (Err (report ("remote worker " +:+ label +:+ " is closed")), input)
  else match with_context ("sending work to " +:+ label) request with
  | Err err => (Err err, input)
  | Ok _ =>
      let '(event, input) := read_server ("reading event from " +:+ label) input in
      match event with
      | Err err => (Err err, input)
      | Ok (SrvEvent event) =>
          let '(status, input) := read_server ("reading status from " +:+ label) input in
          (status ← status;
           match status with
           | SrvStatus Ready | SrvStatus Restart => Ok event
           | SrvError error => Err (report ("remote worker " +:+ label +:+ ": " +:+ error))
           | other => Err (report ("remote worker " +:+ label
                +:+ " sent unexpected status response: " +:+ debug_server other))
           end, input)
      | Ok (SrvError error) => (Err (report ("remote worker " +:+ label +:+ ": " +:+ error)), input)
      | Ok other =>
          (Err (report ("remote worker " +:+ label +:+ " sent unexpected event response: "
                        +:+ debug_server other)), input)
      end
  end.

Fixpoint remote_works (paths : list (list string)) (input : list (Result ServerMsg))
  : list (Result Event) :=
  match paths with
  | [] => []
  | _ :: paths =>
      let '(r, input) := remote_work true (Ok tt) input in r :: remote_works paths input
  end.
End client.

(** ** Lemmas *)

Lemma lor_fold_zero (f : nat → N) diff l :
  foldl (λ diff i, N.lor diff (f i)) diff l = 0%N ↔ diff = 0%N ∧ ∀ i, i ∈ l → f i = 0%N.
Proof.
  revert diff. induction l as [|i l IH]; intros diff; simpl.
  - split; [by intros ->; split; [|intros ? ?%elem_of_nil]|by intros [-> _]].
  - rewrite IH, N.lor_eq_0_iff. split.
    + intros [[-> Hi] Hl]. split; [done|]. intros j [->|?]%elem_of_cons; auto.
    + intros [-> Hl]. split_and!; [done|apply Hl; by left|]. intros j Hj. apply Hl. by right.
Qed.

Lemma str_chars_inj s t : str_chars s = str_chars t → s = t.
Proof.
  revert t. induction s as [|c s IH]; intros [|d t]; simpl; try done.
  intros [= -> H]. f_equal. by apply IH.
Qed.

(** The constant-time comparison is equality. *)
Lemma token_matches_eq actual expected : token_matches actual expected = true ↔ actual = expected.
Proof.
  destruct expected as [e|], actual as [a|]; simpl; try done.
  rewrite N.eqb_eq, lor_fold_zero, N.lxor_eq_0_iff. split; [|intros [= ->]].
  - intros [Hlen Hbytes]. f_equal. apply str_chars_inj, list_eq. intros i.
    destruct (decide (i < length (str_chars a))) as [Hi|Hi].
    + specialize (Hbytes i). rewrite elem_of_seq, N.lxor_eq_0_iff in Hbytes.
      unfold byte_at in Hbytes.
      destruct (lookup_lt_is_Some_2 (str_chars a) i Hi) as [x Hx].
      destruct (lookup_lt_is_Some_2 (str_chars e) i) as [y Hy]; [lia|].
      rewrite Hx, Hy in Hbytes |- *. simpl in Hbytes. f_equal.
      rewrite <-(ascii_N_embedding x), <-(ascii_N_embedding y). f_equal. apply Hbytes. lia.
    + rewrite !lookup_ge_None_2 by lia. done.
  - split; [done|]. intros i _. by rewrite N.lxor_nilpotent.
Qed.

Section server_lemmas.
Context (display : Report → string) (debug : string → string).
Context (json_to_string : Json → Result string) (strings_to_string : list string → Result string).

Lemma serve_loop_spawns config turns config' :
  SpawnWorker config' ∈ (serve_loop display json_to_string strings_to_string config turns).1 →
  config' = config.
Proof.
  assert (∀ m effects, reply json_to_string strings_to_string m = Ok effects →
    SpawnWorker config' ∉ effects) as Hreply.
  { unfold reply. intros m effects (em & _ & [= <-])%bind_ok ?%list_elem_of_singleton. done. }
  induction turns as [|turn turns IH]; [by intros ?%elem_of_nil|]. cbn [serve_loop].
  destruct (st_message turn) as [[| |]|]; try by intros ?%elem_of_nil.
  2,3: by intros ?%list_elem_of_singleton.
  destruct (st_inflight turn) as [[[event status]|err]|]; [| |by intros ?%list_elem_of_singleton].
  - destruct (reply _ _ (SrvEvent event)) as [effects|] eqn:Hr; [|by intros ?%elem_of_nil].
    apply Hreply in Hr. revert IH. destruct (serve_loop _ _ _ _ _) as [more r]. intros IH.
    destruct status; [|destruct (st_spawn turn)]; cbn [fst];
      rewrite ?elem_of_app, ?list_elem_of_singleton, ?elem_of_cons, ?elem_of_nil;
      intros Hin; destruct_or? Hin; first [done|by apply IH|congruence].
  - destruct (reply _ _ _) as [effects|] eqn:Hr; [|by intros ?%elem_of_nil].
    apply Hreply in Hr. done.
Qed.
End server_lemmas.

(** Nobody gets a worker on a remote machine by accident. A worker
    process is started only for a set-up whose token is exactly the configured
    one (absent on both sides, or equal byte for byte), whose store directory is
    this machine's if it names one, and whose Nix options are all on the list of
    allowed ones; and only with that set-up's configuration. A wrong token gets
    one error reply and nothing else. *)
Theorem remote_setup_guarded display debug debug_message json_to_string strings_to_string
    local_store_dir expected first spawn turns effects r :
  serve_connection display debug debug_message json_to_string strings_to_string local_store_dir
    expected first spawn turns = (effects, r) →
  (∀ config, SpawnWorker config ∈ effects → ∃ dir,
     first = Ok (Setup config expected dir)
     ∧ (∀ d, dir = Some d → local_store_dir = Ok d)
     ∧ ∀ k v, (k, v) ∈ wc_nix_options config → k ∈ ALLOWED_REMOTE_NIX_OPTIONS)
  ∧ (∀ config token dir, first = Ok (Setup config token dir) → token ≠ expected →
     effects = [Reply (MError "remote worker authentication failed")]
     ∧ r = Some (Err (report "remote worker authentication failed"))).
Proof.
  unfold serve_connection. intros H.
  destruct first as [[config token dir| |]|]; [|by simplify_eq; split; [intros ? ?%elem_of_nil|]..].
  destruct (token_matches token expected) eqn:Htoken; cbn [negb] in H.
  2:{ injection H as <- <-. split.
      - intros c Hc%list_elem_of_singleton. done.
      - done. }
  apply token_matches_eq in Htoken as ->. split; [|by intros ? ? ? [= -> -> ->]].
  destruct (_ ≫= _) as [[]|] eqn:Hvalid; [|simplify_eq; by intros ? ?%elem_of_nil].
  intros config' Hspawn. apply bind_unit_ok in Hvalid as [Hdir Hopts].
  assert (config' = config) as ->.
  { destruct spawn; [|injection H as <- _; apply list_elem_of_singleton in Hspawn; congruence].
    destruct (serve_loop _ _ _ _ _) as [more r'] eqn:Hloop. injection H as <- _.
    apply elem_of_cons in Hspawn as [?|Hspawn]; [congruence|].
    apply elem_of_cons in Hspawn as [?|Hspawn]; [done|].
    eapply serve_loop_spawns. by rewrite Hloop. }
  exists dir. split_and!; [done| |].
  - intros d ->. simpl in Hdir. apply bind_ok in Hdir as (actual & -> & Hd).
    unfold validate_store_dir_against in Hd.
    destruct (str_eqb actual d) eqn:Heq; [|done]. by apply str_eqb_true in Heq as ->.
  - intros k v Hkv. unfold validate_remote_config in Hopts.
    apply bind_ok in Hopts as (us & Hall & _). apply collect_results_ok in Hall.
    apply list_elem_of_lookup in Hkv as [i Hi].
    destruct (Forall2_lookup_l _ _ _ _ _ Hall Hi) as (u & _ & Hu). cbn [fst] in Hu.
    destruct (existsb (str_eqb k) ALLOWED_REMOTE_NIX_OPTIONS) eqn:Hin; [|done].
    apply existsb_elem_of in Hin as (k' & Hk' & Heq). by apply str_eqb_true in Heq as ->.
Qed.

(** ** The conversation *)

Definition replies_of (effects : list ServeEffect) : list ServerMsg :=
  omap (λ e, match e with Reply m => Some m | _ => None end) effects.
Definition spawns_of (effects : list ServeEffect) : list WorkerConfig :=
  omap (λ e, match e with SpawnWorker c => Some c | _ => None end) effects.

(** A turn in which the worker answered, and was started anew if it had to. *)
Definition served (item : list string * Event * WorkerStatus) : ServeTurn :=
  let '(path, event, status) := item in
  mkServeTurn (Ok (Work path)) (InflightWorker (Ok (event, status))) (Ok tt).

(** The last turn: a failure of the worker, or a word of the client in flight. *)
Definition broken (path : list string) (inflight : InflightResult) : ServeTurn :=
  mkServeTurn (Ok (Work path)) inflight (Ok tt).

Section conversation.
Context (display : Report → string) (debug_server : ServerMessage → string).
Context (json_to_string : Json → Result string) (json_from_str : string → Result Json).
Context (strings_to_string : list string → Result string).
Context (strings_from_str : string → Result (list string)).
Context (config : WorkerConfig) (label : string).

Abbreviation serve_loop := (serve_loop display json_to_string strings_to_string config).
Abbreviation remote_works := (remote_works debug_server json_from_str strings_from_str label).
Abbreviation wf := (event_wf json_to_string json_from_str strings_to_string strings_from_str).

Lemma remote_work_answer em event status rest :
  decode_server json_from_str strings_from_str em = Ok (SrvEvent event) →
  remote_work debug_server json_from_str strings_from_str label true (Ok tt)
    (Ok em :: Ok (MStatus status) :: rest) = (Ok event, rest).
Proof.
  intros Hem. unfold remote_work, read_server. cbn [negb with_context map_err mbind result_bind].
  rewrite Hem. by destruct status.
Qed.

Lemma serve_loop_items (items : list (list string * Event * WorkerStatus)) rest :
  Forall (λ item, wf item.1.2) items →
  ∃ effects,
    serve_loop ((served <$> items) ++ rest)
    = (effects ++ (serve_loop rest).1, (serve_loop rest).2)
    ∧ (∀ paths input,
         remote_works (((λ item, item.1.1) <$> items) ++ paths) ((Ok <$> replies_of effects) ++ input)
         = ((λ item, Ok item.1.2) <$> items) ++ remote_works paths input)
    ∧ spawns_of effects
      = omap (λ item, if decide (item.2 = Restart) then Some config else None) items.
Proof.
  induction 1 as [|[[path event] status] items Hwf _ (effects & Hloop & Hworks & Hspawns)].
  { exists []. split_and!; [apply surjective_pairing|done|done]. }
  cbn [fst snd] in Hwf.
  destruct (server_round_trips json_to_string json_from_str strings_to_string strings_from_str
    (SrvEvent event) Hwf) as (em & Henc & Hdec).
  assert (reply json_to_string strings_to_string (SrvEvent event) = Ok [Reply em]) as Hreply.
  { unfold reply. by rewrite Henc. }
  exists (match status with
          | Ready => [Reply em; Reply (MStatus Ready)]
          | Restart => [Reply em; Reply (MStatus Restart); AwaitRestart; SpawnWorker config]
          end ++ effects).
  split_and!.
  - cbn [fmap list_fmap app RemoteWorker.serve_loop served st_message st_inflight st_spawn].
    rewrite Hreply, Hloop. by destruct status.
  - intros paths input. destruct status; cbn -[remote_work];
      by rewrite (remote_work_answer _ _ _ _ Hdec), <-Hworks.
  - destruct status; cbn -[omap]; unfold spawns_of in *; simpl; fold_lists; by rewrite Hspawns.
Qed.

End conversation.

Definition plain_config : WorkerConfig := worker_config_from config_default.
Definition quiet_display (err : Report) : string := "error".

Lemma remote_setup_guarded_witness :
  serve_connection quiet_display id (λ _, "message") print_json print_strings (Ok "/nix/store")
    (Some "secret") (Ok (Setup plain_config (Some "guess") None)) (Ok tt) []
  = ([Reply (MError "remote worker authentication failed")],
     Some (Err (report "remote worker authentication failed"))).
Proof.
  destruct (serve_connection quiet_display id (λ _, "message") print_json print_strings
    (Ok "/nix/store") (Some "secret") (Ok (Setup plain_config (Some "guess") None)) (Ok tt) [])
    as [effects r] eqn:He.
  destruct (remote_setup_guarded _ _ _ _ _ _ _ _ _ _ _ _ He) as [_ H].
  destruct (H plain_config (Some "guess") None eq_refl ltac:(discriminate)) as [-> ->].
  reflexivity.
Defined.

Definition served_item : list string * Event * WorkerStatus :=
  (["a"], EvAttrSet "a" ["a"] [], Restart).

Lemma served_item_wf :
  Forall (λ item, event_wf print_json parse_string print_strings parse_strings item.1.2)
    [served_item].
Proof.
  apply Forall_singleton. simpl. unfold texts_wf, fits, u32_max. simpl.
  split_and!; [done|lia|by apply Forall_singleton|lia|by apply Forall_nil].
Qed.

