(* ===== verification/RemoteStart.v ===== *)
(** * The start of a remote worker

    [crates/evix/src/remote_worker.rs]: the server's accept loop, the master's
    connection with its handshake, and the two ends put together. *)
From S2P Require Import Prelude Types Config WorkerProcess RemoteProto RemoteWorker.

(** ** The server's accept loop *)

Definition MAX_REMOTE_CONNECTIONS : N := 64.

(** One turn of the loop of [serve]: a connection or an error of [accept], and
    how many of the served connections have ended before. *)
Record AcceptTurn := mkAcceptTurn {
  at_ended : N;
  at_accepted : Result nat;
}.

(** The clients that are served and the clients that are dropped, in order, and
    the error that ended the loop. [active] counts the permits of the semaphore
    in use; socket options that cannot be set are only logged. *)
Fixpoint accept_loop (active : N) (turns : list AcceptTurn)
  : list nat * list nat * option Report :=
  match turns with
  | [] => ([], [], None)
  | turn :: turns =>
      let active := (active - at_ended turn)%N in
      match at_accepted turn with
      | Err err => ([], [], Some err)
      | Ok client =>
          if (active <? MAX_REMOTE_CONNECTIONS)%N then
            let '(served, dropped, e) := accept_loop (active + 1) turns in
            (client :: served, dropped, e)
          else
            let '(served, dropped, e) := accept_loop active turns in
            (served, client :: dropped, e)
      end
  end.

(** [serve]; [bound] is the outcome of binding the listener. *)
Definition serve (addr : string) (token : option string) (bound : Result unit)
    (turns : list AcceptTurn) : list nat * list nat * option Report :=
  match _ ← serve_token token;
        with_context ("binding evix worker listener at " +:+ addr) bound with
  | Err err => ([], [], Some err)
  | Ok _ => accept_loop 0 turns
  end.

(** ** The master's connection *)

(** [read_client_timeout] and [read_server_timeout] *)
Definition timed {A} (in_time : bool) (what : string) (r : Result A) : Result A :=
  if in_time then r
  else Err (context ("timed out reading remote worker " +:+ what) (report "deadline has elapsed")).

(** [RemoteWorker]: its stream, while it was not taken by [abort]. *)
Record RemoteWorker := mkRemoteWorker {
  rw_label : string;
  rw_open : bool;
  rw_timeouts : RemoteTimeouts;
  rw_input : list (Result ServerMsg);
}.

(** [set_tcp_keepalive], from the answer of [setsockopt]. *)
Definition set_tcp_keepalive (answer : result IoError unit) : Result unit :=
  match answer with
  | Err err => Err (context "setsockopt(SO_KEEPALIVE)" (io_report err))
  | Ok _ => Ok tt
  end.

(** What the network does: the connection, its socket options, the set-up message
    written, and what arrives, given that message. *)
Record Network := mkNetwork {
  nw_connect : string → Result unit;
  nw_nodelay : Result unit;
  nw_keepalive : result IoError unit;
  nw_write : Result unit;
  nw_in_time : bool;
  nw_input : ClientMsg → list (Result ServerMsg);
}.

Section connect.
Context (debug_server : ServerMessage → string) (debug_path : string → string).
Context (json_from_str : string → Result Json) (strings_from_str : string → Result (list string)).
Context (local_store_dir : Result string).

(** [RemoteWorker::connect_with_store_dir] *)
Definition connect_with_store_dir (net : Network) (endpoint : string) (token : option string)
    (config : WorkerConfig) (label expected_store_dir : string) : Result RemoteWorker :=
  _ ← with_context ("connecting remote worker " +:+ label +:+ " at " +:+ endpoint)
        (nw_connect net endpoint);
  _ ← with_context ("setting TCP_NODELAY on connection to " +:+ label) (nw_nodelay net);
  _ ← with_context ("enabling TCP keepalive on connection to " +:+ label) (set_tcp_keepalive (nw_keepalive net));
  m ← with_context ("sending setup to remote worker " +:+ label)
        (m ← encode_client debug_path (Setup config token (Some expected_store_dir));
         _ ← nw_write net; Ok m);
  let note := "reading handshake from remote worker " +:+ label in
  let '(ready, input) := read_server json_from_str strings_from_str note (nw_input net m) in
  ready ← if nw_in_time net then ready else with_context note (timed false "response" ready);
  _ ← expect_ready debug_server ready label;
  Ok (mkRemoteWorker label true (timeouts_from_config config) input).

(** [RemoteWorker::connect] *)
Definition connect (net : Network) (endpoint : string) (token : option string)
    (config : WorkerConfig) (label : string) : Result RemoteWorker :=
  dir ← local_store_dir;
  connect_with_store_dir net endpoint token config label dir.

(** [RemoteWorker::stop] sends a shutdown over an open stream; [abort] closes it. *)
Definition remote_stop (r : RemoteWorker) : list ClientMessage :=
  if rw_open r then [Shutdown] else [].
Definition remote_abort (r : RemoteWorker) : RemoteWorker :=
  mkRemoteWorker (rw_label r) false (rw_timeouts r) (rw_input r).
End connect.

(** ** Lemmas: the accept loop *)

(** The most that are served at a time, from a number in use. *)
Fixpoint most_active (active : N) (turns : list AcceptTurn) : N :=
  match turns with
  | [] => active
  | turn :: turns =>
      let active' := (active - at_ended turn)%N in
      N.max active
        (match at_accepted turn with
         | Err _ => active'
         | Ok _ => most_active (if active' <? MAX_REMOTE_CONNECTIONS then active' + 1 else active')%N turns
         end)
  end.

(** Never more connections than permits, and no client is lost: each accepted
    one is served or dropped. *)
Lemma accept_loop_bounded active turns :
  (active ≤ MAX_REMOTE_CONNECTIONS)%N →
  (most_active active turns ≤ MAX_REMOTE_CONNECTIONS)%N
  ∧ let '(served, dropped, e) := accept_loop active turns in
    e = None → served ++ dropped ≡ₚ omap (λ turn, ok (at_accepted turn)) turns.
Proof.
  revert active. induction turns as [|turn turns IH]; intros active Hle; cbn [accept_loop most_active]; [done|].
  destruct (at_accepted turn) as [client|err] eqn:Hturn; [|split; [lia|done]].
  destruct (N.ltb_spec (active - at_ended turn) MAX_REMOTE_CONNECTIONS) as [Hlt|Hge].
  - destruct (IH (active - at_ended turn + 1)%N ltac:(lia)) as [Hmax Hall].
    destruct (accept_loop _ turns) as [[served dropped] e]. split; [lia|].
    intros He. cbn [omap list_omap]. rewrite Hturn. simpl. by rewrite Hall.
  - destruct (IH (active - at_ended turn)%N ltac:(lia)) as [Hmax Hall].
    destruct (accept_loop _ turns) as [[served dropped] e]. split; [lia|].
    intros He. cbn [omap list_omap]. rewrite Hturn. simpl. rewrite <-Permutation_middle. by rewrite Hall.
Qed.

(** ** Both ends *)

(** Whether the server accepts a set-up. *)
Definition admits (local_store_dir : Result string) (expected token : option string)
    (config : WorkerConfig) (dir : string) : bool :=
  bool_decide (token = expected)
  && match local_store_dir with Ok d => str_eqb d dir | Err _ => false end
  && forallb (λ option : string * string,
       existsb (str_eqb option.1) ALLOWED_REMOTE_NIX_OPTIONS) (wc_nix_options config).

Lemma validate_remote_config_ok debug config :
  is_ok (validate_remote_config debug config)
  = forallb (λ option : string * string,
      existsb (str_eqb option.1) ALLOWED_REMOTE_NIX_OPTIONS) (wc_nix_options config).
Proof.
  unfold validate_remote_config. induction (wc_nix_options config) as [|[k v] options IH]; [done|].
  cbn [collect_results forallb fst]. destruct (existsb _ _); cbn [andb]; [|done].
  rewrite <-IH. by destruct (collect_results _ options).
Qed.

Lemma validate_store_dir_ok local_store_dir dir :
  is_ok (validate_store_dir local_store_dir (Some dir))
  = match local_store_dir with Ok d => str_eqb d dir | Err _ => false end.
Proof.
  destruct local_store_dir as [d|err]; [|done]. simpl. unfold validate_store_dir_against.
  by destruct (str_eqb d dir).
Qed.

(** What the server does with a set-up. *)
Lemma serve_connection_setup display debug debug_message json_to_string strings_to_string
    local_store_dir expected token config dir spawn turns :
  let '(effects, r) := serve_connection display debug debug_message json_to_string
    strings_to_string local_store_dir expected (Ok (Setup config token (Some dir))) spawn turns in
  if admits local_store_dir expected token config dir then
    match spawn with
    | Ok _ =>
        let '(more, r') := serve_loop display json_to_string strings_to_string config turns in
        effects = SpawnWorker config :: Reply MReady :: more ∧ r = r'
    | Err err => effects = [SpawnWorker config] ∧ r = Some (Err err)
    end
  else (effects = [] ∨ ∃ message, effects = [Reply (MError message)] ∧ text_wf message)
       ∧ ∃ err, r = Some (Err err).
Proof.
  unfold serve_connection, admits.
  destruct (token_matches token expected) eqn:Htoken; cbn [negb].
  - apply token_matches_eq in Htoken as ->. rewrite bool_decide_true by done. cbn [andb].
    rewrite <-(validate_store_dir_ok local_store_dir dir), <-(validate_remote_config_ok debug config).
    destruct (validate_store_dir local_store_dir (Some dir)) as [[]|err];
      cbn [is_ok andb mbind result_bind]; [|by split; [left|by eexists]].
    destruct (validate_remote_config debug config) as [[]|err];
      cbn [is_ok]; [|by split; [left|by eexists]].
    destruct spawn; [|done]. by destruct (serve_loop _ _ _ _ _).
  - rewrite bool_decide_false by (by rewrite <-token_matches_eq, Htoken). cbn [andb].
    split; [right; by eexists|by eexists].
Qed.

(** C32 (remotestart): a master and a server agree on whether a connection serves.
    Where the network delivers what either side sends and in time, the master
    gets a worker exactly if the server admits its set-up (the server's token,
    the server's own store directory, allowed Nix options only) and can start a
    worker process; that process has the master's configuration, and what the
    master reads from there on are the replies of the server's loop. In every
    other case the master gets an error, and no process is started for a set-up
    that is not admitted. *)
Theorem remote_connection_agreed display debug debug_message debug_server debug_path
    json_to_string json_from_str strings_to_string strings_from_str
    remote_store_dir expected spawn turns net endpoint token config label dir :
  client_wf (Setup config token (Some dir)) →
  nw_connect net endpoint = Ok tt → nw_nodelay net = Ok tt → nw_keepalive net = Ok tt →
  nw_write net = Ok tt → nw_in_time net = true →
  let serving m := serve_connection display debug debug_message json_to_string strings_to_string
    remote_store_dir expected (decode_client m) spawn turns in
  (∀ m, nw_input net m = Ok <$> replies_of (serving m).1) →
  ∃ m, encode_client debug_path (Setup config token (Some dir)) = Ok m ∧
  let config' := with_item_timeout config in
  let loop := serve_loop display json_to_string strings_to_string config' turns in
  let connected := connect debug_server debug_path json_from_str strings_from_str (Ok dir)
    net endpoint token config label in
  if admits remote_store_dir expected token config dir && is_ok spawn then
    serving m = (SpawnWorker config' :: Reply MReady :: loop.1, loop.2)
    ∧ connected = Ok (mkRemoteWorker label true (timeouts_from_config config)
                        (Ok <$> replies_of loop.1))
  else is_err connected = true ∧ is_err (default (Ok tt) (serving m).2) = true
       ∧ (admits remote_store_dir expected token config dir = false → spawns_of (serving m).1 = []).
Proof.
  intros Hwf Hconnect Hnodelay Hkeepalive Hwrite Htime serving Hinput.
  destruct (client_round_trips debug_path _ Hwf) as (m & Henc & Hdec).
  exists m. split; [done|]. cbn zeta.
  assert (serving m = serve_connection display debug debug_message json_to_string
    strings_to_string remote_store_dir expected
    (Ok (Setup (with_item_timeout config) token (Some dir))) spawn turns) as Hserving.
  { subst serving. cbn beta. by rewrite Hdec. }
  assert (admits remote_store_dir expected token (with_item_timeout config) dir
          = admits remote_store_dir expected token config dir) as Hadmits.
  { unfold admits, with_item_timeout. by destruct (_ =? _)%N. }
  pose proof (serve_connection_setup display debug debug_message json_to_string
    strings_to_string remote_store_dir expected token (with_item_timeout config) dir spawn turns)
    as Hsetup.
  rewrite <-Hserving, Hadmits in Hsetup. specialize (Hinput m). clearbody serving.
  unfold connect, connect_with_store_dir.
  cbn [mbind result_bind]. rewrite Hconnect, Hnodelay, Hkeepalive, Henc.
  cbn [mbind result_bind with_context map_err]. rewrite Hwrite.
  cbn [mbind result_bind with_context map_err]. rewrite Hinput, Htime.
  destruct (serving m) as [effects r]. cbn [fst snd].
  destruct (admits _ _ _ config _); cbn [andb].
  - destruct spawn as [[]|err]; cbn [is_ok].
    + destruct (serve_loop _ _ _ _ _) as [more r']. destruct Hsetup as [-> ->]. done.
    + destruct Hsetup as [-> ->]. done.
  - destruct Hsetup as [[->|(message & -> & Htext)] [err ->]]; [done|].
    cbn. by rewrite (read_text_ok _ Htext).
Qed.

(** A network that connects and delivers at once, with a server behind it. *)
Definition local_network (serving : ClientMsg → list ServeEffect * option (Result unit))
  : Network :=
  mkNetwork (λ _, Ok tt) (Ok tt) (Ok tt) (Ok tt) true (λ m, Ok <$> replies_of (serving m).1).

Definition secret_server (m : ClientMsg) : list ServeEffect * option (Result unit) :=
  serve_connection quiet_display id (λ _, "message") print_json print_strings (Ok "/nix/store")
    (Some "secret") (decode_client m) (Ok tt) [served served_item].

Lemma secret_setup_wf : client_wf (Setup plain_config (Some "secret") (Some "/nix/store")).
Proof.
  simpl. split_and!; [|by intros ? [= <-]..].
  split; try done; try (split; [done|by apply Forall_nil]).
Qed.

Lemma remote_connection_agreed_witness :
  rw_input <$> connect (λ _, "message") id parse_string parse_strings (Ok "/nix/store")
    (local_network secret_server) "builder:1" (Some "secret") plain_config "builder"
  = Ok (Ok <$> replies_of (serve_loop quiet_display print_json print_strings plain_config
                             [served served_item]).1).
Proof.
  destruct (remote_connection_agreed quiet_display id (λ _, "message") (λ _, "message") id
    print_json parse_string print_strings parse_strings (Ok "/nix/store") (Some "secret") (Ok tt)
    [served served_item] (local_network secret_server) "builder:1" (Some "secret") plain_config
    "builder" "/nix/store" secret_setup_wf eq_refl eq_refl eq_refl eq_refl eq_refl
    (λ m, eq_refl)) as (m & _ & _ & H).
  exact (f_equal (fmap rw_input) H).
Defined.
