(* ===== verification/JsonWire.v ===== *)
(** * The JSON of events

    [crates/evix/src/json.rs]: the flat JSON objects the program prints for
    derivations, attribute sets, errors and diffs, and reading events back. *)
From S2P Require Import Prelude Types.

(** [json!] on the values the objects hold *)
Definition json_opt_string (o : option string) : Json :=
  match o with Some s => JString s | None => JNull end.

(** ** Printing *)

Definition outputs_value (outputs : gmap string (option string)) : Json :=
  JObject (foldl (λ m kv, jmap_insert kv.1 (json_opt_string kv.2) m) [] (btree_iter outputs)).

Definition input_drvs_value (input_drvs : gmap string (list string)) : Json :=
  JObject (foldl (λ m kv, jmap_insert kv.1 (json_strings kv.2) m) [] (btree_iter input_drvs)).

(** [if let Some(..)] around an insertion *)
Definition insert_some {A} (key : string) (f : A → Json) (o : option A)
    (m : list (string * Json)) : list (string * Json) :=
  match o with Some a => jmap_insert key (f a) m | None => m end.

Definition derivation_value (d : Derivation) : Json :=
  let obj := jmap_of
    [("attr", JString (d_attr d)); ("attrPath", json_strings (d_attr_path d));
     ("name", JString (d_name d)); ("system", JString (d_system d));
     ("drvPath", JString (d_drv_path d)); ("outputs", outputs_value (d_outputs d))] in
  let obj := insert_some "meta" id (d_meta d) obj in
  let obj := if bool_decide (d_input_drvs d = ∅) then obj
             else jmap_insert "inputDrvs" (input_drvs_value (d_input_drvs d)) obj in
  let obj := insert_some "constituents" json_strings (d_constituents d) obj in
  let obj := insert_some "gcRootError" JString (d_gc_root_error d) obj in
  JObject obj.

Definition event_value (event : Event) : Json :=
  match event with
  | EvDerivation d => derivation_value d
  | EvAttrSet attr attr_path attrs =>
      JObject (jmap_of [("attr", JString attr); ("attrPath", json_strings attr_path);
                        ("attrs", json_strings attrs)])
  | EvError e =>
      JObject (jmap_of [("attr", JString (e_attr e)); ("attrPath", json_strings (e_attr_path e));
                        ("error", JString (e_error e)); ("fatal", JBool (e_fatal e))])
  end.

(** [serde]'s own form of an [EvalError], which keeps the names of its fields *)
Definition eval_error_value (e : EvalError) : Json :=
  JObject (jmap_of [("attr", JString (e_attr e)); ("attr_path", json_strings (e_attr_path e));
                    ("error", JString (e_error e)); ("fatal", JBool (e_fatal e))]).

Definition diff_value (diff : Diff) : Json :=
  JObject (jmap_of [("added", JArray (derivation_value <$> added diff));
                    ("removed", JArray (derivation_value <$> removed diff));
                    ("errors", JArray (eval_error_value <$> diff_errors diff))]).

(** ** Reading *)

Section parse.
(** [Debug] of a field's name. *)
Context (debug : string → string).

(** [serde_json::from_value::<Vec<String>>] *)
Definition strings_from_value (value : Json) : Result (list string) :=
  ok_or (report "invalid type: expected a sequence of strings") (json_to_strings value).

Definition string_field (value : Json) (name : string) : Result string :=
  ok_or (report ("missing string field " +:+ debug name)) (json_get name value ≫= as_str).

Definition string_vec_field (value : Json) (name : string) : Result (list string) :=
  match json_get name value with
  | Some field => with_context ("parsing field " +:+ debug name) (strings_from_value field)
  | None => Err (report ("missing string list field " +:+ debug name))
  end.

Definition parse_outputs (value : Json) : gmap string (option string) :=
  match json_get "outputs" value ≫= as_object with
  | Some outputs =>
      collect_map ((λ kv, (kv.1, if is_null kv.2 then None else as_str kv.2)) <$> outputs)
  | None => ∅
  end.

Definition parse_input_drvs (value : Json) : Result (gmap string (list string)) :=
  match json_get "inputDrvs" value ≫= as_object with
  | Some drvs =>
      entries ← with_context "parsing inputDrvs" (collect_results (λ kv : string * Json,
        outputs ← strings_from_value kv.2; Ok (kv.1, outputs)) drvs);
      Ok (collect_map entries)
  | None => Ok ∅
  end.

Definition parse_constituents (value : Json) : Result (option (list string)) :=
  match json_get "constituents" value with
  | Some field => Some <$> with_context "parsing constituents" (strings_from_value field)
  | None => Ok None
  end.

Definition parse_derivation (value : Json) : Result Derivation :=
  let outputs := parse_outputs value in
  input_drvs ← parse_input_drvs value;
  constituents ← parse_constituents value;
  attr ← string_field value "attr";
  attr_path ← string_vec_field value "attrPath";
  name ← string_field value "name";
  system ← string_field value "system";
  drv_path ← string_field value "drvPath";
  Ok (mkDerivation attr attr_path name system drv_path outputs (json_get "meta" value)
        input_drvs constituents (json_get "gcRootError" value ≫= as_str)).

Definition parse_event_value (value : Json) : Result Event :=
  match json_get "drvPath" value with
  | Some _ => EvDerivation <$> parse_derivation value
  | None =>
      match json_get "error" value with
      | Some _ =>
          attr ← string_field value "attr";
          attr_path ← string_vec_field value "attrPath";
          error ← string_field value "error";
          Ok (EvError (mkEvalError attr attr_path error
                (default false (json_get "fatal" value ≫= as_bool))))
      | None =>
          attr ← string_field value "attr";
          attr_path ← string_vec_field value "attrPath";
          let attrs := match string_vec_field value "attrs" with Ok l => l | Err _ => [] end in
          Ok (EvAttrSet attr attr_path attrs)
      end
  end.

(** [event_line] and [parse_event_line], over the text of a value *)
Context (to_string : Json → string) (from_str : string → Result Json).
Definition event_line (event : Event) : string := to_string (event_value event).
Definition diff_line (diff : Diff) : string := to_string (diff_value diff).
Definition parse_event_line (line : string) : Result Event :=
  value ← with_context "parsing event line" (from_str line); parse_event_value value.
End parse.

(** ** Lemmas: objects as maps *)

Definition entry_lt (a b : string * Json) : Prop := String.le a.1 b.1 ∧ a.1 ≠ b.1.

(** The entries of a map are by ascending key, without duplicates. *)
Definition jmap_wf (m : list (string * Json)) : Prop := StronglySorted entry_lt m.

Lemma jmap_insert_wf k v m : jmap_wf m → jmap_wf (jmap_insert k v m).
Proof.
  unfold jmap_wf. induction 1 as [|[k' v'] m Hm IH Hall]; simpl; [by repeat constructor|].
  rewrite Forall_forall in Hall. repeat case_decide.
  - subst. constructor; [done|]. apply Forall_forall. intros kv Hkv. by apply Hall.
  - constructor; [by constructor; [|apply Forall_forall]|].
    constructor; [done|]. apply Forall_forall. intros kv Hkv.
    destruct (Hall kv Hkv) as [Hle Hne]. simpl in *. split; simpl.
    + by etrans.
    + intros ->. apply Hne. by apply (anti_symm String.le).
  - constructor; [done|]. apply Forall_forall. intros kv [->|Hkv]%jmap_insert_elem; [|by apply Hall].
    split; simpl; [|done]. by destruct (total String.le k k').
Qed.

Lemma jmap_wf_nodup m : jmap_wf m → NoDup m.*1.
Proof.
  unfold jmap_wf. induction 1 as [|kv m _ IH Hall]; simpl; [constructor|].
  constructor; [|done]. intros (kv' & Heq & Hkv')%list_elem_of_fmap.
  rewrite Forall_forall in Hall. by destruct (Hall kv' Hkv').
Qed.

Section collect.
Context {A : Type} (f : A → Json).

(** Entries inserted in turn: the object as a map, and its order. *)
Lemma jmap_fold_spec (l : list (string * A)) :
  NoDup l.*1 →
  jmap_wf (foldl (λ m kv, jmap_insert kv.1 (f kv.2) m) [] l)
  ∧ ∀ k, jmap_get k (foldl (λ m kv, jmap_insert kv.1 (f kv.2) m) [] l)
         = f <$> (list_to_map l : gmap string A) !! k.
Proof.
  induction l as [|[k v] l IH] using rev_ind; intros Hnd.
  { split; [constructor|]. intros k. simpl. by rewrite lookup_empty. }
  assert (l ++ [(k, v)] ≡ₚ (k, v) :: l) as Hperm by solve_Permutation.
  rewrite (list_to_map_proper _ _ Hnd Hperm). rewrite Hperm in Hnd.
  apply NoDup_cons in Hnd as [_ Hnd]. destruct (IH Hnd) as [Hwf Hget]. rewrite foldl_app. simpl.
  split; [by apply jmap_insert_wf|]. intros k'. rewrite jmap_get_insert. case_decide as Hk.
  - subst. by rewrite lookup_insert_eq.
  - by rewrite lookup_insert_ne, Hget.
Qed.

Lemma jmap_get_elem k v m : jmap_wf m → (k, v) ∈ m ↔ jmap_get k m = Some v.
Proof.
  intros Hwf%jmap_wf_nodup. induction m as [|[k' v'] m IH]; simpl.
  { split; [by intros ?%elem_of_nil|done]. }
  apply NoDup_cons in Hwf as [Hk Hnd]. rewrite elem_of_cons, (IH Hnd). case_decide as Heq.
  - subst. split; [|by intros [= ->]; left]. intros [[= ->]|Hin]; [done|].
    exfalso. apply Hk. simpl. rewrite <-IH in Hin by done. by apply (list_elem_of_fmap_2 fst _ (k', v)).
  - split; [|by right]. by intros [[= -> ->]|?].
Qed.

(** Reading the entries of a written map back. *)
Lemma collect_jmap_fold (g : Json → A) (m : gmap string A) :
  (∀ a, g (f a) = a) →
  collect_map ((λ kv, (kv.1, g kv.2)) <$>
    foldl (λ m kv, jmap_insert kv.1 (f kv.2) m) [] (btree_iter m)) = m.
Proof.
  intros Hgf. assert (NoDup (btree_iter m).*1) as Hnd.
  { rewrite btree_iter_permutation. apply NoDup_fst_map_to_list. }
  destruct (jmap_fold_spec _ Hnd) as [Hwf Hget].
  rewrite <-(collect_map_list _ Hnd), collect_map_btree in Hget.
  set (entries := foldl _ _ _) in *. pose proof (jmap_wf_nodup _ Hwf) as Hkeys.
  assert (NoDup ((λ kv : string * Json, (kv.1, g kv.2)) <$> entries).*1) as Hnd'.
  { by rewrite <-list_fmap_compose. }
  rewrite collect_map_list by done. apply map_eq. intros k. apply option_eq. intros v.
  rewrite <-elem_of_list_to_map by done. rewrite list_elem_of_fmap. split.
  - intros ([k' j] & [= -> ->] & Hin). apply jmap_get_elem in Hin; [|done].
    rewrite Hget in Hin. apply fmap_Some in Hin as (a & Ha & ->). by rewrite Hgf.
  - intros Hv. exists (k, f v). split; [simpl; by rewrite Hgf|]. apply jmap_get_elem; [done|].
    by rewrite Hget, Hv.
Qed.
End collect.

Lemma jmap_get_insert_some {A} k key (f : A → Json) o m :
  jmap_get k (insert_some key f o m)
  = if decide (k = key) then match o with Some a => Some (f a) | None => jmap_get k m end
    else jmap_get k m.
Proof.
  destruct o as [a|]; simpl; [apply jmap_get_insert|]. by case_decide.
Qed.

Lemma jmap_get_if k (b : bool) m m' :
  jmap_get k (if b then m else m') = if b then jmap_get k m else jmap_get k m'.
Proof. by destruct b. Qed.

(** Look a literal key up in a printed object. *)
Ltac json_lookup :=
  unfold jmap_of; cbn [foldl fst snd];
  repeat first
    [ rewrite jmap_get_if
    | rewrite jmap_get_insert_some; first [rewrite decide_True by done | rewrite decide_False by done]
    | rewrite jmap_get_insert; first [rewrite decide_True by done | rewrite decide_False by done] ];
  cbn [jmap_get].

Lemma json_strings_to_strings l : json_to_strings (json_strings l) = Some l.
Proof.
  apply mapM_Some, Forall2_fmap_l, Forall_Forall2_diag. by apply Forall_true.
Qed.

Lemma strings_from_json_strings l : strings_from_value (json_strings l) = Ok l.
Proof. unfold strings_from_value. by rewrite json_strings_to_strings. Qed.

Lemma derivation_get (d : Derivation) key :
  json_get key (derivation_value d)
  = if decide (key = "gcRootError") then JString <$> d_gc_root_error d
    else if decide (key = "constituents") then json_strings <$> d_constituents d
    else if decide (key = "inputDrvs") then
      if bool_decide (d_input_drvs d = ∅) then None else Some (input_drvs_value (d_input_drvs d))
    else if decide (key = "meta") then d_meta d
    else if decide (key = "outputs") then Some (outputs_value (d_outputs d))
    else if decide (key = "drvPath") then Some (JString (d_drv_path d))
    else if decide (key = "system") then Some (JString (d_system d))
    else if decide (key = "name") then Some (JString (d_name d))
    else if decide (key = "attrPath") then Some (json_strings (d_attr_path d))
    else if decide (key = "attr") then Some (JString (d_attr d))
    else None.
Proof.
  unfold derivation_value, json_get, jmap_of. cbn [foldl fst snd].
  rewrite !jmap_get_insert_some, jmap_get_if, !jmap_get_insert, !jmap_get_insert_some,
    !jmap_get_insert. cbn [jmap_get].
  repeat case_decide; subst; try done; by repeat case_match.
Qed.

Ltac key_lookup :=
  rewrite !derivation_get;
  repeat first [rewrite decide_True by done | rewrite decide_False by done].

Section derivation.
Context (debug : string → string) (d : Derivation).

Lemma parse_outputs_value : parse_outputs (derivation_value d) = d_outputs d.
Proof.
  unfold parse_outputs. key_lookup.
  apply (collect_jmap_fold json_opt_string (λ v, if is_null v then None else as_str v)).
  by intros [s|].
Qed.

Lemma parse_input_drvs_value : parse_input_drvs (derivation_value d) = Ok (d_input_drvs d).
Proof.
  unfold parse_input_drvs. key_lookup.
  destruct (bool_decide_reflect (d_input_drvs d = ∅)) as [->|_]; [done|].
  unfold input_drvs_value. cbn [mbind option_bind as_object].
  set (entries := foldl _ _ _).
  assert (∀ kv, kv ∈ entries → ∃ l, kv.2 = json_strings l) as Hentries.
  { subst entries. assert (NoDup (btree_iter (d_input_drvs d)).*1) as Hnd.
    { rewrite btree_iter_permutation. apply NoDup_fst_map_to_list. }
    destruct (jmap_fold_spec json_strings _ Hnd) as [Hwf Hget]. intros [k j] Hin.
    apply jmap_get_elem in Hin; [|done].
    rewrite Hget in Hin. apply fmap_Some in Hin as (l & _ & ->). by exists l. }
  set (unjson := λ v, default [] (json_to_strings v)).
    rewrite (collect_results_map _ (λ kv : string * Json, (kv.1, unjson kv.2)) entries).
  2:{ intros [k j] Hin. destruct (Hentries _ Hin) as [l Hl]. simpl in *. subst j.
      rewrite strings_from_json_strings. unfold unjson. by rewrite json_strings_to_strings. }
  cbn. f_equal. apply (collect_jmap_fold json_strings). intros l. unfold unjson.
  by rewrite json_strings_to_strings.
Qed.

Lemma parse_derivation_value : parse_derivation debug (derivation_value d) = Ok d.
Proof.
  unfold parse_derivation, parse_constituents, string_field, string_vec_field.
  rewrite parse_outputs_value, parse_input_drvs_value. key_lookup.
  destruct d as [attr attr_path name system drv_path outs meta ins cons gc]. cbn.
  destruct cons as [l|]; cbn; rewrite ?strings_from_json_strings; cbn;
    rewrite ?strings_from_json_strings; cbn; by destruct gc.
Qed.
End derivation.

Lemma event_value_parses debug event : parse_event_value debug (event_value event) = Ok event.
Proof.
  destruct event as [d|attr attr_path attrs|e]; unfold parse_event_value, event_value.
  - key_lookup. by rewrite parse_derivation_value.
  - unfold string_field, string_vec_field, json_get. json_lookup. cbn.
    rewrite !strings_from_json_strings. done.
  - unfold string_field, string_vec_field, json_get. json_lookup. cbn.
    rewrite !strings_from_json_strings. by destruct e.
Qed.

Lemma event_line_parses debug to_string from_str event :
  from_str (to_string (event_value event)) = Ok (event_value event) →
  parse_event_line debug from_str (event_line to_string event) = Ok event.
Proof.
  intros Htext. unfold parse_event_line, event_line. rewrite Htext. apply event_value_parses.
Qed.

(** C20 (json): the printed form of an event loses nothing. Every event, printed as
    its flat JSON object and parsed again, is the same event, of the same kind,
    with all its optional fields, and so through the text of its line, as far
    as that text parses to the object. *)
Theorem event_json_roundtrip debug event :
  parse_event_value debug (event_value event) = Ok event
  ∧ ∀ to_string from_str, from_str (to_string (event_value event)) = Ok (event_value event) →
      parse_event_line debug from_str (event_line to_string event) = Ok event.
Proof.
  split; [apply event_value_parses|]. intros to_string from_str. apply event_line_parses.
Qed.
