(* ===== verification/Scheduler.v ===== *)
(** * The evaluation coordinator and its workers

    [crates/evix/src/async_master.rs]. The coordinator owns a queue of attribute
    paths; idle workers take paths from it, and every answer either adds the
    children of an attribute set to the queue or is a result. The definitions
    follow the file: the worker specifications, the scheduler's operations, the
    coordinator's loop, the worker task, and the step relation that interleaves
    them through the two kinds of channels. *)
From S2P Require Import Prelude Types Config Fork WorkerProcess.

(** ** Data *)

Record WorkItem := mkWorkItem { item_path : list string }.

Record Scheduler := mkScheduler {
  todo : list WorkItem;
  active : N;
  sched_error : option string;
}.
#[export] Instance eta_scheduler : EtaRecord Scheduler := λ s,
  mkScheduler (todo s) (active s) (sched_error s).

Inductive LocalFork : Type :=
  | ForkNone
  | ForkParent (slots : list ForkSlot)
  | ForkChild (socket : option (N * N)).

Inductive WorkerKind : Type :=
  | LocalWorker (worker_exe : option string) (fork : LocalFork)
  | RemoteKind (remote : Remote).

Record WorkerSpec := mkWorkerSpec {
  spec_id : nat;
  spec_label : string;
  spec_kind : WorkerKind;
}.

Inductive WorkerCommand : Type :=
  | Work (item : WorkItem)
  | Stop.

Record WorkerResult := mkWorkerResult {
  wr_worker_id : nat;
  wr_item : WorkItem;
  wr_event : Result Event;
}.

Inductive WorkerMessage : Type :=
  | MsgReady (worker_id : nat)
  | MsgResult (result : WorkerResult)
  | MsgCancelled
  | MsgExited (error : string).

Inductive EventDisposition : Type :=
  | Emit
  | Unowned (system : string).

Inductive NextWork : Type :=
  | Dispatch (item : WorkItem)
  | Wait
  | Done
  | Fatal (error : string).

Record CompletedWork := mkCompletedWork {
  emit : bool;
  fatal_error : option string;
}.

Inductive RunOutcome : Type := Completed | Cancelled.

Inductive DispatchState : Type := DispatchRunning | DispatchDone.

(** ** Worker specifications *)

(** [Iterator::sum] of [usize], which wraps in a release build. *)
Definition total_remote_workers (config : Config) : N :=
  foldl (λ n r, usize_add n (remote_workers r)) 0%N (c_remotes config).

Definition local_worker_count (config : Config) : N :=
  if ((c_workers config =? 0) && (0 <? total_remote_workers config))%N
  then 0 else N.max (c_workers config) 1.

Section specs.
(** The system calls of the fork loop, by iteration. *)
Context (unix_pair io_pipe : nat → Result (N * N)).

Fixpoint fork_sockets (iterations : list nat) : Result (list LocalFork * list ForkSlot) :=
  match iterations with
  | [] => Ok ([], [])
  | i :: iterations =>
      mw ← with_context "creating a forked worker socket" (unix_pair i);
      rw ← with_context "creating a forked worker stderr pipe" (io_pipe i);
      fs ← fork_sockets iterations;
      Ok (ForkChild (Some (mw.1, rw.1)) :: fs.1, mkForkSlot mw.2 rw.2 :: fs.2)
  end.

(** The first local worker is the parent of the forked ones, if there are any. *)
Definition local_forks (forks : list LocalFork) (slots : list ForkSlot) : list LocalFork :=
  match slots with [] => forks | _ => ForkParent slots :: forks end.

Definition push_local (config : Config) (forks : list LocalFork)
    (specs : list WorkerSpec) (index : nat) : list WorkerSpec :=
  specs ++ [mkWorkerSpec (length specs) "local"
              (LocalWorker (c_worker_exe config) (default ForkNone (forks !! index)))].

Definition push_remote (remote : Remote) (specs : list WorkerSpec) (index : nat)
  : list WorkerSpec :=
  specs ++ [mkWorkerSpec (length specs)
              ("remote:" +:+ endpoint remote +:+ "#" +:+ show_N (N.of_nat index))
              (RemoteKind remote)].

(** [worker_specs] *)
Definition worker_specs (config : Config) : Result (list WorkerSpec) :=
  let local_workers := N.to_nat (local_worker_count config) in
  fs ← fork_sockets (seq 1 (local_workers - 1));
  let forks := local_forks fs.1 fs.2 in
  let specs := foldl (push_local config forks) [] (seq 0 local_workers) in
  Ok (foldl (λ specs remote,
        foldl (push_remote remote) specs (seq 0 (N.to_nat (remote_workers remote))))
      specs (c_remotes config)).
End specs.

Definition is_forked (spec : WorkerSpec) : bool :=
  match spec_kind spec with LocalWorker _ (ForkChild _) => true | _ => false end.

(** ** The scheduler *)

Definition scheduler_init : Scheduler := mkScheduler [mkWorkItem []] 0 None.

Definition is_done (s : Scheduler) : bool :=
  match todo s with [] => (active s =? 0)%N | _ => false end.

Definition has_active_work (s : Scheduler) : bool := (0 <? active s)%N.

Definition next_for (s : Scheduler) (worker_id : nat) : Scheduler * NextWork :=
  match sched_error s with
  | Some error => (s, Fatal error)
  | None =>
      match todo s with
      | item :: rest =>
          (s <| todo := rest |> <| active := usize_add (active s) 1 |>, Dispatch item)
      | [] => if (active s =? 0)%N then (s, Done) else (s, Wait)
      end
  end.

Definition remote_accepts_system (remote : Remote) (system : string) : bool :=
  match systems remote with
  | [] => true
  | systems => existsb (λ owned, str_eqb owned system) systems
  end.

Definition worker_accepts_system (worker : WorkerSpec) (system : string) : bool :=
  match spec_kind worker with
  | LocalWorker _ _ => true
  | RemoteKind remote => remote_accepts_system remote system
  end.

Definition event_disposition (spec : WorkerSpec) (workers : list WorkerSpec) (event : Event)
  : EventDisposition :=
  match spec_kind spec, event with
  | RemoteKind _, EvDerivation drv =>
      if existsb (λ worker, worker_accepts_system worker (d_system drv)) workers
      then Emit else Unowned (d_system drv)
  | _, _ => Emit
  end.

Definition display_attr (path : list string) : string :=
  match path with [] => "<root>" | _ => str_join "." path end.

Definition child_items (item : WorkItem) (attrs : list string) : list WorkItem :=
  (λ name, mkWorkItem (item_path item ++ [name])) <$> attrs.

Definition complete (s : Scheduler) (spec : WorkerSpec) (workers : list WorkerSpec)
    (item : WorkItem) (event : Event) : Scheduler * CompletedWork :=
  let attr := display_attr (item_path item) in
  let s := s <| active := usize_sub (active s) 1 |> in
  match event with
  | EvAttrSet _ _ attrs =>
      (s <| todo := todo s ++ child_items item attrs |>, mkCompletedWork true None)
  | EvError err =>
      if e_fatal err
      then (s <| sched_error := Some (e_error err) |>, mkCompletedWork true (Some (e_error err)))
      else (s, mkCompletedWork true None)
  | EvDerivation _ =>
      match event_disposition spec workers event with
      | Emit => (s, mkCompletedWork true None)
      | Unowned system =>
          let error := "no worker accepted derivation at " +:+ attr
                       +:+ " for system " +:+ system in
          (s <| sched_error := Some error |>, mkCompletedWork false (Some error))
      end
  end.

(** ** Worker tasks and their channels *)

(** Where a worker task stands in [worker_task] and [serve_worker]; a task that
    is leaving keeps the item that it took and did not answer, if any. *)
Inductive WorkerTask : Type :=
  | Connecting
  | Announcing
  | Receiving
  | Working (item : WorkItem)
  | Reporting (item : WorkItem) (event : Result Event) (status : WorkerStatus)
  | Reported (failed : bool) (status : WorkerStatus)
  | Replacing
  | Cancelling (abandoned : option WorkItem)
  | Exiting (error : Report) (abandoned : option WorkItem)
  | Exited (result : Result unit) (abandoned : option WorkItem).

(** A [WorkerSlot]: its specification, the channel of its commands, its task. *)
Record WorkerSlot := mkWorkerSlot {
  ws_spec : WorkerSpec;
  ws_inbox : list WorkerCommand;
  ws_task : WorkerTask;
}.
#[export] Instance eta_worker_slot : EtaRecord WorkerSlot := λ w,
  mkWorkerSlot (ws_spec w) (ws_inbox w) (ws_task w).

(** The receiver of the commands is dropped when [serve_worker] returns. *)
Definition rx_open (task : WorkerTask) : bool :=
  match task with Exiting _ _ | Exited _ _ => false | _ => true end.

(** [work_tx.send] to a worker. *)
Definition send_command (slot : WorkerSlot) (command : WorkerCommand) : Result WorkerSlot :=
  if rx_open (ws_task slot)
  then Ok (slot <| ws_inbox := ws_inbox slot ++ [command] |>)
  else Err (report "channel closed").

(** ** Dispatch *)

Record Dispatched := mkDispatched {
  ds_sched : Scheduler;
  ds_workers : list WorkerSlot;
  ds_idle : list nat;
}.

(** The loop of [dispatch_available]; [None] is a panic of [workers[worker_id]]. *)
Fixpoint dispatch_loop (n : nat) (d : Dispatched) : option (Dispatched * Result DispatchState) :=
  match n with
  | 0 => Some (d, Ok DispatchRunning)
  | S n =>
      match ds_idle d with
      | [] => Some (d, Err (report "idle worker queue changed while dispatching"))
      | worker_id :: idle =>
          worker ← ds_workers d !! worker_id;
          let '(sched, next) := next_for (ds_sched d) (spec_id (ws_spec worker)) in
          match next with
          | Dispatch item =>
              match with_context ("sending work to worker " +:+ spec_label (ws_spec worker))
                      (send_command worker (Work item)) with
              | Ok worker =>
                  dispatch_loop n
                    (mkDispatched sched (<[worker_id := worker]> (ds_workers d)) idle)
              | Err err => Some (mkDispatched sched (ds_workers d) idle, Err err)
              end
          | Wait => dispatch_loop n (mkDispatched sched (ds_workers d) (idle ++ [worker_id]))
          | Done => Some (mkDispatched sched (ds_workers d) idle, Ok DispatchDone)
          | Fatal error => Some (mkDispatched sched (ds_workers d) idle, Err (report error))
          end
      end
  end.

Definition dispatch_available (d : Dispatched) : option (Dispatched * Result DispatchState) :=
  dispatch_loop (length (ds_idle d)) d.

(** ** The system *)

Inductive Phase : Type :=
  | Looping                             (** at the head of the loop *)
  | Waiting                             (** at [result_rx.recv()] *)
  | Finished (result : Result RunOutcome)
  | Panicked.

Record Sys := mkSys {
  s_sched : Scheduler;
  s_workers : list WorkerSlot;
  s_idle : list nat;
  s_queue : list WorkerMessage;
  s_cancel : bool;
  s_emitted : list Event;
  s_phase : Phase;
}.
#[export] Instance eta_sys : EtaRecord Sys := λ s,
  mkSys (s_sched s) (s_workers s) (s_idle s) (s_queue s) (s_cancel s) (s_emitted s) (s_phase s).

Definition set_dispatched (s : Sys) (d : Dispatched) : Sys :=
  s <| s_sched := ds_sched d |> <| s_workers := ds_workers d |> <| s_idle := ds_idle d |>.

Definition finish (s : Sys) (r : Result RunOutcome) : Sys := s <| s_phase := Finished r |>.

(** One iteration of [coordinate] up to the wait for a message. *)
Definition coordinate_turn (s : Sys) : Sys :=
  if s_cancel s then finish s (Ok Cancelled)
  else
    match dispatch_available (mkDispatched (s_sched s) (s_workers s) (s_idle s)) with
    | None => s <| s_phase := Panicked |>
    | Some (d, Err err) => finish (set_dispatched s d) (Err err)
    | Some (d, Ok DispatchDone) => finish (set_dispatched s d) (Ok Completed)
    | Some (d, Ok DispatchRunning) =>
        let s := set_dispatched s d in
        if is_done (s_sched s) then finish s (Ok Completed)
        else if negb (has_active_work (s_sched s))
                && (length (s_idle s) =? length (s_workers s))
        then finish s (Err (report "scheduler stalled with no active workers"))
        else s <| s_phase := Waiting |>
    end.

Section run.
(** [Display] of an error report, the caller's event sink (it may depend on
    what it saw before), the item timeout in seconds, and what the evaluator
    behind a worker may answer for a path: [None] when the timeout elapses. *)
Context (display : Report → string).
Context (on_event : list Event → Event → Result unit).
Context (item_timeout_seconds : N).
Context (answers : WorkerSpec → list string → option (Result (Event * WorkerStatus)) → Prop).

(** [worker_failure_event] *)
Definition worker_failure_event (spec : WorkerSpec) (item : WorkItem) (error : Report) : Event :=
  EvError (mkEvalError (display_attr (item_path item)) (item_path item)
    ("worker " +:+ spec_label spec +:+ " failed: " +:+ display error) false).

(** [work_with_timeout] *)
Definition work_with_timeout (spec : WorkerSpec) (item : WorkItem)
    (answer : option (Result (Event * WorkerStatus))) : Result (Event * WorkerStatus) :=
  match answer with
  | Some result => result
  | None =>
      Err (report ("worker " +:+ spec_label spec +:+ " timed out evaluating "
                   +:+ display_attr (item_path item) +:+ " after "
                   +:+ show_N item_timeout_seconds +:+ " seconds"))
  end.

(** The event and status a worker task reports for an answer. *)
Definition task_report (spec : WorkerSpec) (item : WorkItem)
    (answer : option (Result (Event * WorkerStatus))) : Result Event * WorkerStatus :=
  match work_with_timeout spec item answer with
  | Ok (event, status) => (Ok event, status)
  | Err err => (Err err, Ready)
  end.

(** The event the coordinator makes of a worker's result. *)
Definition result_event (spec : WorkerSpec) (result : WorkerResult) : Event :=
  match wr_event result with
  | Ok event => event
  | Err err => worker_failure_event spec (wr_item result) err
  end.

(** The rest of the iteration, on a message. *)
Definition handle_message (s : Sys) (message : WorkerMessage) : Sys :=
  match message with
  | MsgReady worker_id => s <| s_idle := s_idle s ++ [worker_id] |> <| s_phase := Looping |>
  | MsgCancelled => finish s (Ok Cancelled)
  | MsgExited error => finish s (Err (report error))
  | MsgResult result =>
      let s := s <| s_idle := s_idle s ++ [wr_worker_id result] |> in
      match s_workers s !! wr_worker_id result with
      | None => s <| s_phase := Panicked |>
      | Some slot =>
          let spec := ws_spec slot in
          let event := result_event spec result in
          let '(sched, completed) :=
            complete (s_sched s) spec (ws_spec <$> s_workers s) (wr_item result) event in
          let s := s <| s_sched := sched |> in
          let sunk := if emit completed
                      then with_context "event sink returned an error"
                             (on_event (s_emitted s) event)
                      else Ok tt in
          let s := if emit completed
                   then s <| s_emitted := s_emitted s ++ [event] |> else s in
          match sunk with
          | Err err => finish s (Err err)
          | Ok _ =>
              match fatal_error completed with
              | Some error => finish s (Err (report error))
              | None => s <| s_phase := Looping |>
              end
          end
      end
  end.

(** The item a task holds. *)
Definition task_item (task : WorkerTask) : option WorkItem :=
  match task with
  | Working item | Reporting item _ _ => Some item
  | Cancelling i | Exiting _ i | Exited _ i => i
  | Connecting | Announcing | Receiving | Reported _ _ | Replacing => None
  end.

Definition command_item (command : WorkerCommand) : option WorkItem :=
  match command with Work item => Some item | Stop => None end.

(** One step of [worker_task]: the new slot and the message sent, if any.
    [cancel] is the flag as the step reads it. *)
Inductive task_step (cancel : bool) : WorkerSlot → option WorkerMessage → WorkerSlot → Prop :=
  | task_connected w :
      ws_task w = Connecting → is_forked (ws_spec w) = false →
      task_step cancel w None (w <| ws_task := Receiving |>)
  | task_fork_connected w :
      ws_task w = Connecting → is_forked (ws_spec w) = true →
      task_step cancel w None (w <| ws_task := Announcing |>)
  | task_connect_failed w err :
      ws_task w = Connecting →
      task_step cancel w None (w <| ws_task := Exiting err None |>)
  | task_early_work w item inbox :
      ws_task w = Connecting → is_forked (ws_spec w) = true →
      ws_inbox w = Work item :: inbox →
      task_step cancel w None
        (w <| ws_inbox := inbox |>
           <| ws_task := Exiting (report ("work sent to " +:+ spec_label (ws_spec w)
                                          +:+ " before it started")) (Some item) |>)
  | task_early_stop w inbox :
      ws_task w = Connecting → is_forked (ws_spec w) = true → ws_inbox w = Stop :: inbox →
      task_step cancel w None (w <| ws_inbox := inbox |> <| ws_task := Exited (Ok tt) None |>)
  | task_announce w :
      ws_task w = Announcing →
      task_step cancel w (Some (MsgReady (spec_id (ws_spec w)))) (w <| ws_task := Receiving |>)
  | task_receive_cancelled w command inbox :
      ws_task w = Receiving → ws_inbox w = command :: inbox → cancel = true →
      task_step cancel w None
        (w <| ws_inbox := inbox |> <| ws_task := Cancelling (command_item command) |>)
  | task_receive_work w item inbox :
      ws_task w = Receiving → ws_inbox w = Work item :: inbox → cancel = false →
      task_step cancel w None (w <| ws_inbox := inbox |> <| ws_task := Working item |>)
  | task_receive_stop w inbox :
      ws_task w = Receiving → ws_inbox w = Stop :: inbox → cancel = false →
      task_step cancel w None (w <| ws_inbox := inbox |> <| ws_task := Exited (Ok tt) None |>)
  | task_answered w item answer :
      ws_task w = Working item → answers (ws_spec w) (item_path item) answer →
      task_step cancel w None
        (w <| ws_task := Reporting item (task_report (ws_spec w) item answer).1
                                        (task_report (ws_spec w) item answer).2 |>)
  | task_send_result w item event status :
      ws_task w = Reporting item event status →
      task_step cancel w
        (Some (MsgResult (mkWorkerResult (spec_id (ws_spec w)) item event)))
        (w <| ws_task := Reported (is_err event) status |>)
  | task_replace w failed status :
      ws_task w = Reported failed status →
      (failed && negb cancel) || bool_decide (status = Restart) = true →
      task_step cancel w None (w <| ws_task := Replacing |>)
  | task_continue w failed status :
      ws_task w = Reported failed status →
      (failed && negb cancel) || bool_decide (status = Restart) = false →
      task_step cancel w None (w <| ws_task := Receiving |>)
  | task_replaced w :
      ws_task w = Replacing → task_step cancel w None (w <| ws_task := Receiving |>)
  | task_replace_failed w err :
      ws_task w = Replacing → task_step cancel w None (w <| ws_task := Exiting err None |>)
  | task_send_cancelled w i :
      ws_task w = Cancelling i →
      task_step cancel w (Some MsgCancelled) (w <| ws_task := Exited (Ok tt) i |>)
  | task_panicked w :
      rx_open (ws_task w) = true →
      task_step cancel w None
        (w <| ws_task := Exiting (report "worker task panicked") (task_item (ws_task w)) |>)
  | task_send_exited w err i :
      ws_task w = Exiting err i →
      task_step cancel w (Some (MsgExited (display err))) (w <| ws_task := Exited (Err err) i |>).

Definition has_exited (task : WorkerTask) : bool :=
  match task with Exited _ _ => true | _ => false end.

Definition is_running (s : Sys) : bool :=
  match s_phase s with Looping | Waiting => true | _ => false end.

(** The interleavings of the coordinator, the worker tasks and a cancellation
    request, while the coordinator runs. The message channel holds one message
    per worker: a task with a message waits for room. *)
Inductive step : Sys → Sys → Prop :=
  | step_turn s :
      s_phase s = Looping → step s (coordinate_turn s)
  | step_receive s message queue :
      s_phase s = Waiting → s_queue s = message :: queue →
      step s (handle_message (s <| s_queue := queue |>) message)
  | step_closed s :
      s_phase s = Waiting → s_queue s = [] →
      forallb (λ w, has_exited (ws_task w)) (s_workers s) = true →
      step s (finish s (Err (report
        "all worker tasks exited before evaluation completed")))
  | step_cancel s :
      is_running s = true → s_cancel s = false → step s (s <| s_cancel := true |>)
  | step_task s id w message w' :
      is_running s = true → s_workers s !! id = Some w →
      task_step (s_cancel s) w message w' →
      (message ≠ None → length (s_queue s) < length (s_workers s)) →
      step s (s <| s_workers := <[id := w']> (s_workers s) |>
                <| s_queue := s_queue s ++ option_list message |>).

(** The state in which [run] enters [coordinate]. *)
Definition initial_idle (specs : list WorkerSpec) : list nat :=
  filter (λ id, from_option is_forked true (specs !! id) = false) (seq 0 (length specs)).

Definition sys_init (specs : list WorkerSpec) (cancel : bool) : Sys :=
  mkSys scheduler_init ((λ spec, mkWorkerSlot spec [] Connecting) <$> specs)
    (initial_idle specs) [] cancel [] Looping.

Definition reachable (specs : list WorkerSpec) (s : Sys) : Prop :=
  ∃ cancel, rtc step (sys_init specs cancel) s.
End run.

(** ** Ending a run *)

(** How a joined task ended: its result, an abort, or a panic. *)
Inductive JoinResult : Type :=
  | Joined (result : Result unit)
  | JoinAborted
  | JoinPanicked (err : Report).

(** [shutdown_workers]: join the tasks in order, the first error returns. *)
Fixpoint shutdown_workers (joins : list JoinResult) : Result unit :=
  match joins with
  | [] => Ok tt
  | Joined (Ok _) :: joins => shutdown_workers joins
  | Joined (Err err) :: _ => Err err
  | JoinAborted :: _ => Err (context "worker task panicked" (report "task was cancelled"))
  | JoinPanicked err :: _ => Err (context "worker task panicked" err)
  end.

(** [abort_workers]: an aborted task is no error. *)
Fixpoint abort_workers (joins : list JoinResult) : Result unit :=
  match joins with
  | [] => Ok tt
  | Joined (Ok _) :: joins => abort_workers joins
  | Joined (Err err) :: _ => Err err
  | JoinAborted :: joins => abort_workers joins
  | JoinPanicked err :: _ => Err (context "worker task panicked" err)
  end.

(** The end of [run]: the workers are joined, then the coordinator's result is
    returned; an error of the join takes precedence. *)
Definition run_result (result : Result RunOutcome) (joins : list JoinResult)
  : Result RunOutcome :=
  _ ← match result with
      | Ok Cancelled => abort_workers joins
      | _ => shutdown_workers joins
      end;
  result.

(** ** Connecting a worker *)

(** The two kinds of worker connections, as the coordinator uses them:
    [WorkerProcess::attach_forked] and [spawn_local] of [worker_process.rs],
    [RemoteWorker::connect] of [remote_worker.rs], and their [work]. *)
Class Transport (Proc Conn : Type) := {
  attach_forked : string → N → N → Result (option Proc);
  spawn_local : string → option string → list ForkSlot → Result Proc;
  connect_remote : string → option string → string → Result Conn;
  proc_work : Proc → list string → Result (Event * WorkerStatus);
  conn_work : Conn → list string → Result Event;
}.

Section client.
Context `{Transport Proc Conn}.

Inductive WorkerClient : Type :=
  | ClientLocal (worker : Proc)
  | ClientRemote (worker : Conn).

(** [WorkerClient::connect]: the client, and the specification after the fork
    slots or the socket were taken out of their mutex. *)
Definition connect (spec : WorkerSpec) : WorkerSpec * Result WorkerClient :=
  let label := spec_label spec in
  let with_fork exe fork := mkWorkerSpec (spec_id spec) label (LocalWorker exe fork) in
  match spec_kind spec with
  | LocalWorker exe ForkNone => (spec, ClientLocal <$> spawn_local label exe [])
  | LocalWorker exe (ForkParent slots) =>
      (with_fork exe (ForkParent []), ClientLocal <$> spawn_local label exe slots)
  | LocalWorker exe (ForkChild (Some (socket, stderr))) =>
      (with_fork exe (ForkChild None),
       attached ← attach_forked label socket stderr;
       match attached with
       | Some worker => Ok (ClientLocal worker)
       | None => ClientLocal <$> spawn_local label exe []
       end)
  | LocalWorker exe (ForkChild None) => (spec, ClientLocal <$> spawn_local label exe [])
  | RemoteKind remote =>
      (spec, ClientRemote <$> connect_remote (endpoint remote) (token remote) label)
  end.

(** [WorkerClient::work] *)
Definition client_work (client : WorkerClient) (path : list string)
  : Result (Event * WorkerStatus) :=
  match client with
  | ClientLocal worker => proc_work worker path
  | ClientRemote worker => event ← conn_work worker path; Ok (event, Ready)
  end.

(** [WorkerClient::restart]: a local worker is connected again. *)
Definition restart (client : WorkerClient) (spec : WorkerSpec) : WorkerSpec * Result WorkerClient :=
  match client with
  | ClientLocal _ => connect spec
  | ClientRemote _ => (spec, Ok client)
  end.

(** [WorkerClient::reconnect] *)
Definition reconnect (spec : WorkerSpec) : WorkerSpec * Result WorkerClient := connect spec.

(** The fork slots a connection would hand to the process it starts. *)
Definition slots_of (spec : WorkerSpec) : list ForkSlot :=
  match spec_kind spec with LocalWorker _ (ForkParent slots) => slots | _ => [] end.

Definition socket_of (spec : WorkerSpec) : option (N * N) :=
  match spec_kind spec with LocalWorker _ (ForkChild socket) => socket | _ => None end.

(** Fork resources are used once. A connection takes the parent's
    slots and the child's socket out of its specification, so every later
    connection of that worker starts a process of its own with no slots; the
    worker's identity and kind stay, and a remote worker's specification is
    not touched. *)
Theorem connect_takes_fork spec :
  let spec' := (connect spec).1 in
  slots_of spec' = [] ∧ socket_of spec' = None
  ∧ spec_id spec' = spec_id spec ∧ is_forked spec' = is_forked spec
  ∧ (connect spec').1 = spec'
  ∧ (∀ exe fork, spec_kind spec = LocalWorker exe fork →
       (connect spec').2 = ClientLocal <$> spawn_local (spec_label spec) exe []).
Proof.
  destruct spec as [id label [exe [|slots|[[socket stderr]|]]|remote]]; simpl;
    split_and!; try done; intros ? ? [= <- _]; done.
Qed.
End client.
