(* ===== verification/Pool.v ===== *)
(** * The worker pool of a run

    What [worker_specs] of [async_master.rs] builds: local workers first, one of
    them the parent of the forked others, then the workers of each remote. *)
From S2P Require Import Prelude Types Config Fork WorkerProcess Scheduler.

(** The kinds of the workers of a configuration, in order. *)
Definition local_kinds (config : Config) (forks : list LocalFork) (n : nat) : list WorkerKind :=
  (λ i, LocalWorker (c_worker_exe config) (default ForkNone (forks !! i))) <$> seq 0 n.

Definition remote_kinds (remotes : list Remote) : list WorkerKind :=
  concat ((λ r, replicate (N.to_nat (remote_workers r)) (RemoteKind r)) <$> remotes).

(** A pool the coordinator can run: not empty, smaller than the address space,
    identified by position. *)
Definition pool_wf (specs : list WorkerSpec) : Prop :=
  specs ≠ [] ∧ (N.of_nat (length specs) < usize_modulus)%N
  ∧ ∀ i spec, specs !! i = Some spec → spec_id spec = i.

Definition ids_are_positions (specs : list WorkerSpec) : Prop :=
  spec_id <$> specs = seq 0 (length specs).

Lemma ids_lookup specs i spec :
  ids_are_positions specs → specs !! i = Some spec → spec_id spec = i.
Proof.
  intros Hids Hi. pose proof (f_equal (lookup i) Hids) as H.
  rewrite list_lookup_fmap, Hi in H. simpl in H.
  rewrite lookup_seq_lt in H by (by eapply lookup_lt_Some). by injection H.
Qed.

Lemma ids_snoc specs label kind :
  ids_are_positions specs →
  ids_are_positions (specs ++ [mkWorkerSpec (length specs) label kind]).
Proof.
  unfold ids_are_positions. intros H.
  by rewrite fmap_app, length_app, Nat.add_1_r, seq_S, H.
Qed.

(** A fold of pushes, each of one specification with the next identifier. *)
Lemma push_all {A} (push : list WorkerSpec → A → list WorkerSpec) (label : A → string)
    (kind : A → WorkerKind) (l : list A) specs :
  (∀ specs a, push specs a = specs ++ [mkWorkerSpec (length specs) (label a) (kind a)]) →
  ids_are_positions specs →
  ids_are_positions (foldl push specs l)
  ∧ spec_kind <$> foldl push specs l = (spec_kind <$> specs) ++ (kind <$> l).
Proof.
  intros Hpush. revert specs. induction l as [|a l IH]; intros specs Hids; simpl.
  - by rewrite app_nil_r.
  - rewrite Hpush. destruct (IH _ (ids_snoc specs (label a) (kind a) Hids)) as [? ->].
    split; [done|]. rewrite fmap_app. simpl. by rewrite <-(assoc_L (++)).
Qed.

Lemma const_fmap {A B} (b : B) (l : list A) : (λ _, b) <$> l = replicate (length l) b.
Proof. induction l as [|a l IH]; simpl; [done|]. by f_equal. Qed.

Lemma push_remotes remotes specs :
  ids_are_positions specs →
  let out := foldl (λ specs remote,
    foldl (push_remote remote) specs (seq 0 (N.to_nat (remote_workers remote)))) specs remotes in
  ids_are_positions out ∧ spec_kind <$> out = (spec_kind <$> specs) ++ remote_kinds remotes.
Proof.
  revert specs. induction remotes as [|r remotes IH]; intros specs Hids; simpl.
  - by rewrite app_nil_r.
  - destruct (push_all (push_remote r) (λ i, "remote:" +:+ endpoint r +:+ "#" +:+ show_N (N.of_nat i))
      (λ _, RemoteKind r) (seq 0 (N.to_nat (remote_workers r))) specs) as [Hids' Hk];
      [done|done|].
    destruct (IH _ Hids') as [? ->]. split; [done|].
    rewrite Hk, const_fmap, length_seq. unfold remote_kinds. simpl. by rewrite <-(assoc_L (++)).
Qed.

Lemma fork_sockets_ok unix_pair io_pipe l fs :
  fork_sockets unix_pair io_pipe l = Ok fs →
  length fs.1 = length l ∧ length fs.2 = length l
  ∧ ∀ f, f ∈ fs.1 → ∃ ends, f = ForkChild (Some ends).
Proof.
  revert fs. induction l as [|i l IH]; intros fs; simpl.
  - intros [= <-]. split_and!; [done..|]. intros f Hf. by apply elem_of_nil in Hf.
  - intros H. ok_inv. destruct (IH _ ltac:(eassumption)) as (Hl1 & Hl2 & ?). simpl.
    rewrite Hl1, Hl2. split_and!; [done..|]. intros f [->|Hf]%elem_of_cons; eauto.
Qed.

Lemma total_zero remotes n :
  (∀ r, r ∈ remotes → remote_workers r = 0%N) → (n < usize_modulus)%N →
  foldl (λ n r, usize_add n (remote_workers r)) n remotes = n.
Proof.
  revert n. induction remotes as [|r remotes IH]; intros n Hz Hn; simpl; [done|].
  rewrite (Hz r) by (by left). unfold usize_add, usize_wrap.
  rewrite N.add_0_r, N.mod_small by done. apply IH; [|done]. intros r' Hr'. apply Hz. by right.
Qed.

Lemma remote_kinds_nil remotes :
  remote_kinds remotes = [] → ∀ r, r ∈ remotes → remote_workers r = 0%N.
Proof.
  induction remotes as [|r remotes IH]; unfold remote_kinds; simpl; intros H r' Hr'.
  - by apply elem_of_nil in Hr'.
  - apply app_nil in H as [H1 H2]. apply elem_of_cons in Hr' as [->|Hr']; [|by apply IH].
    apply (f_equal length) in H1. rewrite length_replicate in H1. simpl in H1. lia.
Qed.

Lemma pool_not_empty config forks :
  local_kinds config forks (N.to_nat (local_worker_count config))
  ++ remote_kinds (c_remotes config) ≠ [].
Proof.
  intros [Hl Hr]%app_nil. apply (f_equal length) in Hl.
  unfold local_kinds in Hl. rewrite length_fmap, length_seq in Hl. simpl in Hl.
  unfold local_worker_count in Hl. case_match eqn:Hz; [|lia].
  apply andb_true_iff in Hz as [_ Hz%N.ltb_lt].
  unfold total_remote_workers in Hz. rewrite total_zero in Hz; [lia| |done].
  by apply remote_kinds_nil.
Qed.

Lemma worker_specs_kinds unix_pair io_pipe config specs :
  worker_specs unix_pair io_pipe config = Ok specs →
  let n := N.to_nat (local_worker_count config) in
  ids_are_positions specs
  ∧ ∃ children slots,
      fork_sockets unix_pair io_pipe (seq 1 (n - 1)) = Ok (children, slots)
      ∧ spec_kind <$> specs
        = local_kinds config
            (local_forks children slots) n
          ++ remote_kinds (c_remotes config).
Proof.
  intros H n. unfold worker_specs in H. apply bind_ok in H as ([children slots] & Hf & H).
  injection H as <-. simpl.
  set (forks := local_forks children slots).
  destruct (push_all (push_local config forks) (λ _, "local")
    (λ i, LocalWorker (c_worker_exe config) (default ForkNone (forks !! i)))
    (seq 0 n) []) as [Hids Hk]; [done|done|].
  destruct (push_remotes (c_remotes config) _ Hids) as [Hids' Hk'].
  split; [exact Hids'|]. exists children, slots. split; [exact Hf|].
  etrans; [exact Hk'|]. rewrite Hk. reflexivity.
Qed.

Lemma remote_kinds_elem k remotes : k ∈ remote_kinds remotes → ∃ r, k = RemoteKind r.
Proof.
  induction remotes as [|r remotes IH]; unfold remote_kinds; simpl.
  - intros Hk. by apply elem_of_nil in Hk.
  - intros [Hk|Hk]%elem_of_app; [|by apply IH]. apply elem_of_replicate in Hk as [-> _]. eauto.
Qed.

(** The fork of the [i]-th local worker. *)
Lemma forks_lookup children slots n i :
  length children = n - 1 → length slots = n - 1 →
  (∀ f, f ∈ children → ∃ ends, f = ForkChild (Some ends)) → i < n →
  let forks := local_forks children slots in
  match default ForkNone (forks !! i) with
  | ForkChild _ => 0 < i
  | ForkParent s => i = 0 ∧ s = slots
  | ForkNone => i = 0 ∧ n = 1
  end.
Proof.
  intros Hc Hs Hchild Hi. unfold local_forks. destruct slots as [|slot slots]; simpl in *.
  - destruct children; simpl in *; [|lia]. destruct i; simpl; lia.
  - destruct i as [|i]; simpl; [done|].
    destruct (children !! i) as [f|] eqn:Hf; simpl; [|apply lookup_ge_None in Hf; lia].
    destruct (Hchild f) as [ends ->]; [by eapply list_elem_of_lookup_2|lia].
Qed.

(** ** Properties *)

(** When the pool is built, it is not empty, workers are identified by
    their positions, the first [local_worker_count] are local and the others
    are each remote's, as many as it has; exactly the local workers after the
    first are forked, and the first holds one fork slot for each of them. *)
Theorem worker_specs_spec unix_pair io_pipe config specs :
  worker_specs unix_pair io_pipe config = Ok specs →
  let n := N.to_nat (local_worker_count config) in
  specs ≠ [] ∧ (∀ i spec, specs !! i = Some spec → spec_id spec = i)
  ∧ (∀ i spec, specs !! i = Some spec →
       is_forked spec = bool_decide (0 < i < n)
       ∧ (i = 0 → 1 < n → ∃ slots, length slots = n - 1
            ∧ spec_kind spec = LocalWorker (c_worker_exe config) (ForkParent slots)))
  ∧ drop n (spec_kind <$> specs) = remote_kinds (c_remotes config)
  ∧ length specs = n + length (remote_kinds (c_remotes config)).
Proof.
  intros H n. destruct (worker_specs_kinds _ _ _ _ H) as (Hids & children & slots & Hf & Hk).
  fold n in Hf, Hk. set (forks := local_forks children slots) in Hk.
  destruct (fork_sockets_ok _ _ _ _ Hf) as (Hc & Hs & Hchild). simpl in *.
  rewrite length_seq in Hc, Hs.
  assert (length (local_kinds config forks n) = n) as Hlen
    by (unfold local_kinds; by rewrite length_fmap, length_seq).
  split_and!.
  - intros ->. simpl in Hk. symmetry in Hk. by apply pool_not_empty in Hk.
  - intros i spec. by apply ids_lookup.
  - intros i spec Hi.
    assert ((local_kinds config forks n ++ remote_kinds (c_remotes config)) !! i
      = Some (spec_kind spec)) as Hki by (by rewrite <-Hk, list_lookup_fmap, Hi).
    destruct (decide (i < n)) as [Hlt|Hge].
    + rewrite lookup_app_l in Hki by lia. unfold local_kinds in Hki.
      rewrite list_lookup_fmap, lookup_seq_lt in Hki by done. simpl in Hki.
      injection Hki as Hki. unfold is_forked. rewrite <-Hki.
      pose proof (forks_lookup children slots n i Hc Hs Hchild Hlt) as Hfork.
      cbv zeta in Hfork. fold forks in Hfork.
      destruct (default ForkNone (forks !! i)) as [|s|ends]; split;
        rewrite ?bool_decide_false, ?bool_decide_true by lia; try done; try lia.
      intros _ _. destruct Hfork as [_ ->]. eauto.
    + rewrite lookup_app_r in Hki by lia. apply list_elem_of_lookup_2, remote_kinds_elem in Hki
        as [r Hr]. unfold is_forked. rewrite Hr, bool_decide_false by lia. split; [done|lia].
  - rewrite Hk, drop_app_length' by done. done.
  - by rewrite <-(length_fmap spec_kind specs), Hk, length_app, Hlen.
Qed.

Definition demo_pair (i : nat) : Result (N * N) := Ok (N.of_nat (2 * i), N.of_nat (2 * i + 1)).

Definition demo_config : Config :=
  config_default <| c_workers := 3%N |>
    <| c_remotes := [mkRemote "host:1" ["aarch64-linux"] 2 None] |>.

Lemma worker_specs_spec_witness :
  ∃ specs, worker_specs demo_pair demo_pair demo_config = Ok specs
    ∧ specs ≠ [] ∧ length specs = 5.
Proof.
  eexists. split; [vm_compute; reflexivity|]. split.
  - apply (worker_specs_spec demo_pair demo_pair demo_config). vm_compute. reflexivity.
  - reflexivity.
Defined.
