(* ===== verification/Coordination.v ===== *)
(** * Correctness of the coordinator

    The invariant of the interleavings of [Scheduler.v], the refinement of the
    abstract traversal of [Traversal.v], and what they give: every announced
    path is evaluated once, the result does not depend on the number, kind or
    speed of the workers, the scheduler's accounting is exact, and the system
    neither stalls nor panics. *)
From S2P Require Import Prelude Types Config Fork WorkerProcess Traversal Scheduler Pool.

(** ** What a worker holds *)

Definition slot_items (w : WorkerSlot) : list WorkItem :=
  omap command_item (ws_inbox w) ++ option_list (task_item (ws_task w)).

(** A forked worker before it announced itself. *)
Definition unannounced (w : WorkerSlot) : bool :=
  match ws_task w with
  | Connecting => is_forked (ws_spec w)
  | Announcing => true
  | _ => false
  end.

Definition slot_tokens (w : WorkerSlot) : nat :=
  length (slot_items w) + Nat.b2n (unannounced w).

Definition leaving (w : WorkerSlot) : bool :=
  match ws_task w with Cancelling _ | Exiting _ _ | Exited _ _ => true | _ => false end.

Definition msg_sender (m : WorkerMessage) : option nat :=
  match m with
  | MsgReady id => Some id
  | MsgResult r => Some (wr_worker_id r)
  | _ => None
  end.

Definition msg_item (m : WorkerMessage) : option WorkItem :=
  match m with MsgResult r => Some (wr_item r) | _ => None end.

Definition is_final (m : WorkerMessage) : bool :=
  match m with MsgCancelled | MsgExited _ => true | _ => false end.

(** The items between dispatch and completion. *)
Definition inflight (s : Sys) : list WorkItem :=
  concat (slot_items <$> s_workers s) ++ omap msg_item (s_queue s).

Definition count (id : nat) (l : list nat) : nat := length (filter (eq id) l).

(** The places a worker's turn can be: in the idle queue, with the worker, or
    in a message on its way back. *)
Definition tokens (s : Sys) (id : nat) (w : WorkerSlot) : nat :=
  count id (s_idle s) + slot_tokens w + count id (omap msg_sender (s_queue s)).

Definition all_tokens (s : Sys) : nat :=
  length (s_idle s) + sum_list_with slot_tokens (s_workers s)
  + length (omap msg_sender (s_queue s)).

Definition pending_paths (s : Sys) : list (list string) :=
  item_path <$> (todo (s_sched s) ++ inflight s).

(** ** Arithmetic of the counts *)

Lemma count_app id l k : count id (l ++ k) = count id l + count id k.
Proof. unfold count. by rewrite filter_app, length_app. Qed.

Lemma count_single id x : count id [x] = Nat.b2n (bool_decide (id = x)).
Proof.
  unfold count. rewrite filter_cons, filter_nil. case_decide.
  - by rewrite bool_decide_true.
  - by rewrite bool_decide_false.
Qed.

Lemma count_cons id x l : count id (x :: l) = Nat.b2n (bool_decide (id = x)) + count id l.
Proof. change (x :: l) with ([x] ++ l). by rewrite count_app, count_single. Qed.

Lemma count_elem id l : id ∈ l → 1 ≤ count id l.
Proof.
  intros (l1 & l2 & ->)%list_elem_of_split. rewrite count_app, count_cons.
  rewrite bool_decide_true by done. simpl. lia.
Qed.

Lemma length_option_list {A} (o : option A) : length (option_list o) ≤ 1.
Proof. destruct o; simpl; lia. Qed.

Lemma omap_option_list {A B} (f : A → option B) (o : option A) :
  omap f (option_list o) = option_list (o ≫= f).
Proof. destruct o as [a|]; [|done]. simpl. by destruct (f a). Qed.

(** What [complete] does when the run goes on: the item is no longer active
    and its children are queued. *)
Lemma complete_continues sched spec workers item event sched' done :
  complete sched spec workers item event = (sched', done) → fatal_error done = None →
  emit done = true ∧ sched_error sched' = sched_error sched
  ∧ active sched' = usize_sub (active sched) 1
  ∧ item_path <$> todo sched' = (item_path <$> todo sched) ++ children (item_path item) event.
Proof.
  unfold complete. intros Hc Hf. destruct event as [drv|attr path attrs|err].
  - destruct (event_disposition _ _ _); simplify_eq/=. by rewrite app_nil_r.
  - simplify_eq/=. split_and!; [done..|]. rewrite fmap_app. f_equal.
    unfold child_items. by rewrite <-list_fmap_compose.
  - destruct (e_fatal err); simplify_eq/=. by rewrite app_nil_r.
Qed.

Lemma complete_todo sched spec workers item event sched' done :
  complete sched spec workers item event = (sched', done) →
  item_path <$> todo sched' = item_path <$> todo sched
  ∨ item_path <$> todo sched' = (item_path <$> todo sched) ++ children (item_path item) event.
Proof.
  intros Hc. destruct (fatal_error done) eqn:Hf; [left|right].
  - unfold complete in Hc. destruct event as [drv|attr path attrs|err]; simplify_eq/=.
    + by destruct (event_disposition _ _ _); simplify_eq/=.
    + by destruct (e_fatal err); simplify_eq/=.
  - by destruct (complete_continues _ _ _ _ _ _ _ Hc Hf) as (_ & _ & _ & ?).
Qed.

Section coordination.
Context (display : Report → string).
Context (on_event : list Event → Event → Result unit).
Context (item_timeout_seconds : N).
Context (answers : WorkerSpec → list string → option (Result (Event * WorkerStatus)) → Prop).

Abbreviation task_step := (task_step display item_timeout_seconds answers).
Abbreviation step := (step display on_event item_timeout_seconds answers).
Abbreviation reachable := (reachable display on_event item_timeout_seconds answers).
Abbreviation task_report := (task_report item_timeout_seconds).
Abbreviation handle_message := (handle_message display on_event).
Abbreviation result_event := (result_event display).

(** ** One step of a task *)

Record task_effect (w : WorkerSlot) (m : option WorkerMessage) (w' : WorkerSlot) : Prop := {
  te_spec : ws_spec w' = ws_spec w;
  te_items : slot_items w' ++ option_list (m ≫= msg_item) ≡ₚ slot_items w;
  te_tokens : slot_tokens w' + length (option_list (m ≫= msg_sender)) ≤ slot_tokens w;
  te_full : leaving w' = false → leaving w = false ∧
    slot_tokens w' + length (option_list (m ≫= msg_sender)) = slot_tokens w;
  te_sender : ∀ id, m ≫= msg_sender = Some id → id = spec_id (ws_spec w);
  te_inbox : ∀ c, c ∈ ws_inbox w' → c ∈ ws_inbox w;
  te_exit : has_exited (ws_task w') = true →
    Stop ∈ ws_inbox w ∨ from_option is_final false m = true;
}.

Lemma task_step_effect cancel w m w' : task_step cancel w m w' → task_effect w m w'.
Proof.
  intros H. destruct H; destruct w as [spec inb task]; simpl in *; subst;
    (split; unfold slot_tokens, slot_items, unannounced, leaving; simpl;
     [done|..|intros c Hc; simpl in *; rewrite ?elem_of_cons; auto|simpl; rewrite ?elem_of_cons; auto]);
    repeat match goal with
    | H : is_forked _ = _ |- _ => rewrite H
    | c : WorkerCommand |- _ => destruct c
    | |- context [is_forked ?s] => destruct (is_forked s)
    end; simpl in *; fold_lists;
    rewrite ?app_nil_r, ?length_app; simpl; try done; try lia; try solve_Permutation.
  all: intros; split_and?; try done; try lia; congruence.
Qed.

(** ** The invariant *)

Section invariant.
Context (specs : list WorkerSpec).
Context (specs_ids : ∀ i spec, specs !! i = Some spec → spec_id spec = i).
Context (specs_small : (N.of_nat (length specs) < usize_modulus)%N).

(** The event of an answer, as the coordinator records it. *)
Definition answer_event (spec : WorkerSpec) (path : list string)
    (answer : option (Result (Event * WorkerStatus))) : Event :=
  result_event spec (mkWorkerResult (spec_id spec) (mkWorkItem path)
    (task_report spec (mkWorkItem path) answer).1).

(** What the evaluators of the pool may produce at a path. *)
Definition produces (path : list string) (event : Event) : Prop :=
  ∃ spec answer, spec ∈ specs ∧ answers spec path answer
    ∧ event = answer_event spec path answer.

(** A report in flight comes from an answer of its worker. *)
Definition justified (spec : WorkerSpec) (item : WorkItem) (event : Result Event) : Prop :=
  ∃ answer, answers spec (item_path item) answer
    ∧ event = (task_report spec item answer).1.

Record core (s : Sys) : Prop := {
  core_specs : ws_spec <$> s_workers s = specs;
  core_error : sched_error (s_sched s) = None;
  core_active : active (s_sched s) = N.of_nat (length (inflight s));
  core_tokens : ∀ id w, s_workers s !! id = Some w → tokens s id w ≤ 1;
  core_idle : ∀ id, id ∈ s_idle s → id < length specs;
  core_sum : all_tokens s ≤ length specs;
  core_full : (∀ w, w ∈ s_workers s → leaving w = false) → all_tokens s = length specs;
  core_ready : ∀ id, MsgReady id ∈ s_queue s → id < length specs;
  core_results : ∀ r, MsgResult r ∈ s_queue s → ∃ spec,
    specs !! wr_worker_id r = Some spec ∧ justified spec (wr_item r) (wr_event r);
  core_tasks : ∀ w item event status, w ∈ s_workers s →
    ws_task w = Reporting item event status → justified (ws_spec w) item event;
  core_nostop : ∀ w, w ∈ s_workers s → Stop ∉ ws_inbox w;
  core_exited : ∀ w, w ∈ s_workers s → has_exited (ws_task w) = true →
    is_running s = true → ∃ m, m ∈ s_queue s ∧ is_final m = true;
  core_walk : ∃ w, rtc (visit produces) walk_init w
    ∧ pending w ≡ₚ pending_paths s ∧ visited w = s_emitted s;
}.

Lemma core_workers s : core s → length (s_workers s) = length specs.
Proof. intros H. by rewrite <-(core_specs s H), length_fmap. Qed.

Lemma core_spec_lookup s id w :
  core s → s_workers s !! id = Some w → specs !! id = Some (ws_spec w) ∧ spec_id (ws_spec w) = id.
Proof.
  intros H Hw. assert (specs !! id = Some (ws_spec w)) as Hs.
  { by rewrite <-(core_specs s H), list_lookup_fmap, Hw. }
  split; [done|by apply specs_ids].
Qed.

Lemma core_worker_lookup s id : core s → id < length specs → is_Some (s_workers s !! id).
Proof. intros H Hid. apply lookup_lt_is_Some. by rewrite core_workers. Qed.

Lemma sum_slot_items l : length (concat (slot_items <$> l)) ≤ sum_list_with slot_tokens l.
Proof.
  induction l as [|w l IH]; simpl; [done|]. rewrite length_app.
  assert (length (slot_items w) ≤ slot_tokens w) by (unfold slot_tokens; lia).
  fold_lists. lia.
Qed.

Lemma msg_items_senders q : length (omap msg_item q) ≤ length (omap msg_sender q).
Proof. induction q as [|[] q IH]; simpl; fold_lists; lia. Qed.

Lemma inflight_tokens s : length (inflight s) + length (s_idle s) ≤ all_tokens s.
Proof.
  unfold inflight, all_tokens. rewrite length_app.
  pose proof (sum_slot_items (s_workers s)). pose proof (msg_items_senders (s_queue s)). lia.
Qed.

(** The accounting never wraps: [active] is the number of items in flight. *)
Lemma active_bound s : core s → (active (s_sched s) ≤ N.of_nat (length specs))%N.
Proof.
  intros H. rewrite (core_active s H). pose proof (core_sum s H).
  pose proof (inflight_tokens s). lia.
Qed.

(** ** Replacing one worker's slot *)

Lemma insert_slot_specs s id w w' :
  s_workers s !! id = Some w → ws_spec w' = ws_spec w →
  ws_spec <$> <[id := w']> (s_workers s) = ws_spec <$> s_workers s.
Proof.
  intros Hw Hs. rewrite list_fmap_insert, Hs. apply list_insert_id.
  by rewrite list_lookup_fmap, Hw.
Qed.

Lemma elem_of_insert_slot (l : list WorkerSlot) id w' x :
  x ∈ <[id := w']> l → x = w' ∨ x ∈ l.
Proof.
  intros (i & Hi)%list_elem_of_lookup. apply list_lookup_insert_Some in Hi
    as [(-> & -> & _)|[_ Hi]]; [by left|right]. by eapply list_elem_of_lookup_2.
Qed.

Lemma elem_of_insert_keep (l : list WorkerSlot) id w w' x :
  l !! id = Some w → x ∈ l → x = w ∨ x ∈ <[id := w']> l.
Proof.
  intros Hw (i & Hi)%list_elem_of_lookup. destruct (decide (i = id)) as [->|Hne].
  - left. congruence.
  - right. apply list_elem_of_lookup. exists i. by rewrite list_lookup_insert_ne by done.
Qed.

Lemma task_step_reporting cancel w m w' item event status :
  task_step cancel w m w' → ws_task w' = Reporting item event status →
  justified (ws_spec w') item event.
Proof.
  intros H. destruct H; destruct w as [spec inb task]; simpl in *; intros Ht; simplify_eq.
  exists answer. done.
Qed.

Lemma task_step_result cancel w m w' r :
  task_step cancel w m w' → m = Some (MsgResult r) →
  ∃ status, ws_task w = Reporting (wr_item r) (wr_event r) status
    ∧ wr_worker_id r = spec_id (ws_spec w).
Proof. intros H Hm. destruct H; simplify_eq/=. eauto. Qed.

(** ** The steps of the tasks *)

Definition task_done (s : Sys) (id : nat) (w' : WorkerSlot) (m : option WorkerMessage) : Sys :=
  s <| s_workers := <[id := w']> (s_workers s) |> <| s_queue := s_queue s ++ option_list m |>.

Lemma task_done_inflight s id w w' m :
  s_workers s !! id = Some w → task_effect w m w' →
  inflight (task_done s id w' m) ≡ₚ inflight s.
Proof.
  intros Hw He. unfold inflight. simpl. rewrite omap_app, omap_option_list.
  apply (Permutation_app_inv_r (slot_items w)).
  rewrite <-(te_items _ _ _ He) at 2.
  pose proof (concat_insert slot_items _ _ _ w' Hw) as Hc.
  transitivity (concat (slot_items <$> <[id:=w']> (s_workers s)) ++ slot_items w
    ++ omap msg_item (s_queue s) ++ option_list (m ≫= msg_item)); [solve_Permutation|].
  rewrite (assoc (++)), Hc. solve_Permutation.
Qed.

Lemma task_done_all_tokens s id w w' m :
  s_workers s !! id = Some w → task_effect w m w' →
  all_tokens (task_done s id w' m) + slot_tokens w
  = all_tokens s + slot_tokens w' + length (option_list (m ≫= msg_sender)).
Proof.
  intros Hw He. unfold all_tokens. simpl. rewrite omap_app, omap_option_list, length_app.
  pose proof (sum_insert slot_tokens _ _ _ w' Hw). lia.
Qed.

Lemma task_done_tokens s id w w' m :
  core s → s_workers s !! id = Some w → task_effect w m w' →
  ∀ id' x, s_workers (task_done s id w' m) !! id' = Some x → tokens (task_done s id w' m) id' x ≤ 1.
Proof.
  intros H Hw He id' x Hx. simpl in Hx. unfold tokens. simpl.
  rewrite omap_app, omap_option_list, count_app.
  destruct (core_spec_lookup _ _ _ H Hw) as [_ Hid].
  pose proof (te_sender _ _ _ He) as Hsend. rewrite Hid in Hsend.
  apply list_lookup_insert_Some in Hx as [(<- & -> & _)|[Hne Hx]].
  - pose proof (core_tokens _ H _ _ Hw) as Ht. unfold tokens in Ht.
    pose proof (te_tokens _ _ _ He).
    assert (count id (option_list (m ≫= msg_sender)) ≤ length (option_list (m ≫= msg_sender)))
      by (unfold count; apply length_filter). lia.
  - pose proof (core_tokens _ H _ _ Hx) as Ht. unfold tokens in Ht.
    destruct (m ≫= msg_sender) as [x'|] eqn:Em; simpl; [|unfold count at 3; simpl; lia].
    rewrite count_single, bool_decide_false; [simpl; lia|]. rewrite (Hsend x') by done. done.
Qed.

Lemma core_task_step s id w m w' :
  core s → is_running s = true → s_workers s !! id = Some w →
  task_step (s_cancel s) w m w' → core (task_done s id w' m).
Proof.
  intros H Hrun Hw Hstep. pose proof (task_step_effect _ _ _ _ Hstep) as He.
  pose proof (task_done_inflight s id w w' m Hw He) as Hin.
  pose proof (task_done_all_tokens s id w w' m Hw He) as Hall.
  pose proof (list_elem_of_lookup_2 _ _ _ Hw) as Hwin.
  destruct (core_spec_lookup _ _ _ H Hw) as [Hspec Hid].
  split; [| | | | |change (all_tokens (task_done s id w' m) ≤ length specs)| |
    simpl..|].
  - simpl. rewrite (insert_slot_specs _ _ w) by (done || apply He). apply H.
  - apply H.
  - change (active (s_sched s) = N.of_nat (length (inflight (task_done s id w' m)))).
    by rewrite (core_active s H), Hin.
  - by apply (task_done_tokens s id w).
  - apply H.
  - pose proof (te_tokens _ _ _ He). pose proof (core_sum s H). lia.
  - intros Hnone. destruct (te_full _ _ _ He) as [Hl Heq].
    { apply Hnone. apply list_elem_of_insert. by eapply lookup_lt_Some. }
    rewrite <-(core_full s H); [lia|]. intros x Hx.
    destruct (elem_of_insert_keep _ _ _ w' _ Hw Hx) as [->|Hx']; [done|by apply Hnone].
  - intros i [Hi|Hi]%elem_of_app; [by apply (core_ready s H)|]. destruct m as [m|]; [|by apply elem_of_nil in Hi].
    apply list_elem_of_singleton in Hi as <-.
    rewrite (te_sender _ _ _ He i eq_refl), Hid. by eapply lookup_lt_Some.
  - intros r [Hr|Hr]%elem_of_app; [by apply (core_results s H)|]. destruct m as [m|]; [|by apply elem_of_nil in Hr].
    apply list_elem_of_singleton in Hr as <-.
    destruct (task_step_result _ _ _ _ _ Hstep eq_refl) as (status & Ht & ->).
    rewrite Hid. exists (ws_spec w). split; [done|]. by apply (core_tasks s H _ _ _ status).
  - intros x item event status [->|Hx]%elem_of_insert_slot Ht; [|by eapply core_tasks].
    by apply (task_step_reporting _ _ _ _ _ _ _ Hstep Ht).
  - intros x [->|Hx]%elem_of_insert_slot; [|by apply (core_nostop s H)].
    intros Hstop%(te_inbox _ _ _ He). by apply (core_nostop s H w).
  - intros x [->|Hx]%elem_of_insert_slot Hex _.
    + destruct (te_exit _ _ _ He Hex) as [Hstop|Hfin]; [by apply (core_nostop s H w) in Hstop|].
      destruct m as [m|]; [|done]. exists m. split; [|done].
      apply elem_of_app. right. by left.
    + destruct (core_exited s H x Hx Hex Hrun) as (m' & Hm' & Hf). exists m'.
      split; [|done]. apply elem_of_app. by left.
  - destruct (core_walk s H) as (wk & Hwk & Hp & Hv). exists wk. split; [done|]. split; [|done].
    rewrite Hp. unfold pending_paths. by rewrite Hin.
Qed.

(** ** The coordinator's dispatch *)

Definition with_inbox (w : WorkerSlot) (item : WorkItem) : WorkerSlot :=
  w <| ws_inbox := ws_inbox w ++ [Work item] |>.

Lemma with_inbox_items w item : slot_items (with_inbox w item) ≡ₚ item :: slot_items w.
Proof. unfold slot_items. simpl. rewrite omap_app. simpl. solve_Permutation. Qed.

Lemma with_inbox_tokens w item : slot_tokens (with_inbox w item) = S (slot_tokens w).
Proof. unfold slot_tokens. by rewrite (with_inbox_items w item). Qed.

(** A dispatch: the item leaves the queue for the inbox of an idle worker. *)
Definition give (s : Sys) (item : WorkItem) (rest : list WorkItem) (id : nat) (w : WorkerSlot)
    (idle : list nat) : Sys :=
  s <| s_sched := mkScheduler rest (usize_add (active (s_sched s)) 1) (sched_error (s_sched s)) |>
    <| s_workers := <[id := with_inbox w item]> (s_workers s) |> <| s_idle := idle |>.

Lemma give_inflight s item rest id w idle :
  s_workers s !! id = Some w → inflight (give s item rest id w idle) ≡ₚ item :: inflight s.
Proof.
  intros Hw. unfold inflight. simpl. apply (Permutation_app_inv_r (slot_items w)).
  pose proof (concat_insert slot_items _ _ _ (with_inbox w item) Hw) as Hc.
  rewrite with_inbox_items in Hc.
  transitivity ((concat (slot_items <$> <[id:=with_inbox w item]> (s_workers s)) ++ slot_items w)
    ++ omap msg_item (s_queue s)); [solve_Permutation|].
  rewrite Hc. solve_Permutation.
Qed.

Lemma usize_add_small a b : (a + b < usize_modulus)%N → usize_add a b = (a + b)%N.
Proof. apply N.mod_small. Qed.

Lemma usize_sub_small a b : (b ≤ a)%N → (a < usize_modulus)%N → usize_sub a b = (a - b)%N.
Proof.
  intros Hb Ha. unfold usize_sub, usize_wrap. rewrite (N.mod_small b) by lia.
  replace (a + usize_modulus - b)%N with (a - b + 1 * usize_modulus)%N by lia.
  rewrite N.Div0.mod_add. apply N.mod_small. lia.
Qed.

Lemma core_give s id idle item rest w :
  core s → s_idle s = id :: idle → todo (s_sched s) = item :: rest →
  s_workers s !! id = Some w → core (give s item rest id w idle).
Proof.
  intros H Hidle Htodo Hw.
  pose proof (give_inflight s item rest id w idle Hw) as Hin.
  pose proof (inflight_tokens s) as Hbound. rewrite Hidle in Hbound. simpl in Hbound.
  pose proof (core_sum s H) as Hsum. pose proof (list_elem_of_lookup_2 _ _ _ Hw) as Hwin.
  assert (all_tokens (give s item rest id w idle) = all_tokens s) as Hall.
  { unfold all_tokens. simpl. rewrite Hidle. simpl.
    pose proof (sum_insert slot_tokens _ _ _ (with_inbox w item) Hw) as Hs.
    rewrite with_inbox_tokens in Hs. lia. }
  split.
  - simpl. rewrite (insert_slot_specs _ _ w) by done. apply H.
  - apply H.
  - rewrite Hin. simpl. rewrite (core_active s H), usize_add_small by lia. simpl. lia.
  - intros id' x Hx. simpl in Hx. unfold tokens. simpl.
    apply list_lookup_insert_Some in Hx as [(<- & <- & _)|[Hne Hx]].
    + pose proof (core_tokens s H _ _ Hw) as Ht. unfold tokens in Ht.
      rewrite Hidle, count_cons, bool_decide_true in Ht by done.
      rewrite with_inbox_tokens. simpl in Ht. lia.
    + pose proof (core_tokens s H _ _ Hx) as Ht. unfold tokens in Ht.
      rewrite Hidle, count_cons in Ht. lia.
  - intros i Hi. apply (core_idle s H). rewrite Hidle. by right.
  - lia.
  - intros Hnone. rewrite Hall. apply (core_full s H). intros x Hx.
    destruct (elem_of_insert_keep _ _ _ (with_inbox w item) _ Hw Hx) as [->|Hx'].
    + apply (Hnone (with_inbox w item)). apply list_elem_of_insert. by eapply lookup_lt_Some.
    + by apply Hnone.
  - apply (core_ready s H).
  - apply (core_results s H).
  - intros x i ev st [->|Hx]%elem_of_insert_slot Ht; [by apply (core_tasks s H w i ev st)|].
    by eapply (core_tasks s H).
  - intros x [->|Hx]%elem_of_insert_slot; [|by apply (core_nostop s H)].
    simpl. intros [Hs|Hs%list_elem_of_singleton]%elem_of_app; [|done].
    by apply (core_nostop s H w).
  - intros x [->|Hx]%elem_of_insert_slot Hex Hr; [by apply (core_exited s H w)|].
    by apply (core_exited s H x).
  - destruct (core_walk s H) as (wk & Hwk & Hp & Hv). exists wk. split; [done|]. split; [|done].
    rewrite Hp. unfold pending_paths. rewrite Hin, Htodo. simpl. fold_lists.
    rewrite !fmap_app. simpl. solve_Permutation.
Qed.

Lemma core_same_tokens s s' :
  core s → s_sched s' = s_sched s → s_workers s' = s_workers s → s_queue s' = s_queue s →
  s_emitted s' = s_emitted s → (is_running s' = true → is_running s = true) →
  s_idle s' ≡ₚ s_idle s → core s'.
Proof.
  intros H Hsched Hw Hq He Hrun Hidle.
  assert (inflight s' = inflight s) as Hin by (unfold inflight; by rewrite Hw, Hq).
  assert (all_tokens s' = all_tokens s) as Hall
    by (unfold all_tokens; by rewrite Hw, Hq, Hidle).
  assert (∀ id w, tokens s' id w = tokens s id w) as Htok
    by (intros; unfold tokens, count; by rewrite Hq, Hidle).
  assert (pending_paths s' = pending_paths s) as Hp
    by (unfold pending_paths; by rewrite Hsched, Hin).
  destruct H. split; rewrite ?Hsched, ?Hw, ?Hq, ?He, ?Hin, ?Hall, ?Hp; try done.
  - intros. rewrite Htok. eauto.
  - intros id. rewrite Hidle. auto.
  - intros w Hw' Hex Hr. apply core_exited0 with w; auto.
Qed.

(** A run that may end as completed: nothing is pending. *)
Definition completed_ok (s : Sys) : Prop :=
  ∃ w, rtc (visit produces) walk_init w ∧ walk_done w ∧ visited w = s_emitted s.

Lemma core_completed s :
  core s → todo (s_sched s) = [] → active (s_sched s) = 0%N → completed_ok s.
Proof.
  intros H Ht Ha. destruct (core_walk s H) as (w & Hw & Hp & Hv).
  exists w. split; [done|]. split; [|done]. unfold walk_done.
  unfold pending_paths in Hp. rewrite Ht in Hp. rewrite (core_active s H) in Ha.
  destruct (inflight s); [|done]. by apply Permutation_nil_r.
Qed.

(** The one error of a dispatch: the task of an idle worker has ended. *)
Definition send_error (err : Report) : Prop :=
  ∃ label, err = context ("sending work to worker " +:+ label) (report "channel closed").

Lemma dispatch_loop_core s n d :
  core (set_dispatched s d) → n ≤ length (ds_idle d) →
  ∃ d' r, dispatch_loop n d = Some (d', r)
    ∧ (r = Ok DispatchRunning → core (set_dispatched s d')
         ∧ (todo (ds_sched d) = [] → todo (ds_sched d') = [])
         ∧ (todo (ds_sched d') ≠ [] → length (ds_idle d') + n = length (ds_idle d)))
    ∧ (r = Ok DispatchDone → completed_ok s)
    ∧ (∀ err, r = Err err → send_error err).
Proof.
  revert d. induction n as [|n IH]; intros d H Hn; simpl.
  { eexists _, _. split; [done|]. split; [intros _|done].
    split; [done|]. split; [done|lia]. }
  destruct (ds_idle d) as [|id idle] eqn:Hidle; [simpl in Hn; lia|].
  destruct (core_worker_lookup _ id H) as [w Hw].
  { apply (core_idle _ H). simpl. rewrite Hidle. by left. }
  simpl in Hw. rewrite Hw. simpl. unfold next_for.
  pose proof (core_error _ H) as Herr. simpl in Herr. rewrite Herr.
  destruct (todo (ds_sched d)) as [|item rest] eqn:Htodo.
  - destruct (active (ds_sched d) =? 0)%N eqn:Ha.
    + eexists _, _. split; [done|]. split; [done|]. split; [|done]. intros _.
      apply N.eqb_eq in Ha. by apply core_completed in H.
    + assert (core (set_dispatched s (mkDispatched (ds_sched d) (ds_workers d) (idle ++ [id]))))
        as H'.
      { apply (core_same_tokens _ _ H); simpl; try done. rewrite Hidle. solve_Permutation. }
      destruct (IH _ H') as (d' & r & Hd & Hr & Hdone).
      { simpl. rewrite length_app. simpl in *. lia. }
      exists d', r. split; [done|]. split; [|done]. intros Hrun.
      destruct (Hr Hrun) as (Hc & Hnil & _). split; [done|]. specialize (Hnil Htodo).
      by split.
  - unfold send_command. destruct (rx_open (ws_task w)); simpl;
      [|eexists _, _; split; [done|]; split_and!; [done..|];
       intros ? [= <-]; by eexists].
    destruct (IH (mkDispatched ((ds_sched d) <| todo := rest |>
        <| active := usize_add (active (ds_sched d)) 1 |>)
        (<[id := with_inbox w item]> (ds_workers d)) idle)) as (d' & r & Hd & Hr & Hdone).
    + by apply (core_give (set_dispatched s d) id idle item rest w).
    + simpl in *. lia.
    + exists d', r. split; [done|]. split; [|done]. intros Hrun.
      destruct (Hr Hrun) as (Hc & _ & Ht). split; [done|]. split; [done|]. intros Hne.
      specialize (Ht Hne). simpl in *. lia.
Qed.

Context (specs_nonempty : specs ≠ []).

Definition sys_inv (s : Sys) : Prop :=
  match s_phase s with
  | Looping => core s
  | Waiting => core s ∧ is_done (s_sched s) = false
      ∧ (active (s_sched s) = 0%N → s_idle s = [])
  | Finished (Ok Completed) => completed_ok s
  | Finished _ => True
  | Panicked => False
  end.

(** A turn never panics or stalls; it fails only on a dead worker's channel. *)
Lemma coordinate_turn_inv s :
  core s → s_phase s = Looping → sys_inv (coordinate_turn s)
    ∧ ∀ err, s_phase (coordinate_turn s) = Finished (Err err) → send_error err.
Proof.
  intros H Hphase. unfold coordinate_turn. destruct (s_cancel s); [done|].
  set (d := mkDispatched _ _ _). unfold dispatch_available.
  destruct (dispatch_loop_core s (length (ds_idle d)) d) as (d' & r & -> & Hrun & Hdone & Herr).
  { by destruct s. }
  { done. }
  destruct r as [[]|err]; [|split; [by apply (Hdone eq_refl)|done]|];
    [|split; [done|intros err' [= <-]; by apply Herr]].
  destruct (Hrun eq_refl) as (Hc & _ & Hidle). cbv zeta.
  destruct (is_done (s_sched (set_dispatched s d'))) eqn:Hd.
  { split; [|done]. unfold is_done in Hd. simpl in *.
    destruct (todo (ds_sched d')) eqn:Ht; [|done]. apply N.eqb_eq in Hd.
    by apply (core_completed _ Hc). }
  assert (active (ds_sched d') = 0%N → ds_idle d' = []) as Hnil.
  { intros Ha. unfold is_done in Hd. simpl in Hd. rewrite Ha in Hd.
    destruct (todo (ds_sched d')) eqn:Ht; [done|].
    apply nil_length_inv. specialize (Hidle ltac:(congruence)). lia. }
  match goal with |- context [if ?b then _ else _] => destruct b eqn:Hstall end.
  - exfalso. apply andb_true_iff in Hstall as [Ha Hl].
    apply negb_true_iff, N.ltb_ge in Ha. simpl in Ha. apply Nat.eqb_eq in Hl. simpl in Hl.
    rewrite Hnil in Hl by lia. pose proof (core_workers _ Hc) as Hw. simpl in Hw.
    rewrite <-Hl in Hw. simpl in Hw. by destruct specs.
  - split; [|done]. split; [|by split].
    apply (core_same_tokens _ _ Hc); try done. intros _. simpl. unfold is_running. simpl.
    by rewrite Hphase.
Qed.

(** ** The coordinator's messages *)

(** A message of a worker returns its turn to the idle queue. *)
Lemma core_return s m queue id s' :
  core s → s_queue s = m :: queue → msg_sender m = Some id →
  s_workers s' = s_workers s → s_idle s' = s_idle s ++ [id] → s_queue s' = queue →
  is_running s = true → id < length specs →
  sched_error (s_sched s') = None → active (s_sched s') = N.of_nat (length (inflight s')) →
  (∃ w, rtc (visit produces) walk_init w
    ∧ pending w ≡ₚ pending_paths s' ∧ visited w = s_emitted s') →
  core s'.
Proof.
  intros H Hq Hm Hw Hidle Hq' Hrun Hid Herr Hact Hwalk.
  assert (all_tokens s' = all_tokens s) as Hall.
  { unfold all_tokens. rewrite Hw, Hidle, Hq', Hq, length_app. simpl. rewrite Hm. simpl.
    fold_lists. lia. }
  assert (∀ x, x ∈ queue → x ∈ s_queue s) as Hsub by (intros x Hx; rewrite Hq; by right).
  destruct H. split; rewrite ?Hw, ?Hq', ?Hall; try done.
  - intros i w Hi. specialize (core_tokens0 i w Hi). unfold tokens in *.
    rewrite Hidle, Hq', count_app, count_single. rewrite Hq in core_tokens0.
    simpl in core_tokens0. rewrite Hm, count_cons in core_tokens0. simpl in *. fold_lists. lia.
  - intros i. rewrite Hidle. intros [Hi|Hi%list_elem_of_singleton]%elem_of_app; [auto|by subst].
  - auto.
  - auto.
  - intros w Hw' Hex Hr. destruct (core_exited0 w Hw' Hex Hrun) as (x & Hx & Hf).
    exists x. split; [|done]. rewrite Hq in Hx. apply elem_of_cons in Hx as [->|Hx]; [|done].
    by destruct m.
Qed.

Lemma inflight_pop s r queue s' :
  s_queue s = MsgResult r :: queue → s_workers s' = s_workers s → s_queue s' = queue →
  inflight s ≡ₚ wr_item r :: inflight s'.
Proof.
  intros Hq Hw Hq'. unfold inflight. rewrite Hq, Hw, Hq'. simpl. fold_lists. solve_Permutation.
Qed.

Lemma handle_message_inv s m queue :
  core s → s_phase s = Waiting → s_queue s = m :: queue →
  sys_inv (handle_message (s <| s_queue := queue |>) m).
Proof.
  intros H Hphase Hq.
  assert (is_running s = true) as Hrun by (unfold is_running; by rewrite Hphase).
  assert (m ∈ s_queue s) as Hm by (rewrite Hq; by left).
  destruct m as [id|r| |error]; [| |done..].
  - simpl. apply (core_return s _ queue id _ H Hq); try done.
    + by apply (core_ready s H).
    + apply H.
    + unfold inflight. simpl. rewrite (core_active s H). unfold inflight. by rewrite Hq.
    + destruct (core_walk s H) as (w & ? & Hp & ?). exists w. split; [done|]. split; [|done].
      rewrite Hp. unfold pending_paths, inflight. simpl. by rewrite Hq.
  - destruct (core_results s H r Hm) as (spec & Hspec & Hjust).
    pose proof (lookup_lt_Some _ _ _ Hspec) as Hid.
    destruct (core_worker_lookup s _ H Hid) as [slot Hslot].
    destruct (core_spec_lookup s _ _ H Hslot) as [Hspec' _].
    rewrite Hspec' in Hspec. injection Hspec as <-.
    unfold handle_message. simpl. rewrite Hslot.
    destruct (complete _ _ _ _ _) as [sched completed] eqn:Hcomplete.
    destruct (fatal_error completed) eqn:Hfatal; [by repeat case_match|].
    destruct (complete_continues _ _ _ _ _ _ _ Hcomplete Hfatal) as (-> & He & Ha & Ht).
    destruct (with_context _ _); [|done]. simpl.
    set (s' := mkSys _ _ _ _ _ _ _).
    assert (inflight s ≡ₚ wr_item r :: inflight s') as Hin
      by (by apply (inflight_pop s r queue)).
    apply (core_return s _ queue (wr_worker_id r) s' H Hq); try done.
    + simpl. rewrite He. apply H.
    + simpl. rewrite Ha, (core_active s H), Hin. simpl length.
      pose proof (active_bound s H). rewrite (core_active s H), Hin in H0.
      simpl in H0. rewrite usize_sub_small by lia. lia.
    + destruct (core_walk s H) as (w & Hw & Hp & Hv).
      exists (mkWalk (pending_paths s') (s_emitted s')). split; [|done].
      eapply rtc_r; [done|]. destruct Hjust as (answer & Hans & Hev).
      apply (visit_one _ _ (item_path (wr_item r))
        (item_path <$> (todo (s_sched s) ++ inflight s')) (result_event (ws_spec slot) r)).
      * rewrite Hp. unfold pending_paths. rewrite Hin, !fmap_app. simpl. solve_Permutation.
      * exists (ws_spec slot), answer. split; [by eapply list_elem_of_lookup_2|].
        split; [done|]. unfold answer_event, Scheduler.result_event. simpl. rewrite Hev.
        by destruct r as [? [path] ?].
      * simpl. unfold pending_paths. simpl. rewrite !fmap_app, Ht. solve_Permutation.
      * simpl. by rewrite Hv.
Qed.

(** ** Reachable states *)

Lemma initial_idle_lookup id :
  id ∈ initial_idle specs ↔ ∃ spec, specs !! id = Some spec ∧ is_forked spec = false.
Proof.
  unfold initial_idle. rewrite list_elem_of_filter, elem_of_seq. split.
  - intros [Hf [_ Hlt]]. destruct (lookup_lt_is_Some_2 specs id Hlt) as [spec Hs].
    rewrite Hs in Hf. eauto.
  - intros (spec & Hs & Hf). rewrite Hs. split; [done|].
    split; [lia|]. simpl. by eapply lookup_lt_Some.
Qed.

Lemma initial_idle_nodup : NoDup (initial_idle specs).
Proof. apply NoDup_filter, NoDup_seq. Qed.

Lemma count_nodup id l : NoDup l → count id l ≤ 1.
Proof.
  induction 1 as [|x l Hx _ IH]; [unfold count; simpl; lia|]. rewrite count_cons.
  case_bool_decide; subst; simpl; [|lia].
  assert (count x l = 0); [|lia]. unfold count. apply length_zero_iff_nil.
  apply elem_of_nil_inv. intros y [-> Hy]%list_elem_of_filter. done.
Qed.

Lemma initial_tokens_sum (l : list WorkerSpec) k :
  (∀ i spec, l !! i = Some spec → specs !! (k + i) = Some spec) →
  length (filter (λ id, from_option is_forked true (specs !! id) = false) (seq k (length l)))
  + sum_list_with slot_tokens ((λ spec, mkWorkerSlot spec [] Connecting) <$> l) = length l.
Proof.
  revert k. induction l as [|spec l IH]; intros k Hl; [done|]. simpl. fold_lists.
  rewrite filter_cons. pose proof (Hl 0 spec eq_refl) as Hk. rewrite Nat.add_0_r in Hk.
  rewrite Hk. simpl.
  assert (∀ i x, l !! i = Some x → specs !! (S k + i) = Some x) as Hl'.
  { intros i x Hi. specialize (Hl (S i) x Hi). by rewrite Nat.add_succ_r in Hl. }
  specialize (IH (S k) Hl'). unfold slot_tokens at 1, unannounced. simpl.
  destruct (is_forked spec) eqn:Hf; case_decide; simpl; try congruence; lia.
Qed.

Lemma core_init cancel : core (sys_init specs cancel).
Proof.
  assert (concat (slot_items <$> ((λ spec, mkWorkerSlot spec [] Connecting) <$> specs)) = [])
    as Hitems by (clear; induction specs as [|x l IH]; [done|exact IH]).
  assert (all_tokens (sys_init specs cancel) = length specs) as Hall.
  { unfold all_tokens, initial_idle. simpl.
    pose proof (initial_tokens_sum specs 0 ltac:(done)) as Hsum.
    rewrite Nat.add_0_r. exact Hsum. }
  assert (∀ w, w ∈ s_workers (sys_init specs cancel) → ∃ spec, w = mkWorkerSlot spec [] Connecting)
    as Hslots by (intros w (spec & -> & _)%list_elem_of_fmap; eauto).
  split; simpl; try done.
  - rewrite <-list_fmap_compose. by apply list_fmap_id.
  - unfold inflight. simpl. by rewrite Hitems.
  - intros id w Hw. rewrite list_lookup_fmap in Hw.
    destruct (specs !! id) as [spec|] eqn:Hs; simplify_eq/=.
    unfold tokens, slot_tokens, unannounced. simpl.
    destruct (is_forked spec) eqn:Hf; simpl.
    + assert (count id (initial_idle specs) = 0); [|unfold count in *; simpl; lia].
      unfold count. apply length_zero_iff_nil, elem_of_nil_inv.
      intros i [<- Hi]%list_elem_of_filter. apply initial_idle_lookup in Hi as (x & Hx & Hfx).
      congruence.
    + pose proof (count_nodup id _ initial_idle_nodup). unfold count in *. simpl. lia.
  - intros id (spec & Hs & _)%initial_idle_lookup. by eapply lookup_lt_Some.
  - by rewrite Hall.
  - intros r Hr. by apply elem_of_nil in Hr.
  - intros r Hr. by apply elem_of_nil in Hr.
  - intros w item event status (spec & ->)%Hslots. done.
  - intros w (spec & ->)%Hslots. apply not_elem_of_nil.
  - intros w (spec & ->)%Hslots. done.
  - exists walk_init. split; [apply rtc_refl|]. split; [|done].
    unfold pending_paths, inflight. simpl. by rewrite Hitems.
Qed.

Lemma step_inv s s' : sys_inv s → step s s' → sys_inv s'.
Proof.
  intros H Hstep. destruct Hstep as [s Hp|s m q Hp Hq|s Hp _ _|s Hrun Hc|s id w m w' Hrun Hw Ht _].
  - unfold sys_inv in H. rewrite Hp in H. by apply coordinate_turn_inv.
  - unfold sys_inv in H. rewrite Hp in H. apply handle_message_inv; [by destruct H|done..].
  - done.
  - unfold sys_inv, is_running in *. simpl. destruct (s_phase s) eqn:Hp; try done.
    + apply (core_same_tokens s); try done. intros _. unfold is_running. by rewrite Hp.
    + destruct H as (H & ? & ?). split; [|done].
      apply (core_same_tokens s); try done. intros _. unfold is_running. by rewrite Hp.
  - change (sys_inv (task_done s id w' m)). unfold sys_inv in *.
    change (s_phase (task_done s id w' m)) with (s_phase s).
    assert (core s → core (task_done s id w' m)) as Hcore by (intros; by apply (core_task_step s id w m w')).
    unfold is_running in Hrun. destruct (s_phase s); try done; [by apply Hcore|].
    destruct H as (H & ? & ?). split; [by apply Hcore|done].
Qed.

Lemma reachable_inv s : reachable specs s → sys_inv s.
Proof.
  intros [cancel Hr]. revert s Hr. apply rtc_ind_r; [apply core_init|].
  intros s s' _ Hstep H. by eapply step_inv.
Qed.

Lemma reachable_core s : reachable specs s → is_running s = true → core s.
Proof.
  intros H%reachable_inv Hrun. unfold sys_inv, is_running in *.
  destruct (s_phase s); try done. by destruct H.
Qed.

Lemma reachable_completed s :
  reachable specs s → s_phase s = Finished (Ok Completed) → completed_ok s.
Proof. intros H%reachable_inv Hp. unfold sys_inv in H. by rewrite Hp in H. Qed.

Lemma produces_path path event :
  (∀ spec path event status, answers spec path (Some (Ok (event, status))) →
     event_attr_path event = path) →
  produces path event → event_attr_path event = path.
Proof.
  intros Hpaths (spec & answer & _ & Hans & ->).
  unfold answer_event, Scheduler.result_event, Scheduler.task_report, work_with_timeout.
  destruct answer as [[[e st]|err]|]; simpl; [by eapply Hpaths|done..].
Qed.
End invariant.

(** ** An executable scheduler *)

(** The move of a healthy task, given the evaluator's answer to its item. *)
Definition task_move (cancel : bool) (w : WorkerSlot)
    (answer : WorkItem → option (Result (Event * WorkerStatus)))
  : option (option WorkerMessage * WorkerSlot) :=
  match ws_task w with
  | Connecting =>
      Some (None, w <| ws_task := if is_forked (ws_spec w) then Announcing else Receiving |>)
  | Announcing =>
      Some (Some (MsgReady (spec_id (ws_spec w))), w <| ws_task := Receiving |>)
  | Receiving =>
      match ws_inbox w with
      | [] => None
      | command :: inbox =>
          Some (None, w <| ws_inbox := inbox |> <| ws_task :=
            if cancel then Cancelling (command_item command)
            else match command with Work item => Working item | Stop => Exited (Ok tt) None end |>)
      end
  | Working item =>
      let r := task_report (ws_spec w) item (answer item) in
      Some (None, w <| ws_task := Reporting item r.1 r.2 |>)
  | Reporting item event status =>
      Some (Some (MsgResult (mkWorkerResult (spec_id (ws_spec w)) item event)),
            w <| ws_task := Reported (is_err event) status |>)
  | Reported failed status =>
      Some (None, w <| ws_task :=
        if (failed && negb cancel) || bool_decide (status = Restart) then Replacing
        else Receiving |>)
  | Replacing => Some (None, w <| ws_task := Receiving |>)
  | Cancelling i => Some (Some MsgCancelled, w <| ws_task := Exited (Ok tt) i |>)
  | Exiting err i => Some (Some (MsgExited (display err)), w <| ws_task := Exited (Err err) i |>)
  | Exited _ _ => None
  end.

Lemma task_move_sound cancel w answer m w' :
  (∀ item, ws_task w = Working item → answers (ws_spec w) (item_path item) (answer item)) →
  task_move cancel w answer = Some (m, w') → task_step cancel w m w'.
Proof.
  intros Ha. unfold task_move. destruct (ws_task w) eqn:Ht.
  - intros [= <- <-]. destruct (is_forked _) eqn:Hf; by constructor.
  - intros [= <- <-]. by constructor.
  - destruct (ws_inbox w) as [|command inbox] eqn:Hi; [done|]. intros [= <- <-].
    destruct cancel; [by apply (task_receive_cancelled _ _ _ true w command inbox)|].
    destruct command; [by apply (task_receive_work _ _ _ false w)|].
    by apply (task_receive_stop _ _ _ false w).
  - intros [= <- <-]. apply task_answered; auto.
  - intros [= <- <-]. by eapply task_send_result.
  - intros [= <- <-].
    destruct (_ || _) eqn:Hb; [by eapply task_replace|by eapply task_continue].
  - intros [= <- <-]. by constructor.
  - intros [= <- <-]. by constructor.
  - intros [= <- <-]. by constructor.
  - done.
Qed.

(** The first move in a list of workers. *)
Fixpoint first_move (cancel : bool) (eval : WorkerSpec → WorkItem → option (Result (Event * WorkerStatus)))
    (id : nat) (l : list WorkerSlot) : option (nat * option WorkerMessage * WorkerSlot) :=
  match l with
  | [] => None
  | w :: l =>
      match task_move cancel w (eval (ws_spec w)) with
      | Some (m, w') => Some (id, m, w')
      | None => first_move cancel eval (S id) l
      end
  end.

(** One step of the system under a deterministic schedule: the coordinator
    while it can, else the first worker that can move. *)
Definition drive (eval : WorkerSpec → WorkItem → option (Result (Event * WorkerStatus))) (s : Sys)
  : Sys :=
  match s_phase s with
  | Looping => coordinate_turn s
  | Waiting =>
      match s_queue s with
      | m :: queue => handle_message (s <| s_queue := queue |>) m
      | [] =>
          match first_move (s_cancel s) eval 0 (s_workers s) with
          | Some (id, m, w') => task_done s id w' m
          | None => s
          end
      end
  | _ => s
  end.

Lemma first_move_sound cancel eval id l id' m w' :
  first_move cancel eval id l = Some (id', m, w') →
  ∃ w, l !! (id' - id) = Some w ∧ id ≤ id' ∧ task_move cancel w (eval (ws_spec w)) = Some (m, w').
Proof.
  revert id. induction l as [|w l IH]; intros id; simpl; [done|].
  destruct (task_move _ _ _) as [[m' w'']|] eqn:Hm.
  - intros [= <- <- <-]. exists w. rewrite Nat.sub_diag. done.
  - intros (x & Hx & Hle & Hmove)%IH. exists x. split; [|split; [lia|done]].
    by replace (id' - id) with (S (id' - S id)) by lia.
Qed.

(** The evaluator answers as it may to the items in evaluation. *)
Definition sound_at (eval : WorkerSpec → WorkItem → option (Result (Event * WorkerStatus)))
    (s : Sys) : Prop :=
  ∀ w item, w ∈ s_workers s → ws_task w = Working item →
    answers (ws_spec w) (item_path item) (eval (ws_spec w) item).

Lemma drive_sound eval s : sound_at eval s → rtc step s (drive eval s).
Proof.
  intros Ha. unfold drive. destruct (s_phase s) eqn:Hp; [| |apply rtc_refl..].
  - by apply rtc_once, step_turn.
  - destruct (s_queue s) as [|m queue] eqn:Hq; [|by apply rtc_once, step_receive].
    destruct (first_move _ _ _ _) as [[[id m] w']|] eqn:Hm; [|apply rtc_refl].
    apply first_move_sound in Hm as (w & Hw & _ & Hmove). rewrite Nat.sub_0_r in Hw.
    apply rtc_once, (step_task _ _ _ _ s id w).
    + unfold is_running. by rewrite Hp.
    + done.
    + eapply task_move_sound; [|done]. intros item. apply Ha. by eapply list_elem_of_lookup_2.
    + intros _. rewrite Hq. apply lookup_lt_Some in Hw. simpl. lia.
Qed.

Lemma drive_reachable_at eval specs cancel n :
  (∀ k, k < n → sound_at eval (Nat.iter k (drive eval) (sys_init specs cancel))) →
  reachable specs (Nat.iter n (drive eval) (sys_init specs cancel)).
Proof.
  intros Ha. exists cancel. induction n as [|n IH]; [apply rtc_refl|].
  etrans; [apply IH; auto|]. apply drive_sound, Ha. lia.
Qed.

Lemma drive_reachable eval specs cancel n :
  (∀ spec item, answers spec (item_path item) (eval spec item)) →
  reachable specs (Nat.iter n (drive eval) (sys_init specs cancel)).
Proof. intros Ha. apply drive_reachable_at. by intros k _ w item _ _. Qed.

(** ** Progress *)

(** The tasks that failed, by what they are about to say. *)
Definition failing (w : WorkerSlot) : bool :=
  match ws_task w with Exiting _ _ => true | _ => false end.

Lemma task_move_healthy cancel w answer m w' :
  task_move cancel w answer = Some (m, w') → failing w' = false.
Proof.
  unfold task_move. destruct (ws_task w); try done; try (intros [= <- <-]; done).
  - intros [= <- <-]. unfold failing. simpl. by destruct (is_forked _).
  - destruct (ws_inbox w) as [|command inbox]; [done|]. intros [= <- <-]. unfold failing. simpl.
    by destruct cancel, command.
  - intros [= <- <-]. unfold failing. simpl. by destruct (_ || _).
Qed.

(** A worker that cannot move waits for work or has ended. *)
Lemma task_move_blocked cancel w answer :
  task_move cancel w answer = None →
  (ws_task w = Receiving ∧ ws_inbox w = []) ∨ has_exited (ws_task w) = true.
Proof.
  unfold task_move. destruct (ws_task w) eqn:Ht; try done; [|by right].
  destruct (ws_inbox w); [by left|done].
Qed.

Lemma all_blocked_idle specs s :
  (∀ i spec, specs !! i = Some spec → spec_id spec = i) →
  core specs s → is_running s = true → s_queue s = [] →
  (∀ w, w ∈ s_workers s → (ws_task w = Receiving ∧ ws_inbox w = [])
     ∨ has_exited (ws_task w) = true) →
  length (s_idle s) = length specs ∧ inflight s = [].
Proof.
  intros Hids H Hrun Hq Hall.
  assert (∀ w, w ∈ s_workers s → ws_task w = Receiving ∧ ws_inbox w = []) as Hrecv.
  { intros w Hw. destruct (Hall w Hw) as [|Hex]; [done|].
    destruct (core_exited _ _ H w Hw Hex Hrun) as (m & Hm & _).
    rewrite Hq in Hm. by apply elem_of_nil in Hm. }
  assert (∀ l, (∀ w, w ∈ l → ws_task w = Receiving ∧ ws_inbox w = []) →
    concat (slot_items <$> l) = [] ∧ sum_list_with slot_tokens l = 0) as Hzero.
  { clear. induction l as [|w l IH]; intros Hl; [done|].
    destruct (Hl w ltac:(by left)) as [Ht Hi].
    assert (slot_items w = []) as Hitems by (unfold slot_items; by rewrite Ht, Hi).
    assert (slot_tokens w = 0) as Htok
      by (unfold slot_tokens, unannounced; by rewrite Hitems, Ht).
    simpl. rewrite Hitems, Htok. apply IH. intros x Hx. apply Hl. by right. }
  destruct (Hzero (s_workers s) Hrecv) as [Hitems Hsum]. split.
  - rewrite <-(core_full _ _ H).
    + unfold all_tokens. rewrite Hq, Hsum. simpl. lia.
    + intros w Hw. unfold leaving. by destruct (Hrecv w Hw) as [-> _].
  - unfold inflight. by rewrite Hitems, Hq.
Qed.

Lemma find_mover cancel (l : list WorkerSlot) :
  (∀ w, w ∈ l → (ws_task w = Receiving ∧ ws_inbox w = []) ∨ has_exited (ws_task w) = true)
  ∨ ∃ id w, l !! id = Some w ∧ ∀ answer, task_move cancel w answer ≠ None.
Proof.
  induction l as [|w l [IH|(id & x & Hx & Hm)]].
  - left. intros w Hw. by apply elem_of_nil in Hw.
  - destruct (task_move cancel w (λ _, None)) eqn:Hm.
    + right. exists 0, w. split; [done|]. intros answer Hn.
      apply task_move_blocked in Hn as [[Ht Hi]|Hex]; unfold task_move in Hm.
      * by rewrite Ht, Hi in Hm.
      * by destruct (ws_task w).
    + left. apply task_move_blocked in Hm. intros x [->|Hx]%elem_of_cons; auto.
  - right. by exists (S id), x.
Qed.

Lemma waiting_progress specs s :
  (∀ i spec, specs !! i = Some spec → spec_id spec = i) → specs ≠ [] →
  (∀ spec path, spec ∈ specs → ∃ answer, answers spec path answer) →
  sys_inv specs s → s_phase s = Waiting →
  s_queue s ≠ [] ∨ ∃ id w m w',
    s_workers s !! id = Some w ∧ task_step (s_cancel s) w m w' ∧ failing w' = false
    ∧ step s (task_done s id w' m).
Proof.
  intros Hids Hne Htotal H Hp. unfold sys_inv in H. rewrite Hp in H.
  destruct H as (H & Hdone & Hidle).
  assert (is_running s = true) as Hrun by (unfold is_running; by rewrite Hp).
  destruct (s_queue s) as [|m queue] eqn:Hq; [right|by left].
  destruct (find_mover (s_cancel s) (s_workers s)) as [Hblock|(id & w & Hw & Hm)].
  - exfalso. apply (all_blocked_idle specs) in Hblock as [Hl Hin]; [|done..].
    rewrite Hidle in Hl; [by destruct specs|]. by rewrite (core_active _ _ H), Hin.
  - destruct (core_spec_lookup specs Hids s id w H Hw) as [Hspec _].
    assert (∃ answer, ∀ item, ws_task w = Working item →
      answers (ws_spec w) (item_path item) answer) as [answer Hans].
    { destruct (ws_task w); try (by exists None).
      destruct (Htotal (ws_spec w) (item_path item)) as [answer Ha];
        [by eapply list_elem_of_lookup_2|]. exists answer. by intros ? [= <-]. }
    destruct (task_move (s_cancel s) w (λ _, answer)) as [[m w']|] eqn:Hmove;
      [|by destruct (Hm _ Hmove)].
    assert (task_step (s_cancel s) w m w') as Hstep.
    { apply (task_move_sound _ _ (λ _, answer)); [|done]. intros item Ht. by apply Hans. }
    exists id, w, m, w'. split; [done|]. split; [done|].
    split; [by eapply task_move_healthy|].
    apply (step_task _ _ _ _ s id w); try done.
    intros _. rewrite Hq. apply lookup_lt_Some in Hw. simpl. lia.
Qed.

(** ** Termination *)

Section termination.
Context (specs : list WorkerSpec).
Context (specs_ids : ∀ i spec, specs !! i = Some spec → spec_id spec = i).
Context (specs_small : (N.of_nat (length specs) < usize_modulus)%N).
Context (specs_nonempty : specs ≠ []).
Context (outcome : list string → Event) (depth : nat).
Context (bounded : depth_bounded outcome depth).
(** An evaluator answers with the event of the path, fails or times out. *)
Context (faithful : ∀ spec path event status,
  answers spec path (Some (Ok (event, status))) → event = outcome path).

Definition weight (path : list string) : nat := length (subtree outcome depth path).

Definition item_weight (item : WorkItem) : nat := 20 * weight (item_path item).

Definition command_weight (command : WorkerCommand) : nat :=
  match command with Work item => item_weight item - 13 | Stop => 4 end.

Definition task_weight (task : WorkerTask) : nat :=
  match task with
  | Connecting => 8
  | Announcing => 7
  | Receiving => 4
  | Working item => item_weight item - 10
  | Reporting item _ _ => item_weight item - 11
  | Reported _ _ => 6
  | Replacing => 5
  | Cancelling _ => 4
  | Exiting _ _ => 3
  | Exited _ _ => 0
  end.

Definition slot_weight (w : WorkerSlot) : nat :=
  sum_list_with command_weight (ws_inbox w) + task_weight (ws_task w).

Definition message_weight (m : WorkerMessage) : nat :=
  match m with MsgResult r => item_weight (wr_item r) - 18 | _ => 2 end.

Definition phase_weight (p : Phase) : nat :=
  match p with Looping => 2 | Waiting => 1 | _ => 0 end.

(** A bound on the steps that are left. *)
Definition potential (s : Sys) : nat :=
  sum_list_with item_weight (todo (s_sched s)) + sum_list_with slot_weight (s_workers s)
  + sum_list_with message_weight (s_queue s)
  + phase_weight (s_phase s) + Nat.b2n (negb (s_cancel s)).

Lemma item_weight_pos item : 20 ≤ item_weight item.
Proof.
  unfold item_weight, weight. rewrite subtree_unfold by done. simpl. lia.
Qed.

Lemma sum_children path :
  sum_list_with weight (children path (outcome path)) + 1 = weight path.
Proof.
  unfold weight at 2. rewrite subtree_unfold by done. simpl.
  assert (∀ l, sum_list_with weight l = length (concat (subtree outcome depth <$> l))) as ->.
  { induction l as [|x l IH]; simpl; [done|]. rewrite length_app, IH. done. }
  lia.
Qed.

Lemma sum_todo l : sum_list_with item_weight l = 20 * sum_list_with weight (item_path <$> l).
Proof. induction l as [|x l IH]; simpl; [done|]. fold_lists. rewrite IH. unfold item_weight. lia. Qed.

Lemma task_step_weight cancel w m w' :
  task_step cancel w m w' →
  slot_weight w' + sum_list_with message_weight (option_list m) < slot_weight w.
Proof.
  intros H. destruct H; destruct w as [spec inb task]; simpl in *; subst;
    unfold slot_weight; simpl;
    try match goal with |- context [command_weight ?c] => destruct c; simpl end;
    try match goal with |- context [task_weight ?t] => destruct t; simpl in *; try done end;
    try match goal with |- context [item_weight ?i] => pose proof (item_weight_pos i) end;
    try lia.
Qed.

Lemma dispatch_loop_weight n d d' r :
  dispatch_loop n d = Some (d', r) →
  sum_list_with item_weight (todo (ds_sched d')) + sum_list_with slot_weight (ds_workers d')
  ≤ sum_list_with item_weight (todo (ds_sched d)) + sum_list_with slot_weight (ds_workers d).
Proof.
  revert d. induction n as [|n IH]; intros d; simpl; [by intros [= <- <-]|].
  destruct (ds_idle d) as [|id idle]; [by intros [= <- <-]|].
  destruct (ds_workers d !! id) as [w|] eqn:Hw; [|done]. simpl. unfold next_for.
  destruct (sched_error (ds_sched d)); [by intros [= <- <-]|].
  destruct (todo (ds_sched d)) as [|item rest] eqn:Ht.
  - destruct (active (ds_sched d) =? 0)%N; [intros [= <- <-]; simpl; by rewrite Ht|].
    intros Hd. apply IH in Hd. simpl in Hd. by rewrite Ht in Hd.
  - unfold send_command. destruct (rx_open (ws_task w)); simpl;
      [|intros [= <- <-]; simpl; lia].
    intros Hd. apply IH in Hd. simpl in Hd.
    pose proof (sum_insert slot_weight _ _ _ (with_inbox w item) Hw) as Hs.
    assert (slot_weight (with_inbox w item) = slot_weight w + (item_weight item - 13)) as Hi.
    { unfold slot_weight. simpl. rewrite sum_list_with_app. simpl. lia. }
    unfold with_inbox in *. simpl in *. lia.
Qed.

Lemma coordinate_turn_weight s :
  s_phase s = Looping → potential (coordinate_turn s) < potential s.
Proof.
  intros Hp. unfold coordinate_turn. destruct (s_cancel s) eqn:Hc.
  { unfold potential. simpl. rewrite Hp. simpl. lia. }
  destruct (dispatch_available _) as [[d r]|] eqn:Hd.
  2: { unfold potential. simpl. rewrite Hp. simpl. lia. }
  apply dispatch_loop_weight in Hd. simpl in Hd.
  destruct r as [[]|err]; cbv zeta; repeat case_match; unfold potential; simpl;
    rewrite Hp, Hc; simpl; lia.
Qed.

(** The event of a result is the path's, or announces nothing. *)
Lemma justified_event spec r :
  justified spec (wr_item r) (wr_event r) →
  result_event spec r = outcome (item_path (wr_item r))
  ∨ ∀ path, children path (result_event spec r) = [].
Proof.
  intros (answer & Hans & Hev). unfold Scheduler.result_event. rewrite Hev.
  unfold Scheduler.task_report, work_with_timeout.
  destruct answer as [[[e st]|err]|]; simpl; [left|by right..].
  by apply faithful in Hans.
Qed.

Lemma complete_weight sched spec workers r sched' done :
  justified spec (wr_item r) (wr_event r) →
  complete sched spec workers (wr_item r) (result_event spec r) = (sched', done) →
  sum_list_with item_weight (todo sched') + 20
  ≤ sum_list_with item_weight (todo sched) + item_weight (wr_item r).
Proof.
  intros Hjust%justified_event Hc%complete_todo. rewrite !sum_todo.
  pose proof (sum_children (item_path (wr_item r))). pose proof (item_weight_pos (wr_item r)).
  unfold item_weight in *. destruct Hc as [-> | ->]; [lia|]. rewrite sum_list_with_app.
  destruct Hjust as [-> | ->]; simpl; lia.
Qed.

Lemma handle_message_weight s m queue :
  core specs s → s_phase s = Waiting → s_queue s = m :: queue →
  potential (handle_message (s <| s_queue := queue |>) m) < potential s.
Proof.
  intros H Hp Hq.
  destruct m as [id|r| |error]; [unfold potential; simpl; rewrite Hp, Hq; simpl; lia| |
    unfold potential; simpl; rewrite Hp, Hq; simpl; lia..].
  destruct (core_results specs s H r) as (spec & Hspec & Hjust); [rewrite Hq; by left|].
  destruct (core_worker_lookup specs s (wr_worker_id r) H) as [slot Hslot];
    [by eapply lookup_lt_Some|].
  destruct (core_spec_lookup specs specs_ids s _ _ H Hslot) as [Hspec' _].
  rewrite Hspec in Hspec'. injection Hspec' as ->.
  unfold handle_message. simpl. rewrite Hslot.
  destruct (complete _ _ _ _ _) as [sched completed] eqn:Hcomplete.
  apply complete_weight in Hcomplete; [|done].
  repeat case_match; unfold potential; simpl; rewrite Hp, Hq; simpl; lia.
Qed.

Lemma step_weight s s' : sys_inv specs s → step s s' → potential s' < potential s.
Proof.
  intros H Hstep. destruct Hstep as [s Hp|s m q Hp Hq|s Hp _ _|s Hrun Hc|s id w m w' Hrun Hw Ht _].
  - by apply coordinate_turn_weight.
  - unfold sys_inv in H. rewrite Hp in H. apply handle_message_weight; [by destruct H|done..].
  - unfold potential. simpl. rewrite Hp. simpl. lia.
  - unfold potential. simpl. rewrite Hc. simpl. lia.
  - apply task_step_weight in Ht. unfold potential. simpl. rewrite sum_list_with_app.
    pose proof (sum_insert slot_weight _ _ _ w' Hw). lia.
Qed.

Lemma steps_weight n s s' :
  sys_inv specs s → nsteps step n s s' → n + potential s' ≤ potential s.
Proof.
  intros H Hsteps. induction Hsteps as [s|n s1 s2 s3 Hstep Hsteps IH]; [lia|].
  pose proof (step_weight _ _ H Hstep).
  pose proof (step_inv specs specs_ids specs_small specs_nonempty _ _ H Hstep) as H2.
  specialize (IH H2). lia.
Qed.

Lemma potential_init cancel :
  potential (sys_init specs cancel) ≤ 20 * weight [] + 8 * length specs + 3.
Proof.
  unfold potential. simpl. unfold item_weight. simpl.
  assert (∀ l, sum_list_with slot_weight ((λ spec, mkWorkerSlot spec [] Connecting) <$> l)
    = 8 * length l) as ->.
  { induction l as [|x l IH]; simpl; [done|]. fold_lists. rewrite IH. unfold slot_weight. simpl. lia. }
  destruct cancel; simpl; lia.
Qed.
End termination.
End coordination.

(** ** A concrete run *)

Definition demo_drv (path : list string) : Derivation :=
  mkDerivation (str_join "." path) path "job" "x86_64-linux" "/nix/store/job.drv"
    ∅ None ∅ None None.

Definition demo_outcome (path : list string) : Event :=
  match path with
  | [] => EvAttrSet "" [] ["a"; "b"]
  | _ => EvDerivation (demo_drv path)
  end.

Definition demo_answers (spec : WorkerSpec) (path : list string)
    (answer : option (Result (Event * WorkerStatus))) : Prop :=
  answer = Some (Ok (demo_outcome path, Ready)).

Definition demo_specs : list WorkerSpec :=
  [mkWorkerSpec 0 "local" (LocalWorker None (ForkParent [mkForkSlot 4 6]));
   mkWorkerSpec 1 "local" (LocalWorker None (ForkChild (Some (3%N, 5%N))))].

Definition demo_display (err : Report) : string := "failed".
Definition demo_sink (seen : list Event) (event : Event) : Result unit := Ok tt.

Definition demo_state (n : nat) : Sys :=
  Nat.iter n (drive demo_display demo_sink 60
    (λ _ item, Some (Ok (demo_outcome (item_path item), Ready)))) (sys_init demo_specs false).

Lemma demo_reachable n :
  reachable demo_display demo_sink 60 demo_answers demo_specs (demo_state n).
Proof. apply drive_reachable. done. Qed.

Lemma demo_pool : pool_wf demo_specs.
Proof.
  split_and!; [done|done|]. intros [|[|i]] spec Hi; by simplify_eq/=.
Qed.

Lemma demo_bounded : depth_bounded demo_outcome 1.
Proof. intros [|x path] Hlen; simpl in *; [lia|done]. Qed.

(** ** What runs amount to *)

Lemma completed_subtree display on_event timeout answers outcome depth specs s :
  pool_wf specs → depth_bounded outcome depth →
  (∀ spec path answer, answers spec path answer →
     ∃ status, answer = Some (Ok (outcome path, status))) →
  reachable display on_event timeout answers specs s →
  s_phase s = Finished (Ok Completed) → s_emitted s ≡ₚ subtree outcome depth [].
Proof.
  intros (Hne & Hsmall & Hids) Hd Hfaithful Hr Hp.
  destruct (reachable_completed _ _ _ _ _ Hids Hsmall Hne _ Hr Hp) as (w & Hw & Hdone & <-).
  pose proof (visit_order_irrelevant (produces display timeout answers specs)
    outcome depth w Hd) as H.
  rewrite Hdone in H. simpl in H. rewrite app_nil_r in H. apply H; [|done].
  intros path event (spec & answer & _ & Ha & ->).
  by destruct (Hfaithful _ _ _ Ha) as [status ->].
Qed.

Lemma steps_bound display on_event timeout answers outcome depth specs cancel n s :
  pool_wf specs → depth_bounded outcome depth →
  (∀ spec path event status, answers spec path (Some (Ok (event, status))) →
     event = outcome path) →
  nsteps (step display on_event timeout answers) n (sys_init specs cancel) s →
  n ≤ 20 * length (subtree outcome depth []) + 8 * length specs + 3.
Proof.
  intros (Hne & Hsmall & Hids) Hd Hfaithful Hsteps.
  apply (steps_weight _ _ _ _ specs Hids Hsmall Hne outcome depth Hd Hfaithful) in Hsteps.
  - assert (potential outcome depth (sys_init specs cancel)
      ≤ 20 * weight outcome depth [] + 8 * length specs + 3) as Hinit
      by (by eapply potential_init).
    unfold weight in Hinit. lia.
  - by eapply core_init.
Qed.

(** ** Properties *)

(** C3 (topology): the result of a run does not depend on the workers. Whatever the
    number and kind of the workers, the interleaving of their answers and the
    retries in between, a run that completes has emitted exactly the events of
    the sequential reference traversal, each as often as it has it, when the
    evaluators answer every path with its event. *)
Theorem completed_run_topology display on_event timeout answers outcome depth specs s :
  pool_wf specs → depth_bounded outcome depth →
  (∀ spec path answer, answers spec path answer →
     ∃ status, answer = Some (Ok (outcome path, status))) →
  reachable display on_event timeout answers specs s →
  s_phase s = Finished (Ok Completed) →
  s_emitted s ≡ₚ traverse outcome depth [].
Proof.
  intros Hpool Hd Hfaithful Hr Hp.
  rewrite (completed_subtree display on_event timeout answers outcome depth specs s) by done.
  unfold subtree. by rewrite Nat.sub_0_r.
Qed.

Lemma completed_run_topology_witness :
  s_phase (demo_state 60) = Finished (Ok Completed)
  ∧ s_emitted (demo_state 60) ≡ₚ traverse demo_outcome 1 [].
Proof.
  assert (s_phase (demo_state 60) = Finished (Ok Completed)) as Hp by (vm_compute; reflexivity).
  split; [exact Hp|].
  apply (completed_run_topology demo_display demo_sink 60 demo_answers demo_outcome 1 demo_specs
    (demo_state 60) demo_pool demo_bounded); [|apply demo_reachable|exact Hp].
  intros spec path answer ->. by exists Ready.
Defined.

(** C4 (refine): the coordinator refines the abstract traversal. In every reachable
    state in which it runs, the paths queued and in flight and the events
    emitted are those of a traversal in which each announced path is visited
    once, with an event one of the workers may produce for it. *)
Theorem coordinator_refines_traversal display on_event timeout answers specs s :
  pool_wf specs → reachable display on_event timeout answers specs s → is_running s = true →
  ∃ w, rtc (visit (produces display timeout answers specs)) walk_init w
    ∧ pending w ≡ₚ pending_paths s ∧ visited w = s_emitted s.
Proof.
  intros (Hne & Hsmall & Hids) Hr Hrun. apply core_walk. by eapply reachable_core.
Qed.

Lemma coordinator_refines_traversal_witness :
  ∃ w, rtc (visit (produces demo_display 60 demo_answers demo_specs)) walk_init w
    ∧ pending w ≡ₚ pending_paths (demo_state 10) ∧ visited w = s_emitted (demo_state 10).
Proof.
  apply (coordinator_refines_traversal demo_display demo_sink 60 demo_answers demo_specs
    (demo_state 10) demo_pool (demo_reachable 10)). vm_compute. reflexivity.
Defined.

(** C7 (conserve): nothing is lost and nothing is done twice. When a run completes,
    the paths of the emitted events are, with multiplicities, the root and the
    children announced by the emitted events, also when workers fail or time
    out on the way, provided evaluators label events with the path they were
    given. *)
Theorem completed_run_conserves display on_event timeout answers specs s :
  pool_wf specs →
  (∀ spec path event status, answers spec path (Some (Ok (event, status))) →
     event_attr_path event = path) →
  reachable display on_event timeout answers specs s →
  s_phase s = Finished (Ok Completed) →
  event_attr_path <$> s_emitted s ≡ₚ [] :: concat (announced <$> s_emitted s).
Proof.
  intros (Hne & Hsmall & Hids) Hpath Hr Hp.
  destruct (reachable_completed _ _ _ _ _ Hids Hsmall Hne _ Hr Hp) as (w & Hw & Hdone & <-).
  pose proof (visit_conserves (produces display timeout answers specs) w) as H.
  rewrite Hdone in H. apply H; [|done]. intros path event. by apply produces_path.
Qed.

Lemma completed_run_conserves_witness :
  event_attr_path <$> s_emitted (demo_state 60)
  ≡ₚ [] :: concat (announced <$> s_emitted (demo_state 60)).
Proof.
  apply (completed_run_conserves demo_display demo_sink 60 demo_answers demo_specs
    (demo_state 60) demo_pool); [|apply demo_reachable|vm_compute; reflexivity].
  intros spec [|x path] event status [= -> _]; reflexivity.
Defined.

(** C8 (account): the scheduler's accounting is exact. While the coordinator runs,
    [active] is the number of items dispatched and not yet completed and never
    wraps; a worker holds at most one item, none while it is idle or has not
    announced itself, so the channel of one command never blocks. *)
Theorem scheduler_accounting display on_event timeout answers specs s :
  pool_wf specs → reachable display on_event timeout answers specs s → is_running s = true →
  active (s_sched s) = N.of_nat (length (inflight s))
  ∧ (active (s_sched s) ≤ N.of_nat (length specs))%N
  ∧ ∀ id w, s_workers s !! id = Some w →
      length (slot_items w) ≤ 1
      ∧ ((id ∈ s_idle s ∨ unannounced w = true) → slot_items w = []).
Proof.
  intros (Hne & Hsmall & Hids) Hr Hrun.
  assert (core display timeout answers specs s) as H by (by eapply reachable_core).
  split; [by eapply core_active|]. split; [by eapply active_bound|].
  intros id w Hw. assert (tokens s id w ≤ 1) as Ht by (by eapply core_tokens).
  unfold tokens, slot_tokens in Ht. split; [lia|].
  intros [Hidle%count_elem|Hu]; apply nil_length_inv; [lia|]. rewrite Hu in Ht. simpl in Ht. lia.
Qed.

Lemma scheduler_accounting_witness :
  active (s_sched (demo_state 10)) = N.of_nat (length (inflight (demo_state 10))).
Proof.
  apply (scheduler_accounting demo_display demo_sink 60 demo_answers demo_specs
    (demo_state 10) demo_pool (demo_reachable 10)). vm_compute. reflexivity.
Defined.

(** C10 (nostall): the coordinator never panics, and an iteration of its loop fails
    for one reason only, an idle worker whose task has ended; the scheduler is
    never found stalled and the idle queue never runs short. *)
Theorem coordinator_never_stalls display on_event timeout answers specs s :
  pool_wf specs → reachable display on_event timeout answers specs s →
  s_phase s ≠ Panicked
  ∧ (s_phase s = Looping → ∀ err, s_phase (coordinate_turn s) = Finished (Err err) →
       send_error err).
Proof.
  intros (Hne & Hsmall & Hids) Hr.
  assert (sys_inv display timeout answers specs s) as H by (by eapply reachable_inv).
  unfold sys_inv in H. split; [intros Hp; by rewrite Hp in H|].
  intros Hp. rewrite Hp in H. by eapply coordinate_turn_inv.
Qed.

Lemma coordinator_never_stalls_witness : s_phase (demo_state 13) ≠ Panicked.
Proof.
  apply (coordinator_never_stalls demo_display demo_sink 60 demo_answers demo_specs
    (demo_state 13) demo_pool (demo_reachable 13)).
Defined.

(** C9 (progress): no deadlock. When the coordinator waits for a message, there is
    one in the channel or some worker can take a step, and not by failing, as
    long as evaluators answer at all. *)
Theorem coordinator_progress display on_event timeout answers specs s :
  pool_wf specs → (∀ spec path, spec ∈ specs → ∃ answer, answers spec path answer) →
  reachable display on_event timeout answers specs s → s_phase s = Waiting →
  s_queue s ≠ [] ∨ ∃ id w m w',
    s_workers s !! id = Some w
    ∧ task_step display timeout answers (s_cancel s) w m w' ∧ failing w' = false
    ∧ step display on_event timeout answers s (task_done s id w' m).
Proof.
  intros (Hne & Hsmall & Hids) Htotal Hr Hp.
  apply (waiting_progress display on_event timeout answers specs); try done.
  by eapply reachable_inv.
Qed.

Lemma coordinator_progress_witness :
  s_queue (demo_state 1) ≠ [] ∨ ∃ id w m w',
    s_workers (demo_state 1) !! id = Some w
    ∧ task_step demo_display 60 demo_answers (s_cancel (demo_state 1)) w m w'
    ∧ failing w' = false
    ∧ step demo_display demo_sink 60 demo_answers (demo_state 1)
        (task_done (demo_state 1) id w' m).
Proof.
  apply (coordinator_progress demo_display demo_sink 60 demo_answers demo_specs
    (demo_state 1) demo_pool); [|apply demo_reachable|vm_compute; reflexivity].
  intros spec path _. by eexists.
Defined.

(** C5 (terminate): a run ends. No sequence of steps, whatever the interleaving and
    whatever fails on the way, is longer than 20 steps per event of the
    reference traversal, 8 per worker and 3 more. *)
Theorem run_terminates display on_event timeout answers outcome depth specs cancel n s :
  pool_wf specs → depth_bounded outcome depth →
  (∀ spec path event status, answers spec path (Some (Ok (event, status))) →
     event = outcome path) →
  nsteps (step display on_event timeout answers) n (sys_init specs cancel) s →
  n ≤ 20 * length (traverse outcome depth []) + 8 * length specs + 3.
Proof.
  intros Hpool Hd Hfaithful Hsteps.
  pose proof (steps_bound _ _ _ _ _ _ _ _ _ _ Hpool Hd Hfaithful Hsteps) as H.
  unfold subtree in H. by rewrite Nat.sub_0_r in H.
Qed.

Lemma run_terminates_witness :
  nsteps (step demo_display demo_sink 60 demo_answers) 1 (sys_init demo_specs false) (demo_state 1)
  ∧ 1 ≤ 20 * length (traverse demo_outcome 1 []) + 8 * length demo_specs + 3.
Proof.
  assert (nsteps (step demo_display demo_sink 60 demo_answers) 1 (sys_init demo_specs false)
    (demo_state 1)) as H.
  { eapply nsteps_l; [|apply nsteps_O]. apply step_turn. reflexivity. }
  split; [exact H|].
  apply (run_terminates demo_display demo_sink 60 demo_answers demo_outcome 1 demo_specs false 1
    (demo_state 1) demo_pool demo_bounded); [|exact H].
  intros spec path event status [= -> _]. reflexivity.
Defined.
