(* ===== verification/Shutdown.v ===== *)
(** * The end of a run

    What [run] of [crates/evix/src/async_master.rs] does after its coordinator
    returned: the receiver of the messages is dropped, the workers are told to stop
    or are aborted, and their tasks are joined, while the tasks go on. A step is
    one action of [run] or of one task, as in [Scheduler.v]. *)
From S2P Require Import Prelude Types Config Fork WorkerProcess Traversal Scheduler Pool Coordination.

(** ** Data *)

(** Where [run] stands: before [drop(result_rx)], in the first loop of
    [shutdown_workers] at a worker, in the loop that joins, or after its return. *)
Inductive EndPhase : Type :=
  | Closing
  | Stopping (k : nat)
  | Joining
  | RunReturned (result : Result RunOutcome).

(** The coordinator's result, the slots with their tasks, [None] for one that was
    aborted, the cancel flag, and the tasks joined so far. *)
Record Ending := mkEnding {
  en_outcome : Result RunOutcome;
  en_workers : list (option WorkerSlot);
  en_cancel : bool;
  en_joined : list JoinResult;
  en_phase : EndPhase;
}.
#[export] Instance eta_ending : EtaRecord Ending := λ e,
  mkEnding (en_outcome e) (en_workers e) (en_cancel e) (en_joined e) (en_phase e).

(** [matches!(result, Ok(RunOutcome::Cancelled))] *)
Definition is_cancelled (r : Result RunOutcome) : bool :=
  match r with Ok Cancelled => true | _ => false end.

(** The end that a finished coordinator enters. *)
Definition ending_of (s : Sys) (r : Result RunOutcome) : Ending :=
  mkEnding r (Some <$> s_workers s) (s_cancel s) [] Closing.

Definition set_worker (e : Ending) (id : nat) (w : option WorkerSlot) : Ending :=
  e <| en_workers := <[id := w]> (en_workers e) |>.

Definition has_returned (e : Ending) : bool :=
  match en_phase e with RunReturned _ => true | _ => false end.

(** [JoinHandle::await] of an ended task: the first error returns. *)
Definition join_worker (e : Ending) (r : JoinResult) (failed : bool) : Ending :=
  let joined := en_joined e ++ [r] in
  e <| en_joined := joined |>
    <| en_phase := if failed then RunReturned (run_result (en_outcome e) joined) else Joining |>.

(** Where a task goes when its message cannot be sent. *)
Definition after_unsent (task : WorkerTask) : WorkerTask :=
  match task with
  | Reporting item _ _ => Exited (Ok tt) (Some item)
  | Cancelling abandoned => Exited (Ok tt) abandoned
  | Exiting err abandoned => Exited (Err err) abandoned
  | _ => Exited (Ok tt) None
  end.

(** A task at [work_rx.recv()], which a forked one awaits while it connects. *)
Definition waits_command (w : WorkerSlot) : bool :=
  match ws_task w with
  | Receiving => true
  | Connecting => is_forked (ws_spec w)
  | _ => false
  end.

(** ** Steps *)

Section ending.
Context (display : Report → string).
Context (item_timeout_seconds : N).
Context (answers : WorkerSpec → list string → option (Result (Event * WorkerStatus)) → Prop).

Abbreviation task_step := (task_step display item_timeout_seconds answers).

(** A step of [worker_task] when nobody receives its messages. [disconnected] says
    that the sender of its commands is dropped as well. *)
Inductive end_task (disconnected cancel : bool) : WorkerSlot → WorkerSlot → Prop :=
  | end_silent w w' : task_step cancel w None w' → end_task disconnected cancel w w'
  | end_unsent w m w' :
      task_step cancel w (Some m) w' →
      end_task disconnected cancel w (w <| ws_task := after_unsent (ws_task w) |>)
  | end_disconnected w :
      waits_command w = true → ws_inbox w = [] → disconnected = true →
      end_task disconnected cancel w (w <| ws_task := Exited (Ok tt) None |>).

Inductive end_step : Ending → Ending → Prop :=
  | end_early_task e id w m w' :
      en_phase e = Closing → en_workers e !! id = Some (Some w) →
      task_step (en_cancel e) w m w' → end_step e (set_worker e id (Some w'))
  | end_close e :
      en_phase e = Closing →
      end_step e (e <| en_phase := if is_cancelled (en_outcome e) then Joining else Stopping 0 |>)
  | end_late_task e id w w' :
      en_phase e ≠ Closing → en_workers e !! id = Some (Some w) →
      end_task (has_returned e) (en_cancel e) w w' → end_step e (set_worker e id (Some w'))
  | end_cancel e : en_cancel e = false → end_step e (e <| en_cancel := true |>)
  | end_stop_sent e k w :
      en_phase e = Stopping k → en_workers e !! k = Some (Some w) →
      rx_open (ws_task w) = true → ws_inbox w = [] →
      end_step e ((set_worker e k (Some (w <| ws_inbox := [Stop] |>)))
                    <| en_phase := Stopping (S k) |>)
  | end_stop_refused e k w :
      en_phase e = Stopping k → en_workers e !! k = Some (Some w) →
      rx_open (ws_task w) = false → end_step e (e <| en_phase := Stopping (S k) |>)
  | end_stopped e :
      en_phase e = Stopping (length (en_workers e)) → end_step e (e <| en_phase := Joining |>)
  | end_join e w r i :
      en_phase e = Joining → en_workers e !! length (en_joined e) = Some (Some w) →
      ws_task w = Exited r i → end_step e (join_worker e (Joined r) (is_err r))
  | end_abort e w :
      en_phase e = Joining → is_cancelled (en_outcome e) = true →
      en_workers e !! length (en_joined e) = Some (Some w) → has_exited (ws_task w) = false →
      end_step e (join_worker (set_worker e (length (en_joined e)) None) JoinAborted false)
  | end_return e :
      en_phase e = Joining → length (en_joined e) = length (en_workers e) →
      end_step e (e <| en_phase := RunReturned (run_result (en_outcome e) (en_joined e)) |>).

(** A task that has ended, or was aborted. *)
Definition ended (w : option WorkerSlot) : bool :=
  match w with Some w => has_exited (ws_task w) | None => true end.

(** A step in which no task begins to fail. *)
Definition unfailing (e e' : Ending) : Prop :=
  ∀ id w, en_workers e' !! id = Some (Some w) → failing w = true →
    en_workers e !! id = Some (Some w).

(** ** Termination *)

Definition task_rank (task : WorkerTask) : nat :=
  match task with
  | Connecting => 8
  | Announcing => 7
  | Receiving => 4
  | Working _ => 12
  | Reporting _ _ _ => 11
  | Reported _ _ => 6
  | Replacing => 5
  | Cancelling _ => 2
  | Exiting _ _ => 1
  | Exited _ _ => 0
  end.

Definition slot_rank (w : WorkerSlot) : nat := 10 * length (ws_inbox w) + task_rank (ws_task w).

Definition phase_rank (n joined : nat) (p : EndPhase) : nat :=
  match p with
  | Closing => 12 * n + 4
  | Stopping k => 11 * (n - k) + n + 3
  | Joining => n - joined + 1
  | RunReturned _ => 0
  end.

(** A bound on the steps that are left. *)
Definition end_rank (e : Ending) : nat :=
  sum_list_with (from_option slot_rank 0) (en_workers e)
  + phase_rank (length (en_workers e)) (length (en_joined e)) (en_phase e)
  + Nat.b2n (negb (en_cancel e)).

Lemma task_step_rank cancel w m w' : task_step cancel w m w' → slot_rank w' < slot_rank w.
Proof.
  intros H. destruct H; destruct w as [spec inb task]; simpl in *; subst; unfold slot_rank; simpl;
    try lia. destruct task; simpl in *; try done; lia.
Qed.

Lemma end_task_rank disconnected cancel w w' :
  end_task disconnected cancel w w' → slot_rank w' < slot_rank w.
Proof.
  intros H. destruct H as [w w' H|w m w' H|w Hw Hi _].
  - by eapply task_step_rank.
  - unfold slot_rank. simpl. inversion H; subst;
      match goal with Ht : ws_task w = _ |- _ => rewrite Ht end; simpl; lia.
  - unfold slot_rank, waits_command in *. simpl. rewrite Hi. destruct (ws_task w); simpl; done || lia.
Qed.

Lemma set_worker_rank e id w w' :
  en_workers e !! id = Some w →
  sum_list_with (from_option slot_rank 0) (en_workers (set_worker e id w')) + from_option slot_rank 0 w
  = sum_list_with (from_option slot_rank 0) (en_workers e) + from_option slot_rank 0 w'.
Proof. intros Hw. by apply sum_insert. Qed.

Lemma end_step_rank e e' : end_step e e' → end_rank e' < end_rank e.
Proof.
  intros H. unfold end_rank.
  destruct H as [e id w m w' Hp Hw Ht|e Hp|e id w w' Hp Hw Ht|e Hc|e k w Hp Hw Ho Hi
    |e k w Hp Hw Ho|e Hp|e w r i Hp Hw Ht|e w Hp Hc Hw Ht|e Hp Hl]; simpl.
  - apply task_step_rank in Ht. pose proof (set_worker_rank e id _ (Some w') Hw) as Hs.
    simpl in Hs. rewrite length_insert. lia.
  - rewrite Hp. simpl. destruct (is_cancelled _); simpl; lia.
  - apply end_task_rank in Ht. pose proof (set_worker_rank e id _ (Some w') Hw) as Hs.
    simpl in Hs. rewrite length_insert. lia.
  - rewrite Hc. simpl. lia.
  - set (w' := mkWorkerSlot (ws_spec w) [Stop] (ws_task w)).
    assert (slot_rank w' = slot_rank w + 10) as Hr by (unfold slot_rank; simpl; rewrite Hi; simpl; lia).
    pose proof (set_worker_rank e k _ (Some w') Hw) as Hs. cbn [from_option] in Hs.
    apply lookup_lt_Some in Hw. rewrite length_insert, Hp. simpl in *. lia.
  - apply lookup_lt_Some in Hw. rewrite Hp. simpl. lia.
  - rewrite Hp. simpl. lia.
  - apply lookup_lt_Some in Hw. rewrite Hp. destruct (is_err r); simpl; [lia|].
    rewrite length_app. simpl. lia.
  - pose proof (set_worker_rank e (length (en_joined e)) _ None Hw) as Hs.
    apply lookup_lt_Some in Hw. rewrite length_insert, Hp, length_app. simpl in *. lia.
  - rewrite Hp. simpl. lia.
Qed.

Lemma end_steps_rank n e e' : nsteps end_step n e e' → n + end_rank e' ≤ end_rank e.
Proof.
  induction 1 as [e|n e1 e2 e3 Hstep _ IH]; [done|]. apply end_step_rank in Hstep. lia.
Qed.

(** ** The invariant *)

(** A task that will end without another command. *)
Definition doomed (w : WorkerSlot) : Prop :=
  match ws_task w with
  | Connecting | Receiving | Reported _ _ | Replacing => Stop ∈ ws_inbox w
  | _ => True
  end.

(** What a joined task left. *)
Definition joined_as (e : Ending) (id : nat) (r : JoinResult) : Prop :=
  match r with
  | Joined res => ∃ w i, en_workers e !! id = Some (Some w) ∧ ws_task w = Exited res i
  | JoinAborted => en_workers e !! id = Some None ∧ is_cancelled (en_outcome e) = true
  | JoinPanicked _ => False
  end.

Definition join_ok (r : JoinResult) : Prop := r = Joined (Ok tt) ∨ r = JoinAborted.

(** The workers that were told to stop. *)
Definition told (e : Ending) : nat :=
  match en_phase e with
  | Closing => 0
  | Stopping k => k
  | Joining | RunReturned _ => if is_cancelled (en_outcome e) then 0 else length (en_workers e)
  end.

Record ending_inv (e : Ending) : Prop := {
  ei_joined : ∀ id r, en_joined e !! id = Some r → joined_as e id r;
  ei_alive : ∀ id, en_workers e !! id = Some None → id < length (en_joined e);
  ei_told : ∀ id w, id < told e → en_workers e !! id = Some (Some w) → doomed w;
  ei_phase : match en_phase e with
             | Closing => en_joined e = []
             | Stopping k => en_joined e = [] ∧ k ≤ length (en_workers e)
                               ∧ is_cancelled (en_outcome e) = false
             | Joining => Forall join_ok (en_joined e)
                            ∧ length (en_joined e) ≤ length (en_workers e)
             | RunReturned res =>
                 res = run_result (en_outcome e) (en_joined e)
                 ∧ (Forall join_ok (en_joined e) ∧ length (en_joined e) = length (en_workers e)
                    ∨ ∃ joined err, en_joined e = joined ++ [Joined (Err err)]
                        ∧ Forall join_ok joined)
             end;
}.

(** *** Steps keep it *)

Lemma task_step_exited cancel w m w' r i : task_step cancel w m w' → ws_task w ≠ Exited r i.
Proof. intros H. destruct H; try congruence. by destruct (ws_task w). Qed.

Lemma end_task_exited disconnected cancel w w' r i :
  end_task disconnected cancel w w' → ws_task w ≠ Exited r i.
Proof.
  intros H. destruct H as [w w' H|w m w' H|w Hw _ _]; [by eapply task_step_exited..|].
  unfold waits_command in Hw. by destruct (ws_task w).
Qed.

Lemma end_task_doomed disconnected cancel w w' :
  end_task disconnected cancel w w' → doomed w → doomed w'.
Proof.
  intros H Hd. destruct H as [w w' H|w m w' H|w _ _ _]; [|by destruct (ws_task w)|done].
  remember None as m eqn:Hm.
  destruct H; destruct w as [spec inb task]; unfold doomed in *; simpl in *; by subst.
Qed.

Lemma told_workers e id w :
  told (set_worker e id w) = told e.
Proof. unfold told. simpl. by rewrite length_insert. Qed.

(** A task that goes on touches nothing that was joined. *)
Lemma ending_inv_task e id w w' :
  ending_inv e → en_workers e !! id = Some (Some w) → (∀ r i, ws_task w ≠ Exited r i) →
  (id < told e → doomed w') → ending_inv (set_worker e id (Some w')).
Proof.
  intros [Hj Ha Ht Hp] Hw Hrun Hd. pose proof (lookup_lt_Some _ _ _ Hw) as Hlt. split.
  - intros i r Hr. specialize (Hj i r Hr). destruct r as [res| |err]; simpl in *; [| |done].
    + destruct Hj as (x & a & Hx & Hex). exists x, a. split; [|done].
      rewrite list_lookup_insert_ne; [done|]. intros ->.
      rewrite Hw in Hx. injection Hx as <-. by eapply Hrun.
    + destruct Hj as [Hx Hc]. split; [|done].
      rewrite list_lookup_insert_ne; [done|]. intros ->. by rewrite Hw in Hx.
  - intros i [(<- & [=] & _)|[_ Hi]]%list_lookup_insert_Some. by apply Ha.
  - intros i x. rewrite told_workers. simpl.
    intros Hi [(<- & [= <-] & _)|[_ Hx]]%list_lookup_insert_Some; [by apply Hd|by eapply Ht].
  - simpl. rewrite length_insert. exact Hp.
Qed.

(** Before the tasks are joined, only what they were told matters. *)
Lemma ending_inv_unjoined e :
  en_joined e = [] → (∀ id, en_workers e !! id ≠ Some None) →
  (∀ id w, id < told e → en_workers e !! id = Some (Some w) → doomed w) →
  match en_phase e with
  | Closing => True
  | Stopping k => k ≤ length (en_workers e) ∧ is_cancelled (en_outcome e) = false
  | Joining => True
  | RunReturned _ => False
  end → ending_inv e.
Proof.
  intros Hj Ha Ht Hp. split; rewrite ?Hj; [done|by intros id ?%Ha|done|].
  destruct (en_phase e); try done. split; [constructor|simpl; lia].
Qed.

Lemma ei_unjoined e :
  ending_inv e → en_joined e = [] → ∀ id, en_workers e !! id ≠ Some None.
Proof. intros H Hj id Hid. pose proof (ei_alive e H id Hid) as Hlt. rewrite Hj in Hlt. simpl in Hlt. lia. Qed.

(** A join: the next task, which may have been aborted. *)
Lemma ending_inv_join e (w : option WorkerSlot) (r : JoinResult) (failed : bool) :
  ending_inv e → en_phase e = Joining →
  length (en_joined e) < length (en_workers e) →
  let id := length (en_joined e) in
  let e' := e <| en_workers := <[id := w]> (en_workers e) |> in
  joined_as e' id r → (w = None ∨ en_workers e !! id = Some w) →
  (if failed then ∃ err, r = Joined (Err err) else join_ok r) →
  ending_inv (join_worker e' r failed).
Proof.
  intros H Hphase Hlt id e' Hr Hw Hok.
  pose proof (ei_phase e H) as Hp. rewrite Hphase in Hp. destruct Hp as [Hall Hle].
  assert (∀ i r', joined_as e' i r' ↔ joined_as (join_worker e' r failed) i r') as Heq by done.
  split.
  - intros i r' Hi. apply Heq. simpl in Hi. apply lookup_snoc_Some in Hi as [[Hi Hj]|[-> ->]]; [|done].
    pose proof (ei_joined e H i r' Hj) as Ha. destruct r' as [res| |err]; simpl in *; try done.
    all: by rewrite list_lookup_insert_ne by (unfold id; lia).
  - intros i. simpl. rewrite length_app. simpl.
    intros [(<- & _ & _)|[_ Hi]]%list_lookup_insert_Some; [unfold id; lia|].
    apply (ei_alive e H) in Hi. lia.
  - intros i x Hi.
    assert (i < told e) as Hi'.
    { unfold told in *. simpl in Hi. rewrite length_insert in Hi. rewrite Hphase. by destruct failed. }
    simpl. intros [(<- & Hx & _)|[_ Hx]]%list_lookup_insert_Some; [|by eapply (ei_told e H)].
    destruct Hw as [->|Hw]; [done|]. eapply (ei_told e H); [done|]. by rewrite Hw, Hx.
  - simpl. rewrite length_insert, length_app. simpl. destruct failed.
    + destruct Hok as [err ->]. split; [done|]. right. by exists (en_joined e), err.
    + split; [by apply Forall_app_2, Forall_singleton|lia].
Qed.

Lemma end_step_inv e e' : end_step e e' → ending_inv e → ending_inv e'.
Proof.
  intros H Hinv. pose proof (ei_phase e Hinv) as HP.
  destruct H as [e id w m w' Hp Hw Ht|e Hp|e id w w' Hp Hw Ht|e Hc|e k w Hp Hw Ho Hi
    |e k w Hp Hw Ho|e Hp|e w r i Hp Hw Ht|e w Hp Hc Hw Ht|e Hp Hl]; try rewrite Hp in HP.
  - apply (ending_inv_task e id w); [done..| |unfold told; rewrite Hp; lia].
    intros r i. by eapply task_step_exited.
  - apply ending_inv_unjoined; [done|exact (ei_unjoined e Hinv HP)|..].
    + intros id w. unfold told. simpl. destruct (is_cancelled _); simpl; lia.
    + simpl. destruct (is_cancelled _) eqn:E; [done|]. split; [lia|done].
  - apply (ending_inv_task e id w); [done..| |].
    + intros r i. by eapply end_task_exited.
    + intros Hid. eapply end_task_doomed; [done|]. by eapply ei_told.
  - by destruct Hinv.
  - destruct HP as (Hj & Hk & Hc). apply ending_inv_unjoined; [done|..].
    + intros id. simpl. intros [(_ & [=] & _)|[_ Hx]]%list_lookup_insert_Some. by eapply ei_unjoined.
    + intros id x Hid. unfold told in Hid. simpl in *.
      intros [(<- & [= <-] & _)|[Hne Hx]]%list_lookup_insert_Some.
      * unfold doomed. simpl. destruct (ws_task w); try done; by left.
      * eapply (ei_told e Hinv); [|done]. unfold told. rewrite Hp. lia.
    + simpl. rewrite length_insert. split; [|done]. by apply lookup_lt_Some in Hw.
  - destruct HP as (Hj & Hk & Hc). apply ending_inv_unjoined; [done|exact (ei_unjoined e Hinv Hj)|..].
    + intros id x Hid Hx. unfold told in Hid. simpl in *. destruct (decide (id = k)) as [->|Hne].
      * rewrite Hw in Hx. injection Hx as <-. unfold doomed. by destruct (ws_task w).
      * eapply (ei_told e Hinv); [|done]. unfold told. rewrite Hp. lia.
    + simpl. split; [|done]. by apply lookup_lt_Some in Hw.
  - destruct HP as (Hj & Hk & Hc). apply ending_inv_unjoined; [done|exact (ei_unjoined e Hinv Hj)| |done].
    intros id x Hid Hx. simpl in *. eapply (ei_told e Hinv); [|done].
    unfold told in *. simpl in Hid. rewrite Hp. by rewrite Hc in Hid.
  - replace e with (e <| en_workers := <[length (en_joined e) := Some w]> (en_workers e) |>) at 1
      by (rewrite list_insert_id by done; by destruct e).
    apply ending_inv_join; [done..|by eapply lookup_lt_Some| |by right|].
    + exists w, i. split; [|done]. simpl. rewrite list_insert_id by done. done.
    + destruct r as [[]|err]; simpl; [by left|by exists err].
  - apply ending_inv_join; [done..|by eapply lookup_lt_Some| |by left|by right].
    split; [|done]. simpl. apply list_lookup_insert_eq. by eapply lookup_lt_Some.
  - destruct HP as [Hall Hle]. destruct Hinv as [Hj Ha Ht _]. split; try done.
    + intros id w. unfold told. simpl. unfold told in Ht. rewrite Hp in Ht. apply Ht.
    + simpl. split; [done|]. by left.
Qed.

Lemma end_steps_inv e e' : rtc end_step e e' → ending_inv e → ending_inv e'.
Proof. induction 1 as [|e1 e2 e3 Hstep _ IH]; [done|]. intros Hinv. by eapply IH, end_step_inv. Qed.

Lemma ending_of_inv s r : ending_inv (ending_of s r).
Proof.
  apply ending_inv_unjoined; simpl; [done| |unfold told; simpl; lia|done].
  intros id. rewrite list_lookup_fmap. by destruct (s_workers s !! id).
Qed.

Lemma end_step_outcome e e' : end_step e e' → en_outcome e' = en_outcome e.
Proof. by destruct 1. Qed.

Lemma end_steps_outcome e e' : rtc end_step e e' → en_outcome e' = en_outcome e.
Proof. induction 1 as [|e1 e2 e3 H _ IH]; [done|]. by rewrite IH, (end_step_outcome e1 e2). Qed.

(** ** Progress *)

Context (answers_total : ∀ spec path, ∃ answer, answers spec path answer).

Lemma end_task_progress (disconnected cancel : bool) w :
  has_exited (ws_task w) = false →
  disconnected = true ∨ ¬ (ws_task w = Receiving ∧ ws_inbox w = []) →
  ∃ w', end_task disconnected cancel w w' ∧ failing w' = false.
Proof.
  intros Hrun Hblock.
  assert (∃ answer, ∀ item, ws_task w = Working item →
    answers (ws_spec w) (item_path item) answer) as [answer Hans].
  { destruct (ws_task w) as [| | |item| | | | | |]; try (by exists None).
    destruct (answers_total (ws_spec w) (item_path item)) as [answer Ha]. exists answer.
    by intros ? [= <-]. }
  destruct (task_move display item_timeout_seconds cancel w (λ _, answer)) as [[[m|] w']|] eqn:Hm.
  - apply task_move_sound with (answers := answers) in Hm; [|done].
    eexists. split; [by eapply end_unsent|]. unfold failing. simpl. by destruct (ws_task w).
  - pose proof (task_move_healthy _ _ _ _ _ _ _ Hm).
    apply task_move_sound with (answers := answers) in Hm; [|done].
    exists w'. split; [by apply end_silent|done].
  - apply task_move_blocked in Hm as [[Ht Hi]|Hex]; [|congruence].
    destruct Hblock as [->|[]]; [|done]. eexists.
    split; [by apply end_disconnected; [unfold waits_command; rewrite Ht|..]|done].
Qed.

(** A step of a task that does not fail is a step of the end that does not. *)
Lemma end_task_unfailing e id w :
  en_phase e ≠ Closing → en_workers e !! id = Some (Some w) → has_exited (ws_task w) = false →
  has_returned e = true ∨ ¬ (ws_task w = Receiving ∧ ws_inbox w = []) →
  ∃ e', end_step e e' ∧ unfailing e e'.
Proof.
  intros Hp Hw Hrun Hblock.
  destruct (end_task_progress (has_returned e) (en_cancel e) w Hrun Hblock) as (w' & Ht & Hf).
  exists (set_worker e id (Some w')). split; [by eapply end_late_task|].
  intros i x. simpl. intros [(<- & [= <-] & _)|[_ Hx]]%list_lookup_insert_Some Hfail; [congruence|done].
Qed.

Lemma unfailing_same e e' : en_workers e' = en_workers e → unfailing e e'.
Proof. intros Heq id w Hw _. by rewrite <-Heq. Qed.

Lemma ending_progress e :
  ending_inv e →
  has_returned e && forallb ended (en_workers e) = true ∨ ∃ e', end_step e e' ∧ unfailing e e'.
Proof.
  intros Hinv. pose proof (ei_phase e Hinv) as HP.
  destruct (en_phase e) as [|k| |res] eqn:Hp.
  - right. eexists. split; [by apply end_close|by apply unfailing_same].
  - right. destruct HP as (Hj & Hk & Hc).
    destruct (decide (k = length (en_workers e))) as [->|Hne].
    { eexists. split; [by apply end_stopped|by apply unfailing_same]. }
    destruct (lookup_lt_is_Some_2 (en_workers e) k) as [[w|] Hw]; [lia| |by apply ei_unjoined in Hw].
    destruct (rx_open (ws_task w)) eqn:Ho.
    2: { eexists. split; [by eapply end_stop_refused|by apply unfailing_same]. }
    destruct (ws_inbox w) as [|c inbox] eqn:Hi.
    + eexists. split; [by eapply end_stop_sent|].
      intros i x. simpl. intros [(<- & [= <-] & _)|[_ Hx]]%list_lookup_insert_Some Hf; [|done].
      unfold failing in Hf. simpl in Hf. by destruct (ws_task w).
    + apply (end_task_unfailing e k w); [by rewrite Hp|done|by destruct (ws_task w)|right].
      intros [_ ?]. congruence.
  - right. destruct HP as [Hall Hle].
    destruct (decide (length (en_joined e) = length (en_workers e))) as [Heq|Hne].
    { eexists. split; [by apply end_return|by apply unfailing_same]. }
    destruct (lookup_lt_is_Some_2 (en_workers e) (length (en_joined e))) as [[w|] Hw]; [lia| |].
    2: { apply (ei_alive e Hinv) in Hw. lia. }
    destruct (has_exited (ws_task w)) eqn:Hex.
    { destruct (ws_task w) as [| | | | | | | | |r i] eqn:Ht; try done.
      eexists. split; [by eapply end_join|by apply unfailing_same]. }
    destruct (is_cancelled (en_outcome e)) eqn:Hc.
    { eexists. split; [by eapply end_abort|].
      intros i x. simpl. by intros [(_ & [=] & _)|[_ Hx]]%list_lookup_insert_Some. }
    apply (end_task_unfailing e (length (en_joined e)) w); [by rewrite Hp|done..|right].
    intros [Ht Hi]. assert (doomed w) as Hd.
    { eapply (ei_told e Hinv); [|done]. unfold told. rewrite Hp, Hc. lia. }
    unfold doomed in Hd. rewrite Ht, Hi in Hd. by apply elem_of_nil in Hd.
  - destruct (forallb ended (en_workers e)) eqn:Hall.
    { left. unfold has_returned. by rewrite Hp. }
    right. apply forallb_false in Hall as ([w|] & (id & Hw)%list_elem_of_lookup & Hrun); [|done].
    apply (end_task_unfailing e id w); [by rewrite Hp|done..|]. left. unfold has_returned. by rewrite Hp.
Qed.

(** ** Results *)

Lemma abort_workers_ok joins rest :
  Forall join_ok joins → abort_workers (joins ++ rest) = abort_workers rest.
Proof. by induction 1 as [|r joins [->| ->] _ IH]. Qed.

Lemma shutdown_workers_ok joins rest :
  Forall (λ r, r = Joined (Ok tt)) joins → shutdown_workers (joins ++ rest) = shutdown_workers rest.
Proof. by induction 1 as [|r joins -> _ IH]. Qed.

(** The tasks joined by a run that was not cancelled were not aborted. *)
Lemma joined_unaborted e joins rest :
  ending_inv e → en_joined e = joins ++ rest → is_cancelled (en_outcome e) = false →
  Forall join_ok joins → Forall (λ r, r = Joined (Ok tt)) joins.
Proof.
  intros Hinv Hj Hc Hok. rewrite Forall_forall in *. intros r Hr.
  destruct (Hok r Hr) as [->| ->]; [done|]. apply list_elem_of_lookup in Hr as (id & Hid).
  destruct (ei_joined e Hinv id JoinAborted) as [_ Hc']; [|congruence].
  rewrite Hj. by apply lookup_app_l_Some.
Qed.

(** Joins before the last one do not decide. *)
Lemma run_result_last e joins rest :
  ending_inv e → en_joined e = joins ++ rest → Forall join_ok joins →
  run_result (en_outcome e) (joins ++ rest) = run_result (en_outcome e) rest.
Proof.
  intros Hinv Hj Hok. unfold run_result. destruct (is_cancelled (en_outcome e)) eqn:Hc.
  - destruct (en_outcome e) as [[|]|]; try done. by rewrite abort_workers_ok.
  - assert (shutdown_workers (joins ++ rest) = shutdown_workers rest) as Hs
      by (eapply shutdown_workers_ok, joined_unaborted; done).
    destruct (en_outcome e) as [[|]|]; try done; by rewrite Hs.
Qed.

Lemma ending_result e res :
  ending_inv e → en_phase e = RunReturned res →
  res = run_result (en_outcome e) (en_joined e)
  ∧ (res = en_outcome e ∧ (is_cancelled (en_outcome e) = false →
       ∀ w, w ∈ en_workers e → ∃ slot i, w = Some slot ∧ ws_task slot = Exited (Ok tt) i)
     ∨ ∃ slot err i, Some slot ∈ en_workers e ∧ ws_task slot = Exited (Err err) i ∧ res = Err err).
Proof.
  intros Hinv Hp. pose proof (ei_phase e Hinv) as HP. rewrite Hp in HP.
  destruct HP as [Hres Hends]. split; [done|]. destruct Hends as [[Hok Hl]|(joins & err & Hj & Hok)].
  - left. split.
    + rewrite Hres, <-(app_nil_r (en_joined e)), (run_result_last e _ []) by (by rewrite ?app_nil_r).
      by destruct (en_outcome e) as [[|]|].
    + intros Hc w (id & Hw)%list_elem_of_lookup.
      destruct (lookup_lt_is_Some_2 (en_joined e) id) as [r Hr].
      { rewrite Hl. by eapply lookup_lt_Some. }
      pose proof (joined_unaborted e (en_joined e) [] Hinv (eq_sym (app_nil_r _)) Hc Hok) as Hall.
      rewrite Forall_forall in Hall. pose proof (Hall r (list_elem_of_lookup_2 _ _ _ Hr)) as ->.
      destruct (ei_joined e Hinv _ _ Hr) as (slot & i & Hslot & Ht).
      exists slot, i. split; [congruence|done].
  - right. destruct (ei_joined e Hinv (length joins) (Joined (Err err))) as (slot & i & Hslot & Ht).
    { rewrite Hj. by apply list_lookup_middle. }
    exists slot, err, i. split; [by eapply list_elem_of_lookup_2|]. split; [done|].
    rewrite Hres, Hj, run_result_last by done. by destruct (en_outcome e) as [[|]|].
Qed.

(** ** An executable end *)

(** The move of a task that does not fail. *)
Definition end_move (cancel : bool) (w : WorkerSlot)
    (answer : WorkItem → option (Result (Event * WorkerStatus))) : option WorkerSlot :=
  match task_move display item_timeout_seconds cancel w answer with
  | Some (None, w') => Some w'
  | Some (Some _, _) => Some (w <| ws_task := after_unsent (ws_task w) |>)
  | None => None
  end.

(** One step under a deterministic schedule: [run] while it can, else the task it
    waits for. *)
Definition end_drive (eval : WorkerSpec → WorkItem → option (Result (Event * WorkerStatus)))
    (e : Ending) : Ending :=
  let move id w :=
    match end_move (en_cancel e) w (eval (ws_spec w)) with
    | Some w' => set_worker e id (Some w')
    | None => e
    end in
  match en_phase e with
  | Closing => e <| en_phase := if is_cancelled (en_outcome e) then Joining else Stopping 0 |>
  | Stopping k =>
      match en_workers e !! k with
      | Some (Some w) =>
          if rx_open (ws_task w) then
            match ws_inbox w with
            | [] => (set_worker e k (Some (w <| ws_inbox := [Stop] |>))) <| en_phase := Stopping (S k) |>
            | _ => move k w
            end
          else e <| en_phase := Stopping (S k) |>
      | Some None => e
      | None => e <| en_phase := Joining |>
      end
  | Joining =>
      let k := length (en_joined e) in
      match en_workers e !! k with
      | Some (Some w) =>
          match ws_task w with
          | Exited r _ => join_worker e (Joined r) (is_err r)
          | _ => if is_cancelled (en_outcome e)
                 then join_worker (set_worker e k None) JoinAborted false else move k w
          end
      | Some None => e
      | None => e <| en_phase := RunReturned (run_result (en_outcome e) (en_joined e)) |>
      end
  | RunReturned _ => e
  end.

Lemma end_move_sound cancel w answer w' disconnected :
  (∀ item, ws_task w = Working item → answers (ws_spec w) (item_path item) (answer item)) →
  end_move cancel w answer = Some w' → end_task disconnected cancel w w'.
Proof.
  intros Ha. unfold end_move.
  destruct (task_move _ _ _ _ _) as [[[m|] x]|] eqn:Hm; intros [= <-];
    apply (task_move_sound display item_timeout_seconds answers) in Hm; try done;
    [by eapply end_unsent|by apply end_silent].
Qed.

(** The evaluator answers as it may to the items in evaluation. *)
Definition end_sound_at (eval : WorkerSpec → WorkItem → option (Result (Event * WorkerStatus)))
    (e : Ending) : Prop :=
  ∀ w item, Some w ∈ en_workers e → ws_task w = Working item →
    answers (ws_spec w) (item_path item) (eval (ws_spec w) item).

Lemma end_drive_sound eval e :
  end_sound_at eval e → ending_inv e → rtc end_step e (end_drive eval e).
Proof.
  intros Ha Hinv. pose proof (ei_phase e Hinv) as HP.
  assert (∀ id w, en_phase e ≠ Closing → en_workers e !! id = Some (Some w) →
    rtc end_step e match end_move (en_cancel e) w (eval (ws_spec w)) with
                   | Some w' => set_worker e id (Some w') | None => e end) as Hmove.
  { intros id w Hp Hw. destruct (end_move _ _ _) as [w'|] eqn:Hm; [|apply rtc_refl].
    apply rtc_once. eapply end_late_task; [done..|]. eapply end_move_sound; [|done]. intros item. apply Ha.
    by eapply list_elem_of_lookup_2. }
  unfold end_drive. destruct (en_phase e) as [|k| |res] eqn:Hp; [by apply rtc_once, end_close|..].
  - destruct HP as (_ & Hk & _). destruct (en_workers e !! k) as [[w|]|] eqn:Hw; [|done|].
    + destruct (rx_open (ws_task w)) eqn:Ho; [|by apply rtc_once; eapply end_stop_refused].
      destruct (ws_inbox w) eqn:Hi; [by apply rtc_once, end_stop_sent|by apply Hmove].
    + apply lookup_ge_None in Hw. apply rtc_once, end_stopped. rewrite Hp. f_equal. lia.
  - destruct HP as [_ Hle]. cbv zeta.
    destruct (en_workers e !! length (en_joined e)) as [[w|]|] eqn:Hw; [|done|].
    + destruct (ws_task w) as [| | | | | | | | |r i] eqn:Ht;
        [destruct (is_cancelled (en_outcome e)) eqn:Hc;
           [apply rtc_once; apply (end_abort e w); by rewrite ?Ht|by apply Hmove]..|].
      by apply rtc_once; eapply end_join.
    + apply lookup_ge_None in Hw. apply rtc_once, end_return; [done|lia].
  - apply rtc_refl.
Qed.

Lemma end_drive_steps eval s r n :
  (∀ k, k < n → end_sound_at eval (Nat.iter k (end_drive eval) (ending_of s r))) →
  rtc end_step (ending_of s r) (Nat.iter n (end_drive eval) (ending_of s r)).
Proof.
  intros Ha. induction n as [|n IH]; [apply rtc_refl|]. etrans; [apply IH; auto|].
  apply end_drive_sound; [apply Ha; lia|]. eapply end_steps_inv, ending_of_inv.
  apply IH. auto.
Qed.
End ending.

(** ** Properties *)

(** C6 (ends): a run always returns. Whatever the coordinator left its workers
    doing, the end of a run takes a bounded number of steps; until [run] has
    returned and every task has ended or was aborted, some step is possible in
    which nothing fails, provided that evaluators answer, so that no task waits
    for a command, and no join for a task, for ever. [run] returns the
    coordinator's result, and then every task that was not cancelled ended well,
    or else the error of the first task that ended in one. *)
Theorem run_ends display timeout answers s r e :
  (∀ spec path, ∃ answer, answers spec path answer) →
  rtc (end_step display timeout answers) (ending_of s r) e →
  (∀ n e', nsteps (end_step display timeout answers) n e e' → n ≤ end_rank e)
  ∧ (has_returned e && forallb ended (en_workers e) = true
     ∨ ∃ e', end_step display timeout answers e e' ∧ unfailing e e')
  ∧ ∀ res, en_phase e = RunReturned res →
      res = run_result r (en_joined e)
      ∧ (res = r ∧ (is_cancelled r = false →
           ∀ w, w ∈ en_workers e → ∃ slot i, w = Some slot ∧ ws_task slot = Exited (Ok tt) i)
         ∨ ∃ slot err i,
             Some slot ∈ en_workers e ∧ ws_task slot = Exited (Err err) i ∧ res = Err err).
Proof.
  intros Htotal Hsteps. pose proof (end_steps_outcome _ _ _ _ _ Hsteps) as Hout.
  apply end_steps_inv in Hsteps; [|apply ending_of_inv]. split_and!.
  - intros n e' Hn. apply end_steps_rank in Hn. lia.
  - by eapply ending_progress.
  - intros res Hres. pose proof (ending_result e res Hsteps Hres) as H. by rewrite Hout in H.
Qed.

(** The demonstration's run, ended. *)
Definition demo_ending (n : nat) : Ending :=
  Nat.iter n (end_drive demo_display 60 (λ _ item, Some (Ok (demo_outcome (item_path item), Ready))))
    (ending_of (demo_state 60) (Ok Completed)).

Lemma run_ends_witness :
  en_phase (demo_ending 20) = RunReturned (Ok Completed)
  ∧ forallb ended (en_workers (demo_ending 20)) = true
  ∧ (∀ n e', nsteps (end_step demo_display 60 demo_answers) n (demo_ending 20) e' →
       n ≤ end_rank (demo_ending 20)).
Proof.
  split_and!; [vm_compute; reflexivity..|].
  refine (proj1 (run_ends demo_display 60 demo_answers (demo_state 60) (Ok Completed)
    (demo_ending 20) _ _)).
  - intros spec path. by eexists.
  - apply end_drive_steps. done.
Defined.
