(* ===== verification/Session.v ===== *)
(** * Sessions

    [crates/evix/src/session.rs], [error.rs], [run.rs] and the evaluation side of
    [watch.rs]: the single-use initial evaluation, the warm state it leaves, and
    the queries, diffs and watch updates over it. An evaluation run is its
    emitted events with its outcome, as the coordinator of [Scheduler.v] gives
    them. *)
From S2P Require Import Prelude Types Graph Config WorkerProcess Scheduler.

(** ** Public errors *)

Inductive Error : Type :=
  | SessionStreamConsumed
  | InitialEvaluationIncomplete (operation : string)
  | SessionStillEvaluating
  | EvaluationFailed (message : string)
  | RuntimeUnavailable (message : string)
  | ErrCancelled
  | Internal (message : string).

(** [impl fmt::Display for Error] *)
Definition show_error (e : Error) : string :=
  match e with
  | SessionStreamConsumed => "session stream has already been consumed"
  | InitialEvaluationIncomplete operation =>
      "Session::" +:+ operation +:+ " requires a completed initial evaluation"
  | SessionStillEvaluating => "session is still evaluating"
  | ErrCancelled => "evaluation was cancelled"
  | EvaluationFailed message | RuntimeUnavailable message | Internal message => message
  end.

(** ** Runs *)

(** What [async_master::run] did: the events its sink received, and the result. *)
Record Run := mkRun {
  run_events : list Event;
  run_outcome : Result RunOutcome;
}.

(** [run::evaluate] and [run::evaluate_async] *)
Definition evaluate (run : Run) : Result (EvalGraph * list EvalError * RunOutcome) :=
  let accumulator := record_all accumulator_default (run_events run) in
  outcome ← run_outcome run;
  Ok (acc_graph accumulator, acc_errors accumulator, outcome).

(** ** Session state *)

Inductive InitialEvaluation : Type := Idle | Running | InitialFinished.

Record Session := mkSession {
  ss_config : Config;
  ss_cancel : bool;
  ss_state : WarmState;
  ss_initial : InitialEvaluation;
}.
#[export] Instance eta_session : EtaRecord Session := λ s,
  mkSession (ss_config s) (ss_cancel s) (ss_state s) (ss_initial s).

(** [Session::open] *)
Definition open_session (config : Config) : Session :=
  mkSession config false warm_state_default Idle.

(** [Session::start_initial_evaluation] *)
Definition start_initial_evaluation (s : Session) : Session * bool :=
  match ss_initial s with
  | Idle => (s <| ss_initial := Running |>, true)
  | Running | InitialFinished => (s, false)
  end.

(** [Session::initial_unavailable_error]; [readable] says that [try_read] got
    the lock. *)
Definition initial_unavailable_error (s : Session) (readable : bool) : Error :=
  match ws_error (ss_state s) with
  | Some error => if readable then EvaluationFailed error else SessionStreamConsumed
  | None => SessionStreamConsumed
  end.

(** The state a completed evaluation leaves. *)
Definition completed_state (graph : EvalGraph) (errors : list EvalError) : WarmState :=
  mkWarmState graph errors true None.

Definition finish_initial_evaluation (s : Session) : Session :=
  s <| ss_initial := InitialFinished |>.

Definition set_error (s : Session) (error : string) : Session :=
  s <| ss_state := (ss_state s) <| ws_error := Some error |> |>.

Definition record_initial_error (s : Session) (error : string) : Session :=
  finish_initial_evaluation (set_error s error).

Section session.
(** [Display] of an error report. *)
Context (display : Report → string).

Definition error_from (err : Report) : Error := Internal (display err).

(** [evaluate_initial] *)
Definition evaluate_initial (s : Session) (run : Run) : Session * Result RunOutcome :=
  match evaluate run with
  | Ok (graph, errors, Completed) =>
      (s <| ss_state := completed_state graph errors |>, Ok Completed)
  | Ok (_, _, Cancelled) => (s, Ok Cancelled)
  | Err err => (set_error s (display err), Err err)
  end.

(** The body of the task of [stream], [stream_bounded], [watch] and
    [watch_bounded] up to the end of the initial evaluation: the session and the
    error item it sends, if any. *)
Definition initial_task (s : Session) (run : Run) : Session * option Error :=
  let '(s, result) := evaluate_initial s run in
  match result with
  | Ok Completed => (finish_initial_evaluation s, None)
  | Ok Cancelled => (record_initial_error s (show_error ErrCancelled), Some ErrCancelled)
  | Err err => (record_initial_error s (display err), Some (error_from err))
  end.

(** The items the initial stream delivers: the run's events, then its error. *)
Definition stream_items (s : Session) (run : Run) : list (result Error Event) :=
  (Ok <$> run_events run) ++ (Err <$> option_list (initial_task s run).2).

(** ** Starting streams *)

Definition no_runtime_message : string := "Session streams require an active Tokio runtime".

(** [spawn_session_task] and its bounded form: without a runtime the error is
    stored (when [try_write] gets the lock) and sent. *)
Definition spawn_session_task (s : Session) (runtime writable : bool)
  : Session * option Error :=
  if runtime then (s, None)
  else
    let s := if writable then set_error s no_runtime_message else s in
    (finish_initial_evaluation s, Some (RuntimeUnavailable no_runtime_message)).

Inductive StreamStart : Type :=
  | StreamRefused (e : Error)
  | StreamFailed (e : Error)
  | StreamSpawned.

(** [Session::stream] and [Session::stream_bounded] up to the spawned task. *)
Definition stream (s : Session) (runtime readable writable : bool) : Session * StreamStart :=
  let '(s, started) := start_initial_evaluation s in
  if started then
    match spawn_session_task s runtime writable with
    | (s, None) => (s, StreamSpawned)
    | (s, Some e) => (s, StreamFailed e)
    end
  else (s, StreamRefused (initial_unavailable_error s readable)).

(** [Session::watch] and [Session::watch_bounded]: the task, when spawned, runs
    the initial evaluation itself if none was started before. *)
Inductive WatchStart : Type :=
  | WatchFailed (e : Error)
  | WatchSpawned (start_initial : bool).

Definition watch (s : Session) (runtime writable : bool) : Session * WatchStart :=
  let '(s, start_initial) := start_initial_evaluation s in
  match spawn_session_task s runtime writable with
  | (s, None) => (s, WatchSpawned start_initial)
  | (s, Some e) => (s, WatchFailed e)
  end.

(** [bounded_capacity] *)
Definition bounded_capacity (capacity : N) : N := N.max capacity 1.

(** ** Operations on the warm state *)

(** The check [query_snapshot] and [diff_once] begin with. *)
Definition require_warm (s : Session) (operation : string) : result Error unit :=
  if ws_completed (ss_state s) then Ok tt
  else match ws_error (ss_state s) with
       | Some error => Err (EvaluationFailed error)
       | None => Err (InitialEvaluationIncomplete operation)
       end.

(** [Session::query_snapshot], and [Session::query], its other name *)
Definition query_snapshot (s : Session) (f : Filter) : result Error (list Derivation) :=
  _ ← require_warm s "query_snapshot";
  Ok (List.filter (λ drv, matches_filter drv f) (map_to_list (ws_graph (ss_state s))).*2).

(** [Session::diff_once] *)
Definition diff_once (s : Session) (run : Run) : Session * result Error Diff :=
  match require_warm s "diff_once" with
  | Err e => (s, Err e)
  | Ok _ =>
      let previous := ws_graph (ss_state s) in
      match evaluate run with
      | Err err => (s, Err (error_from err))
      | Ok (_, _, Cancelled) => (s, Err ErrCancelled)
      | Ok (graph, errors, Completed) =>
          let diff := diff_graphs previous graph errors in
          (s <| ss_state := completed_state graph errors |>, Ok diff)
      end
  end.

(** [Session::is_completed], [Session::cancel], [Session::require_completed] *)
Definition is_completed (s : Session) : bool := ws_completed (ss_state s).
Definition cancel (s : Session) : Session := s <| ss_cancel := true |>.
Definition require_completed (s : Session) : result Error unit :=
  if ws_completed (ss_state s) then Ok tt
  else match ws_error (ss_state s) with
       | Some error => Err (EvaluationFailed error)
       | None => Err SessionStillEvaluating
       end.

(** ** The watch loop *)

Inductive WatchAction : Type := WatchContinue | WatchStop.

(** [WatchSender::send]: it fails when the receiver was dropped. *)
Definition watch_send (connected : bool) : Result unit :=
  if connected then Ok tt else Err (report "watch stream receiver was dropped").

(** [apply_watch_evaluation_result]: the session, the item sent and the result. *)
Definition apply_watch_evaluation_result (s : Session) (run : Run) (previous : EvalGraph)
    (connected : bool) : Session * list (result Error Diff) * Result WatchAction :=
  match evaluate run with
  | Err err =>
      (s, [Err (error_from err)], _ ← watch_send connected; Ok WatchContinue)
  | Ok (_, _, Cancelled) => (s, [], Ok WatchStop)
  | Ok (graph, errors, Completed) =>
      let diff := diff_graphs previous graph errors in
      (s <| ss_state := completed_state graph errors |>, [Ok diff],
       _ ← watch_send connected; Ok WatchContinue)
  end.

(** One check of [wait_for_initial_evaluation]'s loop: [None] waits on. *)
Definition wait_for_initial_evaluation (s : Session) : option (Result unit) :=
  if ss_cancel s
  then Some (Err (report "session dropped before initial evaluation completed"))
  else if ws_completed (ss_state s) then Some (Ok tt)
  else match ws_error (ss_state s) with
       | Some error => Some (Err (report error))
       | None => None
       end.

(** What an iteration of [watch_loop_with_sender] receives; a notification
    comes with the evaluation it causes. *)
Inductive WatchInput : Type :=
  | Notified (run : Run)
  | NotifyError (message : string)
  | WatcherDisconnected
  | WatchTick.

(** The loop over its inputs, after [wait_for_initial_evaluation]: the session,
    the items sent, and the result, [None] while it goes on. *)
Fixpoint watch_loop (s : Session) (connected : bool) (inputs : list WatchInput)
  : Session * list (result Error Diff) * option (Result unit) :=
  if ss_cancel s then (s, [], Some (Ok tt))
  else match inputs with
  | [] => (s, [], None)
  | Notified run :: inputs =>
      let previous := ws_graph (ss_state s) in
      let '(s, items, action) := apply_watch_evaluation_result s run previous connected in
      match action with
      | Err err => (s, items, Some (Err err))
      | Ok WatchStop => (s, items, Some (Ok tt))
      | Ok WatchContinue =>
          let '(s, more, r) := watch_loop s connected inputs in (s, items ++ more, r)
      end
  | NotifyError message :: inputs =>
      let item := Err (error_from (report ("filesystem watch error: " +:+ message))) in
      match watch_send connected with
      | Err err => (s, [item], Some (Err err))
      | Ok _ => let '(s, more, r) := watch_loop s connected inputs in (s, item :: more, r)
      end
  | WatcherDisconnected :: _ =>
      (s, [], Some (Err (report "filesystem watcher disconnected")))
  | WatchTick :: inputs => watch_loop s connected inputs
  end.

(** ** The session as a state machine *)

(** The operations that change a session; [OpEndInitial] is the end of the
    initial evaluation of a spawned task. *)
Inductive SessionOp : Type :=
  | OpStream (runtime readable writable : bool)
  | OpWatch (runtime writable : bool)
  | OpEndInitial (run : Run)
  | OpDiff (run : Run)
  | OpWatchUpdate (run : Run)
  | OpCancel.

Inductive session_step : Session → SessionOp → Session → Prop :=
  | op_stream s runtime readable writable :
      session_step s (OpStream runtime readable writable)
        (stream s runtime readable writable).1
  | op_watch s runtime writable :
      session_step s (OpWatch runtime writable) (watch s runtime writable).1
  | op_end_initial s run :
      ss_initial s ≠ Idle → session_step s (OpEndInitial run) (initial_task s run).1
  | op_diff s run : session_step s (OpDiff run) (diff_once s run).1
  | op_watch_update s run connected :
      wait_for_initial_evaluation s = Some (Ok tt) →
      session_step s (OpWatchUpdate run)
        (apply_watch_evaluation_result s run (ws_graph (ss_state s)) connected).1.1
  | op_cancel s : session_step s OpCancel (cancel s).

(** The sessions that operations lead to, with the operations. *)
Inductive session_steps : Session → list SessionOp → Session → Prop :=
  | steps_nil s : session_steps s [] s
  | steps_snoc s1 ops s2 op s3 :
      session_steps s1 ops s2 → session_step s2 op s3 → session_steps s1 (ops ++ [op]) s3.
End session.

(** ** Lemmas *)

(** The evaluation runs of a sequence of operations. *)
Definition runs_of (ops : list SessionOp) : list Run :=
  omap (λ op, match op with
    | OpEndInitial run | OpDiff run | OpWatchUpdate run => Some run
    | _ => None end) ops.

(** A warm state is that of a completed run. *)
Definition state_of_run (run : Run) (st : WarmState) : Prop :=
  let acc := record_all accumulator_default (run_events run) in
  run_outcome run = Ok Completed ∧ ws_graph st = acc_graph acc ∧ ws_errors st = acc_errors acc.

Lemma evaluate_completed run graph errors :
  evaluate run = Ok (graph, errors, Completed) →
  state_of_run run (completed_state graph errors) ∧ graph_wf graph.
Proof.
  unfold evaluate. intros H. apply bind_ok in H as (outcome & Hr & [= <- <- ->]).
  split; [done|by apply record_all_wf].
Qed.

(** What every operation preserves, given the runs so far. *)
Definition warm_inv (runs : list Run) (st : WarmState) : Prop :=
  graph_wf (ws_graph st)
  ∧ (ws_completed st = true → ∃ run, run ∈ runs ∧ state_of_run run st)
  ∧ (ws_completed st = false → ws_graph st = ∅).

Lemma warm_inv_mono runs runs' st : warm_inv runs st → warm_inv (runs ++ runs') st.
Proof.
  intros (Hwf & Hc & He). split_and!; [done| |done]. intros H.
  destruct (Hc H) as (run & Hrun & Hst). exists run. split; [|done]. apply elem_of_app. by left.
Qed.

Lemma warm_inv_error runs st error :
  warm_inv runs st → warm_inv runs (st <| ws_error := error |>).
Proof. intros (? & Hc & ?). split_and!; [done| |done]. exact Hc. Qed.

Lemma warm_inv_completed runs run graph errors :
  evaluate run = Ok (graph, errors, Completed) →
  warm_inv (runs ++ [run]) (completed_state graph errors).
Proof.
  intros [Hst Hwf]%evaluate_completed. split_and!; [done| |done]. intros _.
  exists run. split; [|done]. apply elem_of_app. right. by left.
Qed.

Section facts.
Context (display : Report → string).

Lemma initial_task_inv s run runs :
  warm_inv runs (ss_state s) →
  warm_inv (runs ++ [run]) (ss_state (initial_task display s run).1).
Proof.
  intros H%(warm_inv_mono _ [run]). unfold initial_task, evaluate_initial.
  destruct (evaluate run) as [[[graph errors] []]|err] eqn:He; simpl.
  - by apply warm_inv_completed.
  - exact (warm_inv_error _ (ss_state s) (Some _) H).
  - exact (warm_inv_error _ (ss_state s) (Some _) H).
Qed.

Lemma spawn_inv s runtime writable runs s' e :
  spawn_session_task s runtime writable = (s', e) →
  warm_inv runs (ss_state s) → warm_inv runs (ss_state s').
Proof. unfold spawn_session_task. by destruct runtime, writable; intros [= <- <-]. Qed.

Lemma session_step_inv s op s' runs :
  session_step display s op s' → warm_inv runs (ss_state s) →
  warm_inv (runs ++ runs_of [op]) (ss_state s').
Proof.
  intros Hstep H. destruct Hstep as [s rt rd wr|s rt wr|s run _|s run|s run connected _|s]; simpl;
    rewrite ?app_nil_r.
  - unfold stream, start_initial_evaluation. destruct (ss_initial s); simpl; try done.
    destruct (spawn_session_task _ rt wr) as [s' e] eqn:Hs.
    apply (spawn_inv _ _ _ runs) in Hs; [|done]. by destruct e.
  - unfold watch, start_initial_evaluation.
    destruct (ss_initial s); simpl; destruct (spawn_session_task _ rt wr) as [s' e] eqn:Hs;
      (apply (spawn_inv _ _ _ runs) in Hs; [|done]); by destruct e.
  - by apply initial_task_inv.
  - apply (warm_inv_mono _ [run]) in H as H'. unfold diff_once.
    destruct (require_warm _ _); [|done].
    destruct (evaluate run) as [[[graph errors] []]|err] eqn:He; simpl; try done.
    by apply warm_inv_completed.
  - apply (warm_inv_mono _ [run]) in H as H'. unfold apply_watch_evaluation_result.
    destruct (evaluate run) as [[[graph errors] []]|err] eqn:He; simpl; try done.
    by apply warm_inv_completed.
  - done.
Qed.

Lemma session_steps_inv s ops s' :
  session_steps display s ops s' → warm_inv [] (ss_state s) → warm_inv (runs_of ops) (ss_state s').
Proof.
  intros Hsteps H. induction Hsteps as [s|s1 ops s2 op s3 _ IH Hstep]; [done|].
  unfold runs_of. rewrite omap_app. apply (session_step_inv s2 op); [done|by apply IH].
Qed.

Lemma open_inv c : warm_inv [] (ss_state (open_session c)).
Proof. split_and!; [intros path d Hd; simpl in Hd; by rewrite lookup_empty in Hd|done|done]. Qed.

Lemma initial_not_idle s op s' :
  session_step display s op s' → ss_initial s ≠ Idle → ss_initial s' ≠ Idle.
Proof.
  intros Hstep Hi. destruct Hstep as [s rt rd wr|s rt wr|s run _|s run|s run connected _|s].
  - unfold stream, start_initial_evaluation, spawn_session_task.
    destruct (ss_initial s) eqn:E; simpl; rewrite ?E; try done; by destruct rt, wr.
  - unfold watch, start_initial_evaluation, spawn_session_task.
    destruct (ss_initial s) eqn:E; destruct rt, wr; simpl; by rewrite ?E.
  - unfold initial_task. destruct (evaluate_initial _ _ _) as [s' [[]|]]; done.
  - unfold diff_once. destruct (require_warm _ _); [|done].
    by destruct (evaluate run) as [[[graph errors] []]|err].
  - unfold apply_watch_evaluation_result.
    by destruct (evaluate run) as [[[graph errors] []]|err].
  - done.
Qed.

(** The diffs a watch delivers. *)
Definition delivered (items : list (result Error Diff)) : list Diff := omap ok items.

Lemma apply_watch_sync s run connected s' items r :
  graph_wf (ws_graph (ss_state s)) →
  apply_watch_evaluation_result display s run (ws_graph (ss_state s)) connected = (s', items, r) →
  graph_wf (ws_graph (ss_state s'))
  ∧ same_drvs (foldl apply_diff (ws_graph (ss_state s)) (delivered items)) (ws_graph (ss_state s')).
Proof.
  intros Hwf. unfold apply_watch_evaluation_result.
  destruct (evaluate run) as [[[graph errors] []]|err] eqn:He; intros [= <- <- _]; simpl.
  - apply evaluate_completed in He as [_ Hwf']. split; [done|].
    intros path. by apply apply_diff_lookup.
  - done.
  - done.
Qed.

Lemma foldl_apply_proper l g h :
  same_drvs g h → same_drvs (foldl apply_diff g l) (foldl apply_diff h l).
Proof.
  revert g h. induction l as [|d l IH]; intros g h H; [done|]. simpl. apply IH. by rewrite H.
Qed.

Lemma watch_loop_sync s connected inputs s' items r :
  graph_wf (ws_graph (ss_state s)) →
  watch_loop display s connected inputs = (s', items, r) →
  same_drvs (foldl apply_diff (ws_graph (ss_state s)) (delivered items)) (ws_graph (ss_state s')).
Proof.
  revert s s' items r. induction inputs as [|input inputs IH]; intros s s' items r Hwf; simpl.
  { destruct (ss_cancel s); by intros [= <- <- _]. }
  destruct (ss_cancel s); [by intros [= <- <- _]|].
  destruct input as [run|message| |].
  - destruct (apply_watch_evaluation_result _ _ _ _ _) as [[s1 items1] action] eqn:Ha.
    apply apply_watch_sync in Ha as [Hwf1 Hsync]; [|done].
    destruct action as [[]|err]; [|by intros [= <- <- _]..].
    destruct (watch_loop _ _ _ _) as [[s2 more] r2] eqn:Hl. intros [= <- <- _].
    apply IH in Hl; [|done]. unfold delivered. rewrite omap_app, foldl_app.
    etrans; [|exact Hl]. by apply foldl_apply_proper.
  - destruct (watch_send connected); [|by intros [= <- <- _]].
    destruct (watch_loop _ _ _ _) as [[s2 more] r2] eqn:Hl. intros [= <- <- _].
    by apply IH in Hl.
  - by intros [= <- <- _].
  - intros Hl. by apply IH in Hl.
Qed.
End facts.

(** ** Properties *)

(** C25 (warm): the warm graph is never partial. After any operations on a session,
    either no evaluation completed and the graph is empty, or the graph and the
    errors are exactly what one run that completed accumulated; every
    derivation is stored under its attribute path. *)
Theorem session_warm_graph display c ops s :
  session_steps display (open_session c) ops s →
  let st := ss_state s in
  graph_wf (ws_graph st)
  ∧ (ws_completed st = true → ∃ run, run ∈ runs_of ops ∧ state_of_run run st)
  ∧ (ws_completed st = false → ws_graph st = ∅).
Proof. intros Hsteps. exact (session_steps_inv _ _ _ _ Hsteps (open_inv c)). Qed.

Definition session_run : Run := mkRun [EvDerivation hello_drv] (Ok Completed).
Definition session_run_new : Run := mkRun [EvDerivation hello_new] (Ok Completed).
Definition quiet_display (err : Report) : string := "error".
Definition session_done : Session :=
  (initial_task quiet_display (stream (open_session config_default) true true true).1
     session_run).1.

Lemma session_done_steps :
  session_steps quiet_display (open_session config_default)
    [OpStream true true true; OpEndInitial session_run] session_done.
Proof.
  apply (steps_snoc _ _ [OpStream true true true]
    (stream (open_session config_default) true true true).1).
  - apply (steps_snoc _ _ [] (open_session config_default)); [apply steps_nil|apply op_stream].
  - apply op_end_initial. done.
Qed.

Lemma session_warm_graph_witness :
  ∃ run, run ∈ runs_of [OpStream true true true; OpEndInitial session_run]
    ∧ state_of_run run (ss_state session_done).
Proof.
  apply (session_warm_graph quiet_display config_default _ session_done session_done_steps).
  vm_compute. reflexivity.
Defined.

(** The initial evaluation is single-use. A stream that is opened
    leaves the session started, a started session stays so whatever happens
    next, and every later stream is refused without touching it: with the
    stored error when the initial evaluation failed, as consumed otherwise. *)
Theorem initial_evaluation_single_use display s runtime readable writable ops s' :
  session_steps display (stream s runtime readable writable).1 ops s' →
  ss_initial s' ≠ Idle
  ∧ ∀ rt wr, stream s' rt true wr
      = (s', StreamRefused match ws_error (ss_state s') with
             | Some error => EvaluationFailed error
             | None => SessionStreamConsumed end).
Proof.
  intros Hsteps.
  assert (ss_initial s' ≠ Idle) as Hi.
  { remember (stream s runtime readable writable).1 as s1 eqn:Hs1.
    induction Hsteps as [s1|s1 ops s2 op s3 _ IH Hstep]; [|by eapply initial_not_idle; eauto].
    subst. unfold stream, start_initial_evaluation, spawn_session_task.
    destruct (ss_initial s) eqn:E; simpl; rewrite ?E; try done.
    by destruct runtime. }
  split; [done|]. intros rt wr. unfold stream, start_initial_evaluation, initial_unavailable_error.
  by destruct (ss_initial s').
Qed.

Lemma initial_evaluation_single_use_witness :
  (stream session_done true true true).2 = StreamRefused SessionStreamConsumed.
Proof.
  assert (session_steps quiet_display (stream (open_session config_default) true true true).1
    [OpEndInitial session_run] session_done) as H.
  { apply (steps_snoc _ _ [] (stream (open_session config_default) true true true).1);
      [apply steps_nil|]. apply op_end_initial. done. }
  rewrite (proj2 (initial_evaluation_single_use quiet_display (open_session config_default)
    true true true _ session_done H) true true). reflexivity.
Defined.

(** A failed or cancelled initial evaluation is remembered. Nothing of
    its partial graph is kept, its error ends the stream, and queries, diffs
    and later streams all report the stored message. *)
Theorem failed_initial_evaluation display s run :
  ws_completed (ss_state s) = false → run_outcome run ≠ Ok Completed →
  let '(s', item) := initial_task display s run in
  ∃ e message, item = Some e ∧ message = show_error e
    ∧ ws_graph (ss_state s') = ws_graph (ss_state s)
    ∧ require_completed s' = Err (EvaluationFailed message)
    ∧ (∀ f, query_snapshot s' f = Err (EvaluationFailed message))
    ∧ (∀ run', diff_once display s' run' = (s', Err (EvaluationFailed message)))
    ∧ (∀ rt wr, (stream s' rt true wr).2 = StreamRefused (EvaluationFailed message)).
Proof.
  intros Hc Hrun. unfold initial_task, evaluate_initial, evaluate.
  destruct (run_outcome run) as [[]|err]; simpl; [done| |].
  - eexists _, _. split; [done|]. split; [done|]. unfold require_completed, query_snapshot,
      diff_once, require_warm. simpl. rewrite Hc. done.
  - eexists _, _. split; [done|]. split; [done|]. unfold require_completed, query_snapshot,
      diff_once, require_warm. simpl. rewrite Hc. done.
Qed.

Lemma failed_initial_evaluation_witness :
  let '(s', item) := initial_task quiet_display (open_session config_default)
    (mkRun [EvDerivation hello_drv] (Ok Cancelled)) in
  query_snapshot s' filter_default = Err (EvaluationFailed "evaluation was cancelled").
Proof.
  pose proof (failed_initial_evaluation quiet_display (open_session config_default)
    (mkRun [EvDerivation hello_drv] (Ok Cancelled)) eq_refl ltac:(discriminate)) as H.
  destruct (initial_task _ _ _) as [s' item] eqn:Hs.
  destruct H as (e & message & He & -> & _ & _ & Hquery & _).
  apply (f_equal snd) in Hs. simpl in Hs. rewrite He in Hs. injection Hs as <-.
  apply Hquery.
Defined.



(** [diff_once] either replaces the warm state by that of its own
    completed run and returns the diff between the two graphs, or leaves the
    session exactly as it was and returns an error. *)
Theorem diff_once_spec display s run :
  let '(s', r) := diff_once display s run in
  match r with
  | Ok diff =>
      ws_completed (ss_state s) = true ∧ run_outcome run = Ok Completed
      ∧ state_of_run run (ss_state s') ∧ ws_completed (ss_state s') = true
      ∧ diff = diff_graphs (ws_graph (ss_state s)) (ws_graph (ss_state s'))
                 (errors_of (run_events run))
  | Err _ => s' = s ∧ (ws_completed (ss_state s) = false ∨ run_outcome run ≠ Ok Completed)
  end.
Proof.
  unfold diff_once, require_warm, evaluate.
  destruct (ws_completed (ss_state s)) eqn:Hc; [|by destruct (ws_error (ss_state s)); auto].
  destruct (run_outcome run) as [[]|err] eqn:Ho; simpl; [|by auto..].
  split_and!; try done. by rewrite record_all_errors.
Qed.

(** A snapshot query returns exactly the derivations of the warm graph
    that the filter accepts, one per path, and is refused unless an evaluation
    completed. *)
Theorem query_snapshot_spec s f :
  match query_snapshot s f with
  | Ok drvs =>
      ws_completed (ss_state s) = true
      ∧ (∀ d, d ∈ drvs ↔ filter_accepts f d ∧ ∃ path, ws_graph (ss_state s) !! path = Some d)
      ∧ length drvs ≤ size (ws_graph (ss_state s))
  | Err _ => ws_completed (ss_state s) = false
  end.
Proof.
  unfold query_snapshot, require_warm.
  destruct (ws_completed (ss_state s)) eqn:Hc; [|by destruct (ws_error (ss_state s))].
  simpl. split; [done|]. split.
  - intros d. rewrite list_elem_of_In, filter_In, <-list_elem_of_In.
    rewrite (matches_filter_iff d f), (comm (∧)). apply Morphisms_Prop.and_iff_morphism; [done|].
    rewrite list_elem_of_fmap. split.
    + intros ([path d'] & -> & Hd). exists path. by apply elem_of_map_to_list.
    + intros [path Hd]. exists (path, d). split; [done|]. by apply elem_of_map_to_list.
  - etrans; [apply List.filter_length_le|]. rewrite length_fmap. by rewrite length_map_to_list.
Qed.
