(* ===== verification/Evaluation.v ===== *)
(** * A whole evaluation

    The coordinator of [Scheduler.v] over workers that speak the protocol of
    [Worker.v] and evaluate with [process_attr] of [Eval.v], and the warm graph
    that [Session.v] keeps of the run. *)
From S2P Require Import Prelude Types Graph Config Traversal Fork WorkerProcess RemoteProto Eval Worker Scheduler Pool Coordination Session.

(** ** Recording deterministic events *)

Section recording.
Context (outcome : list string → Event).
Context (outcome_named : ∀ path, event_attr_path (outcome path) = path).

Lemma traverse_outcome fuel path event :
  event ∈ traverse outcome fuel path → event = outcome (event_attr_path event).
Proof.
  revert path. induction fuel as [|fuel IH]; intros path; cbn [traverse];
    intros [->|Hin]%elem_of_cons; try (by rewrite outcome_named).
  - by apply elem_of_nil in Hin.
  - apply list_elem_of_In, in_concat in Hin as (l & Hl & Hin).
    apply list_elem_of_In in Hl, Hin. apply list_elem_of_fmap in Hl as (child & -> & _).
    by eapply IH.
Qed.

Lemma last_drv_elem path d evs :
  last_drv path evs = Some d → EvDerivation d ∈ evs ∧ d_attr_path d = path.
Proof.
  unfold last_drv. intros (l & Hl)%last_Some.
  assert (d ∈ l ++ [d]) as Hd by (apply elem_of_app; right; by left).
  rewrite <-Hl in Hd. apply list_elem_of_omap in Hd as (ev & Hev & Hd).
  destruct ev as [d'| |]; [|done..]. unfold path_eqb in Hd. case_bool_decide; [|done].
  by injection Hd as ->.
Qed.

Lemma last_drv_some path evs d :
  EvDerivation d ∈ evs → d_attr_path d = path → is_Some (last_drv path evs).
Proof.
  intros Hin <-. unfold last_drv. apply last_is_Some. intros Hnil.
  assert (d ∈ omap (λ ev, match ev with
    | EvDerivation d' => if path_eqb (d_attr_path d') (d_attr_path d) then Some d' else None
    | _ => None end) evs) as Hd.
  { apply list_elem_of_omap. exists (EvDerivation d). split; [done|].
    unfold path_eqb. by rewrite bool_decide_true. }
  rewrite Hnil in Hd. by apply elem_of_nil in Hd.
Qed.

(** The graph of deterministic events does not depend on their order. *)
Lemma last_drv_outcome path d evs :
  (∀ event, event ∈ evs → event = outcome (event_attr_path event)) →
  last_drv path evs = Some d ↔ outcome path = EvDerivation d ∧ outcome path ∈ evs.
Proof.
  intros Hdet. split.
  - intros [Hin Hp]%last_drv_elem. pose proof (Hdet _ Hin) as Hd. simpl in Hd.
    rewrite Hp in Hd. rewrite <-Hd. done.
  - intros [Hd Hin]. rewrite Hd in Hin.
    assert (d_attr_path d = path) as Hp.
    { pose proof (outcome_named path) as H. by rewrite Hd in H. }
    destruct (last_drv_some path evs d Hin Hp) as [d' Hd'].
    apply last_drv_elem in Hd' as Hd2. destruct Hd2 as [Hin' Hp'].
    pose proof (Hdet _ Hin') as Hout. simpl in Hout. rewrite Hp', Hd in Hout.
    injection Hout as ->. done.
Qed.
End recording.

(** ** Answers of a conversation *)

Section evaluation.
Context {V P D : Type} `{NixApi V P D}.
Context (display : Report → string) (debug debug_path : string → string).
Context (debug_server : ServerMessage → string) (debug_list : list string → string).
Context (json_to_string : Json → Result string) (json_from_str : string → Result Json).
Context (strings_to_string : list string → Result string).
Context (strings_from_str : string → Result (list string)).
Context (root : V) (env : @EvalEnv V) (max_memory_size : N) (world : WorkerWorld).
Context (remains : Remains).

Definition outcome (path : list string) : Event := outcome_of display debug root env path.

(** A path whose request and event the protocol can carry. *)
Definition carried (path : list string) : Prop :=
  texts_wf path
  ∧ event_wf json_to_string json_from_str strings_to_string strings_from_str (outcome path).

(** What a worker answers for a path: its part of a conversation of that worker,
    from its start, over paths the protocol can carry. *)
Definition worker_answers (spec : WorkerSpec) (path : list string)
    (answer : option (Result (Event * WorkerStatus))) : Prop :=
  ∃ f paths i r, Forall carried paths ∧ paths !! i = Some path ∧ answer = Some r
    ∧ works display debug_server debug_list json_from_str strings_from_str (spec_label spec) remains
        paths (Ok <$> (worker_loop display debug json_to_string strings_to_string root env
          max_memory_size world 0 f
          ((λ path, encode_client debug_path (RemoteProto.Work path) ≫= decode_client) <$> paths)).1) !! i
      = Some r.

Lemma expected_works_lookup paths n i path r :
  paths !! i = Some path →
  expected_works outcome (restarts world max_memory_size) n paths !! i = Some r →
  ∃ status, r = Ok (outcome path, status).
Proof.
  revert n i. induction paths as [|p paths IH]; intros n i; [done|]. cbn [expected_works].
  destruct (restarts world max_memory_size n), i as [|i]; simpl.
  - intros [= ->] [= <-]. eauto.
  - done.
  - intros [= ->] [= <-]. eauto.
  - apply IH.
Qed.

Lemma worker_answers_outcome spec path answer :
  stays_parent world → (∀ k, is_err (ww_max_rss_kb world k) = false) →
  worker_answers spec path answer → ∃ status, answer = Some (Ok (outcome path, status)).
Proof.
  intros Hparent Hrss (f & paths & i & r & Hwf & Hpath & -> & Hr).
  rewrite Forall_forall in Hwf.
  rewrite requests_decoded in Hr by (intros p Hp; by apply Hwf).
  pose proof (conversation_spec display debug debug_server debug_list json_to_string json_from_str
    strings_to_string strings_from_str root env max_memory_size world (spec_label spec) remains
    0 f paths Hparent Hrss (λ p Hp, proj2 (Hwf p Hp))) as Hspec.
  destruct (worker_loop _ _ _ _ _ _ _ _ _ _ _) as [out e]. destruct Hspec as [Hworks _].
  cbn [fst] in Hr. rewrite Hworks in Hr.
  destruct (expected_works_lookup _ _ _ _ _ Hpath Hr) as [status ->]. eauto.
Qed.

(** A worker answers any path the protocol can carry, were it its first. *)
Lemma worker_answers_carried spec path :
  stays_parent world → (∀ k, is_err (ww_max_rss_kb world k) = false) → carried path →
  worker_answers spec path
    (Some (Ok (outcome path, if restarts world max_memory_size 0 then Restart else Ready))).
Proof.
  intros Hparent Hrss Hpath. exists (mkForker [] 0 [] 0), [path], 0.
  eexists. split; [by constructor|]. split; [done|]. split; [done|].
  rewrite requests_decoded by (intros p ->%list_elem_of_singleton; apply Hpath).
  pose proof (conversation_spec display debug debug_server debug_list json_to_string json_from_str
    strings_to_string strings_from_str root env max_memory_size world (spec_label spec) remains
    0 (mkForker [] 0 [] 0) [path] Hparent Hrss) as H'.
  destruct (worker_loop _ _ _ _ _ _ _ _ _ _ _) as [out e]. cbn [fst].
  destruct H' as [-> _]; [by intros p ->%list_elem_of_singleton; apply Hpath|].
  cbn [expected_works]. by destruct (restarts _ _ _).
Qed.

(** C2 (endtoend): an evaluation finds exactly the attributes of its input. Take any
    pool of workers that answer as their conversation with [process_attr] says.
    Every run ends within a number of steps given by the attribute tree, which
    is at most [MAX_ATTR_DEPTH] deep. A completed run has emitted the events of
    the sequential traversal of the tree, each of them once per announcement;
    and the session keeps as its graph, whatever the order of the answers, at
    each path the derivation found there and nothing else, with all the errors. *)
Theorem evaluation_end_to_end on_event timeout specs cancel s :
  pool_wf specs → stays_parent world → (∀ k, is_err (ww_max_rss_kb world k) = false) →
  let tree := traverse outcome MAX_ATTR_DEPTH [] in
  (∀ n s', nsteps (step display on_event timeout worker_answers) n (sys_init specs cancel) s' →
     n ≤ 20 * length tree + 8 * length specs + 3)
  ∧ (∀ event, event ∈ tree → length (event_attr_path event) ≤ MAX_ATTR_DEPTH)
  ∧ (reachable display on_event timeout worker_answers specs s →
     s_phase s = Finished (Ok Completed) →
     s_emitted s ≡ₚ tree
     ∧ ∃ graph errors,
         evaluate (mkRun (s_emitted s) (Ok Completed)) = Ok (graph, errors, Completed)
         ∧ (∀ path d, graph !! path = Some d ↔ outcome path = EvDerivation d ∧ outcome path ∈ tree)
         ∧ errors ≡ₚ errors_of tree).
Proof.
  intros Hpool Hparent Hrss tree.
  assert (depth_bounded outcome MAX_ATTR_DEPTH) as Hd by apply outcome_depth_bounded.
  assert (∀ path, event_attr_path (outcome path) = path) as Hnamed by apply outcome_path.
  assert (∀ spec path answer, worker_answers spec path answer →
    ∃ status, answer = Some (Ok (outcome path, status))) as Hanswers
    by (intros; by eapply worker_answers_outcome).
  split_and!.
  - intros n s' Hsteps. eapply (steps_bound _ _ _ _ outcome MAX_ATTR_DEPTH) in Hsteps; [|done..|].
    + unfold subtree in Hsteps. by rewrite Nat.sub_0_r in Hsteps.
    + intros spec path event status Ha. destruct (Hanswers _ _ _ Ha) as [st [= <- _]]. done.
  - intros event Hin. eapply traverse_length in Hin; [|done]. cbn [length] in Hin. lia.
  - intros Hr Hp.
    assert (s_emitted s ≡ₚ tree) as Hperm.
    { etrans; [by eapply completed_subtree|]. unfold subtree. by rewrite Nat.sub_0_r. }
    split; [done|]. unfold evaluate. cbn [run_outcome run_events mbind result_bind].
    eexists _, _. split; [done|]. rewrite record_all_errors. split.
    + intros path d. rewrite record_all_graph, (last_drv_outcome outcome Hnamed), Hperm; [done|].
      intros event Hin. rewrite Hperm in Hin. by eapply traverse_outcome.
    + unfold errors_of. by rewrite Hperm.
Qed.
End evaluation.

(** ** A concrete evaluation *)

Definition tree_paths : list (list string) := [[]; ["pkgs"]; ["pkgs"; "hello"]].

Definition tree_answer (path : list string) : option (Result (Event * WorkerStatus)) :=
  Some (Ok (outcome quiet_display id tree_root tree_env path, Ready)).

Definition tree_answers : WorkerSpec → list string → option (Result (Event * WorkerStatus)) → Prop :=
  worker_answers quiet_display id id (λ _, "message") (str_join ".") print_json parse_string
    print_strings parse_strings tree_root tree_env 1 calm_world (mkRemains None EmptyString).

Definition tree_state (n : nat) : Sys :=
  Nat.iter n (drive quiet_display demo_sink 60 (λ _ item, tree_answer (item_path item)))
    (sys_init demo_specs false).

(** The items in evaluation are at paths of the tree. *)
Definition within_tree (s : Sys) : bool :=
  forallb (λ w, match ws_task w with
                | Working item => bool_decide (item_path item ∈ tree_paths)
                | _ => true
                end) (s_workers s).

Definition hello_drv : Derivation :=
  mkDerivation "pkgs.hello" ["pkgs"; "hello"] "hello" "" "/nix/store/0-hello.drv"
    {["out" := Some "/nix/store/0-hello"]} (Some (JString "nice")) ∅ None None.

Lemma tree_outcomes :
  outcome quiet_display id tree_root tree_env <$> tree_paths
  = [EvAttrSet "" [] ["pkgs"]; EvAttrSet "pkgs" ["pkgs"] ["hello"]; EvDerivation hello_drv].
Proof. vm_compute. reflexivity. Qed.

Lemma short_texts_wf l : forallb utf8_valid l && (length l <=? 9) = true → texts_wf l.
Proof.
  intros [Hl Hlen%Nat.leb_le]%andb_true_iff. split; [unfold fits, u32_max; lia|].
  by apply Forall_forall, forallb_elem_of.
Qed.

Lemma hello_drv_wf : derivation_wf print_json parse_string print_strings parse_strings hello_drv.
Proof.
  split; cbn [d_attr d_attr_path d_name d_system d_drv_path d_outputs d_meta d_input_drvs
    d_constituents d_gc_root_error hello_drv]; try reflexivity.
  - by apply short_texts_wf.
  - apply N.leb_le. vm_compute. reflexivity.
  - apply map_Forall_singleton. split; [done|by intros ? [= <-]].
  - intros json [= <-]. by exists "nice".
  - apply N.leb_le. vm_compute. reflexivity.
  - apply map_Forall_empty.
  - done.
  - done.
Qed.

Lemma tree_carried path :
  path ∈ tree_paths →
  carried quiet_display id print_json parse_string print_strings parse_strings tree_root tree_env path.
Proof.
  intros (i & Hi)%list_elem_of_lookup. pose proof tree_outcomes as Hout.
  assert (forall event, (outcome quiet_display id tree_root tree_env <$> tree_paths) !! i
    = Some event → event = outcome quiet_display id tree_root tree_env path) as Hev.
  { intros event. rewrite list_lookup_fmap, Hi. by intros [= <-]. }
  rewrite Hout in Hev. unfold carried.
  destruct i as [|[|[|i]]]; [| | |by apply lookup_lt_Some in Hi; simpl in Hi; lia];
    injection Hi as <-; rewrite <-(Hev _ eq_refl);
    (split; [by apply short_texts_wf|]); cbn [event_wf].
  1,2: split_and!; first [done|by apply short_texts_wf].
  apply hello_drv_wf.
Qed.

Lemma tree_answers_sound spec path : path ∈ tree_paths → tree_answers spec path (tree_answer path).
Proof.
  intros Hpath%tree_carried. apply (worker_answers_carried _ _ _ _ _ _ _ _ _ _ _ 1 calm_world);
    [apply calm_world_parent|apply calm_world_memory|done].
Qed.

Lemma tree_reachable : reachable quiet_display demo_sink 60 tree_answers demo_specs (tree_state 60).
Proof.
  apply drive_reachable_at. intros k Hk w item Hw Htask. apply tree_answers_sound.
  assert (forallb (λ k, within_tree (tree_state k)) (seq 0 60) = true) as Hall
    by (vm_compute; reflexivity).
  rewrite forallb_forall in Hall. specialize (Hall k). rewrite in_seq in Hall.
  specialize (Hall ltac:(lia)). unfold within_tree in Hall. rewrite forallb_forall in Hall.
  apply list_elem_of_In in Hw. specialize (Hall _ Hw). rewrite Htask in Hall.
  by apply bool_decide_eq_true in Hall.
Qed.

Lemma tree_finished : s_phase (tree_state 60) = Finished (Ok Completed).
Proof. vm_compute. reflexivity. Qed.

Lemma evaluation_end_to_end_witness :
  ∃ graph errors,
    evaluate (mkRun (s_emitted (tree_state 60)) (Ok Completed)) = Ok (graph, errors, Completed)
    ∧ graph !! ["pkgs"; "hello"] = Some hello_drv ∧ length (s_emitted (tree_state 60)) = 3.
Proof.
  destruct (evaluation_end_to_end quiet_display id id (λ _, "message") (str_join ".") print_json
    parse_string print_strings parse_strings tree_root tree_env 1 calm_world
    (mkRemains None EmptyString) demo_sink 60 demo_specs false (tree_state 60) demo_pool
    calm_world_parent calm_world_memory) as (_ & _ & Hrun).
  destruct (Hrun tree_reachable tree_finished) as (Hperm & graph & errors & Hev & Hgraph & _).
  exists graph, errors. split; [exact Hev|]. split.
  - apply Hgraph. split; [vm_compute; reflexivity|]. right. right. left.
  - rewrite Hperm. vm_compute. reflexivity.
Defined.
