(* ===== verification/Typing.v ===== *)
(** * What a run sends is well-formed

    No source: the messages of [RemoteProto.v] can carry every configuration that
    was validated, every path a run visits and every event an evaluator gives,
    so the conversations of [Worker.v] never end in an encoding error. *)
From S2P Require Import Prelude Types Config Traversal Fork WorkerProcess RemoteProto Eval Worker JsonWire Scheduler Pool Coordination Session Evaluation.

(** ** Texts *)

Lemma text_wf_app s t : text_wf s → text_wf t → text_wf (s +:+ t).
Proof.
  unfold text_wf, utf8_valid. intros Hs Ht. by rewrite str_chars_app, utf8_valid_bytes_app.
Qed.

Lemma text_wf_join sep l : text_wf sep → Forall text_wf l → text_wf (str_join sep l).
Proof.
  intros Hsep. induction 1 as [|s l Hs _ IH]; [done|].
  destruct l as [|t l]; [done|]. cbn [str_join] in *. by repeat apply text_wf_app.
Qed.

Lemma texts_wf_sub l k : length k ≤ length l → (∀ s, s ∈ k → s ∈ l) → texts_wf l → texts_wf k.
Proof.
  unfold texts_wf, fits. rewrite !Forall_forall. intros Hlen Hsub [Hfit Hall].
  split; [lia|]. auto.
Qed.

Lemma length_omap_le {A B} (f : A → option B) l : length (omap f l) ≤ length l.
Proof. induction l as [|a l IH]; simpl; fold_lists; [lia|]. destruct (f a); simpl; lia. Qed.

(** ** JSON values *)

Section json.
Context (number_wf : Number → Prop).

(** JSON whose texts are UTF-8, whose containers fit a schema list, whose keys
    ascend and whose numbers are of the given ones. *)
Inductive json_typed : Json → Prop :=
  | typed_null : json_typed JNull
  | typed_bool b : json_typed (JBool b)
  | typed_number n : number_wf n → json_typed (JNumber n)
  | typed_string s : text_wf s → json_typed (JString s)
  | typed_array items : fits items → Forall json_typed items → json_typed (JArray items)
  | typed_object m : fits m → jmap_wf m → Forall (λ kv, text_wf kv.1) m →
      Forall (λ kv, json_typed kv.2) m → json_typed (JObject m).

Lemma json_typed_get key json v : json_typed json → json_get key json = Some v → json_typed v.
Proof.
  intros Hjson Hget. destruct Hjson as [| | | | |m _ _ _ Hm]; try done. simpl in Hget.
  rewrite Forall_forall in Hm. apply (Hm (key, v)). clear Hm.
  induction m as [|[k w] m IH]; simpl in *; [done|]. case_decide as Hk.
  - injection Hget as ->. subst. by left.
  - right. auto.
Qed.

Lemma json_typed_object json m :
  json_typed json → as_object json = Some m →
  fits m ∧ Forall (λ kv, text_wf kv.1) m ∧ Forall (λ kv, json_typed kv.2) m.
Proof. by intros [] [= ->]. Qed.

Lemma json_typed_str json s : json_typed json → as_str json = Some s → text_wf s.
Proof. by intros [] [= ->]. Qed.

Lemma json_typed_strings json l :
  json_typed json → json_to_strings json = Some l → texts_wf l.
Proof.
  intros Hjson Hl. destruct Hjson as [| | | |items Hfit Hitems|]; try done. simpl in Hl.
  apply mapM_Some in Hl. split.
  - unfold fits. by rewrite <-(Forall2_length _ _ _ Hl).
  - clear Hfit. induction Hl as [|json s items l Hs _ IH]; [done|].
    apply Forall_cons in Hitems as [Hjson Hitems]. constructor; [by eapply json_typed_str|auto].
Qed.

Lemma json_typed_items items : json_typed (JArray items) → Forall json_typed items.
Proof. by inversion 1. Qed.

Lemma json_typed_entries m : json_typed (JObject m) → Forall (λ kv, json_typed kv.2) m.
Proof. by inversion 1. Qed.

Lemma jmap_insert_length k v m : length (jmap_insert k v m) ≤ S (length m).
Proof.
  induction m as [|[k' v'] m IH]; simpl; [lia|]. repeat case_decide; simpl; lia.
Qed.
End json.

(** ** What the Nix bindings give *)

(** Strings of the bindings are Rust strings, lists fit the schema, and the JSON of
    a derivation is a parsed document; [number_wf] holds of the numbers read. *)
Class NixTyped (V P D : Type) `{NixApi V P D} (display : Report → string)
    (number_wf : Number → Prop) : Prop := {
  typed_val_string (v : V) s : val_string v = Ok s → text_wf s;
  typed_attr_keys (v : V) keys : attr_keys v = Ok keys → texts_wf keys;
  typed_list_len (v : V) len : Eval.list_len v = Ok len → (N.of_nat len ≤ u32_max)%N;
  typed_val_int (v : V) i : val_int v = Ok i → number_wf (number_of_int i);
  typed_val_float (v : V) f n :
    val_float v = Ok f → number_from_f64 f = Some n → number_wf n;
  typed_print_path (p : P) s : print_path p = Ok s → text_wf s;
  typed_parse_json s json : parse_json s = Ok json → json_typed number_wf json;
  typed_store_dir s : store_dir_setting = Ok s → text_wf s;
  typed_display err : text_wf (display err);
}.

Section nix.
Context {V P D : Type} `{NixApi V P D} (display : Report → string) (number_wf : Number → Prop).
Context `{!NixTyped V P D display number_wf}.
Context (debug_path : string → string).

Abbreviation json_typed := (json_typed number_wf).

Lemma list_to_json_typed convert (v : V) indices items :
  (∀ w json, convert w = Ok (Some json) → json_typed json) →
  list_to_json convert v indices = Ok (Some items) →
  length items = length indices ∧ Forall json_typed items.
Proof.
  intros Hconv. revert items. induction indices as [|i indices IH]; intros items; simpl.
  { by intros [= <-]. }
  destruct (list_get v i) as [w|]; [|done].
  intros (json & Hj & Hr)%bind_ok. apply bind_ok in Hr as ([rest|] & Hrest & [= <-]).
  destruct (IH _ Hrest) as [Hlen Hall]. simpl. split; [lia|]. constructor; [|done].
  destruct json as [json|]; simpl; [by eapply Hconv|constructor].
Qed.

Lemma attrs_to_json_typed convert (v : V) map keys map' :
  (∀ w json, convert w = Ok (Some json) → json_typed json) → Forall text_wf keys →
  jmap_wf map → Forall (λ kv, text_wf kv.1) map → Forall (λ kv, json_typed kv.2) map →
  attrs_to_json convert v map keys = Ok map' →
  length map' ≤ length map + length keys
  ∧ jmap_wf map' ∧ Forall (λ kv, text_wf kv.1) map' ∧ Forall (λ kv, json_typed kv.2) map'.
Proof.
  intros Hconv. revert map. induction keys as [|key keys IH]; intros map Hkeys Hwf Hk Hv; simpl.
  { intros [= <-]. split_and!; [lia|done..]. }
  apply Forall_cons in Hkeys as [Hkey Hkeys].
  destruct (get_attr v key) as [w|].
  2:{ intros Hr. destruct (IH map Hkeys Hwf Hk Hv Hr) as (? & ? & ? & ?). split_and!; [lia|done..]. }
  intros (json & Hj & Hr)%bind_ok. destruct json as [json|].
  2:{ destruct (IH map Hkeys Hwf Hk Hv Hr) as (? & ? & ? & ?). split_and!; [lia|done..]. }
  apply IH in Hr as (Hlen & ? & ? & ?); [|done|by apply jmap_insert_wf|..].
  - pose proof (jmap_insert_length key json map). split_and!; [lia|done..].
  - rewrite Forall_forall in *. intros kv [->|?]%jmap_insert_elem; auto.
  - rewrite Forall_forall in *. intros kv [->|?]%jmap_insert_elem; [by eapply Hconv|auto].
Qed.

Lemma value_to_json_typed depth (v : V) json :
  value_to_json debug_path depth v = Ok (Some json) → json_typed json.
Proof.
  revert v json. induction depth as [|depth IH]; intros v json; simpl; [done|].
  destruct (force v) as [w|]; [|done].
  destruct (value_type w); try done.
  - intros [= Hj]. destruct (val_int w) eqn:Hi; simplify_eq/=. constructor. by eapply typed_val_int.
  - intros [= Hj]. destruct (val_float w) as [f|] eqn:Hf; simpl in Hj; [|done].
    destruct (number_from_f64 f) eqn:Hn; simplify_eq/=. constructor. by eapply typed_val_float.
  - intros [= Hj]. destruct (val_bool w); simplify_eq/=. constructor.
  - intros [= Hj]. destruct (val_string w) eqn:Hs; simplify_eq/=. constructor.
    by eapply typed_val_string.
  - destruct (val_path w) as [p|]; [|done]. destruct (to_str p) as [s|] eqn:Hs; [|done].
    apply to_str_some in Hs as [Hs ->]. intros [= <-]. by constructor.
  - intros [= <-]. constructor.
  - destruct (attr_keys w) as [keys|] eqn:Hk; [|done].
    apply typed_attr_keys in Hk as [Hfit Hkeys]. intros (map & Hm & [= <-])%bind_ok.
    apply attrs_to_json_typed in Hm as (Hlen & ? & ? & ?); [|done..|constructor|constructor|constructor].
    constructor; [|done..]. unfold fits in *. simpl in Hlen. lia.
  - destruct (Eval.list_len w) as [len|] eqn:Hl; [|done].
    intros ([items|] & Hi & [= <-])%bind_ok. apply list_to_json_typed in Hi as [Hlen Hall]; [|done].
    rewrite length_seq in Hlen. constructor; [|done]. unfold fits. rewrite Hlen.
    by eapply typed_list_len.
Qed.

Lemma read_meta_typed (v : V) json : read_meta debug_path v = Ok (Some json) → json_typed json.
Proof.
  unfold read_meta. case_match; [done|]. destruct (get_attr v "meta"); [|done].
  apply value_to_json_typed.
Qed.

(** *** Derivations of the store *)

Lemma size_insert_le {A} (m : gmap string A) k v : size (<[k := v]> m) ≤ S (size m).
Proof. rewrite map_size_insert. case_match; simpl; lia. Qed.

(** Inserting the entries of a JSON object one after the other, or not. *)
Lemma fold_insert_typed {A B} (step : gmap string A → string * B → gmap string A)
    (entry : string → B → option (string * A)) (R : string → A → Prop)
    (l : list (string * B)) (m : gmap string A) :
  (∀ m kb, step m kb = match entry kb.1 kb.2 with Some ka => <[ka.1 := ka.2]> m | None => m end) →
  (∀ k b ka, (k, b) ∈ l → entry k b = Some ka → R ka.1 ka.2) →
  map_Forall R m →
  size (foldl step m l) ≤ size m + length l ∧ map_Forall R (foldl step m l).
Proof.
  intros Hstep. revert m. induction l as [|[k b] l IH]; intros m Hf Hm; simpl; [split; [lia|done]|].
  assert (∀ k b ka, (k, b) ∈ l → entry k b = Some ka → R ka.1 ka.2) as Hf'.
  { intros k0 b0 ka Hin. apply Hf. by right. }
  rewrite Hstep. cbn [fst snd]. destruct (entry k b) as [[k' a]|] eqn:Hfk.
  - destruct (IH (<[k' := a]> m) Hf') as [Hsize HR].
    { apply map_Forall_insert_2; [|done]. eapply (Hf k b (k', a)); [by left|done]. }
    pose proof (size_insert_le m k' a). cbn [fst snd]. split; [lia|done].
  - destruct (IH m Hf' Hm) as [Hsize HR]. split; [lia|done].
Qed.

Lemma absolute_store_path_typed path : text_wf path → text_wf (absolute_store_path store_dir path).
Proof.
  intros Hp. unfold absolute_store_path. case_match; [done|]. apply text_wf_app.
  - unfold store_dir, unwrap_or. destruct store_dir_setting as [dir|] eqn:Hd; [|done].
    by eapply typed_store_dir.
  - by apply text_wf_app.
Qed.

Lemma derivation_json_typed (drv_path : P) json : derivation_json drv_path = Ok json → json_typed json.
Proof.
  unfold derivation_json. intros (drv & _ & Hj)%bind_ok. apply bind_ok in Hj as (text & _ & Hj).
  by eapply typed_parse_json.
Qed.

Lemma get_object_typed key json m :
  json_typed json → json_get key json ≫= as_object = Some m →
  fits m ∧ Forall (λ kv, text_wf kv.1) m ∧ Forall (λ kv, json_typed kv.2) m.
Proof.
  intros Hjson (v & Hv & Hm)%bind_Some. eapply json_typed_object; [|exact Hm].
  by eapply json_typed_get.
Qed.

Lemma read_input_drvs_typed (drv_path : P) :
  (N.of_nat (size (read_input_drvs drv_path)) ≤ u32_max)%N
  ∧ map_Forall (λ k v, text_wf k ∧ texts_wf v) (read_input_drvs drv_path).
Proof.
  unfold read_input_drvs. destruct (derivation_json drv_path) as [parsed|] eqn:Hp;
    [|by split; [rewrite map_size_empty|apply map_Forall_empty]].
  apply derivation_json_typed in Hp.
  destruct (_ ≫= as_object) as [drvs|] eqn:Hd; [|by split; [rewrite map_size_empty|apply map_Forall_empty]].
  apply bind_Some in Hd as (inputs & (i & Hi & Hin)%bind_Some & Hd).
  assert (json_typed inputs) as Hinputs by (by do 2 (eapply json_typed_get; [|done])).
  destruct (json_typed_object _ _ _ Hinputs Hd) as (Hfit & Hkeys & Hvals).
  rewrite Forall_forall in Hkeys, Hvals.
  edestruct (fold_insert_typed (λ map '(key, value),
      match input_drv_outputs value with
      | Some outputs => <[absolute_store_path store_dir key := outputs]> map
      | None => map
      end) (λ key value, (absolute_store_path store_dir key,.) <$> input_drv_outputs value)
    (λ k v, text_wf k ∧ texts_wf v) drvs ∅) as [Hsize Hall].
  - intros m [k b]. simpl. by destruct (input_drv_outputs b).
  - intros k b ka Hin' Hka. destruct (input_drv_outputs b) as [l|] eqn:Hl; [|done].
    injection Hka as <-. split; [by apply absolute_store_path_typed, (Hkeys _ Hin')|].
    pose proof (Hvals _ Hin') as Hb. unfold input_drv_outputs in Hl. simpl in Hb.
    eapply json_typed_strings; [|exact Hl]. destruct (json_get "outputs" b) as [o|] eqn:Ho; [|done].
    by eapply json_typed_get.
  - apply map_Forall_empty.
  - rewrite map_size_empty in Hsize. split; [unfold fits in Hfit; lia|done].
Qed.

Definition outputs_typed (outputs : gmap string (option string)) : Prop :=
  (N.of_nat (size outputs) ≤ u32_max)%N
  ∧ map_Forall (λ k v, text_wf k ∧ text_opt_wf v) outputs.

Lemma output_paths_typed (drv_path : P) : outputs_typed (output_paths drv_path).
Proof.
  unfold output_paths. destruct (derivation_json drv_path) as [parsed|] eqn:Hp;
    [|by split; [rewrite map_size_empty|apply map_Forall_empty]].
  apply derivation_json_typed in Hp.
  destruct (_ ≫= as_object) as [outputs|] eqn:Ho; [|by split; [rewrite map_size_empty|apply map_Forall_empty]].
  destruct (get_object_typed _ _ _ Hp Ho) as (Hfit & Hkeys & Hvals).
  rewrite Forall_forall in Hkeys, Hvals.
  edestruct (fold_insert_typed (λ map '(name, output),
      <[name := json_output_path (json_get "env" parsed) name output]> map)
    (λ name output, Some (name, json_output_path (json_get "env" parsed) name output))
    (λ k v, text_wf k ∧ text_opt_wf v) outputs ∅) as [Hsize Hall].
  - by intros m [k b].
  - intros k b ka Hin [= <-]. split; [by apply (Hkeys _ Hin)|].
    intros s. cbn [snd]. unfold json_output_path.
    destruct (json_get "path" b ≫= as_str) as [path|] eqn:Hpath.
    + intros [= <-]. apply absolute_store_path_typed.
      apply bind_Some in Hpath as (v & Hv & Hs). eapply json_typed_str; [|exact Hs].
      eapply json_typed_get; [|exact Hv]. by apply (Hvals _ Hin).
    + intros (path & (v & (e & He & Hv)%bind_Some & Hs)%bind_Some & Hif)%bind_Some.
      case_match; [|done]. injection Hif as <-. eapply json_typed_str; [|exact Hs].
      by do 2 (eapply json_typed_get; [|done]).
  - apply map_Forall_empty.
  - rewrite map_size_empty in Hsize. split; [unfold fits in Hfit; lia|done].
Qed.

Lemma insert_output_paths_typed prefix (paths : V) m names m' :
  Forall text_wf names → map_Forall (λ k v, text_wf k ∧ text_opt_wf v) m →
  insert_output_paths prefix paths m names = Ok m' →
  size m' ≤ size m + length names ∧ map_Forall (λ k v, text_wf k ∧ text_opt_wf v) m'.
Proof.
  revert m. induction names as [|n names IH]; intros m Hnames Hm; simpl.
  { intros [= <-]. split; [lia|done]. }
  apply Forall_cons in Hnames as [Hn Hnames].
  intros (v & _ & Hr)%bind_ok. apply bind_ok in Hr as (path & Hpath & Hr).
  apply IH in Hr as [Hsize Hall]; [|done|].
  - pose proof (size_insert_le m n (if starts_with prefix path then Some path else None)).
    split; [lia|done].
  - apply map_Forall_insert_2; [|done]. split; [done|]. intros s. case_match; [|done].
    intros [= <-]. by eapply typed_val_string.
Qed.

Lemma value_output_paths_typed (v : V) helpers outputs :
  value_output_paths v helpers = Ok outputs → outputs_typed outputs.
Proof.
  unfold value_output_paths. intros (paths & _ & Hr)%bind_ok.
  apply bind_ok in Hr as (names & [Hfit Hnames]%typed_attr_keys & Hr).
  apply insert_output_paths_typed in Hr as [Hsize Hall]; [|done|apply map_Forall_empty].
  rewrite map_size_empty in Hsize. split; [unfold fits in Hfit; lia|done].
Qed.

Lemma read_constituents_typed (v : V) l : read_constituents v = Some l → texts_wf l.
Proof.
  unfold read_constituents. case_match; [done|]. intros (list & _ & Hl)%bind_Some.
  apply bind_Some in Hl as (list' & _ & Hl). apply bind_Some in Hl as (len & Hlen & [= <-]).
  destruct (Eval.list_len list') eqn:Hn; simplify_eq/=. apply typed_list_len in Hn. split.
  - pose proof (length_omap_le (λ i, item ← ok (list_get list' i); ok (val_string item))
      (seq 0 len)) as Hle. rewrite length_seq in Hle. unfold fits. lia.
  - apply Forall_forall. intros s (i & _ & Hs)%list_elem_of_omap.
    apply bind_Some in Hs as (item & _ & Hs). destruct (val_string item) eqn:Hv; simplify_eq/=.
    by eapply typed_val_string.
Qed.

(** *** Events *)

Context (json_to_string : Json → Result string) (json_from_str : string → Result Json).
Context (strings_to_string : list string → Result string).
Context (strings_from_str : string → Result (list string)).
(** [serde_json]: such values and lists of strings print, and parse back. *)
Context (json_prints : ∀ json, json_typed json → json_wf json_to_string json_from_str json).
Context (strings_print : ∀ l, texts_wf l → strings_wf strings_to_string strings_from_str l).

Abbreviation event_wf := (event_wf json_to_string json_from_str strings_to_string strings_from_str).

Lemma make_job_typed (v : V) path p env effects event :
  texts_wf path → make_job display debug_path v path p env = (effects, Ok event) → event_wf event.
Proof.
  intros Hpath Hjob. assert (∃ d, event = EvDerivation d ∧ d_attr_path d = path
    ∧ d_attr d = str_join "." path) as (d & -> & Hdpath & Hdattr).
  { apply make_job_event in Hjob as (d & -> & ? & ? & _). eauto. }
  unfold make_job in Hjob. destruct (_ ≫= _) as [[[drv name] meta]|] eqn:Hread; [|done].
  apply bind_ok in Hread as (drv' & Hprint%with_context_ok & Hread).
  apply bind_ok in Hread as (name' & Hname%with_context_ok & Hread).
  apply bind_ok in Hname as (nv & _ & Hname).
  apply bind_ok in Hread as (meta' & Hmeta & [= -> -> ->]).
  destruct (match eo_gc_roots_dir _ with Some _ => _ | None => _ end) as [gc gc_error] eqn:Hgc.
  injection Hjob as _ <-. split; cbn [d_attr d_attr_path d_name d_system d_drv_path d_outputs
    d_meta d_input_drvs d_constituents d_gc_root_error] in *.
  - apply text_wf_join; [done|apply Hpath].
  - done.
  - by eapply typed_val_string.
  - destruct (mbind _ _) as [system|] eqn:Hsys; [|done].
    apply bind_ok in Hsys as (sv & _ & Hsys). by eapply typed_val_string.
  - by eapply typed_print_path.
  - destruct (value_output_paths _ _) eqn:Hout; [|apply output_paths_typed].
    by eapply value_output_paths_typed.
  - destruct (value_output_paths _ _) eqn:Hout; [|apply output_paths_typed].
    by eapply value_output_paths_typed.
  - intros json ->. apply json_prints. destruct (eo_meta _); [|done]. by eapply read_meta_typed.
  - destruct (eo_show_input_drvs _); [apply read_input_drvs_typed|by rewrite map_size_empty].
  - destruct (eo_show_input_drvs _); [|apply map_Forall_empty]. intros k l Hl.
    apply read_input_drvs_typed in Hl as [Hk Hl]. auto.
  - intros l Hl. by eapply read_constituents_typed.
  - intros s ->. destruct (eo_gc_roots_dir _); [|done].
    destruct (register_gc_root _ _ _) as [eff [[]|err]]; [done|]. injection Hgc as _ <-.
    apply typed_display.
Qed.

Lemma collect_recurse_typed (v : V) path force : texts_wf (collect_recurse v path force).
Proof.
  destruct (attr_keys v) as [keys|] eqn:Hk.
  2:{ unfold collect_recurse. rewrite Hk. by split; [|constructor]. }
  eapply texts_wf_sub; [| |by eapply typed_attr_keys].
  - unfold collect_recurse. rewrite Hk. case_match; [apply List.filter_length_le|simpl; lia].
  - intros s Hs. apply collect_recurse_spec in Hs as (keys' & Hkeys & Hin & _). congruence.
Qed.

(** Whatever is evaluated, the protocol can carry the event. *)
Lemma process_attr_typed (root : V) path env :
  texts_wf path → event_wf (process_attr display debug_path root path env).2.
Proof.
  intros Hpath. assert (text_wf (str_join "." path)) as Hattr
    by (apply text_wf_join; [done|apply Hpath]).
  assert (∀ err, event_wf (attr_error path (display err))) as Herr
    by (intros err; split_and!; [done|done|exact (typed_display err)]).
  unfold process_attr. destruct (navigate _ _ _) as [v|err]; [|apply Herr].
  case_match; [by split_and!; [| |split; [|constructor]]|].
  destruct (get_derivation v) as [[p|]|err]; [| |apply Herr].
  - destruct (make_job _ _ _ _ _ _) as [effects [event|err]] eqn:Hjob; [|apply Herr].
    by eapply make_job_typed.
  - case_match; [by split_and!; [| |vm_compute]|]. split_and!; [done|done|].
    apply collect_recurse_typed.
Qed.

(** The paths of a traversal: texts, not deeper than the limit. *)
Lemma walk_typed (root : V) env (produces : list string → Event → Prop) w :
  (∀ path event, produces path event → event = outcome_of display debug_path root env path) →
  rtc (visit produces) walk_init w → Forall texts_wf (pending w).
Proof.
  intros Hproduces. revert w. apply (rtc_ind_r (λ w, Forall texts_wf (pending w))).
  { apply Forall_singleton. by split; [|constructor]. }
  intros w1 w2 _ Hv IH. destruct Hv as [w1 path rest event w2 Hp He Hp' Hv'].
  rewrite Hp in IH. apply Forall_cons in IH as [[Hfit Hpath] Hrest]. rewrite Hp'.
  apply Forall_app. split; [done|]. apply Hproduces in He as ->.
  apply Forall_forall. intros child Hchild.
  assert (∃ name, child = path ++ [name]) as [name ->].
  { unfold children in Hchild. destruct (outcome_of _ _ _ _ path); try by apply elem_of_nil in Hchild.
    apply list_elem_of_fmap in Hchild as (name & -> & _). eauto. }
  apply outcome_children in Hchild as (v & _ & _ & _ & Hdepth & Hname). split.
  - unfold fits, u32_max. rewrite length_app. unfold MAX_ATTR_DEPTH in Hdepth. simpl. lia.
  - apply Forall_app. split; [done|]. apply Forall_singleton.
    destruct (collect_recurse_typed v path (eo_force_recurse (ev_options env))) as [_ Hall].
    rewrite Forall_forall in Hall. auto.
Qed.
End nix.

(** ** Configurations *)

(** The strings of a configuration are Rust strings and its lists fit; its paths
    are any bytes. *)
Record config_typed (c : Config) : Prop := {
  typed_input : match c_input c with Flake s | Expr s => text_wf s | File _ => True end;
  typed_auto_args : fits (c_auto_args c) ∧ Forall auto_arg_wf (c_auto_args c);
  typed_override_inputs : pairs_wf (c_override_inputs c);
  typed_nix_options : pairs_wf (c_nix_options c);
}.

(** Validation is what makes the paths texts; the timeout it leaves is read as it
    was written. *)
Lemma worker_config_typed debug_path absolute export_locked_flake c wc :
  config_typed c → validate_config debug_path c = Ok tt →
  (∀ path path', absolute path = Ok path' → text_wf path → text_wf path') →
  (∀ json, export_locked_flake c = Ok (Some json) → text_wf json) →
  worker_config absolute export_locked_flake c = Ok wc →
  worker_config_wf wc ∧ with_item_timeout wc = wc.
Proof.
  intros [Hinput Hargs Hover Hopts] Hvalid Habs Hexport Hwc.
  apply validate_config_iff in Hvalid as (Htimeout & Hfile & Hgc & _).
  unfold worker_config in Hwc. apply bind_ok in Hwc as (wc0 & Hwc0 & Hwc).
  apply bind_ok in Hwc as (locked & Hlocked & [= <-]).
  assert (∃ input, wc0 = (worker_config_from c) <| wc_input := input |> ∧ input_wf input)
    as (input & -> & Hwf).
  { change (wc_input (worker_config_from c)) with (c_input c) in Hwc0.
    destruct (c_input c) as [s|s|path] eqn:Hc.
    - injection Hwc0 as <-. exists (Flake s). split; [|done].
      unfold worker_config_from. simpl. by rewrite Hc.
    - injection Hwc0 as <-. exists (Expr s). split; [|done].
      unfold worker_config_from. simpl. by rewrite Hc.
    - apply bind_ok in Hwc0 as (path' & Hpath'%with_context_ok & [= <-]).
      exists (File path'). split; [done|]. eapply Habs; [done|]. by apply Hfile. }
  split.
  - split; simpl; [done|done| |done|done|].
    + intros s Hs. by apply Hgc.
    + intros json ->. by apply Hexport.
  - unfold with_item_timeout. simpl. by rewrite (proj2 (N.eqb_neq _ _) Htimeout).
Qed.

(** ** A run *)


(** ** A concrete run *)

(** Texts for any countable data: as many letters as its number. *)
Fixpoint ones (n : nat) : string := match n with 0 => EmptyString | S n => String "1" (ones n) end.
Definition print_any {A} `{Countable A} (a : A) : string := ones (Pos.to_nat (encode a)).
Definition parse_any {A} `{Countable A} (s : string) : Result A :=
  match decode (Pos.of_nat (String.length s)) with Some a => Ok a | None => no_value end.

Lemma print_any_wf {A} `{Countable A} (a : A) : text_wf (print_any a) ∧ parse_any (print_any a) = Ok a.
Proof.
  unfold print_any, parse_any. split.
  - unfold text_wf, utf8_valid. by induction (Pos.to_nat (encode a)).
  - assert (∀ n, String.length (ones n) = n) as -> by (induction n; simpl; congruence).
    by rewrite Pos2Nat.id, decode_encode.
Qed.

(** JSON without numbers as a tree of strings. *)
Fixpoint json_tree (json : Json) : gen_tree string :=
  match json with
  | JString s => GenLeaf s
  | JBool b => GenNode (if b then 1 else 0) []
  | JNull | JNumber _ => GenNode 2 []
  | JArray items => GenNode 3 (json_tree <$> items)
  | JObject m => GenNode 4 ((λ kv, GenNode 0 [GenLeaf kv.1; json_tree kv.2]) <$> m)
  end.
Fixpoint tree_json (t : gen_tree string) : Json :=
  match t with
  | GenLeaf s => JString s
  | GenNode 3 ts => JArray (tree_json <$> ts)
  | GenNode 4 ts =>
      JObject ((λ t, match t with
                     | GenNode _ [GenLeaf k; u] => (k, tree_json u)
                     | _ => (EmptyString, JNull)
                     end) <$> ts)
  | GenNode 0 _ => JBool false
  | GenNode 1 _ => JBool true
  | GenNode _ _ => JNull
  end.

Definition no_number (n : Number) : Prop := False.

Lemma json_tree_typed : ∀ json, json_typed no_number json → tree_json (json_tree json) = json.
Proof.
  fix IH 1. intros json Hjson. destruct json as [|b|n|s|items|m]; simpl; try done.
  - by destruct b.
  - by inversion Hjson.
  - f_equal. apply json_typed_items in Hjson as Hitems. clear Hjson.
    induction items as [|item items IHitems]; [done|]. apply Forall_cons in Hitems as [Hi Hitems].
    simpl. f_equal; [by apply IH|by apply IHitems].
  - f_equal. apply json_typed_entries in Hjson as Hm. clear Hjson.
    induction m as [|[k v] m IHm]; [done|]. apply Forall_cons in Hm as [Hv Hm].
    simpl in *. f_equal; [by rewrite IH|by apply IHm].
Qed.

Definition print_tree (json : Json) : Result string := Ok (print_any (json_tree json)).
Definition parse_tree (s : string) : Result Json := tree_json <$> parse_any s.
Definition print_list (l : list string) : Result string := Ok (print_any l).
Definition parse_list (s : string) : Result (list string) := parse_any s.

Lemma print_tree_wf json : json_typed no_number json → json_wf print_tree parse_tree json.
Proof.
  intros Hjson. destruct (print_any_wf (json_tree json)) as [Hwf Hparse].
  exists (print_any (json_tree json)). split_and!; [done|done|].
  unfold parse_tree. rewrite Hparse. simpl. by rewrite json_tree_typed.
Qed.

Lemma print_list_wf l : strings_wf print_list parse_list l.
Proof. destruct (print_any_wf l) as [Hwf Hparse]. by exists (print_any l). Qed.

(** One package in one attribute set. *)
Inductive Small : Type := SmallRoot | SmallPackage | SmallOutputs | SmallText.

#[export] Instance small_api : NixApi Small unit unit := {
  value_type v := match v with SmallText => TString | _ => TAttrs end;
  force v := Ok v;
  get_attr v name := match v with
                     | SmallRoot => Ok SmallPackage
                     | SmallPackage | SmallOutputs => Ok SmallText
                     | SmallText => no_value
                     end;
  has_attr _ _ := Ok false;
  attr_keys v := match v with
                 | SmallRoot => Ok ["hello"]
                 | SmallOutputs => Ok ["out"]
                 | _ => Ok []
                 end;
  val_bool _ := no_value;
  val_int _ := no_value;
  val_float _ := no_value;
  number_from_f64 _ := None;
  val_string v := match v with SmallText => Ok "/nix/store/0-hello" | _ => no_value end;
  val_path _ := no_value;
  list_len _ := no_value;
  list_get _ _ := no_value;
  call _ _ := Ok SmallOutputs;
  auto_call_function _ v := Ok v;
  get_derivation v := match v with SmallPackage => Ok (Some tt) | _ => Ok None end;
  print_path _ := Ok "/nix/store/0-hello.drv";
  read_derivation _ := no_value;
  drv_to_json _ := no_value;
  parse_json _ := no_value;
  store_dir_setting := Ok "/nix/store";
}.

#[export] Instance small_typed : NixTyped Small unit unit quiet_display no_number.
Proof.
  split; try done.
  - by intros [] s [= <-].
  - intros [] keys [= <-]; by apply short_texts_wf.
  - by intros [] s [= <-].
  - by intros s [= <-].
Qed.

Definition small_env : @EvalEnv Small :=
  mkEvalEnv None (mkEvalOptions false None true true) (mkEvalHelpers SmallText "/nix/store") tree_world.

Definition small_config : Config := config_expr "{ hello = import ./hello.nix; }".

Lemma small_config_typed : config_typed small_config.
Proof. split; [done|..]; (split; [unfold fits, u32_max; simpl; lia|by constructor]). Qed.

(** A run up to its first item, which a worker has begun to evaluate. *)
Definition small_state : Sys :=
  Nat.iter 3 (drive quiet_display demo_sink 60 (λ _ _, None)) (sys_init demo_specs false).

Definition small_answers : WorkerSpec → list string → option (Result (Event * WorkerStatus)) → Prop :=
  worker_answers quiet_display id id (λ _, "message") (str_join ".") print_tree parse_tree
    print_list parse_list SmallRoot small_env 1 calm_world (mkRemains None EmptyString).

Lemma small_reachable : reachable quiet_display demo_sink 60 small_answers demo_specs small_state.
Proof.
  apply drive_reachable_at. intros k Hk w item Hw Htask.
  destruct k as [|[|[|k]]]; [| | |lia]; vm_compute in Hw;
    repeat (apply elem_of_cons in Hw as [->|Hw]; [discriminate Htask|]); by apply elem_of_nil in Hw.
Qed.

