(* ===== verification/Watch.v ===== *)
(** * The paths a watch observes

    [crates/evix/src/watch.rs] before its loop: the paths of an input, the local
    root of a flake reference, the local inputs its lock file names, and the
    start of a watch on all of them. The loop itself is in [Session.v]. *)
From S2P Require Import Prelude Types Paths Config Scheduler Session.

(** ** The order of paths *)

(** [Ord for Path] compares components, in the order of their constructors. *)
Definition component_leb (a b : Component) : bool :=
  match a, b with
  | RootDir, _ => true
  | CurDir, RootDir => false
  | CurDir, _ => true
  | ParentDir, (RootDir | CurDir) => false
  | ParentDir, _ => true
  | Normal s, Normal t => String.leb s t
  | Normal _, _ => false
  end.

Fixpoint components_leb (l k : list Component) : bool :=
  match l, k with
  | [], _ => true
  | _ :: _, [] => false
  | a :: l, b :: k => if decide (a = b) then components_leb l k else component_leb a b
  end.

Definition path_leb (p q : string) : bool := components_leb (components p) (components q).

(** [Eq for Path] *)
Definition same_path (p q : string) : bool := bool_decide (components p = components q).

(** [slice::sort], which keeps the order of equal paths. *)
Fixpoint insert_path (p : string) (l : list string) : list string :=
  match l with
  | [] => [p]
  | q :: l' => if path_leb p q then p :: l else q :: insert_path p l'
  end.
Definition sort_paths (l : list string) : list string := foldr insert_path [] l.

(** [Vec::dedup]: [kept] is the last path that stays. *)
Fixpoint dedup_after (kept : string) (l : list string) : list string :=
  match l with
  | [] => []
  | p :: l => if same_path kept p then dedup_after kept l else p :: dedup_after p l
  end.
Definition dedup_paths (l : list string) : list string :=
  match l with [] => [] | p :: l => p :: dedup_after p l end.

(** ** The paths of an input *)

Definition local_flake_root (reference : string) : option string :=
  let without_fragment :=
    match split_once "#"%char reference with Some (r, _) => r | None => reference end in
  let path := default without_fragment (strip_prefix "path:" without_fragment) in
  if str_is_empty path then Some "."
  else if str_eqb path "." || str_eqb path ".." || starts_with "/" path || starts_with "./" path
  then Some path
  else None.

Section watched.
(** [fs::read_to_string], when it succeeds; the text of a JSON value; [Display]
    of a path; and the file-system watcher. *)
Context (read_to_string : string → option string).
Context (from_str : string → Result Json).
Context (display_path : string → string).

(** The path of a node of the lock, when it is a [path] input. *)
Definition locked_path (root : string) (node : Json) : option string :=
  locked ← json_get "locked" node;
  if bool_decide (json_get "type" locked ≫= as_str = Some "path") then
    path ← json_get "path" locked ≫= as_str;
    Some (if is_absolute path then path else path_join root path)
  else None.

Definition local_path_inputs (root : string) : Result (list string) :=
  let lock_path := path_join root "flake.lock" in
  match read_to_string lock_path with
  | None => Ok []
  | Some contents =>
      lock ← with_context "parsing flake.lock" (from_str contents);
      let nodes : option (list (string * Json)) := json_get "nodes" lock ≫= as_object in
      match nodes with
      | None => Ok []
      | Some nodes => Ok (omap (λ node, locked_path root node.2) nodes)
      end
  end.

Definition watched_flake_paths (reference : string) : Result (list string) :=
  root ← ok_or (report ("flake reference is not a local path: " +:+ reference))
           (local_flake_root reference);
  inputs ← local_path_inputs root;
  Ok (dedup_paths (sort_paths (root :: inputs))).

Definition watched_paths (config : Config) : Result (list string) :=
  match c_input config with
  | File path => Ok [path]
  | Expr _ => Err (report "watch requires a file or local flake input")
  | Flake reference => watched_flake_paths reference
  end.

(** ** Starting a watch *)

Inductive RecursiveMode : Type := Recursive | NonRecursive.

Context (is_dir : string → bool).
Context (new_watcher : Result unit).
Context (subscribe : string → RecursiveMode → Result unit).

(** The subscriptions, in order, up to the first that fails. *)
Fixpoint subscribe_all (paths : list string)
  : list (string * RecursiveMode) * Result unit :=
  match paths with
  | [] => ([], Ok tt)
  | path :: paths =>
      let mode := if is_dir path then Recursive else NonRecursive in
      match with_context ("watching " +:+ display_path path) (subscribe path mode) with
      | Err err => ([], Err err)
      | Ok _ => let '(subscribed, r) := subscribe_all paths in ((path, mode) :: subscribed, r)
      end
  end.

(** [watch_loop_with_sender]: the session, the subscriptions, the items sent, and
    the result, [None] while it goes on. *)
Definition watch_loop_with_sender (display : Report → string) (s : Session) (connected : bool)
    (inputs : list WatchInput)
  : Session * list (string * RecursiveMode) * list (result Error Diff) * option (Result unit) :=
  match wait_for_initial_evaluation s with
  | None => (s, [], [], None)
  | Some (Err err) => (s, [], [], Some (Err err))
  | Some (Ok _) =>
      match watched_paths (ss_config s) with
      | Err err => (s, [], [], Some (Err err))
      | Ok paths =>
          match with_context "creating filesystem watcher" new_watcher with
          | Err err => (s, [], [], Some (Err err))
          | Ok _ =>
              match subscribe_all paths with
              | (subscribed, Err err) => (s, subscribed, [], Some (Err err))
              | (subscribed, Ok _) =>
                  let '(s, items, r) := watch_loop display s connected inputs in
                  (s, subscribed, items, r)
              end
          end
      end
  end.
End watched.

(** ** Lemmas: the order of paths *)

Lemma string_leb_trans s t u : String.leb s t = true → String.leb t u = true → String.leb s u = true.
Proof.
  intros H1 H2. apply Is_true_true. by apply (transitivity (R:=String.le) (y:=t)); apply Is_true_true.
Qed.

Lemma component_leb_antisym a b : component_leb a b = true → component_leb b a = true → a = b.
Proof. destruct a, b; simpl; try done. intros. f_equal. by apply String.leb_antisym. Qed.

Lemma component_leb_trans a b c :
  component_leb a b = true → component_leb b c = true → component_leb a c = true.
Proof. destruct a, b, c; simpl; try done. apply string_leb_trans. Qed.

Lemma component_leb_total a b : component_leb a b = true ∨ component_leb b a = true.
Proof. destruct a, b; simpl; auto. apply String.leb_total. Qed.

Lemma components_leb_refl l : components_leb l l = true.
Proof. induction l as [|a l IH]; [done|]. simpl. by rewrite decide_True. Qed.

Lemma components_leb_antisym l k :
  components_leb l k = true → components_leb k l = true → l = k.
Proof.
  revert k. induction l as [|a l IH]; intros [|b k]; simpl; try done.
  destruct (decide (a = b)) as [->|Hab].
  - rewrite decide_True by done. intros. f_equal. by apply IH.
  - rewrite decide_False by congruence. intros. by destruct Hab; apply component_leb_antisym.
Qed.

Lemma components_leb_trans l k m :
  components_leb l k = true → components_leb k m = true → components_leb l m = true.
Proof.
  revert k m. induction l as [|a l IH]; intros [|b k] [|c m]; simpl; try done.
  destruct (decide (a = b)) as [->|Hab].
  { destruct (decide (b = c)); [by apply IH|done]. }
  destruct (decide (b = c)) as [->|Hbc].
  { intros H1 _. by rewrite decide_False. }
  intros H1 H2. destruct (decide (a = c)) as [->|]; [|by eapply component_leb_trans].
  destruct Hbc. by apply component_leb_antisym.
Qed.

Lemma components_leb_total l k : components_leb l k = true ∨ components_leb k l = true.
Proof.
  revert k. induction l as [|a l IH]; intros [|b k]; simpl; auto.
  destruct (decide (a = b)) as [->|Hab]; [rewrite decide_True by done; apply IH|].
  rewrite decide_False by congruence. apply component_leb_total.
Qed.

(** Paths in order, and in order without repetition. *)
Definition path_le (p q : string) : Prop := path_leb p q = true.
Definition path_lt (p q : string) : Prop := path_le p q ∧ components p ≠ components q.

#[export] Instance path_le_preorder : PreOrder path_le.
Proof.
  split; [intros p; apply components_leb_refl|].
  intros p q r. apply components_leb_trans.
Qed.

Lemma insert_path_permutation p l : insert_path p l ≡ₚ p :: l.
Proof.
  induction l as [|q l IH]; [done|]. simpl. case_match; [done|]. rewrite IH. apply perm_swap.
Qed.

Lemma insert_path_sorted p l :
  StronglySorted path_le l → StronglySorted path_le (insert_path p l).
Proof.
  induction 1 as [|q l Hl IH Hq]; simpl; [repeat constructor|].
  destruct (path_leb p q) eqn:Hpq.
  - constructor; [by constructor|]. constructor; [done|].
    eapply Forall_impl; [exact Hq|]. intros r Hr. by transitivity q.
  - constructor; [done|]. rewrite insert_path_permutation. constructor; [|done].
    destruct (components_leb_total (components p) (components q)) as [H|H]; [|done].
    unfold path_leb in Hpq. congruence.
Qed.

Lemma sort_paths_spec l : sort_paths l ≡ₚ l ∧ StronglySorted path_le (sort_paths l).
Proof.
  induction l as [|p l [IHp IHs]]; simpl; [split; [done|constructor]|].
  split; [by rewrite insert_path_permutation, IHp|by apply insert_path_sorted].
Qed.

Lemma dedup_after_spec kept l :
  StronglySorted path_le (kept :: l) →
  StronglySorted path_lt (kept :: dedup_after kept l)
  ∧ (∀ p, p ∈ dedup_after kept l → p ∈ l)
  ∧ (∀ p, p ∈ kept :: l → ∃ q, q ∈ kept :: dedup_after kept l ∧ components q = components p).
Proof.
  revert kept. induction l as [|x l IH]; intros kept Hs; simpl.
  { split_and!; [repeat constructor|done|]. eauto. }
  apply StronglySorted_inv in Hs as [Hxl Hkept].
  apply Forall_cons in Hkept as [Hkx Hkl].
  pose proof Hxl as [Hl Hx]%StronglySorted_inv.
  unfold same_path. case_bool_decide as Hsame.
  - destruct (IH kept) as (Hsorted & Hsub & Hall); [by constructor|].
    split_and!; [done|intros p Hp; right; by apply Hsub|].
    intros p [->|[->|Hp]%elem_of_cons]%elem_of_cons.
    + exists kept. split; [by left|done].
    + exists kept. split; [by left|done].
    + apply Hall. by right.
  - destruct (IH x Hxl) as (Hsorted & Hsub & Hall). split_and!.
    + constructor; [done|]. apply Forall_forall. intros q Hq.
      assert (q ∈ x :: l) as Hq'.
      { apply elem_of_cons in Hq as [->|Hq]; [by left|right; by apply Hsub]. }
      split.
      * apply elem_of_cons in Hq' as [->|Hq']; [done|]. by eapply Forall_forall in Hkl.
      * intros Heq. apply Hsame, components_leb_antisym; [done|]. rewrite Heq.
        change (path_le x q). apply elem_of_cons in Hq' as [->|Hq']; [done|].
        by eapply Forall_forall in Hx.
    + intros p [->|Hp]%elem_of_cons; [by left|right; by apply Hsub].
    + intros p [->|Hp]%elem_of_cons; [exists kept; split; [by left|done]|].
      destruct (Hall p Hp) as (q & Hq & Heq). exists q. split; [by right|done].
Qed.

Lemma dedup_sort_spec l :
  let paths := dedup_paths (sort_paths l) in
  StronglySorted path_lt paths ∧ (∀ p, p ∈ paths → p ∈ l)
  ∧ (∀ p, p ∈ l → ∃ q, q ∈ paths ∧ components q = components p).
Proof.
  destruct (sort_paths_spec l) as [Hp Hs]. cbv zeta.
  assert (∀ p, p ∈ l ↔ p ∈ sort_paths l) as Hin by (intros p; by rewrite Hp).
  destruct (sort_paths l) as [|x k]; simpl.
  - split_and!; [constructor|by intros p ?%elem_of_nil|].
    intros p ?%Hin%elem_of_nil. done.
  - destruct (dedup_after_spec x k Hs) as (Hsorted & Hsub & Hall). split_and!; [done| |].
    + intros p Hp'. apply Hin. apply elem_of_cons in Hp' as [->|Hp']; [by left|right; by apply Hsub].
    + intros p Hp'%Hin. by apply Hall.
Qed.

(** ** Specification *)

(** The local inputs a lock file names. *)
Inductive locked_input (lock : Json) (root : string) : string → Prop :=
  | locked_input_path nodes name node locked path :
      json_get "nodes" lock = Some (JObject nodes) → (name, node) ∈ nodes →
      json_get "locked" node = Some locked →
      json_get "type" locked = Some (JString "path") →
      json_get "path" locked = Some (JString path) →
      locked_input lock root (path_join root path).

(** The paths whose changes a watch must see. *)
Inductive watch_source (read_to_string : string → option string) (from_str : string → Result Json)
  : Input → string → Prop :=
  | source_file path : watch_source read_to_string from_str (File path) path
  | source_root reference root :
      local_flake_root reference = Some root →
      watch_source read_to_string from_str (Flake reference) root
  | source_input reference root contents lock path :
      local_flake_root reference = Some root →
      read_to_string (path_join root "flake.lock") = Some contents →
      from_str contents = Ok lock → locked_input lock root path →
      watch_source read_to_string from_str (Flake reference) path.

(** The inputs that cannot be watched. *)
Definition unwatchable (read_to_string : string → option string) (from_str : string → Result Json)
    (input : Input) : Prop :=
  match input with
  | Expr _ => True
  | File _ => False
  | Flake reference =>
      match local_flake_root reference with
      | None => True
      | Some root => ∃ contents err,
          read_to_string (path_join root "flake.lock") = Some contents ∧ from_str contents = Err err
      end
  end.

Lemma as_str_some v s : v ≫= as_str = Some s ↔ v = Some (JString s).
Proof. destruct v as [[]|]; simpl; naive_solver. Qed.

Lemma as_object_some v m : v ≫= as_object = Some m ↔ v = Some (JObject m).
Proof. destruct v as [[]|]; simpl; naive_solver. Qed.

Lemma locked_path_ok root node p :
  locked_path root node = Some p ↔
  ∃ locked path, json_get "locked" node = Some locked
    ∧ json_get "type" locked = Some (JString "path")
    ∧ json_get "path" locked = Some (JString path) ∧ p = path_join root path.
Proof.
  unfold locked_path. destruct (json_get "locked" node) as [locked|]; simpl; [|naive_solver].
  assert (∀ path, (if is_absolute path then path else path_join root path) = path_join root path) as Hj.
  { intros path. unfold path_join. by destruct (is_absolute path). }
  case_bool_decide as Ht; rewrite as_str_some in Ht.
  - rewrite bind_Some. setoid_rewrite as_str_some. setoid_rewrite Hj. naive_solver.
  - naive_solver.
Qed.

Section paths.
Context (read_to_string : string → option string).
Context (from_str : string → Result Json).

Lemma local_path_inputs_ok root inputs :
  local_path_inputs read_to_string from_str root = Ok inputs →
  ∀ p, p ∈ inputs ↔ ∃ contents lock, read_to_string (path_join root "flake.lock") = Some contents
    ∧ from_str contents = Ok lock ∧ locked_input lock root p.
Proof.
  unfold local_path_inputs. cbv zeta.
  destruct (read_to_string _) as [contents|]; [|intros [= <-] p; rewrite elem_of_nil; naive_solver].
  intros (lock & Hlock%with_context_ok & H)%bind_ok p.
  destruct (json_get "nodes" lock ≫= as_object) as [nodes|] eqn:Hnodes; injection H as <-.
  - apply as_object_some in Hnodes. rewrite list_elem_of_omap. split.
    + intros ([name node] & Hin & (locked & path & H1 & H2 & H3 & ->)%locked_path_ok).
      exists contents, lock. split_and!; [done..|]. by eapply locked_input_path.
    + intros (? & lock' & [= <-] & Hlock' & Hp). assert (lock' = lock) as -> by congruence.
      destruct Hp as [nodes' name node locked path Hn Hin H1 H2 H3].
      assert (nodes' = nodes) as -> by congruence. exists (name, node). split; [done|].
      apply locked_path_ok. eauto 10.
  - split; [by intros ?%elem_of_nil|]. intros (? & lock' & [= <-] & Hlock' & Hp).
    assert (lock' = lock) as -> by congruence. destruct Hp as [nodes' ???? Hn].
    rewrite Hn in Hnodes. done.
Qed.

Lemma local_path_inputs_err root :
  is_err (local_path_inputs read_to_string from_str root) = true ↔
  ∃ contents err, read_to_string (path_join root "flake.lock") = Some contents
    ∧ from_str contents = Err err.
Proof.
  unfold local_path_inputs. cbv zeta. destruct (read_to_string _) as [contents|].
  - destruct (from_str contents) as [lock|err] eqn:Hl; simpl; [|split; [by eauto|done]].
    case_match; simpl; (split; [done|]); intros (? & ? & [= <-] & H'); congruence.
  - split; [done|]. by intros (? & ? & ? & _).
Qed.
End paths.

Lemma subscribe_all_ok display_path is_dir subscribe paths subscribed :
  subscribe_all display_path is_dir subscribe paths = (subscribed, Ok tt) → subscribed.*1 = paths.
Proof.
  revert subscribed. induction paths as [|p paths IH]; intros subscribed; simpl; [by intros [= <-]|].
  destruct (with_context _ _); [|done].
  destruct (subscribe_all _ _ _ paths) as [rest [[]|]]; [|done]. intros [= <-]. simpl. f_equal.
  by apply IH.
Qed.

Lemma watched_paths_sources read_to_string from_str config paths :
  watched_paths read_to_string from_str config = Ok paths →
  StronglySorted path_lt paths
  ∧ (∀ p, p ∈ paths → watch_source read_to_string from_str (c_input config) p)
  ∧ (∀ p, watch_source read_to_string from_str (c_input config) p →
       ∃ q, q ∈ paths ∧ components q = components p).
Proof.
  unfold watched_paths. destruct (c_input config) as [reference|expr|path]; [|done|].
  - unfold watched_flake_paths. intros (root & Hroot%ok_or_ok & H)%bind_ok.
    apply bind_ok in H as (inputs & Hin & [= <-]).
    pose proof (local_path_inputs_ok _ _ _ _ Hin) as Hinputs.
    destruct (dedup_sort_spec (root :: inputs)) as (Hsorted & Hsub & Hall).
    assert (∀ p, p ∈ root :: inputs ↔ watch_source read_to_string from_str (Flake reference) p) as Hsrc.
    { intros p. rewrite elem_of_cons, Hinputs. split.
      - intros [->|(contents & lock & H1 & H2 & H3)]; [by apply source_root|by eapply source_input].
      - intros Hp. inversion Hp as [|? root' Hr|? root' contents lock p' Hr H1 H2 H3]; subst.
        + left. congruence.
        + right. assert (root' = root) as -> by congruence. eauto. }
    split_and!; [done| |].
    + intros p Hp. by apply Hsrc, Hsub.
    + intros p Hp. by apply Hall, Hsrc.
  - intros [= <-]. split_and!.
    + repeat constructor.
    + intros p ->%list_elem_of_singleton. constructor.
    + intros p Hp. inversion Hp; subst. exists p. split; [by left|done].
Qed.

Lemma watched_paths_refused read_to_string from_str config :
  is_err (watched_paths read_to_string from_str config) = true
  ↔ unwatchable read_to_string from_str (c_input config).
Proof.
  unfold watched_paths, unwatchable. destruct (c_input config) as [reference|expr|path]; [|done..].
  unfold watched_flake_paths. destruct (local_flake_root reference) as [root|]; simpl; [|done].
  rewrite <-local_path_inputs_err. by destruct (local_path_inputs _ _ root).
Qed.


(** Local flakes that the recognised forms leave out. *)
Lemma parent_flakes_not_watchable :
  local_flake_root "../repo#jobs" = None ∧ local_flake_root "path:repo" = None
  ∧ local_flake_root "sub/repo" = None.
Proof. done. Qed.
