(* ===== verification/SessionCache.v ===== *)
(** * The daemon's shared state

    [crates/evix-daemon/src/session_cache.rs] and [connection_limit.rs]: the
    bounded registry of warm sessions, the replayable output of their initial
    evaluation, and the limit on concurrent connections. *)
From S2P Require Import Prelude Types Config.

(** ** The session registry *)

Definition MAX_SESSIONS : nat := 32.

Record SessionRegistry (T : Type) := mkRegistry {
  r_sessions : gmap string T;
  r_order : list string;
  r_max : nat;
}.
Arguments mkRegistry {T} _ _ _.
Arguments r_sessions {T} _.
Arguments r_order {T} _.
Arguments r_max {T} _.

Section registry.
Context {T : Type}.

Definition registry_new (max : nat) : SessionRegistry T := mkRegistry ∅ [] max.
Definition registry_default : SessionRegistry T := registry_new MAX_SESSIONS.

(** [remove_order_entry]: the first occurrence. *)
Fixpoint remove_first (key : string) (order : list string) : list string :=
  match order with
  | [] => []
  | item :: order => if decide (item = key) then order else item :: remove_first key order
  end.

Definition remove_order_entry (key : string) (r : SessionRegistry T) : SessionRegistry T :=
  mkRegistry (r_sessions r) (remove_first key (r_order r)) (r_max r).

(** The eviction loop of [insert]; it consumes the order, so it ends. *)
Fixpoint evict (max : nat) (order : list string) (sessions : gmap string T)
  : list string * gmap string T :=
  if max <=? size sessions then
    match order with
    | [] => ([], sessions)
    | oldest :: order => evict max order (delete oldest sessions)
    end
  else (order, sessions).

Definition registry_insert (key : string) (value : T) (r : SessionRegistry T)
  : SessionRegistry T :=
  let r := remove_order_entry key r in
  let '(order, sessions) := evict (r_max r) (r_order r) (r_sessions r) in
  mkRegistry (<[key := value]> sessions) (order ++ [key]) (r_max r).

(** [get], which also makes the key the most recent *)
Definition registry_get (key : string) (r : SessionRegistry T) : SessionRegistry T * option T :=
  match r_sessions r !! key with
  | None => (r, None)
  | Some value =>
      let r := remove_order_entry key r in
      (mkRegistry (r_sessions r) (r_order r ++ [key]) (r_max r), Some value)
  end.

(** [get_mut], with what the caller does to the value. *)
Definition registry_get_mut (key : string) (change : T → T) (r : SessionRegistry T)
  : SessionRegistry T :=
  match r_sessions r !! key with
  | None => r
  | Some value =>
      let r := remove_order_entry key r in
      mkRegistry (<[key := change value]> (r_sessions r)) (r_order r ++ [key]) (r_max r)
  end.
End registry.

(** ** The daemon's sessions *)

Inductive Replay : Type :=
  | Recording
  | ReplayReady (lines : string)
  | Invalidated.

(** An [Arc<Session>] is its address; [CachedSession]. *)
Record CachedSession := mkCachedSession {
  cs_session : nat;
  cs_replay : Replay;
}.

(** [DaemonState], with the next address of the allocator. *)
Record DaemonState := mkDaemonState {
  dm_sessions : SessionRegistry CachedSession;
  dm_next : nat;
}.

Definition daemon_init : DaemonState := mkDaemonState registry_default 0.

(** [SessionKeyConfig], the fields that identify a session *)
Record SessionKeyConfig := mkSessionKeyConfig {
  k_input : Input;
  k_auto_args : list (string * AutoArg);
  k_force_recurse : bool;
  k_gc_roots_dir : option string;
  k_workers : N;
  k_max_memory_size : N;
  k_item_timeout_seconds : N;
  k_meta : bool;
  k_show_input_drvs : bool;
  k_override_inputs : list (string * string);
  k_nix_options : list (string * string);
  k_remotes : list Remote;
}.

Definition session_key_config (c : Config) : SessionKeyConfig :=
  mkSessionKeyConfig (c_input c) (c_auto_args c) (c_force_recurse c) (c_gc_roots_dir c)
    (c_workers c) (c_max_memory_size c) (c_item_timeout_seconds c) (c_meta c)
    (c_show_input_drvs c) (c_override_inputs c) (c_nix_options c) (c_remotes c).

Section daemon_state.
(** [serde_json::to_string] of a key. *)
Context (to_json : SessionKeyConfig → Result string).

Definition session_key (config : Config) : Result string :=
  with_context "serializing session key" (to_json (session_key_config config)).

Definition replace_session (d : DaemonState) (config : Config) : DaemonState * Result nat :=
  match session_key config with
  | Err err => (d, Err err)
  | Ok key =>
      let session := dm_next d in
      (mkDaemonState
         (registry_insert key (mkCachedSession session Recording) (dm_sessions d))
         (S (dm_next d)),
       Ok session)
  end.

Definition no_warm_session : Report :=
  report ("no warm session for requested daemon config; query/diff reuse a session only "
          +:+ "when all daemon-protocol config values match a completed eval or watch").

Definition warm_session (d : DaemonState) (config : Config) : DaemonState * Result nat :=
  match session_key config with
  | Err err => (d, Err err)
  | Ok key =>
      let '(sessions, cached) := registry_get key (dm_sessions d) in
      (mkDaemonState sessions (dm_next d), cs_session <$> ok_or no_warm_session cached)
  end.

(** [DaemonState::replay] *)
Definition replay (d : DaemonState) (config : Config) : DaemonState * Result string :=
  match session_key config with
  | Err err => (d, Err err)
  | Ok key =>
      let '(sessions, cached) := registry_get key (dm_sessions d) in
      (mkDaemonState sessions (dm_next d),
       match cached with
       | None => Err (report "no replayable session for requested daemon config")
       | Some cached =>
           match cs_replay cached with
           | Recording => Err (report "matching evaluation has not completed")
           | ReplayReady lines => Ok lines
           | Invalidated => Err (report "session has no replayable completed evaluation")
           end
       end)
  end.

(** What [settle_replay] does to the entry of its key. *)
Definition settle (session : nat) (replay : Replay) (cached : CachedSession) : CachedSession :=
  if decide (cs_session cached = session)
  then match cs_replay cached with
       | Invalidated => cached
       | _ => mkCachedSession (cs_session cached) replay
       end
  else cached.

Definition settle_replay (d : DaemonState) (config : Config) (session : nat) (replay : Replay)
  : DaemonState * Result unit :=
  match session_key config with
  | Err err => (d, Err err)
  | Ok key =>
      (mkDaemonState (registry_get_mut key (settle session replay) (dm_sessions d)) (dm_next d),
       Ok tt)
  end.

(** ** Interleavings of the handlers *)

(** The calls handlers make on the shared state, each under its mutex. *)
Inductive DaemonOp : Type :=
  | DoReplace (config : Config)
  | DoWarm (config : Config)
  | DoReplay (config : Config)
  | DoSettle (config : Config) (session : nat) (replay : Replay).

Definition daemon_op (d : DaemonState) (op : DaemonOp) : DaemonState :=
  match op with
  | DoReplace config => (replace_session d config).1
  | DoWarm config => (warm_session d config).1
  | DoReplay config => (replay d config).1
  | DoSettle config session r => (settle_replay d config session r).1
  end.

Definition daemon_ops (d : DaemonState) (ops : list DaemonOp) : DaemonState :=
  foldl daemon_op d ops.
End daemon_state.

(** ** Connections *)

Definition MAX_CONNECTIONS : N := 64.

Record ConnectionLimiter := mkLimiter {
  lim_active : N;
  lim_max : N;
}.

Definition limiter_new (max : N) : ConnectionLimiter := mkLimiter 0 max.

(** [ConnectionLimiter::acquire]: a slot, or none. *)
Definition acquire (l : ConnectionLimiter) : ConnectionLimiter * bool :=
  if (lim_max l <=? lim_active l)%N then (l, false)
  else (mkLimiter (usize_add (lim_active l) 1) (lim_max l), true).

(** [Drop for ConnectionSlot] *)
Definition release (l : ConnectionLimiter) : ConnectionLimiter :=
  mkLimiter (usize_sub (lim_active l) 1) (lim_max l).

(** The acceptor and the connection threads: an accepted connection either gets
    a slot and a thread, or is told that the limit is exceeded; the slot is
    dropped when the thread ends, whatever it did. *)
Record Connections := mkConnections {
  cn_limiter : ConnectionLimiter;
  cn_threads : list nat;
  cn_refused : list nat;
}.

Inductive connection_step : Connections → Connections → Prop :=
  | connection_accepted l l' threads refused id :
      acquire l = (l', true) →
      connection_step (mkConnections l threads refused) (mkConnections l' (id :: threads) refused)
  | connection_refused l l' threads refused id :
      acquire l = (l', false) →
      connection_step (mkConnections l threads refused) (mkConnections l' threads (id :: refused))
  | connection_ended l before after id refused :
      connection_step (mkConnections l (before ++ id :: after) refused)
        (mkConnections (release l) (before ++ after) refused).

(** ** Specification of the registry: a list by recency, oldest first *)

Section lru.
Context {T : Type}.

Definition lru_without (key : string) (l : list (string * T)) : list (string * T) :=
  filter (λ kv, kv.1 ≠ key) l.

(** An insertion first makes room for one entry more than there are, counting
    the entry it replaces, by dropping the oldest of the others. *)
Definition lru_insert (max : nat) (key : string) (value : T) (l : list (string * T))
  : list (string * T) :=
  drop (length l + 1 - max) (lru_without key l) ++ [(key, value)].

Definition lru_lookup (key : string) (l : list (string * T)) : option T :=
  snd <$> head (filter (λ kv, kv.1 = key) l).

(** A use moves the entry to the end, with its new value. *)
Definition lru_touch (key : string) (change : T → T) (l : list (string * T))
  : list (string * T) :=
  match lru_lookup key l with
  | None => l
  | Some value => lru_without key l ++ [(key, change value)]
  end.

(** The recency list of a registry. *)
Definition recency (r : SessionRegistry T) : list (string * T) :=
  omap (λ key, (key,.) <$> r_sessions r !! key) (r_order r).

Definition registry_wf (r : SessionRegistry T) : Prop :=
  NoDup (r_order r) ∧ ∀ key, key ∈ r_order r ↔ is_Some (r_sessions r !! key).
End lru.

(** ** The registry implements the recency list *)

Section refinement.
Context {T : Type}.
Implicit Types (r : SessionRegistry T) (l : list (string * T)).

Lemma remove_first_filter key order :
  NoDup order → remove_first key order = filter (λ k, k ≠ key) order.
Proof.
  induction 1 as [|x order Hx _ IH]; [done|]. simpl. rewrite filter_cons.
  repeat case_decide; try congruence; subst.
  symmetry. apply filter_all. intros y Hy. congruence.
Qed.

Definition keys_wf (order : list string) (sessions : gmap string T) : Prop :=
  NoDup order ∧ ∀ key, key ∈ order → is_Some (sessions !! key).

Definition pairs (sessions : gmap string T) (order : list string) : list (string * T) :=
  omap (λ key, (key,.) <$> sessions !! key) order.

Lemma pairs_cons sessions key order :
  pairs sessions (key :: order)
  = option_list ((key,.) <$> sessions !! key) ++ pairs sessions order.
Proof. unfold pairs. simpl. by destruct (sessions !! key). Qed.

Lemma pairs_app sessions order1 order2 :
  pairs sessions (order1 ++ order2) = pairs sessions order1 ++ pairs sessions order2.
Proof. apply omap_app. Qed.

Lemma pairs_keys order sessions : keys_wf order sessions → (pairs sessions order).*1 = order.
Proof.
  intros [_ Hsome]. induction order as [|k order IH]; [done|].
  destruct (Hsome k) as [v Hv]; [by left|]. rewrite pairs_cons, Hv. simpl. f_equal. apply IH.
  intros key Hk. apply Hsome. by right.
Qed.

Lemma pairs_ext sessions sessions' order :
  (∀ key, key ∈ order → sessions !! key = sessions' !! key) →
  pairs sessions order = pairs sessions' order.
Proof.
  intros H. induction order as [|k order IH]; [done|]. rewrite !pairs_cons.
  rewrite (H k) by (by left). f_equal. apply IH. intros key Hk. apply H. by right.
Qed.

Lemma pairs_filter sessions order key :
  pairs sessions (filter (λ k, k ≠ key) order) = lru_without key (pairs sessions order).
Proof.
  induction order as [|k order IH]; [done|].
  rewrite pairs_cons, filter_cons. unfold lru_without. rewrite filter_app.
  fold (lru_without key (pairs sessions order)). rewrite <-IH.
  destruct (sessions !! k) as [v|] eqn:Hk; simpl; case_decide; rewrite ?pairs_cons, ?Hk;
    try done; simpl; rewrite ?filter_cons, ?filter_nil; simpl;
    by repeat case_decide.
Qed.

Lemma pairs_length order sessions : keys_wf order sessions → length (pairs sessions order) = length order.
Proof. intros H. by rewrite <-(length_fmap fst), pairs_keys. Qed.

Lemma registry_size r : registry_wf r → size (r_sessions r) = length (r_order r).
Proof.
  intros [Hnd Hin]. rewrite <-size_dom, <-(size_list_to_set (C := gset string)) by done.
  f_equal. apply leibniz_equiv. intros k. rewrite elem_of_dom, elem_of_list_to_set. by rewrite Hin.
Qed.

Lemma registry_keys r : registry_wf r → keys_wf (r_order r) (r_sessions r).
Proof. intros [Hnd Hin]. split; [done|]. intros key. apply Hin. Qed.

(** Evicting [n] entries more than fit: the oldest keys go, the rest stay. *)
Lemma evict_spec max order sessions n :
  keys_wf order sessions → size sessions + 1 - max = n →
  evict max order sessions
  = (drop n order, foldl (λ m key, delete key m) sessions (take n order)).
Proof.
  intros [Hnd Hsome]. revert sessions n Hsome.
  induction order as [|oldest order IH]; intros sessions n Hsome Hn; simpl.
  - rewrite drop_nil, take_nil. by case_match.
  - apply NoDup_cons in Hnd as [Hnew Hnd]. case_match eqn:Hle.
    + apply Nat.leb_le in Hle. destruct n as [|n]; [lia|]. simpl. apply IH; [done| |].
      * intros key Hk. rewrite lookup_delete_ne by congruence. apply Hsome. by right.
      * destruct (Hsome oldest) as [v Hv]; [by left|].
        rewrite map_size_delete_Some by eauto.
        assert (size sessions ≠ 0); [|lia].
        intros Hz%map_size_empty_inv. by rewrite Hz, lookup_empty in Hv.
    + apply Nat.leb_gt in Hle. by destruct n; [|lia].
Qed.

Lemma delete_all_lookup (keys : list string) (m : gmap string T) key :
  foldl (λ m key, delete key m) m keys !! key
  = if decide (key ∈ keys) then None else m !! key.
Proof.
  revert m. induction keys as [|k keys IH]; intros m; cbn [foldl].
  - rewrite decide_False; [done|apply not_elem_of_nil].
  - rewrite IH. destruct (decide (key = k)) as [->|Hne].
    + rewrite (decide_True (P := k ∈ k :: _)) by (by left).
      case_decide; [done|]. apply lookup_delete_eq.
    + rewrite lookup_delete_ne by done. apply decide_ext. rewrite elem_of_cons. naive_solver.
Qed.

Lemma lookup_pairs key sessions order :
  keys_wf order sessions → key ∈ order → lru_lookup key (pairs sessions order) = sessions !! key.
Proof.
  intros [Hnd Hsome]. unfold lru_lookup. induction order as [|k order IH].
  { intros Hk. by apply elem_of_nil in Hk. }
  apply NoDup_cons in Hnd as [Hk Hnd]. destruct (Hsome k) as [v Hv]; [by left|].
  rewrite pairs_cons, Hv. simpl. rewrite filter_cons. simpl. intros Hin.
  case_decide as Heq; [by rewrite <-Heq, Hv|]. apply IH; [done| |].
  - intros key' Hk'. apply Hsome. by right.
  - by apply elem_of_cons in Hin as [->|].
Qed.

Lemma lookup_pairs_none key sessions order :
  sessions !! key = None → lru_lookup key (pairs sessions order) = None.
Proof.
  intros Hn. unfold lru_lookup. induction order as [|k order IH]; [done|].
  rewrite pairs_cons. destruct (sessions !! k) as [v|] eqn:Hv; simpl; [|done].
  rewrite filter_cons. simpl. case_decide as Heq; [congruence|done].
Qed.
Lemma lru_without_length_le key l : length (lru_without key l) ≤ length l.
Proof. apply length_filter. Qed.

Lemma filter_ne_wf key r :
  registry_wf r → keys_wf (filter (λ k, k ≠ key) (r_order r)) (r_sessions r).
Proof.
  intros [Hnd Hin]. split; [by apply NoDup_filter|].
  intros k [_ Hk]%list_elem_of_filter. by apply Hin.
Qed.

(** Putting an entry at the end of an order that does not hold its key. *)
Lemma push_spec key value order sessions max :
  keys_wf order sessions → key ∉ order →
  (∀ k, is_Some (sessions !! k) → k ∈ order ∨ k = key) →
  let r := mkRegistry (<[key := value]> sessions) (order ++ [key]) max in
  registry_wf r ∧ recency r = pairs sessions order ++ [(key, value)].
Proof.
  intros [Hnd Hsome] Hkey Hdom r. split.
  - split; simpl.
    + apply NoDup_app. split_and!; [done| |apply NoDup_singleton].
      intros k Hk ->%list_elem_of_singleton. done.
    + intros k. rewrite elem_of_app, list_elem_of_singleton. split.
      * intros [Hk| ->]; [|rewrite lookup_insert_eq; by eexists].
        rewrite lookup_insert_ne by congruence. by apply Hsome.
      * destruct (decide (k = key)) as [->|Hne]; [by right|].
        rewrite lookup_insert_ne by done. auto.
  - unfold recency. simpl. rewrite omap_app. simpl. rewrite lookup_insert_eq. simpl.
    f_equal. apply pairs_ext. intros k Hk. apply lookup_insert_ne. congruence.
Qed.

Lemma drop_elem {A} n (l : list A) x : x ∈ drop n l → x ∈ l.
Proof. intros H. rewrite <-(take_drop n l). apply elem_of_app. by right. Qed.

Lemma pairs_drop n order sessions :
  keys_wf order sessions → pairs sessions (drop n order) = drop n (pairs sessions order).
Proof.
  intros [Hnd Hsome]. revert n. induction order as [|k order IH]; intros n.
  { by destruct n. }
  apply NoDup_cons in Hnd as [Hk Hnd]. destruct (Hsome k) as [v Hv]; [by left|].
  destruct n as [|n]; [done|]. rewrite pairs_cons, Hv. simpl.
  apply IH; [done|]. intros key Hkey. apply Hsome. by right.
Qed.

Lemma registry_insert_spec key value r :
  registry_wf r →
  registry_wf (registry_insert key value r)
  ∧ recency (registry_insert key value r) = lru_insert (r_max r) key value (recency r)
  ∧ r_max (registry_insert key value r) = r_max r.
Proof.
  intros Hwf. pose proof (filter_ne_wf key r Hwf) as Hkeys. pose proof Hwf as [Hnd Hin].
  unfold registry_insert, remove_order_entry. simpl. rewrite remove_first_filter by done.
  rewrite (evict_spec _ _ _ _ Hkeys eq_refl), (registry_size r Hwf).
  set (n := length (r_order r) + 1 - r_max r). set (order := filter _ _) in *.
  set (sessions := foldl _ _ _). destruct Hkeys as [Hnd' Hsome].
  assert (∀ k, k ∈ drop n order → sessions !! k = r_sessions r !! k) as Hkeep.
  { intros k Hk. unfold sessions. rewrite delete_all_lookup, decide_False; [done|].
    rewrite <-(take_drop n order) in Hnd'. apply NoDup_app in Hnd' as (_ & Hdisj & _).
    intros Hk'. by apply (Hdisj k). }
  destruct (push_spec key value (drop n order) sessions (r_max r)) as [Hwf' Hrec].
  - split.
    + rewrite <-(take_drop n order) in Hnd'. by apply NoDup_app in Hnd' as (_ & _ & ?).
    + intros k Hk. rewrite Hkeep by done. by eapply Hsome, drop_elem.
  - intros Hk%drop_elem. by apply list_elem_of_filter in Hk as [].
  - intros k [v Hv]. unfold sessions in Hv. rewrite delete_all_lookup in Hv.
    case_decide as Htake; [done|]. destruct (decide (k = key)) as [->|Hne]; [by right|left].
    assert (k ∈ order) as Hk by (apply list_elem_of_filter; split; [done|apply Hin; eauto]).
    rewrite <-(take_drop n order) in Hk. by apply elem_of_app in Hk as [].
  - split; [done|]. split; [|done]. rewrite Hrec. unfold lru_insert. f_equal.
    rewrite (pairs_ext sessions (r_sessions r)) by done.
    rewrite pairs_drop by (by apply filter_ne_wf). unfold order. rewrite pairs_filter.
    f_equal. unfold n, recency. fold (pairs (r_sessions r) (r_order r)).
    by rewrite pairs_length by (by apply registry_keys).
Qed.

Lemma registry_touch_spec key change value r :
  registry_wf r → r_sessions r !! key = Some value →
  let r' := mkRegistry (<[key := change value]> (r_sessions r))
              (remove_first key (r_order r) ++ [key]) (r_max r) in
  registry_wf r' ∧ recency r' = lru_touch key change (recency r).
Proof.
  intros Hwf Hv. pose proof (filter_ne_wf key r Hwf) as Hkeys. pose proof Hwf as [Hnd Hin].
  rewrite remove_first_filter by done.
  destruct (push_spec key (change value) _ (r_sessions r) (r_max r) Hkeys) as [Hwf' Hrec].
  - intros Hk. by apply list_elem_of_filter in Hk as [].
  - intros k Hk%Hin. destruct (decide (k = key)) as [->|Hne]; [by right|left].
    by apply list_elem_of_filter.
  - split; [done|]. rewrite Hrec, pairs_filter. unfold lru_touch, recency.
    fold (pairs (r_sessions r) (r_order r)).
    rewrite lookup_pairs; [by rewrite Hv|by apply registry_keys|]. apply Hin. eauto.
Qed.

Lemma registry_get_spec key r :
  registry_wf r →
  registry_wf (registry_get key r).1
  ∧ recency (registry_get key r).1 = lru_touch key id (recency r)
  ∧ (registry_get key r).2 = lru_lookup key (recency r)
  ∧ r_max (registry_get key r).1 = r_max r.
Proof.
  intros Hwf. unfold registry_get. destruct (r_sessions r !! key) as [v|] eqn:Hv; simpl.
  - destruct (registry_touch_spec key id v r Hwf Hv) as [Hwf' Hrec].
    simpl in *. rewrite insert_id in Hwf', Hrec by done. split_and!; [done|done| |done].
    unfold recency. fold (pairs (r_sessions r) (r_order r)).
    rewrite lookup_pairs; [done|by apply registry_keys|]. apply Hwf. eauto.
  - assert (lru_lookup key (recency r) = None) as Hn by (by apply lookup_pairs_none).
    unfold lru_touch. by rewrite Hn.
Qed.

Lemma registry_get_mut_spec key change r :
  registry_wf r →
  registry_wf (registry_get_mut key change r)
  ∧ recency (registry_get_mut key change r) = lru_touch key change (recency r)
  ∧ r_max (registry_get_mut key change r) = r_max r.
Proof.
  intros Hwf. unfold registry_get_mut. destruct (r_sessions r !! key) as [v|] eqn:Hv; simpl.
  - by destruct (registry_touch_spec key change v r Hwf Hv).
  - assert (lru_lookup key (recency r) = None) as Hn by (by apply lookup_pairs_none).
    unfold lru_touch. by rewrite Hn.
Qed.

Lemma lru_insert_bound max key value l :
  length l ≤ Nat.max 1 max → length (lru_insert max key value l) ≤ Nat.max 1 max.
Proof.
  intros Hl. unfold lru_insert. rewrite length_app, length_drop. simpl.
  pose proof (lru_without_length_le key l). lia.
Qed.
End refinement.

(** Replacing a present entry of a full registry still evicts the oldest other. *)
Lemma registry_insert_evicts {T} key (value : T) (r : SessionRegistry T) oldest v rest :
  registry_wf r → recency r = (oldest, v) :: rest → oldest ≠ key →
  length (recency r) = r_max r → is_Some (r_sessions r !! key) →
  r_sessions (registry_insert key value r) !! oldest = None.
Proof.
  intros Hwf Hrec Hne Hfull [w Hw].
  destruct (registry_insert_spec key value r Hwf) as (Hwf' & Hrec' & _).
  destruct (r_sessions (registry_insert key value r) !! oldest) as [x|] eqn:Hx; [|done].
  assert (oldest ∈ (recency (registry_insert key value r)).*1) as Hin.
  { unfold recency. fold (pairs (r_sessions (registry_insert key value r))
      (r_order (registry_insert key value r))).
    rewrite pairs_keys by (by apply registry_keys). apply Hwf'. eauto. }
  exfalso. rewrite Hrec' in Hin. unfold lru_insert in Hin.
  rewrite Hfull, <-Hfull, Hrec in Hin.
  replace (length ((oldest, v) :: rest) + 1 - length ((oldest, v) :: rest)) with 1 in Hin by lia.
  unfold lru_without in Hin. rewrite filter_cons, decide_True in Hin by done. simpl in Hin.
  rewrite fmap_app in Hin. simpl in Hin.
  apply elem_of_app in Hin as [Hin|Hin%list_elem_of_singleton]; [|done].
  pose proof (pairs_keys _ _ (registry_keys r Hwf)) as Hkeys.
  unfold recency in Hrec. fold (pairs (r_sessions r) (r_order r)) in Hrec.
  rewrite Hrec in Hkeys. simpl in Hkeys. destruct Hwf as [Hnd _]. rewrite <-Hkeys in Hnd.
  apply NoDup_cons in Hnd as [Hnot _]. apply Hnot.
  apply list_elem_of_fmap in Hin as (kv & -> & [_ Hkv]%list_elem_of_filter).
  by apply list_elem_of_fmap_2.
Qed.

(** C15 (lru): the session registry implements a bounded recency list. On a
    well-formed registry, [insert], [get] and [get_mut] keep it well-formed and
    act on the list of entries by recency as specified: a use moves an entry to
    the end, an insertion drops the oldest others until the map, in which the
    replaced entry still counts, is below the maximum; lookups agree and the
    number of entries never exceeds the maximum (or one). In particular,
    replacing a present entry of a full registry costs the oldest other one. *)
Theorem registry_refines_lru {T} key (value : T) change (r : SessionRegistry T) :
  registry_wf r →
  (registry_wf (registry_insert key value r)
    ∧ recency (registry_insert key value r) = lru_insert (r_max r) key value (recency r))
  ∧ (registry_wf (registry_get key r).1
    ∧ recency (registry_get key r).1 = lru_touch key id (recency r)
    ∧ (registry_get key r).2 = lru_lookup key (recency r))
  ∧ (registry_wf (registry_get_mut key change r)
    ∧ recency (registry_get_mut key change r) = lru_touch key change (recency r))
  ∧ (length (recency r) ≤ Nat.max 1 (r_max r) →
     length (recency (registry_insert key value r)) ≤ Nat.max 1 (r_max r))
  ∧ (∀ oldest v rest, recency r = (oldest, v) :: rest → oldest ≠ key →
     length (recency r) = r_max r → is_Some (r_sessions r !! key) →
     r_sessions (registry_insert key value r) !! oldest = None).
Proof.
  intros Hwf. destruct (registry_insert_spec key value r Hwf) as (Hi & Hri & _).
  destruct (registry_get_spec key r Hwf) as (? & ? & ? & _).
  destruct (registry_get_mut_spec key change r Hwf) as (? & ? & _).
  split_and!; try done; [rewrite Hri; apply lru_insert_bound|].
  intros. by eapply registry_insert_evicts.
Qed.

Definition full_registry : SessionRegistry nat :=
  registry_insert "b" 2 (registry_insert "a" 1 (registry_new 2)).

Lemma full_registry_wf : registry_wf full_registry.
Proof.
  do 2 apply registry_insert_spec. split; [apply NoDup_nil_2|]. intros key. simpl.
  rewrite lookup_empty. split; [by intros ?%elem_of_nil|by intros []].
Qed.

Lemma registry_refines_lru_witness :
  recency full_registry = [("a", 1); ("b", 2)]
  ∧ recency (registry_insert "c" 3 full_registry) = [("b", 2); ("c", 3)].
Proof.
  split; [vm_compute; reflexivity|].
  rewrite (proj2 (proj1 (registry_refines_lru "c" 3 id full_registry full_registry_wf))).
  vm_compute. reflexivity.
Defined.

(** ** Replays *)

Section replays.
Context (to_json : SessionKeyConfig → Result string).

Abbreviation session_key := (session_key to_json).
Abbreviation daemon_op := (daemon_op to_json).
Abbreviation daemon_ops := (daemon_ops to_json).

Definition entry (d : DaemonState) (key : string) : option CachedSession :=
  r_sessions (dm_sessions d) !! key.

Lemma evict_lookup max order (sessions : gmap string CachedSession) key c :
  (evict max order sessions).2 !! key = Some c → sessions !! key = Some c.
Proof.
  revert sessions. induction order as [|oldest order IH]; intros sessions; simpl.
  - by case_match.
  - case_match; [|done]. by intros [_ Hc]%IH%lookup_delete_Some.
Qed.

Lemma registry_insert_lookup key value (r : SessionRegistry CachedSession) key' c :
  r_sessions (registry_insert key value r) !! key' = Some c →
  (key' = key ∧ c = value) ∨ (key' ≠ key ∧ r_sessions r !! key' = Some c).
Proof.
  unfold registry_insert. destruct (evict _ _ _) as [order sessions] eqn:He. simpl.
  intros [[<- <-]|[Hne H]]%lookup_insert_Some; [by left|right]. split; [done|].
  apply (evict_lookup (r_max r) (remove_first key (r_order r)) (r_sessions r)).
  simpl in He. by rewrite He.
Qed.

Lemma registry_get_sessions key (r : SessionRegistry CachedSession) :
  r_sessions (registry_get key r).1 = r_sessions r.
Proof. unfold registry_get. by case_match. Qed.

Lemma registry_get_mut_lookup key change (r : SessionRegistry CachedSession) key' c :
  r_sessions (registry_get_mut key change r) !! key' = Some c →
  r_sessions r !! key' = Some c
  ∨ key' = key ∧ ∃ c0, r_sessions r !! key' = Some c0 ∧ c = change c0.
Proof.
  unfold registry_get_mut. destruct (r_sessions r !! key) as [v|] eqn:Hv; [|by left]. simpl.
  intros [[<- <-]|[Hne H]]%lookup_insert_Some; [right|by left]. eauto.
Qed.

(** Where an entry of the next state comes from. *)
Lemma daemon_op_entry d op key c :
  entry (daemon_op d op) key = Some c →
  entry d key = Some c
  ∨ (∃ config, op = DoReplace config ∧ session_key config = Ok key
       ∧ c = mkCachedSession (dm_next d) Recording)
  ∨ (∃ config c0 replay, op = DoSettle config (cs_session c0) replay
       ∧ session_key config = Ok key ∧ entry d key = Some c0
       ∧ cs_replay c0 ≠ Invalidated ∧ c = mkCachedSession (cs_session c0) replay).
Proof.
  unfold entry. destruct op as [config|config|config|config session r]; simpl.
  - unfold replace_session. destruct (SessionCache.session_key _ config) as [k|] eqn:Hk; [|by left].
    simpl. intros [[-> ->]|[_ ?]]%registry_insert_lookup; [right; left|by left]. eauto.
  - unfold warm_session. destruct (SessionCache.session_key _ config) as [k|]; [|by left].
    pose proof (registry_get_sessions k (dm_sessions d)) as Hs.
    destruct (registry_get _ _). simpl in *. rewrite Hs. by left.
  - unfold replay. destruct (SessionCache.session_key _ config) as [k|]; [|by left].
    pose proof (registry_get_sessions k (dm_sessions d)) as Hs.
    destruct (registry_get _ _). simpl in *. rewrite Hs. by left.
  - unfold settle_replay. destruct (SessionCache.session_key _ config) as [k|] eqn:Hk; [|by left].
    simpl. intros [?|(-> & c0 & Hc0 & ->)]%registry_get_mut_lookup; [by left|].
    unfold settle. case_decide as Hs; [|by left]. subst.
    destruct (cs_replay c0) eqn:Hr; [right; right|right; right|by left];
      exists config, c0, r; by rewrite Hr.
Qed.

Lemma daemon_op_next d op : dm_next d ≤ dm_next (daemon_op d op).
Proof.
  destruct op; simpl; unfold replace_session, warm_session, replay, settle_replay;
    repeat case_match; simpl; lia.
Qed.

(** Every entry names an allocated session, and its lines were settled by it. *)
Definition replay_inv (ops : list DaemonOp) (d : DaemonState) : Prop :=
  ∀ key c, entry d key = Some c →
    cs_session c < dm_next d
    ∧ ∀ lines, cs_replay c = ReplayReady lines → ∃ config,
        session_key config = Ok key ∧ DoSettle config (cs_session c) (ReplayReady lines) ∈ ops.

Lemma daemon_op_inv ops d op : replay_inv ops d → replay_inv (ops ++ [op]) (daemon_op d op).
Proof.
  intros H key c Hc. pose proof (daemon_op_next d op) as Hnext.
  apply daemon_op_entry in Hc as [Hc|[(config & -> & Hk & ->)|(config & c0 & r & -> & Hk & Hc & _ & ->)]].
  - destruct (H _ _ Hc) as [Hlt Hl]. split; [lia|]. intros lines Hr.
    destruct (Hl _ Hr) as (config & ? & ?). exists config. split; [done|].
    apply elem_of_app. by left.
  - simpl. split; [|done]. unfold replace_session. rewrite Hk. simpl. lia.
  - destruct (H _ _ Hc) as [Hlt _]. simpl. split; [simpl in Hnext; lia|].
    intros lines ->. exists config. split; [done|]. apply elem_of_app. right. by left.
Qed.

Lemma daemon_ops_inv ops : replay_inv ops (daemon_ops daemon_init ops).
Proof.
  induction ops as [|op ops IH] using rev_ind.
  - intros key c Hc. unfold entry in Hc. simpl in Hc. by rewrite lookup_empty in Hc.
  - unfold SessionCache.daemon_ops. rewrite foldl_app. by apply daemon_op_inv.
Qed.

(** An invalidated session never becomes replayable again. *)
Definition session_dead (key : string) (session : nat) (d : DaemonState) : Prop :=
  session < dm_next d
  ∧ ∀ c, entry d key = Some c → cs_session c = session → cs_replay c = Invalidated.

Lemma daemon_op_dead key session d op :
  session_dead key session d → session_dead key session (daemon_op d op).
Proof.
  intros [Hlt Hdead]. pose proof (daemon_op_next d op) as Hnext. split; [lia|]. intros c Hc Hs.
  apply daemon_op_entry in Hc as [Hc|[(config & -> & Hk & ->)|(config & c0 & r & -> & Hk & Hc & Hr & ->)]].
  - by apply Hdead.
  - simpl in Hs. lia.
  - simpl in Hs. by rewrite (Hdead c0 Hc Hs) in Hr.
Qed.

Lemma daemon_ops_dead key session d ops :
  session_dead key session d → session_dead key session (daemon_ops d ops).
Proof.
  revert d. induction ops as [|op ops IH]; intros d H; [done|]. by apply IH, daemon_op_dead.
Qed.

Lemma replay_ok_entry d config lines :
  (replay to_json d config).2 = Ok lines →
  ∃ key c, session_key config = Ok key ∧ entry d key = Some c ∧ cs_replay c = ReplayReady lines.
Proof.
  unfold replay, entry. destruct (SessionCache.session_key _ config) as [key|]; [|done].
  unfold registry_get. destruct (r_sessions (dm_sessions d) !! key) as [c|] eqn:Hc; [|done]. simpl.
  destruct (cs_replay c) eqn:Hr; [done| |done]. intros [= ->]. eauto.
Qed.
End replays.

(** C16 (replay): a replay is the recording of the cached session itself. Whatever
    the interleaving of handlers, when [replay] returns lines, the session
    cached under the request's key was settled with exactly these lines by a
    request with the same key; and once that session was invalidated, no later
    operation makes it replayable again. *)
Theorem replay_sound to_json ops config lines :
  let d := daemon_ops to_json daemon_init ops in
  (replay to_json d config).2 = Ok lines →
  ∃ key c config',
    session_key to_json config = Ok key ∧ session_key to_json config' = Ok key
    ∧ entry d key = Some c
    ∧ DoSettle config' (cs_session c) (ReplayReady lines) ∈ ops
    ∧ ∀ ops1 ops2 c1, ops = ops1 ++ ops2 →
        entry (daemon_ops to_json daemon_init ops1) key = Some c1 →
        cs_replay c1 = Invalidated → cs_session c1 ≠ cs_session c.
Proof.
  intros d H. destruct (replay_ok_entry _ _ _ _ H) as (key & c & Hk & Hc & Hr).
  destruct (daemon_ops_inv to_json ops key c Hc) as [_ Hl].
  destruct (Hl _ Hr) as (config' & Hk' & Hin). exists key, c, config'. split_and!; try done.
  intros ops1 ops2 c1 Hops Hc1 Hr1 Heq.
  destruct (daemon_ops_inv to_json ops1 key c1 Hc1) as [Hlt _].
  assert (session_dead key (cs_session c1) (daemon_ops to_json daemon_init ops1)) as Hdead.
  { split; [done|]. intros c2 Hc2 _. congruence. }
  apply (daemon_ops_dead to_json _ _ _ ops2) in Hdead as [_ Hdead].
  unfold daemon_ops in Hdead. rewrite <-foldl_app, <-Hops in Hdead.
  rewrite (Hdead c Hc) in Hr; [done|congruence].
Qed.

Definition plain_key (k : SessionKeyConfig) : Result string :=
  Ok match k_input k with Flake s | Expr s | File s => s end.

Lemma replay_sound_witness :
  ∃ key c config',
    session_key plain_key config_default = Ok key ∧ session_key plain_key config' = Ok key
    ∧ DoSettle config' (cs_session c) (ReplayReady "lines")
        ∈ [DoReplace config_default; DoSettle config_default 0 (ReplayReady "lines")].
Proof.
  destruct (replay_sound plain_key
    [DoReplace config_default; DoSettle config_default 0 (ReplayReady "lines")]
    config_default "lines" ltac:(vm_compute; reflexivity))
    as (key & c & config' & H1 & H2 & _ & H3 & _).
  exists key, c, config'. split; [exact H1|]. split; [exact H2|exact H3].
Defined.

(** ** Connection slots *)

Definition connections_init (max : N) : Connections := mkConnections (limiter_new max) [] [].

Definition connections_inv (max : N) (c : Connections) : Prop :=
  lim_max (cn_limiter c) = max
  ∧ lim_active (cn_limiter c) = N.of_nat (length (cn_threads c))
  ∧ (lim_active (cn_limiter c) ≤ max)%N.

Lemma connection_step_inv max c c' :
  (max < usize_modulus)%N → connections_inv max c → connection_step c c' → connections_inv max c'.
Proof.
  intros Hmax (Hm & Ha & Hle) Hstep. destruct Hstep as [l l' ts rs id Hacq|l l' ts rs id Hacq|l b a id rs];
    unfold connections_inv in *; simpl in *.
  - unfold acquire in Hacq. destruct (lim_max l <=? lim_active l)%N eqn:Hfull; [done|].
    injection Hacq as <-. apply N.leb_gt in Hfull. simpl.
    unfold usize_add, usize_wrap. rewrite N.mod_small by lia. lia.
  - unfold acquire in Hacq. destruct (lim_max l <=? lim_active l)%N; by simplify_eq.
  - rewrite length_app in *. simpl in *. unfold usize_sub, usize_wrap.
    rewrite (N.mod_small 1) by done.
    replace (lim_active l + usize_modulus - 1)%N
      with (lim_active l - 1 + 1 * usize_modulus)%N by lia.
    rewrite N.Div0.mod_add, N.mod_small by lia. lia.
Qed.

(** The connection limit is exact. In every reachable state the counter
    is the number of connection threads that run, at most the maximum, and never
    wraps; a connection gets a slot exactly when fewer threads run than that. *)
Theorem connection_limit_exact max c :
  (max < usize_modulus)%N → rtc connection_step (connections_init max) c →
  lim_active (cn_limiter c) = N.of_nat (length (cn_threads c))
  ∧ (N.of_nat (length (cn_threads c)) ≤ max)%N
  ∧ ((acquire (cn_limiter c)).2 = true ↔ (N.of_nat (length (cn_threads c)) < max)%N).
Proof.
  intros Hmax Hr. assert (connections_inv max c) as (Hm & Ha & Hle).
  { revert c Hr. apply rtc_ind_r; [split_and!; simpl; [done|done|lia]|].
    intros c c' _ Hs H. by eapply connection_step_inv. }
  rewrite <-Ha. split_and!; [done|done|]. unfold acquire. rewrite Hm.
  destruct (max <=? lim_active (cn_limiter c))%N eqn:Hfull; bool_simpl; simpl; split; intros; try done; lia.
Qed.

Lemma connection_limit_exact_witness :
  (acquire (limiter_new MAX_CONNECTIONS)).2 = true.
Proof.
  apply (connection_limit_exact MAX_CONNECTIONS (connections_init MAX_CONNECTIONS));
    [reflexivity|apply rtc_refl|reflexivity].
Defined.

(** ** Session keys *)

#[export] Instance session_key_config_eq_dec : EqDecision SessionKeyConfig.
Proof. solve_decision. Defined.

#[export] Instance session_key_config_countable : Countable SessionKeyConfig.
Proof.
  refine (inj_countable'
    (λ k, (k_input k, k_auto_args k, k_force_recurse k, k_gc_roots_dir k, k_workers k,
           k_max_memory_size k, k_item_timeout_seconds k, k_meta k, k_show_input_drvs k,
           k_override_inputs k, k_nix_options k, k_remotes k))
    (λ '(a, b, c, d, e, f, g, h, i, j, k, l), mkSessionKeyConfig a b c d e f g h i j k l) _).
  by intros [].
Defined.

Lemma session_key_config_wire c1 c2 :
  session_key_config c1 = session_key_config c2 ↔ wire_from_config c1 = wire_from_config c2.
Proof.
  unfold session_key_config, wire_from_config. split; intros H; injection H; intros; by f_equal.
Qed.

(** Requests share a session exactly when they agree on every
    configuration value of the daemon protocol; the worker executable, which is
    not part of it, does not matter. The printed JSON determines the value. *)
Theorem session_key_shared to_json c1 c2 key :
  (∀ k1 k2 s, to_json k1 = Ok s → to_json k2 = Ok s → k1 = k2) →
  session_key to_json c1 = Ok key →
  (session_key to_json c2 = Ok key ↔ wire_from_config c2 = wire_from_config c1).
Proof.
  intros Hinj Hk. rewrite <-session_key_config_wire.
  unfold session_key in *. rewrite with_context_ok in *. split; [eauto|]. by intros ->.
Qed.

(** An injective printer of keys. *)
Definition print_key (k : SessionKeyConfig) : Result string :=
  Ok (pretty (Npos (countable.encode k))).

Lemma session_key_shared_witness :
  ∃ key, session_key print_key (config_expr "{}") = Ok key
    ∧ session_key print_key (config_builder_call (config_expr "{}") (SetWorkerExe "w")) = Ok key.
Proof.
  set (key := pretty (Npos (countable.encode (session_key_config (config_expr "{}"))))).
  assert (session_key print_key (config_expr "{}") = Ok key) as Hkey by exact eq_refl.
  exists key. split; [exact Hkey|]. clearbody key.
  refine (proj2 (session_key_shared print_key (config_expr "{}") _ key _ Hkey) eq_refl).
  intros k1 k2 s [= H1] [= H2]. apply (inj countable.encode).
  apply (inj Npos), (inj (pretty : N → string)). congruence.
Defined.
