(* ===== verification/Daemon.v ===== *)
(** * The evaluation daemon

    [crates/evix-daemon/src/lib.rs]: request lines, the connection handler and
    the handlers of the five requests over the shared state of
    [SessionCache.v], and the preparation of the daemon's socket. *)
From S2P Require Import Prelude Types Graph Config WorkerProcess Scheduler Session SessionCache.

Definition MAX_REQUEST_BYTES : nat := 16 * 1024 * 1024.

(** ** Request lines *)

(** The index after the first newline of a buffer. *)
Fixpoint line_end (l : list ascii) : option nat :=
  match l with
  | [] => None
  | c :: l => if decide (c = newline) then Some 1 else S <$> line_end l
  end.

Definition too_long (limit : nat) : Report :=
  report ("daemon request exceeds " +:+ show_N (N.of_nat limit) +:+ " bytes").

(** [read_limited_line] over the buffers that [fill_buf] returns; an empty one,
    or the end of the list, is the end of the stream. *)
Fixpoint read_limited_line (limit : nat) (out : list ascii)
    (buffers : list (Result (list ascii))) : Result (list ascii) :=
  match buffers with
  | [] => Ok out
  | Err err :: _ => Err err
  | Ok [] :: _ => Ok out
  | Ok available :: buffers =>
      let newline := line_end available in
      let len := default (length available) newline in
      if limit <? length out + len then Err (too_long limit)
      else
        let out := out ++ take len available in
        match newline with
        | Some _ => Ok out
        | None => read_limited_line limit out buffers
        end
  end.

(** The bytes without a final line feed, and without a carriage return before it. *)
Definition strip_line_end (bytes : list ascii) : list ascii :=
  match last bytes with
  | Some c =>
      if decide (c = newline) then
        let bytes := removelast bytes in
        match last bytes with
        | Some c => if decide (c = carriage_return) then removelast bytes else bytes
        | None => bytes
        end
      else bytes
  | None => bytes
  end.

(** [read_request_line]; [try_clone] may fail. *)
Definition read_request_line (try_clone : Result unit) (buffers : list (Result (list ascii)))
  : Result string :=
  _ ← try_clone;
  bytes ← with_context "reading daemon request" (read_limited_line MAX_REQUEST_BYTES [] buffers);
  let bytes := strip_line_end bytes in
  if utf8_valid_bytes bytes then Ok (str_of_chars bytes)
  else Err (context "daemon request is not UTF-8" (report "invalid utf-8 sequence")).

(** [authorize_peer] on Linux: the peer's user, if it could be read. *)
Definition authorize_peer (peer_uid : Result N) (euid : N) : Result unit :=
  uid ← with_context "reading daemon peer credentials" peer_uid;
  if (uid =? euid)%N then Ok tt
  else Err (report ("refusing daemon connection from uid " +:+ show_N uid
                    +:+ "; expected " +:+ show_N euid)).

(** ** Handlers *)

(** A handler's effects: the shared state, the bytes written to the client, and
    how many more writes succeed before the client is gone. *)
Record Handling := mkHandling {
  h_state : DaemonState;
  h_written : string;
  h_budget : nat;
}.
#[export] Instance eta_handling : EtaRecord Handling := λ h,
  mkHandling (h_state h) (h_written h) (h_budget h).

(** [stream.write_all] *)
Definition write_all (bytes : string) (h : Handling) : Handling * Result unit :=
  match h_budget h with
  | 0 => (h, Err (report "Broken pipe"))
  | S n => (mkHandling (h_state h) (h_written h +:+ bytes) n, Ok tt)
  end.

Section handlers.
(** The JSON of keys and responses, [Display] of reports, and what other
    handlers do to the shared state while this one waits for events. *)
Context (to_json : SessionKeyConfig → Result string).
Context (encode_response : Response → Result string).
Context (display : Report → string).
Context (others : DaemonState → DaemonState).

(** [response_line] and [write_response] *)
Definition response_line (response : Response) : Result string :=
  line ← encode_response response;
  Ok (line +:+ String newline EmptyString).

Definition write_response (response : Response) (h : Handling) : Handling * Result unit :=
  match response_line response with
  | Err err => (h, Err err)
  | Ok line => write_all line h
  end.

Definition set_state (d : DaemonState) (h : Handling) : Handling := h <| h_state := d |>.

(** The loop of [handle_eval] over the session's events, with the recording. *)
Fixpoint eval_loop (events : list (result Error Event)) (recorded : option string)
    (h : Handling) : Handling * Result (option string) :=
  match events with
  | [] => (h, Ok recorded)
  | event :: events =>
      let '(recorded, response) :=
        match event with
        | Ok event => (recorded, response_event event)
        | Err err => (None, response_error (show_error err))
        end in
      match response_line response with
      | Err err => (h, Err err)
      | Ok line =>
          match write_all line h with
          | (h, Err err) => (h, Err err)
          | (h, Ok _) => eval_loop events ((λ r, r +:+ line) <$> recorded) h
          end
      end
  end.

Definition handle_eval (config : Config) (events : list (result Error Event)) (h : Handling)
  : Handling * Result unit :=
  match replace_session to_json (h_state h) config with
  | (d, Err err) => (set_state d h, Err err)
  | (d, Ok session) =>
      match eval_loop events (Some EmptyString) (set_state d h) with
      | (h, Err err) => (h, Err err)
      | (h, Ok recorded) =>
          let replay := match recorded with
                        | Some lines => ReplayReady lines
                        | None => Invalidated
                        end in
          match settle_replay to_json (others (h_state h)) config session replay with
          | (d, Err err) => (set_state d h, Err err)
          | (d, Ok _) => write_response RespDone (set_state d h)
          end
      end
  end.

Definition handle_replay (config : Config) (h : Handling) : Handling * Result unit :=
  match replay to_json (h_state h) config with
  | (d, Err err) => (set_state d h, Err err)
  | (d, Ok lines) =>
      match write_all lines (set_state d h) with
      | (h, Err err) => (h, Err err)
      | (h, Ok _) => write_response RespDone h
      end
  end.

(** Writing responses one after the other. *)
Fixpoint write_responses (responses : list Response) (h : Handling) : Handling * Result unit :=
  match responses with
  | [] => (h, Ok tt)
  | response :: responses =>
      match write_response response h with
      | (h, Err err) => (h, Err err)
      | (h, Ok _) => write_responses responses h
      end
  end.

Definition diff_response (item : result Error Diff) : Response :=
  match item with
  | Ok diff => response_diff diff
  | Err err => response_error (show_error err)
  end.

Definition handle_watch (config : Config) (diffs : list (result Error Diff)) (h : Handling)
  : Handling * Result unit :=
  match replace_session to_json (h_state h) config with
  | (d, Err err) => (set_state d h, Err err)
  | (d, Ok session) =>
      match settle_replay to_json d config session Invalidated with
      | (d, Err err) => (set_state d h, Err err)
      | (d, Ok _) => write_responses (diff_response <$> diffs) (set_state d h)
      end
  end.

(** The sessions behind the addresses; a public error becomes a report. *)
Context (session_at : nat → Session).
Definition lift_error {A} (r : result Error A) : Result A :=
  map_err (λ e, report (show_error e)) r.

Definition handle_query (config : Config) (filter : Filter) (h : Handling)
  : Handling * Result unit :=
  match warm_session to_json (h_state h) config with
  | (d, Err err) => (set_state d h, Err err)
  | (d, Ok address) =>
      let h := set_state d h in
      let session := session_at address in
      match _ ← lift_error (require_completed session);
            lift_error (query_snapshot session filter) with
      | Err err => (h, Err err)
      | Ok derivations =>
          match write_responses (response_derivation_event <$> derivations) h with
          | (h, Err err) => (h, Err err)
          | (h, Ok _) => write_response RespDone h
          end
      end
  end.

Definition handle_diff (config : Config) (run : Run) (h : Handling) : Handling * Result unit :=
  match warm_session to_json (h_state h) config with
  | (d, Err err) => (set_state d h, Err err)
  | (d, Ok address) =>
      let h := set_state d h in
      let session := session_at address in
      match _ ← lift_error (require_completed session);
            lift_error (diff_once display session run).2 with
      | Err err => (h, Err err)
      | Ok diff =>
          match settle_replay to_json (others (h_state h)) config address Invalidated with
          | (d, Err err) => (set_state d h, Err err)
          | (d, Ok _) => write_responses [response_diff diff; RespDone] (set_state d h)
          end
      end
  end.

(** ** A connection *)

(** What the session of a request does: the events of its initial stream, the
    diffs of its watch, the run of a [diff]. *)
Record Activity := mkActivity {
  a_events : list (result Error Event);
  a_diffs : list (result Error Diff);
  a_run : Run;
}.

Definition dispatch_request (request : Request) (a : Activity) (h : Handling)
  : Handling * Result unit :=
  match request with
  | ReqEval _ config => handle_eval (config_from_wire config) (a_events a) h
  | ReqReplay _ config => handle_replay (config_from_wire config) h
  | ReqWatch _ config => handle_watch (config_from_wire config) (a_diffs a) h
  | ReqQuery _ config filter => handle_query (config_from_wire config) filter h
  | ReqDiff _ config => handle_diff (config_from_wire config) (a_run a) h
  end.

(** An error is also reported to the client, when it can be. *)
Definition fail_with (message : string) (err : Report) (h : Handling) : Handling * Result unit :=
  ((write_response (response_error message) h).1, Err err).

(** [handle_connection]; [parse_request] is [serde_json::from_str]. *)
Definition handle_connection (parse_request : string → Result Request)
    (peer_uid : Result N) (euid : N) (try_clone : Result unit)
    (buffers : list (Result (list ascii))) (a : Activity) (h : Handling)
  : Handling * Result unit :=
  match authorize_peer peer_uid euid with
  | Err err => (h, Err err)
  | Ok _ =>
      match read_request_line try_clone buffers with
      | Err err => fail_with (display err) err h
      | Ok line =>
          if is_blank line then (h, Ok tt)
          else
            match with_context "parsing daemon request" (parse_request (str_trim line)) with
            | Err err => fail_with (display err) err h
            | Ok request =>
                match validate_protocol request with
                | Err err =>
                    let message := show_protocol_version_error err in
                    fail_with message (report message) h
                | Ok _ =>
                    match dispatch_request request a h with
                    | (h, Err err) => fail_with (display err) err h
                    | (h, Ok _) => (h, Ok tt)
                    end
                end
            end
      end
  end.
End handlers.

(** ** The socket *)

(** [socket_path]: the flag, the environment, or the default. *)
Definition default_socket_path (euid : N) : string :=
  "/run/user/" +:+ show_N euid +:+ "/evix.sock".
Definition pid_path (euid : N) : string := "/run/user/" +:+ show_N euid +:+ "/evix.pid".
Definition socket_path (flag env : option string) (euid : N) : string :=
  match flag with
  | Some path => path
  | None => default (default_socket_path euid) env
  end.

(** What the file system answers about the socket path. *)
Record SocketProbe := mkSocketProbe {
  p_parent : option string;
  p_create_dir : Result unit;
  p_metadata : result IoError bool;
  p_connect : result IoError unit;
  p_remove : Result unit;
  p_bind : Result unit;
  p_chmod : Result unit;
}.

(** The changes made to the file system and the reports sent, in order. *)
Inductive SocketEffect : Type :=
  | CreateDirAll (path : string)
  | RemoveFile (path : string)
  | SetUmask (mask : N)
  | BindSocket (path : string)
  | SetMode600 (path : string)
  | ReportError (err : Report)
  | ReportReady.

(** [prepare_socket_path]; [symlink_metadata] says whether the path is a socket. *)
Definition prepare_socket_path (socket : string) (p : SocketProbe)
  : list SocketEffect * Result unit :=
  let '(effects, created) :=
    match p_parent p with
    | Some parent =>
        if str_is_empty parent then ([], Ok tt)
        else ([CreateDirAll parent],
              with_context ("creating socket directory " +:+ parent) (p_create_dir p))
    | None => ([], Ok tt)
    end in
  match created with
  | Err err => (effects, Err err)
  | Ok _ =>
      match p_metadata p with
      | Err err =>
          match io_kind err with
          | NotFound => (effects, Ok tt)
          | _ => (effects, Err (context ("checking existing socket path " +:+ socket)
                                        (io_report err)))
          end
      | Ok false => (effects, Err (report ("refusing to remove non-socket path " +:+ socket)))
      | Ok true =>
          match p_connect p with
          | Ok _ => (effects, Err (report ("live daemon socket already exists at " +:+ socket)))
          | Err err =>
              match io_kind err with
              | ConnectionRefused =>
                  (effects ++ [RemoveFile socket],
                   with_context ("removing stale socket " +:+ socket) (p_remove p))
              | NotFound => (effects, Ok tt)
              | _ => (effects, Err (context ("probing existing socket " +:+ socket)
                                            (io_report err)))
              end
          end
      end
  end.

(** [UmaskGuard::set] with the mask of the process, what runs under the guard,
    and the guard's [drop], which puts the mask back. *)
Definition UMASK : N := 63.
Definition with_umask (umask mask : N) (effects : list SocketEffect) : list SocketEffect :=
  SetUmask mask :: effects ++ [SetUmask umask].

(** [bind_listener]; [ready] is the outcome of the reporter's [ready], [umask]
    the mask of the process. *)
Definition bind_listener (umask : N) (socket : string) (p : SocketProbe) (ready : Result unit)
  : list SocketEffect * Result unit :=
  let '(effects, prepared) := prepare_socket_path socket p in
  let '(effects, bound) :=
    match prepared with
    | Err err => (effects, Err err)
    | Ok _ => (effects ++ with_umask umask UMASK [BindSocket socket],
               with_context ("binding " +:+ socket) (p_bind p))
    end in
  match bound with
  | Err err => (effects ++ [ReportError err], Err err)
  | Ok _ =>
      match with_context ("setting permissions on " +:+ socket) (p_chmod p) with
      | Err err =>
          (effects ++ [SetMode600 socket; RemoveFile socket; ReportError err], Err err)
      | Ok _ =>
          match ready with
          | Err err =>
              (effects ++ [SetMode600 socket; ReportReady; RemoveFile socket], Err err)
          | Ok _ => (effects ++ [SetMode600 socket; ReportReady], Ok tt)
          end
      end
  end.

(** ** Wire formats *)

(** A line of a stream: text, visible, without line breaks or blanks around it. *)
Record wire_line (line : string) : Prop := {
  wl_text : utf8_valid line = true;
  wl_newline : newline ∉ str_chars line;
  wl_return : last (str_chars line) ≠ Some carriage_return;
  wl_visible : is_blank line = false;
  wl_trim : str_trim line = line;
}.

(** What the JSON of requests and responses promises: one line, read back. *)
Class Wire {A} (encode : A → Result string) (parse : string → Result A) : Prop := {
  wire_reads a line : encode a = Ok line → parse line = Ok a;
  wire_lines a line : encode a = Ok line → wire_line line;
}.

Definition as_line (line : string) : string := line +:+ String newline EmptyString.

(** ** Lemmas *)

(** The reference for reading a line: of the whole input, at once. *)
Definition first_line (limit : nat) (bytes : list ascii) : Result (list ascii) :=
  let len := default (length bytes) (line_end bytes) in
  if limit <? len then Err (too_long limit) else Ok (take len bytes).

Lemma line_end_bound l n : line_end l = Some n → 0 < n ≤ length l.
Proof.
  revert n. induction l as [|c l IH]; intros n; simpl; [done|].
  case_decide; [intros [= <-]; lia|]. intros (m & Hm & ->)%fmap_Some.
  apply IH in Hm. lia.
Qed.

Lemma line_end_app l k :
  line_end (l ++ k)
  = match line_end l with Some n => Some n | None => (λ n, length l + n) <$> line_end k end.
Proof.
  induction l as [|c l IH]; simpl; [by destruct (line_end k)|].
  case_decide; [done|]. rewrite IH. destruct (line_end l); simpl; [done|].
  by destruct (line_end k).
Qed.

Lemma str_of_chars_chars s : str_of_chars (str_chars s) = s.
Proof. induction s as [|c s IH]; [done|]. simpl. by rewrite IH. Qed.

Lemma line_end_as_line line rest :
  newline ∉ str_chars line →
  line_end (str_chars (as_line line) ++ rest) = Some (S (length (str_chars line))).
Proof.
  intros Hnl. unfold as_line. rewrite str_chars_app, <-app_assoc. simpl.
  induction (str_chars line) as [|c l IH]; simpl.
  - done.
  - rewrite decide_False by (intros ->; apply Hnl; by left).
    rewrite IH; [done|]. intros ?. apply Hnl. by right.
Qed.

Lemma read_limited_line_step limit out b buffers :
  b ≠ [] →
  read_limited_line limit out (Ok b :: buffers)
  = let len := default (length b) (line_end b) in
    if limit <? length out + len then Err (too_long limit)
    else match line_end b with
         | Some _ => Ok (out ++ take len b)
         | None => read_limited_line limit (out ++ take len b) buffers
         end.
Proof. by destruct b. Qed.

Lemma read_limited_line_app limit out buffers :
  (∀ b, b ∈ buffers → b ≠ []) → length out ≤ limit →
  read_limited_line limit out (Ok <$> buffers)
  = let bytes := concat buffers in
    let len := default (length bytes) (line_end bytes) in
    if limit <? length out + len then Err (too_long limit) else Ok (out ++ take len bytes).
Proof.
  revert out. induction buffers as [|b buffers IH]; intros out Hne Hout.
  { simpl. rewrite Nat.add_0_r, app_nil_r.
    by rewrite (proj2 (Nat.ltb_ge limit (length out)) Hout). }
  rewrite fmap_cons, read_limited_line_step by (apply Hne; by left).
  cbn [concat]. cbv zeta. rewrite line_end_app.
  destruct (line_end b) as [n|] eqn:He; cbn [from_option id].
  { apply line_end_bound in He. case_match; [done|]. by rewrite take_app_le by lia. }
  replace (default _ _) with (length b + default (length (concat buffers)) (line_end (concat buffers)))
    by (destruct (line_end (concat buffers)); simpl; [done|by rewrite length_app]).
  destruct (limit <? length out + length b) eqn:Hlimit.
  - apply Nat.ltb_lt in Hlimit. symmetry. case_match eqn:Hle; [done|].
    apply Nat.ltb_ge in Hle. lia.
  - apply Nat.ltb_ge in Hlimit. rewrite firstn_all, IH; [|intros x Hx; apply Hne; by right|].
    + rewrite length_app. cbv zeta. rewrite Nat.add_assoc.
      case_match; [done|]. by rewrite take_app_add, <-(assoc_L (++)).
    + by rewrite length_app.
Qed.

(** ** Handlers and the cached entry of their key *)

Section handler_lemmas.
Context (to_json : SessionKeyConfig → Result string).
Context (encode_response : Response → Result string).

Abbreviation eval_loop := (eval_loop encode_response).
Abbreviation write_response := (write_response encode_response).

Lemma replace_session_entry d config key d' session :
  session_key to_json config = Ok key →
  replace_session to_json d config = (d', Ok session) →
  entry d' key = Some (mkCachedSession session Recording).
Proof.
  intros Hk. unfold replace_session, entry. rewrite Hk. intros [= <- <-]. simpl.
  unfold registry_insert. case_match. simpl. apply lookup_insert_eq.
Qed.

Lemma warm_session_entry d config key d' address :
  session_key to_json config = Ok key →
  warm_session to_json d config = (d', Ok address) →
  ∃ c, entry d' key = Some c ∧ cs_session c = address.
Proof.
  intros Hk. unfold warm_session, entry, registry_get. rewrite Hk.
  destruct (r_sessions (dm_sessions d) !! key) as [c|] eqn:Hc; [|done]. simpl.
  intros [= <- <-]. by exists c.
Qed.

Lemma settle_replay_entry d config key session r c :
  session_key to_json config = Ok key → entry d key = Some c →
  settle_replay to_json d config session r
  = ((settle_replay to_json d config session r).1, Ok tt)
  ∧ entry (settle_replay to_json d config session r).1 key = Some (settle session r c).
Proof.
  intros Hk Hc. unfold settle_replay. rewrite Hk. split; [done|].
  unfold entry, registry_get_mut in *. simpl. rewrite Hc. apply lookup_insert_eq.
Qed.

Lemma replay_entry d config key c :
  session_key to_json config = Ok key → entry d key = Some c →
  (replay to_json d config).2
  = match cs_replay c with
    | Recording => Err (report "matching evaluation has not completed")
    | ReplayReady lines => Ok lines
    | Invalidated => Err (report "session has no replayable completed evaluation")
    end.
Proof.
  intros Hk Hc. unfold replay, entry, registry_get in *. by rewrite Hk, Hc.
Qed.

Lemma write_response_ok response h h' :
  write_response response h = (h', Ok tt) →
  ∃ line, response_line encode_response response = Ok line
    ∧ h_state h' = h_state h ∧ h_written h' = h_written h +:+ line.
Proof.
  unfold Daemon.write_response, write_all. destruct (response_line _ _) as [line|]; [|done].
  destruct (h_budget h); [done|]. intros [= <-]. eauto.
Qed.

(** The recording is what the client was sent, as long as no item is an error. *)
Lemma eval_loop_ok items recorded h h' recorded' :
  eval_loop items recorded h = (h', Ok recorded') →
  h_state h' = h_state h
  ∧ ∃ sent, h_written h' = h_written h +:+ sent
      ∧ recorded' = if forallb (λ item, negb (is_err item)) items
                    then (λ r, r +:+ sent) <$> recorded else None.
Proof.
  revert recorded h. induction items as [|item items IH]; intros recorded h; simpl.
  { intros [= <- <-]. split; [done|]. exists EmptyString. rewrite str_app_nil.
    split; [done|]. destruct recorded; simpl; by rewrite ?str_app_nil. }
  destruct item as [ev|err]; simpl.
  all: destruct (response_line _ _) as [line|]; [|done]; unfold write_all;
    destruct (h_budget h); [done|]; intros (Hs & sent & Hw & ->)%IH; simpl in *;
    (split; [done|]); exists (line +:+ sent); rewrite Hw, str_app_assoc; (split; [done|]).
  - case_match; [|done]. destruct recorded; simpl; by rewrite ?str_app_assoc.
  - by case_match.
Qed.

Lemma settle_invalidated session c :
  cs_session c = session → cs_replay (settle session Invalidated c) = Invalidated.
Proof. unfold settle. intros ->. rewrite decide_True by done. by destruct (cs_replay c) eqn:?. Qed.
End handler_lemmas.

(** Reading a request line does not depend on how the bytes arrive.
    Over any split of the input into non-empty buffers, [read_limited_line]
    returns what the reference gives on the whole input: the bytes up to and
    including the first line feed, or all of them at the end of the stream, and
    the error exactly when these exceed the limit; nothing longer than the limit
    is ever returned. *)
Theorem read_limited_line_chunks limit buffers :
  (∀ b, b ∈ buffers → b ≠ []) →
  read_limited_line limit [] (Ok <$> buffers) = first_line limit (concat buffers)
  ∧ ∀ line, read_limited_line limit [] (Ok <$> buffers) = Ok line →
      length line ≤ limit ∧ line `prefix_of` concat buffers.
Proof.
  intros Hne. rewrite read_limited_line_app by (done || simpl; lia). simpl.
  unfold first_line. cbv zeta. split; [done|]. intros line. case_match eqn:Hl; [done|].
  apply Nat.ltb_ge in Hl. intros [= <-]. rewrite length_take. split; [lia|].
  eexists. symmetry. apply take_drop.
Qed.

Lemma read_limited_line_chunks_witness :
  read_limited_line 8 [] (Ok <$> [str_chars "{a"; str_chars ("b" +:+ String newline "c")])
  = Ok (str_chars ("{ab" +:+ String newline "")).
Proof.
  rewrite (proj1 (read_limited_line_chunks 8
    [str_chars "{a"; str_chars ("b" +:+ String newline "c")]
    ltac:(intros b Hb; repeat (apply elem_of_cons in Hb as [->|Hb]; [discriminate|]);
          by apply elem_of_nil in Hb))).
  vm_compute. reflexivity.
Defined.

(** C27 (evalreplay): a replay repeats the evaluation. After a completed [Eval]
    request whose entry no other handler touched meanwhile, a [Replay] request
    with the same configuration sends byte for byte what the evaluation sent,
    the final response included; if the evaluation's stream held an error, the
    replay is refused instead. *)
Theorem eval_then_replay to_json encode_response others config key items h h1 h0 budget :
  session_key to_json config = Ok key →
  (∀ d, entry (others d) key = entry d key) →
  handle_eval to_json encode_response others config items h = (h1, Ok tt) →
  h0 = mkHandling (h_state h1) EmptyString (2 + budget) →
  if forallb (λ item, negb (is_err item)) items
  then ∃ h2, handle_replay to_json encode_response config h0 = (h2, Ok tt)
         ∧ h_written h1 = h_written h +:+ h_written h2
  else (handle_replay to_json encode_response config h0).2
       = Err (report "session has no replayable completed evaluation").
Proof.
  intros Hk Hothers Heval ->. unfold handle_eval in Heval.
  destruct (replace_session _ _ _) as [d [session|]] eqn:Hrep; [|done].
  pose proof (replace_session_entry _ _ _ _ _ _ Hk Hrep) as He.
  destruct (eval_loop _ _ _ _) as [h2 [recorded|]] eqn:Hloop; [|done].
  apply eval_loop_ok in Hloop as (Hst & sent & Hsent & ->). simpl in Hst, Hsent.
  rewrite Hst in Heval. rewrite <-(Hothers d) in He. simpl in Heval.
  set (r := match _ with Some _ => _ | None => _ end) in Heval.
  destruct (settle_replay_entry to_json (others d) config key session r _ Hk He) as [Hset Hent].
  rewrite Hset in Heval. apply write_response_ok in Heval as (done_line & Hdone & Hs1 & Hw1).
  simpl in Hs1, Hw1. unfold settle in Hent. rewrite decide_True in Hent by done. simpl in Hent.
  rewrite <-Hs1 in Hent. pose proof (replay_entry _ _ _ _ _ Hk Hent) as Hreplay. simpl in Hreplay.
  unfold handle_replay. simpl. destruct (replay to_json (h_state h1) config) as [d' res].
  simpl in Hreplay. subst res. subst r. destruct (forallb _ items); simpl; [|done].
  unfold write_response. rewrite Hdone. simpl. eexists. split; [done|]. simpl.
  by rewrite Hw1, Hsent, str_app_assoc.
Qed.

Definition show_response (r : Response) : Result string :=
  Ok match r with RespEvent ev => event_attr ev | RespDone => "done" | _ => "other" end.

Lemma eval_then_replay_witness :
  ∃ h2, handle_replay plain_key show_response config_default
          (mkHandling (h_state (handle_eval plain_key show_response id config_default
             [Ok (EvDerivation hello_drv)] (mkHandling daemon_init EmptyString 5)).1)
             EmptyString 2) = (h2, Ok tt).
Proof.
  destruct (handle_eval plain_key show_response id config_default
    [Ok (EvDerivation hello_drv)] (mkHandling daemon_init EmptyString 5)) as [h1 r] eqn:He.
  assert (r = Ok tt) as -> by (vm_compute in He; congruence).
  destruct (eval_then_replay plain_key show_response id config_default _
    [Ok (EvDerivation hello_drv)] _ h1 _ 0 eq_refl (λ d, eq_refl) He eq_refl) as (h2 & H & _).
  exists h2. exact H.
Defined.

(** Recordings do not outlive the graph they describe. After a
    successful [Diff] request, or a [Watch] request that got as far as its
    stream, a [Replay] with the same configuration is refused, as long as no
    other handler touched the entry. *)
Theorem update_invalidates_replay to_json encode_response display others session_at config key
    run diffs h h' :
  session_key to_json config = Ok key →
  (∀ d, entry (others d) key = entry d key) →
  handle_diff to_json encode_response display others session_at config run h = (h', Ok tt)
  ∨ handle_watch to_json encode_response config diffs h = (h', Ok tt) →
  (replay to_json (h_state h') config).2
  = Err (report "session has no replayable completed evaluation").
Proof.
  intros Hk Hothers H. assert (∀ responses h0 h1,
    write_responses encode_response responses h0 = (h1, Ok tt) → h_state h1 = h_state h0) as Hws.
  { induction responses as [|response responses IH]; intros h0 h1; simpl; [by intros [= ->]|].
    destruct (write_response _ _ _) as [h2 [[]|]] eqn:Hw; [|done].
    intros ->%IH. by apply write_response_ok in Hw as (? & _ & ? & _). }
  destruct H as [H|H].
  - unfold handle_diff in H. destruct (warm_session _ _ _) as [d [address|]] eqn:Hwarm; [|done].
    destruct (warm_session_entry _ _ _ _ _ _ Hk Hwarm) as (c & He & Hc).
    destruct (lift_error (require_completed _) ≫= _) as [diff|]; [|done]. simpl in H.
    rewrite <-(Hothers d) in He.
    destruct (settle_replay_entry to_json _ config key address Invalidated c Hk He) as [Hset Hent].
    rewrite Hset in H. rewrite (Hws [response_diff diff; RespDone] _ _ H). simpl.
    by rewrite (replay_entry _ _ _ _ _ Hk Hent), settle_invalidated.
  - unfold handle_watch in H. destruct (replace_session _ _ _) as [d [address|]] eqn:Hrep; [|done].
    pose proof (replace_session_entry _ _ _ _ _ _ Hk Hrep) as He.
    destruct (settle_replay_entry to_json _ config key address Invalidated _ Hk He) as [Hset Hent].
    rewrite Hset in H. rewrite (Hws _ _ _ H). simpl.
    by rewrite (replay_entry _ _ _ _ _ Hk Hent), settle_invalidated.
Qed.

Lemma update_invalidates_replay_witness :
  (replay plain_key
     (h_state (handle_watch plain_key show_response config_default [Ok (mkDiff [] [] [])]
        (mkHandling daemon_init EmptyString 5)).1) config_default).2
  = Err (report "session has no replayable completed evaluation").
Proof.
  destruct (handle_watch plain_key show_response config_default [Ok (mkDiff [] [] [])]
    (mkHandling daemon_init EmptyString 5)) as [h' r] eqn:Hw.
  assert (r = Ok tt) as -> by (vm_compute in Hw; congruence).
  apply (update_invalidates_replay plain_key show_response quiet_display id
    (λ _, session_done) config_default _ session_run [Ok (mkDiff [] [] [])]
    (mkHandling daemon_init EmptyString 5) h' eq_refl (λ d, eq_refl)).
  right. exact Hw.
Defined.

(** C36 (guard): what a connection may do. A peer of another user (or an unknown
    one) is refused without reading or writing anything; the shared state
    changes only for a request that was read within the limit, parsed, and
    speaks this daemon's protocol version; and every failure after the
    authorization is answered with an error response, if the client is there. *)
Theorem connection_guarded to_json encode_response display others session_at parse_request
    peer_uid euid try_clone buffers a h h' r :
  handle_connection to_json encode_response display others session_at parse_request
    peer_uid euid try_clone buffers a h = (h', r) →
  (peer_uid ≠ Ok euid → h' = h ∧ is_err r = true)
  ∧ (h_state h' ≠ h_state h → ∃ line request,
       read_request_line try_clone buffers = Ok line
       ∧ parse_request (str_trim line) = Ok request
       ∧ request_version request = DAEMON_PROTOCOL_VERSION)
  ∧ (peer_uid = Ok euid → is_err r = true → ∃ h0 message,
       h' = (write_response encode_response (RespError message) h0).1).
Proof.
  intros H.
  assert (∀ message err h0, fail_with encode_response message err h0 = (h', r) →
    h_state h' = h_state h0
    ∧ ∃ h1 message, h' = (write_response encode_response (RespError message) h1).1) as Hfail.
  { intros message err h0 [= <- _]. split; [|by eexists _, _].
    unfold write_response, write_all. by repeat case_match. }
  unfold handle_connection, authorize_peer in H.
  destruct peer_uid as [uid|err]; [|simplify_eq/=; split_and!; intros; first [done|congruence|by split]]. simpl in H.
  destruct (uid =? euid)%N eqn:Huid; bool_simpl; [subst uid|simplify_eq/=; split_and!; intros; first [done|congruence|by split]].
  split; [done|]. destruct (read_request_line _ _) as [line|err] eqn:Hline.
  2:{ by apply Hfail in H as [? ?]. }
  destruct (is_blank line); [by simplify_eq|].
  destruct (parse_request (str_trim line)) as [request|err] eqn:Hparse; simpl in H.
  2:{ by apply Hfail in H as [? ?]. }
  unfold validate_protocol in H.
  destruct (request_version request =? DAEMON_PROTOCOL_VERSION)%N eqn:Hversion; bool_simpl.
  2:{ by apply Hfail in H as [? ?]. }
  split; [eauto|]. intros _ Hr.
  destruct (dispatch_request _ _ _ _ _ _ _ _) as [h1 [[]|err]]; simplify_eq/=.
  by apply Hfail in H as [_ ?].
Qed.

Lemma connection_guarded_witness :
  handle_connection plain_key show_response quiet_display id (λ _, session_done)
    (λ _, Ok (request_eval wire_config_default)) (Ok 1000%N) 0 (Ok tt)
    [Ok (str_chars "{}")] (mkActivity [] [] session_run) (mkHandling daemon_init EmptyString 5)
  = (mkHandling daemon_init EmptyString 5,
     Err (report "refusing daemon connection from uid 1000; expected 0")).
Proof.
  destruct (handle_connection plain_key show_response quiet_display id (λ _, session_done)
    (λ _, Ok (request_eval wire_config_default)) (Ok 1000%N) 0 (Ok tt)
    [Ok (str_chars "{}")] (mkActivity [] [] session_run)
    (mkHandling daemon_init EmptyString 5)) as [h' r] eqn:Hc.
  destruct (proj1 (connection_guarded _ _ _ _ _ _ _ _ _ _ _ _ _ _ Hc) ltac:(discriminate))
    as [-> _].
  f_equal. vm_compute in Hc. congruence.
Defined.

(** Membership in a short list of effects. *)
Ltac inv_effects :=
  repeat match goal with
  | H : _ ∈ [] |- _ => by apply elem_of_nil in H
  | H : _ ∈ _ :: _ |- _ => apply elem_of_cons in H as [H|H]; [try discriminate; simplify_eq|]
  | H : _ ∈ _ ++ _ |- _ => apply elem_of_app in H as [H|H]
  end.

Ltac solve_effects :=
  split_and!;
  [ done
  | split; [by intros ? | intros [? ?]; done]
  | split; [intros Hin; inv_effects; done
           | intros (? & ? & ?); first [done | simplify_eq; done | set_solver] ]
  | intros Hin; inv_effects; first [done | by eexists] ].

(** Preparing the socket destroys nothing and leaves nothing. Before
    the bind a file is removed only when it is a socket that refused a
    connection; the daemon reports readiness only after the socket is bound under
    a mask that leaves it to its owner, the mask put back, and its mode set, in
    this order; a failure before the bind never removes the
    socket afterwards, and a failure after it always does. *)
Theorem socket_safety umask socket p ready effects r :
  bind_listener umask socket p ready = (effects, r) →
  ∃ prepared, effects = (prepare_socket_path socket p).1 ++ prepared
  ∧ (∀ path, RemoveFile path ∈ (prepare_socket_path socket p).1 →
       path = socket ∧ p_metadata p = Ok true
       ∧ ∃ err, p_connect p = Err err ∧ io_kind err = ConnectionRefused)
  ∧ (r = Ok tt ↔ prepared = with_umask umask UMASK [BindSocket socket] ++ [SetMode600 socket; ReportReady]
       ∧ is_err ready = false)
  ∧ (RemoveFile socket ∈ prepared ↔ is_err r = true ∧ p_bind p = Ok tt
       ∧ (prepare_socket_path socket p).2 = Ok tt)
  ∧ (ReportReady ∈ prepared →
       with_umask umask UMASK [BindSocket socket] ++ [SetMode600 socket] `prefix_of` prepared).
Proof.
  unfold bind_listener, with_umask. destruct (prepare_socket_path socket p) as [prep prepared] eqn:Hprep.
  intros H. assert (∀ path, RemoveFile path ∈ prep →
    path = socket ∧ p_metadata p = Ok true
    ∧ ∃ err, p_connect p = Err err ∧ io_kind err = ConnectionRefused) as Hremove.
  { intros path Hin. unfold prepare_socket_path in Hprep.
    repeat case_match; simplify_eq/=; inv_effects; eauto. }
  destruct prepared as [[]|err]; simpl in H.
  2:{ simplify_eq. eexists. split; [done|]. solve_effects. }
  destruct (p_bind p) as [[]|err] eqn:Hbind; simpl in H.
  2:{ simplify_eq. eexists. rewrite <-(assoc_L (++)). split; [done|]. solve_effects. }
  destruct (p_chmod p) as [[]|err]; simpl in H.
  2:{ simplify_eq. eexists. rewrite <-(assoc_L (++)). split; [done|]. solve_effects. }
  destruct ready as [[]|err]; simplify_eq; eexists; rewrite <-(assoc_L (++));
    (split; [done|]); solve_effects.
Qed.

Definition stale_probe : SocketProbe :=
  mkSocketProbe (Some "/run") (Ok tt) (Ok true)
    (Err (mkIoError ConnectionRefused (report "refused"))) (Ok tt) (Ok tt) (Ok tt).

Lemma socket_safety_witness :
  ∃ prepared, (bind_listener 18 "/run/s" stale_probe (Ok tt)).1
    = [CreateDirAll "/run"; RemoveFile "/run/s"] ++ prepared.
Proof.
  destruct (bind_listener 18 "/run/s" stale_probe (Ok tt)) as [effects r] eqn:Hb.
  destruct (socket_safety _ _ _ _ _ _ Hb) as (prepared & Heq & _).
  exists prepared. exact Heq.
Defined.
