(* ===== verification/Lifecycle.v ===== *)
(** * The life of the daemon's process

    [crates/evix-daemon/src/lib.rs] and [bin/evixd.rs]: the loop that accepts
    connections until a signal, the report of the start-up to the launcher, and
    [run], from the fork to the removal of the socket and the pid file. *)
From S2P Require Import Prelude Types SessionCache Daemon Signals.

(** ** Serving connections *)

(** What [poll] over the shutdown pipe and the listener returns. *)
Inductive PollResult : Type :=
  | PollReady (shutdown_readable : bool)
  | PollError (err : IoError).

(** One turn of [wait_for_connection_or_shutdown]: whether to shut down, or
    nothing, to poll again. *)
Definition after_poll (requested : bool) (r : PollResult) : option (Result bool) :=
  match r with
  | PollReady shutdown_readable => Some (Ok (requested || shutdown_readable))
  | PollError err =>
      match io_kind err with
      | Interrupted => if requested then Some (Ok true) else None
      | _ => Some (Err (context "polling daemon listener" (io_report err)))
      end
  end.

Inductive ServePhase : Type := AtLoop | Polling | Accepting | Stopped (r : Result unit).

(** The acceptor with its process, the clients that wait to be accepted, the
    connections, and what it wrote to clients itself. *)
Record Serving := mkServing {
  sv_phase : ServePhase;
  sv_process : Process;
  sv_listener : list nat;
  sv_connections : Connections;
  sv_responses : list (nat * Response);
}.
#[export] Instance eta_serving : EtaRecord Serving := λ s,
  mkServing (sv_phase s) (sv_process s) (sv_listener s) (sv_connections s) (sv_responses s).

Definition limit_exceeded : Response := response_error "daemon connection limit exceeded".

(** The head of the loop of [serve_connections]. *)
Definition loop_head (s : Serving) : Serving :=
  s <| sv_phase := if ps_requested (sv_process s) then Stopped (Ok tt) else Polling |>.

Definition poll_turn (r : PollResult) (s : Serving) : Serving :=
  s <| sv_phase :=
    match after_poll (ps_requested (sv_process s)) r with
    | None => Polling
    | Some (Err err) => Stopped (Err err)
    | Some (Ok true) => Stopped (Ok tt)
    | Some (Ok false) => Accepting
    end |>.

(** The answer of [accept]: a client that gets a thread, or is told that there
    are too many; an error is logged, or ignored when interrupted. *)
Definition accept_turn (r : result IoError nat) (s : Serving) : Serving :=
  let s := s <| sv_phase := AtLoop |> in
  match r with
  | Err _ => s
  | Ok client =>
      let c := sv_connections s in
      let s := s <| sv_listener := tail (sv_listener s) |> in
      match acquire (cn_limiter c) with
      | (l, false) =>
          s <| sv_connections := mkConnections l (cn_threads c) (client :: cn_refused c) |>
            <| sv_responses := (client, limit_exceeded) :: sv_responses s |>
      | (l, true) =>
          s <| sv_connections := mkConnections l (client :: cn_threads c) (cn_refused c) |>
      end
  end.

(** [poll] returns without an error when the pipe or the listener has something. *)
Definition polls (s : Serving) (r : PollResult) : Prop :=
  match r with
  | PollReady readable =>
      readable = (0 <? ps_pipe (sv_process s))%N ∧ (readable = true ∨ sv_listener s ≠ [])
  | PollError _ => True
  end.

Definition is_serving (s : Serving) : bool :=
  match sv_phase s with Stopped _ => false | _ => true end.

(** The steps of the acceptor itself ([true]) and of what surrounds it: signals,
    clients that connect, threads that end. *)
Inductive serve_step : bool → Serving → Serving → Prop :=
  | serve_head s :
      sv_phase s = AtLoop → serve_step true s (loop_head s)
  | serve_poll s r :
      sv_phase s = Polling → polls s r → serve_step true s (poll_turn r s)
  | serve_accept s client clients :
      sv_phase s = Accepting → sv_listener s = client :: clients →
      serve_step true s (accept_turn (Ok client) s)
  | serve_accept_failed s err :
      sv_phase s = Accepting → serve_step true s (accept_turn (Err err) s)
  | serve_signal s signal p :
      is_serving s = true → deliver signal (sv_process s) = Some p →
      serve_step false s (s <| sv_process := p |>)
  | serve_client s client :
      serve_step false s (s <| sv_listener := sv_listener s ++ [client] |>)
  | serve_thread_ended s before client after :
      cn_threads (sv_connections s) = before ++ client :: after →
      serve_step false s (s <| sv_connections :=
        mkConnections (release (cn_limiter (sv_connections s))) (before ++ after)
          (cn_refused (sv_connections s)) |>).

(** [serve_connections] starts in a process with the handlers installed. *)
Definition serve_init (p : Process) : Serving :=
  mkServing AtLoop p [] (mkConnections (limiter_new MAX_CONNECTIONS) [] []) [].

Definition serve_reachable (p : Process) : Serving → Prop :=
  rtc (λ s s', ∃ own, serve_step own s s') (serve_init p).

(** The steps the acceptor has left once a shutdown is requested. *)
Definition serve_rank (phase : ServePhase) : nat :=
  match phase with Stopped _ => 0 | AtLoop | Polling => 1 | Accepting => 2 end.

(** ** Start-up and end of the daemon *)

(** The implementations of [StartupReporter]. *)
Inductive Reporter : Type :=
  | NoopStartupReporter
  | PipeStartupReporter (pid_file : string).

(** What the daemon's process does to the outside, in order. *)
Inductive RunEffect : Type :=
  | OnSocket (e : SocketEffect)
  | WritePidFile (path : string)
  | RemovePidFile (path : string)
  | SendLine (line : string).

(** What the system answers. A failed [fs::write] may leave the file it made; the
    readiness pipe fails when the launcher is gone. *)
Record StartWorld := mkStartWorld {
  w_umask : N;
  w_pair : Result unit;
  w_fork : bool;
  w_setsid : bool;
  w_second_fork : bool;
  w_chdir : Result unit;
  w_probe : SocketProbe;
  w_write_pid : Result unit;
  w_pid_left : bool;
  w_send : Result unit;
  w_os : Call → option Report;
  w_runtime : Result unit;
}.

(** The launcher's output and exit status. *)
Record Exit := mkExit { ex_stdout : option string; ex_stderr : option string; ex_code : Z }.

Section startup.
(** The JSON of responses, [Display] and [Debug] of reports, [Debug] of responses. *)
Context (encode_response : Response → Result string).
Context (parse_response : string → Result Response).
Context (display debug : Report → string) (debug_response : Response → string).
Context (w : StartWorld).

(** [write_response] to the readiness pipe *)
Definition send (response : Response) : list RunEffect * Result unit :=
  match response_line encode_response response with
  | Err err => ([], Err err)
  | Ok line => match w_send w with
               | Err err => ([], Err err)
               | Ok _ => ([SendLine line], Ok tt)
               end
  end.

Definition reporter_ready (reporter : Reporter) : list RunEffect * Result unit :=
  match reporter with
  | NoopStartupReporter => ([], Ok tt)
  | PipeStartupReporter pid_file =>
      match with_context ("writing pid file " +:+ pid_file) (w_write_pid w) with
      | Err err => (if w_pid_left w then [WritePidFile pid_file] else [], Err err)
      | Ok _ =>
          match send RespDone with
          | (effects, Err err) =>
              (WritePidFile pid_file :: effects ++ [RemovePidFile pid_file], Err err)
          | (effects, Ok _) => (WritePidFile pid_file :: effects, Ok tt)
          end
      end
  end.

Definition reporter_error (reporter : Reporter) (err : Report) : list RunEffect * Result unit :=
  match reporter with
  | NoopStartupReporter => ([], Ok tt)
  | PipeStartupReporter _ => send (response_error (display err))
  end.

(** What [bind_listener] does, with the reporter it is given. *)
Definition with_reporter (reporter : Reporter) (e : SocketEffect) : list RunEffect :=
  match e with
  | ReportReady => (reporter_ready reporter).1
  | ReportError err => (reporter_error reporter err).1
  | e => [OnSocket e]
  end.

(** [Drop for RuntimeCleanup] *)
Definition runtime_cleanup (socket : string) (pid_file : option string) : list RunEffect :=
  OnSocket (RemoveFile socket)
  :: match pid_file with Some pid_file => [RemovePidFile pid_file] | None => [] end.

(** [run] after the fork, up to [serve_connections]: the process with the
    handlers installed, or the error after the guards are dropped. *)
Definition run_start (socket : string) (pid_file : option string) (p : Process)
  : list RunEffect * Process * Result ShutdownSignals :=
  let reporter := match pid_file with
                  | Some pid_file => PipeStartupReporter pid_file
                  | None => NoopStartupReporter
                  end in
  let '(effects, bound) :=
    bind_listener (w_umask w) socket (w_probe w) (reporter_ready reporter).2 in
  let effects := effects ≫= with_reporter reporter in
  match bound with
  | Err err => (effects, p, Err err)
  | Ok _ =>
      match install (w_os w) p with
      | (p, Err err) => (effects ++ runtime_cleanup socket pid_file, p, Err err)
      | (p, Ok signals) =>
          match with_context "building daemon runtime" (w_runtime w) with
          | Err err =>
              (effects ++ runtime_cleanup socket pid_file, drop_signals (w_os w) signals p, Err err)
          | Ok _ => (effects, p, Ok signals)
          end
      end
  end.

(** The end of [run]: the guards are dropped in the reverse order. *)
Definition run_end (socket : string) (pid_file : option string) (signals : ShutdownSignals)
    (p : Process) : list RunEffect * Process :=
  (runtime_cleanup socket pid_file, drop_signals (w_os w) signals p).

(** The child of [daemonize]; nothing is left of a process that exits. The
    process between the two forks says nothing. *)
Definition daemonize_child (pid_file : string) (p : Process) : list RunEffect * option Process :=
  let exit_after_startup_error err := (reporter_error (PipeStartupReporter pid_file) err).1 in
  if negb (w_setsid w) then (exit_after_startup_error (report "setsid failed"), None)
  else if negb (w_second_fork w)
  then (exit_after_startup_error (report "second fork failed"), None)
  else
    match with_context "changing daemon working directory to /" (w_chdir w) with
    | Err err => (exit_after_startup_error err, None)
    | Ok _ =>
        match redirect_stdio_to_dev_null (w_os w) p with
        | (_, Err err) => (exit_after_startup_error err, None)
        | (p, Ok _) => ([], Some p)
        end
    end.

(** [run] in the background, on the side of the daemon. *)
Definition background (socket pid_file : string) (p : Process)
  : list RunEffect * option (Process * Result ShutdownSignals) :=
  match daemonize_child pid_file (p <| ps_requested := false |>) with
  | (effects, None) => (effects, None)
  | (effects, Some p) =>
      let '(more, p, r) := run_start socket (Some pid_file) p in
      (effects ++ more, Some (p, r))
  end.

(** ** The launcher *)

Definition sent (effects : list RunEffect) : string :=
  foldr (λ e text, match e with SendLine line => line +:+ text | _ => text end)
    EmptyString effects.

(** [read_line] *)
Definition read_line (text : string) : Result string :=
  let bytes := str_chars text in
  let bytes := take (default (length bytes) (line_end bytes)) bytes in
  if utf8_valid_bytes bytes then Ok (str_of_chars bytes)
  else Err (report "stream did not contain valid UTF-8").

(** [wait_for_readiness], given all that is written before the pipe closes. *)
Definition wait_for_readiness (display_path : string → string) (socket text : string) : Exit :=
  match line ← with_context "reading daemon readiness" (read_line text);
        with_context "parsing daemon readiness" (parse_response (str_trim line)) with
  | Ok RespDone => mkExit (Some (display_path socket)) None 0
  | Ok (RespError message) => mkExit None (Some message) 1
  | Ok other =>
      mkExit None (Some ("unexpected daemon readiness response: " +:+ debug_response other)) 1
  | Err err => mkExit None (Some (debug err)) 1
  end.

(** [run] in the background, on the side of the launcher: an error before the
    fork, or the exit of [wait_for_readiness]. *)
Definition launch (display_path : string → string) (socket pid_file : string) (p : Process)
  : Result Exit :=
  _ ← with_context "creating daemon readiness pipe" (w_pair w);
  if w_fork w
  then Ok (wait_for_readiness display_path socket (sent (background socket pid_file p).1))
  else Err (report "fork failed").
End startup.

(** ** The program [evixd] *)

Inductive EvixdRun : Type := RunWorker | RunDaemon (socket : string) (foreground : bool).

(** [main]: a worker when the variable is set, whatever the arguments. *)
Definition evixd_main (worker_env : option string) (socket env : option string)
    (foreground : bool) (euid : N) : EvixdRun :=
  match worker_env with
  | Some _ => RunWorker
  | None => RunDaemon (socket_path socket env euid) foreground
  end.

(** [init_tracing_subscriber]; the difference of two bytes fits 16 bits. *)
Definition evixd_log_level (verbose quiet : N) : string :=
  let level := (Z.of_N verbose - Z.of_N quiet)%Z in
  if (level <=? -3)%Z then "off"
  else if (level =? -2)%Z then "error"
  else if (level =? -1)%Z then "warn"
  else if (level =? 0)%Z then "info"
  else if (level =? 1)%Z then "debug"
  else "trace".

(** ** The files of a run *)

(** The socket and the pid file as far as the run made them, with their modes. *)
Record RunFiles := mkRunFiles { rf_umask : N; rf_files : gmap string N }.
#[export] Instance eta_run_files : EtaRecord RunFiles := λ f,
  mkRunFiles (rf_umask f) (rf_files f).

Definition run_effect (bound changed : bool) (e : RunEffect) (f : RunFiles) : RunFiles :=
  match e with
  | OnSocket (SetUmask mask) => f <| rf_umask := mask |>
  | OnSocket (BindSocket path) =>
      if bound then f <| rf_files := <[path := N.ldiff 511 (rf_umask f)]> (rf_files f) |> else f
  | OnSocket (SetMode600 path) =>
      if changed then f <| rf_files := <[path := 384%N]> (rf_files f) |> else f
  | OnSocket (RemoveFile path) | RemovePidFile path =>
      f <| rf_files := delete path (rf_files f) |>
  | WritePidFile path =>
      f <| rf_files := <[path := N.ldiff 438 (rf_umask f)]> (rf_files f) |>
  | OnSocket (CreateDirAll _) | OnSocket (ReportError _) | OnSocket ReportReady | SendLine _ => f
  end.

Definition run_effects (w : StartWorld) (effects : list RunEffect) (f : RunFiles) : RunFiles :=
  let bound := negb (is_err (p_bind (w_probe w))) in
  let changed := negb (is_err (p_chmod (w_probe w))) in
  foldl (λ f e, run_effect bound changed e f) f effects.

(** ** Lemmas: the acceptor *)

Section serving.
Context (p0 p : Process) (signals : ShutdownSignals).
Context (Hinstalled : installed p0 signals p) (Hempty : ps_pipe p = 0%N).
Context (Hquiet : ps_requested p = false).

Record serving_inv (s : Serving) : Prop := {
  sv_installed : installed p0 signals (sv_process s);
  sv_capacity : (ps_pipe (sv_process s) ≤ PIPE_CAPACITY)%N;
  sv_byte : ps_requested (sv_process s) = (0 <? ps_pipe (sv_process s))%N;
  sv_waiting : sv_phase s = Accepting → sv_listener s ≠ [];
  sv_stopped_ok : sv_phase s = Stopped (Ok tt) → ps_requested (sv_process s) = true;
  sv_stopped_err err : sv_phase s = Stopped (Err err) →
    ∃ e, err = context "polling daemon listener" (io_report e) ∧ io_kind e ≠ Interrupted;
  sv_limited : rtc connection_step (connections_init MAX_CONNECTIONS) (sv_connections s);
  sv_told : sv_responses s
    = (λ client, (client, limit_exceeded)) <$> cn_refused (sv_connections s);
}.

Lemma serving_inv_init : serving_inv (serve_init p).
Proof.
  split; simpl; try done.
  - rewrite Hempty. unfold PIPE_CAPACITY. lia.
  - by rewrite Hquiet, Hempty.
Qed.

Lemma poll_turn_inv s r : serving_inv s → polls s r → serving_inv (poll_turn r s).
Proof.
  intros [] Hp. unfold poll_turn, after_poll. destruct r as [readable|err].
  - destruct Hp as [-> Hp]. rewrite <-sv_byte0 in *. rewrite orb_diag.
    destruct (ps_requested (sv_process s)) eqn:Hr; split; simpl; try done; try by rewrite Hr.
    intros _. by destruct Hp.
  - destruct (io_kind err) eqn:Hk; try (split; simpl; try done;
      intros err' [= <-]; exists err; rewrite Hk; done).
    destruct (ps_requested (sv_process s)) eqn:Hr; split; simpl; try done; by rewrite Hr.
Qed.

Lemma accept_turn_inv s r :
  serving_inv s → serving_inv (accept_turn r s).
Proof.
  intros []. unfold accept_turn. destruct r as [client|err]; [|by split].
  simpl. destruct (acquire (cn_limiter (sv_connections s))) as [l [|]] eqn:Hacq;
    split; simpl; try done.
  1,2: eapply rtc_r; [done|]; destruct (sv_connections s); by constructor.
  by rewrite sv_told0.
Qed.

Lemma serve_step_inv own s s' : serving_inv s → serve_step own s s' → serving_inv s'.
Proof.
  intros H Hstep. destruct Hstep as [s Hp|s r Hp Hr|s client clients Hp Hl|s err Hp
    |s signal q Hrun Hq|s client|s before client after Ht].
  - destruct H. unfold loop_head. destruct (ps_requested (sv_process s)) eqn:Hreq;
      split; simpl; try done; by rewrite Hreq.
  - by apply poll_turn_inv.
  - by apply accept_turn_inv.
  - by apply accept_turn_inv.
  - destruct H. destruct (deliver_installed p0 signals (sv_process s) signal) as
      (q' & Hq' & Hins & Hreq & Hpos & Hcap); [done..|].
    rewrite Hq in Hq'. injection Hq' as <-. split; simpl; try done.
    rewrite Hreq. symmetry. by apply N.ltb_lt.
  - destruct H. split; simpl; try done. intros _. by destruct (sv_listener s).
  - destruct H. split; simpl; try done. eapply rtc_r; [done|].
    destruct (sv_connections s) as [l threads refused]. simpl in *. subst. by constructor.
Qed.

Lemma serve_reachable_inv s : serve_reachable p s → serving_inv s.
Proof.
  intros Hr. revert s Hr. apply rtc_ind_r; [apply serving_inv_init|].
  intros s s' _ [own Hstep] H. by eapply serve_step_inv.
Qed.

Lemma serve_can_step s :
  serving_inv s → is_serving s = true → ps_requested (sv_process s) = true →
  ∃ s', serve_step true s s'.
Proof.
  intros [] Hrun Hreq. unfold is_serving in Hrun. destruct (sv_phase s) eqn:Hp; [| | |done].
  - eexists. by apply serve_head.
  - exists (poll_turn (PollReady true) s). apply serve_poll; [done|]. split; [congruence|by left].
  - destruct (sv_listener s) as [|client clients] eqn:Hl; [by destruct sv_waiting0|].
    eexists. by eapply serve_accept.
Qed.

Lemma serve_step_rank own s s' :
  serving_inv s → ps_requested (sv_process s) = true → serve_step own s s' →
  ps_requested (sv_process s') = true
  ∧ serve_rank (sv_phase s') + (if own then 1 else 0) ≤ serve_rank (sv_phase s).
Proof.
  intros [] Hreq Hstep. destruct Hstep as [s Hp|s r Hp Hr|s client clients Hp Hl|s err Hp
    |s signal q Hrun Hq|s client|s before client after Ht]; simpl.
  - unfold loop_head. simpl. by rewrite Hreq, Hp.
  - unfold poll_turn, after_poll. rewrite Hreq, Hp. simpl.
    destruct r as [readable|err]; simpl; [done|]. by destruct (io_kind err).
  - unfold accept_turn. rewrite Hp. destruct (acquire _) as [l [|]]; simpl; split; done || lia.
  - rewrite Hp. simpl. split; [done|lia].
  - split; [|lia]. destruct (deliver_installed p0 signals (sv_process s) signal) as
      (q' & Hq' & _ & Hreq' & _); [done..|]. congruence.
  - split; [done|lia].
  - split; [done|lia].
Qed.
End serving.

(** ** Lemmas: the files of a run *)

Lemma run_effects_app w l k f : run_effects w (l ++ k) f = run_effects w k (run_effects w l f).
Proof. unfold run_effects. apply foldl_app. Qed.

Lemma sent_app l k : sent (l ++ k) = sent l +:+ sent k.
Proof.
  induction l as [|e l IH]; [done|]. simpl. rewrite IH. destruct e; try done.
  by rewrite str_app_assoc.
Qed.

Definition no_files (w : StartWorld) : RunFiles := mkRunFiles (w_umask w) ∅.

(** What [prepare_socket_path] does: nothing to the files of the run. *)
Definition preparing (socket : string) (e : SocketEffect) : Prop :=
  (∃ path, e = CreateDirAll path) ∨ e = RemoveFile socket.

Lemma prepare_preparing socket probe :
  Forall (preparing socket) (prepare_socket_path socket probe).1.
Proof.
  unfold prepare_socket_path, preparing.
  repeat case_match; simplify_eq/=; repeat (apply Forall_cons_2 || apply Forall_nil_2); eauto.
Qed.

(** Whether the socket, once made, is closed to everyone but its owner. *)
Definition owner_only (socket : string) (f : RunFiles) : Prop :=
  ∀ mode, rf_files f !! socket = Some mode → N.land mode 63 = 0%N.

Definition harmless (socket : string) (e : RunEffect) : Prop :=
  match e with
  | OnSocket (BindSocket _) => False
  | WritePidFile path => path ≠ socket
  | _ => True
  end.

(** Effects that bind the socket at most once, under the mask. *)
Definition masked (socket : string) (effects : list RunEffect) : Prop :=
  Forall (harmless socket) effects
  ∨ ∃ before after,
      effects = before ++ OnSocket (SetUmask UMASK) :: OnSocket (BindSocket socket) :: after
      ∧ Forall (harmless socket) before ∧ Forall (harmless socket) after.

Section files.
Context (w : StartWorld) (socket : string).

Lemma prepare_neutral prep f :
  Forall (preparing socket) prep → rf_files f = ∅ →
  run_effects w (OnSocket <$> prep) f = f ∧ sent (OnSocket <$> prep) = EmptyString
  ∧ Forall (harmless socket) (OnSocket <$> prep).
Proof.
  intros Hall Hf. induction Hall as [|e prep He _ IH]; [by split_and!|].
  destruct IH as (Hrun & Hsent & Hharm). rewrite fmap_cons.
  assert (run_effects w (OnSocket e :: (OnSocket <$> prep)) f
    = run_effects w (OnSocket <$> prep) f) as Hcons.
  { unfold run_effects. simpl. f_equal. destruct He as [[path ->] | ->]; [done|]. simpl.
    rewrite Hf, delete_empty, <-Hf. by destruct f. }
  rewrite Hcons. split_and!; [done|done|]. constructor; [|done].
  by destruct He as [[path ->] | ->].
Qed.

Lemma harmless_owner_only bound changed e f :
  harmless socket e → owner_only socket f → owner_only socket (run_effect bound changed e f).
Proof.
  intros He Hf mode. destruct e as [[| | | | | |]|path|path|line]; simpl in *; try done; try apply Hf.
  - intros [_ Hm]%lookup_delete_Some. by apply Hf.
  - destruct changed; [|apply Hf]. simpl. intros [[_ <-]|[_ Hm]]%lookup_insert_Some; [done|by apply Hf].
  - rewrite lookup_insert_ne by done. apply Hf.
  - intros [_ Hm]%lookup_delete_Some. by apply Hf.
Qed.

Lemma harmless_prefix l before f :
  Forall (harmless socket) l → before `prefix_of` l → owner_only socket f →
  owner_only socket (run_effects w before f).
Proof.
  intros Hl [after ->]. apply Forall_app in Hl as [Hl _]. revert f.
  induction Hl as [|e l He _ IH]; intros f Hf; [done|].
  apply IH. by apply harmless_owner_only.
Qed.

Lemma masked_prefix effects before f :
  masked socket effects → before `prefix_of` effects → owner_only socket f →
  owner_only socket (run_effects w before f).
Proof.
  intros [Hl|(l1 & l2 & -> & H1 & H2)] Hpre Hf; [by eapply harmless_prefix|].
  assert (∀ l, l `prefix_of` l1 → owner_only socket (run_effects w l f)) as Hfirst
    by (intros l Hl; by apply (harmless_prefix l1)).
  destruct (prefix_weak_total before l1 (l1 ++ OnSocket (SetUmask UMASK)
    :: OnSocket (BindSocket socket) :: l2)) as [Hp|[more ->]];
    [done|by eexists|by apply Hfirst|].
  destruct Hpre as [rest Hrest].
  rewrite <-app_assoc in Hrest. apply app_inv_head in Hrest.
  rewrite run_effects_app. pose proof (Hfirst l1 ltac:(reflexivity)) as Hown.
  destruct more as [|e [|e' more]]; simpl in Hrest; simplify_eq; [exact Hown|exact Hown|].
  rewrite (run_effects_app w [OnSocket (SetUmask UMASK); OnSocket (BindSocket socket)] more).
  apply (harmless_prefix (more ++ rest)); [done|by eexists|].
  unfold run_effects at 1. simpl. case_match; [|exact Hown].
  intros mode. simpl. intros [[_ <-]|[_ Hm]]%lookup_insert_Some; [done|by apply Hown].
Qed.
End files.

(** ** Lemmas: the start-up *)

Section start.
Context (encode_response : Response → Result string) (display : Report → string).
Context (w : StartWorld) (socket pid_file : string).
Context (Hdone : is_err (encode_response RespDone) = false).
Context (Herror : ∀ err, is_err (encode_response (response_error (display err))) = false).
Context (Hpaths : socket ≠ pid_file).

Abbreviation send := (send encode_response w).
Abbreviation with_reporter := (with_reporter encode_response display w).
Abbreviation reporter_ready := (reporter_ready encode_response w).
Abbreviation run_start := (run_start encode_response display w).

Lemma response_line_ok response :
  is_err (encode_response response) = false →
  ∃ line, encode_response response = Ok line
    ∧ response_line encode_response response = Ok (as_line line).
Proof. unfold response_line. destruct (encode_response response) as [line|]; [eauto|done]. Qed.

Lemma send_cases response :
  is_err (encode_response response) = false →
  (∃ line, response_line encode_response response = Ok line ∧ send response = ([SendLine line], Ok tt))
  ∨ ∃ err, send response = ([], Err err).
Proof.
  intros (line & _ & Hline)%response_line_ok. unfold Lifecycle.send. rewrite Hline.
  destruct (w_send w); eauto.
Qed.

(** An error report: at most one line, and no file. *)
Definition error_report (effects : list RunEffect) : Prop :=
  effects = []
  ∨ ∃ err line, response_line encode_response (response_error (display err)) = Ok line
      ∧ effects = [SendLine line].

Lemma reporter_error_report err :
  error_report (reporter_error encode_response display w (PipeStartupReporter pid_file) err).1.
Proof.
  unfold reporter_error. destruct (send_cases _ (Herror err)) as [(line & Hl & ->)|[e ->]];
    unfold error_report; simpl; eauto.
Qed.

Lemma error_report_neutral effects f :
  error_report effects → run_effects w effects f = f ∧ Forall (harmless socket) effects.
Proof. intros [->|(err & line & _ & ->)]; by repeat constructor. Qed.

Lemma with_reporter_prepare reporter prep :
  Forall (preparing socket) prep → prep ≫= with_reporter reporter = OnSocket <$> prep.
Proof.
  induction 1 as [|e prep He _ IH]; [done|]. cbn [mbind list_bind]. fold_lists. rewrite IH.
  by destruct He as [[path ->] | ->].
Qed.

(** What a run that fails to start has told the launcher, and what it leaves. *)
Definition start_failed (effects : list RunEffect) : Prop :=
  (sent effects = EmptyString
   ∨ ∃ err, response_line encode_response (response_error (display err)) = Ok (sent effects))
  ∧ rf_files (run_effects w effects (no_files w)) !! socket = None
  ∧ (w_pid_left w = false → rf_files (run_effects w effects (no_files w)) = ∅).

(** What a run that starts has done when it reports, and what it does later. *)
Definition start_reported (effects after : list RunEffect) : Prop :=
  ∃ before line, effects = before ++ SendLine line :: after
    ∧ response_line encode_response RespDone = Ok line ∧ sent before = EmptyString
    ∧ run_effects w before (no_files w)
      = mkRunFiles (w_umask w) (<[pid_file := N.ldiff 438 (w_umask w)]> {[socket := 384%N]}).

Lemma start_failed_intro before errs :
  error_report errs → sent before = EmptyString →
  rf_files (run_effects w before (no_files w)) !! socket = None →
  (w_pid_left w = false → rf_files (run_effects w before (no_files w)) = ∅) →
  start_failed (before ++ errs).
Proof.
  intros Herrs Hsent Hsocket Hfiles. unfold start_failed.
  rewrite run_effects_app, (proj1 (error_report_neutral errs _ Herrs)), sent_app, Hsent.
  split; [|done]. destruct Herrs as [->|(err & line & Hline & ->)]; [by left|].
  right. exists err. simpl. by rewrite str_app_nil.
Qed.

Lemma masked_intro prep after :
  Forall (harmless socket) prep → Forall (harmless socket) after →
  masked socket (prep ++ OnSocket (SetUmask UMASK) :: OnSocket (BindSocket socket) :: after).
Proof. right. by eexists _, _. Qed.

(** The parts of [bind_listener] after the preparation, under the reporter. *)
Section bind.
Context (prep : list RunEffect).
Context (Hfiles : run_effects w prep (no_files w) = no_files w).
Context (Hsent : sent prep = EmptyString) (Hharm : Forall (harmless socket) prep).

Definition bind_outcome (effects : list RunEffect) (ok : bool) : Prop :=
  masked socket effects
  ∧ rf_umask (run_effects w effects (no_files w)) = w_umask w
  ∧ if ok then start_reported effects [] else start_failed effects.

Lemma prepare_failed errs : error_report errs → bind_outcome (prep ++ errs) false.
Proof.
  intros Herrs. pose proof (error_report_neutral errs (no_files w) Herrs) as [Hrun Hh].
  split_and!.
  - left. by apply Forall_app.
  - by rewrite run_effects_app, Hfiles, Hrun.
  - apply start_failed_intro; rewrite ?Hfiles; done.
Qed.

Definition binding : list RunEffect :=
  [OnSocket (SetUmask UMASK); OnSocket (BindSocket socket); OnSocket (SetUmask (w_umask w))].

Lemma bind_failed err errs :
  p_bind (w_probe w) = Err err → error_report errs →
  bind_outcome (prep ++ binding ++ errs) false.
Proof.
  intros Hbind Herrs. pose proof (error_report_neutral errs (no_files w) Herrs) as [Hrun Hh].
  assert (run_effects w (prep ++ binding) (no_files w) = no_files w) as Hrun'.
  { rewrite run_effects_app, Hfiles. unfold run_effects. simpl. by rewrite Hbind. }
  rewrite (assoc_L (++)). split_and!.
  - rewrite <-(assoc_L (++)). by apply masked_intro; [|constructor].
  - by rewrite run_effects_app, Hrun', Hrun.
  - apply start_failed_intro; rewrite ?Hrun'; [done| |done..]. by rewrite sent_app, Hsent.
Qed.

Lemma made_socket :
  p_bind (w_probe w) = Ok tt →
  run_effects w (prep ++ binding) (no_files w) = mkRunFiles (w_umask w) {[socket := 448%N]}.
Proof. intros Hbind. rewrite run_effects_app, Hfiles. unfold run_effects. simpl. by rewrite Hbind. Qed.

Lemma chmod_failed err errs :
  p_bind (w_probe w) = Ok tt → p_chmod (w_probe w) = Err err → error_report errs →
  bind_outcome (prep ++ binding
    ++ [OnSocket (SetMode600 socket); OnSocket (RemoveFile socket)] ++ errs) false.
Proof.
  intros Hbind Hmode Herrs. rewrite !(assoc_L (++)).
  pose proof (error_report_neutral errs (no_files w) Herrs) as [Hrun Hh].
  assert (run_effects w ((prep ++ binding)
    ++ [OnSocket (SetMode600 socket); OnSocket (RemoveFile socket)]) (no_files w) = no_files w) as Hrun'.
  { rewrite run_effects_app, made_socket by done. unfold run_effects. simpl. rewrite Hmode. simpl.
    by rewrite delete_singleton_eq. }
  split_and!.
  - rewrite <-!(assoc_L (++)). apply masked_intro; [done|]. by repeat constructor.
  - by rewrite run_effects_app, Hrun', Hrun.
  - apply start_failed_intro; rewrite ?Hrun'; [done| |done..]. by rewrite !sent_app, Hsent.
Qed.

Lemma ready_failed err :
  p_bind (w_probe w) = Ok tt → p_chmod (w_probe w) = Ok tt →
  (reporter_ready (PipeStartupReporter pid_file)).2 = Err err →
  bind_outcome (prep ++ binding ++ [OnSocket (SetMode600 socket)]
    ++ (reporter_ready (PipeStartupReporter pid_file)).1 ++ [OnSocket (RemoveFile socket)]) false.
Proof.
  intros Hbind Hmode Hready. rewrite (assoc_L (++)).
  assert (sent (reporter_ready (PipeStartupReporter pid_file)).1 = EmptyString
    ∧ Forall (harmless socket) (reporter_ready (PipeStartupReporter pid_file)).1
    ∧ (rf_files (run_effects w ((reporter_ready (PipeStartupReporter pid_file)).1
         ++ [OnSocket (RemoveFile socket)]) (mkRunFiles (w_umask w) {[socket := 384%N]})) !! socket = None)
    ∧ rf_umask (run_effects w ((reporter_ready (PipeStartupReporter pid_file)).1
         ++ [OnSocket (RemoveFile socket)]) (mkRunFiles (w_umask w) {[socket := 384%N]})) = w_umask w
    ∧ (w_pid_left w = false →
       rf_files (run_effects w ((reporter_ready (PipeStartupReporter pid_file)).1
         ++ [OnSocket (RemoveFile socket)]) (mkRunFiles (w_umask w) {[socket := 384%N]})) = ∅))
    as (Hs & Hh & Hnone & Hmask & Hempty).
  { unfold reporter_ready in *. destruct (w_write_pid w) as [[]|e]; cbn [with_context map_err] in *.
    - destruct (send_cases RespDone Hdone) as [(line & _ & Heq)|[e Heq]]; rewrite Heq in *; [done|].
      unfold run_effects. simpl. split_and!; [done|by repeat constructor| | |].
      + by rewrite lookup_delete_eq.
      + done.
      + intros _. rewrite delete_insert_eq, (delete_id {[socket := 384%N]})
          by by apply lookup_singleton_ne. by rewrite delete_singleton_eq.
    - destruct (w_pid_left w); unfold run_effects; simpl; split_and!;
        try done; try by repeat constructor; try by rewrite lookup_delete_eq.
      by rewrite delete_singleton_eq. }
  assert (run_effects w ((prep ++ binding) ++ [OnSocket (SetMode600 socket)]) (no_files w)
    = mkRunFiles (w_umask w) {[socket := 384%N]}) as Hmade.
  { rewrite run_effects_app, made_socket by done. unfold run_effects. simpl. rewrite Hmode. simpl.
    by rewrite insert_singleton_eq. }
  rewrite (assoc_L (++) (prep ++ binding)). split_and!.
  - rewrite <-!(assoc_L (++)). apply masked_intro; [done|].
    repeat (apply Forall_cons_2; [done|]). apply Forall_app. split; [done|by repeat constructor].
  - by rewrite run_effects_app, Hmade.
  - split.
    + left. by rewrite !sent_app, Hsent, Hs.
    + by rewrite run_effects_app, Hmade.
Qed.

Lemma ready_reported :
  p_bind (w_probe w) = Ok tt → p_chmod (w_probe w) = Ok tt →
  (reporter_ready (PipeStartupReporter pid_file)).2 = Ok tt →
  bind_outcome (prep ++ binding ++ [OnSocket (SetMode600 socket)]
    ++ (reporter_ready (PipeStartupReporter pid_file)).1) true.
Proof.
  intros Hbind Hmode Hready. unfold reporter_ready in *.
  destruct (w_write_pid w) as [[]|e]; cbn [with_context map_err] in *; [|done].
  destruct (send_cases RespDone Hdone) as [(line & Hline & Heq)|[e Heq]]; rewrite Heq in *; [|done].
  cbn [fst]. assert (run_effects w (prep ++ binding
      ++ [OnSocket (SetMode600 socket); WritePidFile pid_file]) (no_files w)
    = mkRunFiles (w_umask w) (<[pid_file := N.ldiff 438 (w_umask w)]> {[socket := 384%N]})) as Hmade.
  { rewrite (assoc_L (++)), run_effects_app, made_socket by done. unfold run_effects. simpl.
    rewrite Hmode. simpl. by rewrite insert_singleton_eq. }
  assert (prep ++ binding ++ [OnSocket (SetMode600 socket)] ++ [WritePidFile pid_file; SendLine line]
    = (prep ++ binding ++ [OnSocket (SetMode600 socket); WritePidFile pid_file]) ++ [SendLine line])
    as Hsplit by (by rewrite <-!(assoc_L (++))).
  split_and!.
  - apply masked_intro; [done|]. by repeat constructor.
  - rewrite Hsplit, run_effects_app, Hmade. done.
  - exists (prep ++ binding ++ [OnSocket (SetMode600 socket); WritePidFile pid_file]), line.
    split_and!; [exact Hsplit|done| |done]. by rewrite !sent_app, Hsent.
Qed.
End bind.

(** The effects of [bind_listener] under the reporter. *)
Lemma bind_effects effects r :
  bind_listener (w_umask w) socket (w_probe w) (reporter_ready (PipeStartupReporter pid_file)).2
  = (effects, r) →
  bind_outcome (effects ≫= with_reporter (PipeStartupReporter pid_file)) (negb (is_err r)).
Proof.
  unfold bind_listener. pose proof (prepare_preparing socket (w_probe w)) as Hprep.
  destruct (prepare_socket_path socket (w_probe w)) as [prep prepared]. cbn [fst] in Hprep.
  destruct (prepare_neutral w socket prep (no_files w) Hprep eq_refl) as (Hfiles & Hsent & Hharm).
  pose proof reporter_error_report as Hrep.
  destruct prepared as [[]|err].
  2:{ intros [= <- <-]. rewrite bind_app, with_reporter_prepare by done.
      simpl. fold_lists. rewrite app_nil_r.
      exact (prepare_failed _ Hfiles Hsent Hharm _ (Hrep _)). }
  destruct (p_bind (w_probe w)) as [[]|err] eqn:Hbind; cbn [with_context map_err].
  2:{ intros [= <- <-]. rewrite !bind_app, with_reporter_prepare by done.
      rewrite <-(assoc_L (++)). simpl. fold_lists. rewrite app_nil_r.
      exact (bind_failed _ Hfiles Hsent Hharm _ _ Hbind (Hrep _)). }
  destruct (p_chmod (w_probe w)) as [[]|err] eqn:Hmode; cbn [with_context map_err].
  2:{ intros [= <- <-]. rewrite !bind_app, with_reporter_prepare by done.
      rewrite <-(assoc_L (++)). simpl. fold_lists. rewrite app_nil_r.
      exact (chmod_failed _ Hfiles Hsent Hharm _ _ Hbind Hmode (Hrep _)). }
  destruct (reporter_ready (PipeStartupReporter pid_file)).2 as [[]|err] eqn:Hready;
    intros [= <- <-]; rewrite !bind_app, with_reporter_prepare by done;
    rewrite <-(assoc_L (++)); simpl; fold_lists.
  - rewrite app_nil_r. exact (ready_reported _ Hfiles Hsent Hharm Hbind Hmode Hready).
  - exact (ready_failed _ Hfiles Hsent Hharm _ Hbind Hmode Hready).
Qed.

Lemma cleanup_files f :
  rf_files f = <[pid_file := N.ldiff 438 (w_umask w)]> {[socket := 384%N]} →
  rf_files (run_effects w (runtime_cleanup socket (Some pid_file)) f) = ∅.
Proof.
  intros Hf. unfold run_effects. simpl. rewrite Hf, delete_insert_ne, delete_singleton_eq by done.
  by rewrite delete_insert_id.
Qed.

Lemma cleanup_masked effects :
  masked socket effects → masked socket (effects ++ runtime_cleanup socket (Some pid_file)).
Proof.
  assert (Forall (harmless socket) (runtime_cleanup socket (Some pid_file))) as Hc
    by by repeat constructor.
  intros [H|(l1 & l2 & -> & H1 & H2)]; [left; by apply Forall_app|right].
  exists l1, (l2 ++ runtime_cleanup socket (Some pid_file)).
  rewrite <-(assoc_L (++)). split_and!; [done|done|by apply Forall_app].
Qed.

(** The start-up ends in one of three ways: it fails and says so; it reports and
    serves; it reports, fails and cleans up. *)
Definition start_outcome (effects : list RunEffect)
    (daemon : option (Process * Result ShutdownSignals)) : Prop :=
  masked socket effects
  ∧ rf_umask (run_effects w effects (no_files w)) = w_umask w
  ∧ match daemon with
    | Some (p, Ok s) => start_reported effects []
    | _ => start_failed effects
           ∨ start_reported effects (runtime_cleanup socket (Some pid_file))
    end.

Lemma run_start_outcome p :
  let '(effects, p, r) := run_start socket (Some pid_file) p in start_outcome effects (Some (p, r)).
Proof.
  unfold run_start. destruct (bind_listener _ _ _ _) as [effects bound] eqn:Hb.
  apply bind_effects in Hb as (Hmask & Humask & Hb).
  destruct bound as [[]|err]; [|by split_and!; [| |left]].
  assert (∀ p err, start_outcome ((effects ≫= with_reporter (PipeStartupReporter pid_file))
    ++ runtime_cleanup socket (Some pid_file)) (Some (p, Err err))) as Hcleanup.
  { intros p' err. split_and!; [by apply cleanup_masked|by rewrite run_effects_app|right].
    destruct Hb as (before & line & Heq & Hrest). exists before, line. rewrite Heq.
    by rewrite <-(assoc_L (++)). }
  destruct (install (w_os w) p) as [p1 [s|err]]; [|apply Hcleanup].
  destruct (with_context _ (w_runtime w)); [by split_and!|apply Hcleanup].
Qed.

Lemma error_report_outcome errs : error_report errs → start_outcome errs None.
Proof.
  intros Herrs. pose proof (error_report_neutral errs (no_files w) Herrs) as [Hrun Hh].
  split_and!; [by left|by rewrite Hrun|left]. by apply (start_failed_intro [] errs).
Qed.

Lemma background_outcome p :
  start_outcome (background encode_response display w socket pid_file p).1
    (background encode_response display w socket pid_file p).2.
Proof.
  unfold background, daemonize_child. pose proof reporter_error_report as Hrep.
  destruct (w_setsid w); [|exact (error_report_outcome _ (Hrep _))].
  destruct (w_second_fork w); [|exact (error_report_outcome _ (Hrep _))].
  destruct (with_context _ (w_chdir w)); [|exact (error_report_outcome _ (Hrep _))].
  destruct (redirect_stdio_to_dev_null (w_os w) _) as [p' [[]|err]];
    [|exact (error_report_outcome _ (Hrep _))].
  cbn [negb]. pose proof (run_start_outcome p') as H.
  by destruct (run_start socket (Some pid_file) p') as [[effects p1] r].
Qed.
End start.

(** ** Lemmas: the launcher *)

Lemma read_line_as_line line rest :
  wire_line line → read_line (as_line line +:+ rest) = Ok (as_line line).
Proof.
  intros [Htext Hnl _ _ _]. unfold read_line. rewrite str_chars_app, line_end_as_line by done.
  cbn [default from_option id].
  assert (length (str_chars (as_line line)) = S (length (str_chars line))) as Hlen
    by (unfold as_line; rewrite str_chars_app, length_app; simpl; lia).
  rewrite take_app_le, <-Hlen, firstn_all by lia.
  assert (utf8_valid_bytes (str_chars (as_line line)) = true) as ->.
  { unfold as_line. rewrite str_chars_app, utf8_valid_bytes_app by done. done. }
  by rewrite str_of_chars_chars.
Qed.

Section launcher.
Context (encode_response : Response → Result string).
Context (parse_response : string → Result Response).
Context `{!Wire encode_response parse_response}.
Context (debug : Report → string) (debug_response : Response → string).
Context (display_path : string → string) (socket : string).

Abbreviation wait_for_readiness :=
  (wait_for_readiness parse_response debug debug_response display_path socket).

Lemma launcher_reads response line rest :
  response_line encode_response response = Ok line →
  wait_for_readiness (line +:+ rest)
  = match response with
    | RespDone => mkExit (Some (display_path socket)) None 0
    | RespError message => mkExit None (Some message) 1
    | other => mkExit None (Some ("unexpected daemon readiness response: "
                                  +:+ debug_response other)) 1
    end.
Proof.
  unfold response_line. destruct (encode_response response) as [text|] eqn:He; [|done].
  intros [= <-]. pose proof (wire_lines _ _ He) as Hwire.
  unfold Lifecycle.wait_for_readiness. change (text +:+ String newline "") with (as_line text).
  rewrite read_line_as_line by done. cbn [with_context map_err mbind result_bind].
  unfold as_line. rewrite str_trim_newline, (wl_trim _ Hwire), (wire_reads _ _ He) by apply Hwire.
  done.
Qed.

(** The pipe closes without a line. *)
Lemma launcher_eof :
  is_err (parse_response EmptyString) = true →
  ∃ message, wait_for_readiness EmptyString = mkExit None (Some message) 1.
Proof.
  intros Hempty. unfold Lifecycle.wait_for_readiness.
  change (read_line EmptyString) with (Ok (E := Report) EmptyString).
  cbn [with_context map_err mbind result_bind]. change (str_trim EmptyString) with EmptyString.
  destruct (parse_response EmptyString); [done|]. simpl. eauto.
Qed.

(** The launcher of a start that failed, and of one that reported. *)
Lemma launcher_failed display w effects :
  is_err (parse_response EmptyString) = true →
  start_failed encode_response display w socket effects →
  ∃ message, wait_for_readiness (sent effects) = mkExit None (Some message) 1.
Proof.
  intros Hempty ([Hs|(err & Hline)] & _ & _); [rewrite Hs; by apply launcher_eof|].
  exists (display err). rewrite <-(str_app_nil (sent effects)). by rewrite (launcher_reads _ _ _ Hline).
Qed.

Lemma launcher_reported w pid_file effects after :
  start_reported encode_response w socket pid_file effects after →
  wait_for_readiness (sent effects) = mkExit (Some (display_path socket)) None 0
  ∧ (∃ before line after, effects = before ++ SendLine line :: after
       ∧ rf_files (run_effects w before (no_files w))
         = <[pid_file := N.ldiff 438 (w_umask w)]> {[socket := 384%N]})
  ∧ ∃ f, rf_files f = <[pid_file := N.ldiff 438 (w_umask w)]> {[socket := 384%N]}
      ∧ ∀ more, run_effects w (effects ++ more) (no_files w) = run_effects w (after ++ more) f.
Proof.
  intros (before & line & -> & Hline & Hsent & Hfiles). rewrite sent_app, Hsent. split_and!.
  - change ("" +:+ sent (SendLine line :: after)) with (line +:+ sent after).
    by rewrite (launcher_reads _ _ _ Hline).
  - exists before, line, after. by rewrite Hfiles.
  - eexists. split; [|intros more; rewrite <-(assoc_L (++)), run_effects_app, Hfiles; done]. done.
Qed.
End launcher.

(** ** Properties *)


Definition encode_startup (r : Response) : Result string :=
  match r with
  | RespDone => Ok "done"
  | RespError message => if str_eqb message "failed" then Ok "failed" else Err (report "too big")
  | _ => Err (report "too big")
  end.
Definition parse_startup (line : string) : Result Response :=
  if str_eqb line "done" then Ok RespDone
  else if str_eqb line "failed" then Ok (RespError "failed")
  else Err (report "EOF while parsing a value").

#[export] Instance startup_responses : Wire encode_startup parse_startup.
Proof.
  assert (∀ r line, encode_startup r = Ok line →
    (r = RespDone ∧ line = "done") ∨ (r = RespError "failed" ∧ line = "failed")) as H.
  { intros [ev|d| |m] line; try done; simpl; [intros [= <-]; by left|].
    destruct (str_eqb m "failed") eqn:E; [|done]. apply str_eqb_true in E as ->.
    intros [= <-]. by right. }
  split; intros r line [[-> ->]|[-> ->]]%H; try done.
  all: split; [done| |done|done|done].
  all: intros Hin; repeat (apply elem_of_cons in Hin as [Hc|Hin]; [discriminate Hc|]);
    by apply elem_of_nil in Hin.
Qed.

Definition plain_world : StartWorld :=
  mkStartWorld 18 (Ok tt) true true true (Ok tt) stale_probe (Ok tt) false (Ok tt) no_failure (Ok tt).


(** C29 (serve): a signal ends the daemon, and nothing else does. Once the shutdown
    handlers are installed, whatever clients, threads and signals do: as soon as
    SIGINT or SIGTERM is handled the loop can always go on by itself, without a
    client, and ends after at most two more steps of its own; it ends well only
    then, and otherwise only by an error of [poll]. There are never more
    connection threads than the limit, every client beyond it is told so, and
    when the loop has ended the process gets its descriptors and handlers back. *)
Theorem serving_until_shutdown os q p signals s :
  ps_write_fd q = (-1)%Z → ps_requested q = false →
  (∀ signal, os (CallRestore signal) = None) →
  install os q = (p, Ok signals) → serve_reachable p s →
  let requested s := ps_requested (sv_process s) in
  (requested s = true → is_serving s = true → ∃ s', serve_step true s s')
  ∧ serve_rank (sv_phase s) ≤ 2
  ∧ (∀ own s', requested s = true → serve_step own s s' →
       requested s' = true
       ∧ serve_rank (sv_phase s') + (if own then 1 else 0) ≤ serve_rank (sv_phase s))
  ∧ (sv_phase s = Stopped (Ok tt) → requested s = true)
  ∧ (∀ err, sv_phase s = Stopped (Err err) →
       ∃ e, err = context "polling daemon listener" (io_report e) ∧ io_kind e ≠ Interrupted)
  ∧ lim_active (cn_limiter (sv_connections s)) = N.of_nat (length (cn_threads (sv_connections s)))
  ∧ (N.of_nat (length (cn_threads (sv_connections s))) ≤ MAX_CONNECTIONS)%N
  ∧ sv_responses s = (λ client, (client, limit_exceeded)) <$> cn_refused (sv_connections s)
  ∧ same_signals q (drop_signals os signals (sv_process s)).
Proof.
  intros Hfd Hquiet Hrestore Hinstall Hreach.
  destruct (install_spec os Hrestore q p _ Hfd Hinstall) as [[Hins Hpipe] Hreq].
  rewrite Hquiet in Hreq.
  pose proof (serve_reachable_inv q p signals Hins Hpipe Hreq s Hreach) as Hinv.
  destruct (connection_limit_exact MAX_CONNECTIONS (sv_connections s) eq_refl
    (sv_limited _ _ _ Hinv)) as (Hactive & Hmax & _).
  split_and!; try done.
  - intros Hr Hs. by apply (serve_can_step q signals).
  - destruct (sv_phase s); simpl; lia.
  - intros own s' Hr Hstep. by eapply serve_step_rank.
  - apply (sv_stopped_ok _ _ _ Hinv).
  - apply (sv_stopped_err _ _ _ Hinv).
  - apply (sv_told _ _ _ Hinv).
  - apply drop_installed; [done|]. apply (sv_installed _ _ _ Hinv).
Qed.

Definition served_process : Process := (install no_failure plain_process).1.
Definition signalled_process : Process := handle_shutdown_signal served_process.
Definition signalled_serving : Serving :=
  (loop_head (serve_init served_process)) <| sv_process := signalled_process |>.

Lemma signalled_reachable : serve_reachable served_process (poll_turn (PollReady true) signalled_serving).
Proof.
  eapply rtc_l; [exists true; by apply serve_head|].
  eapply rtc_l; [exists false; apply (serve_signal _ SIGTERM signalled_process); vm_compute; reflexivity|].
  apply rtc_once. exists true. apply serve_poll; [vm_compute; reflexivity|].
  split; [vm_compute; reflexivity|by left].
Qed.

Lemma serving_until_shutdown_witness :
  ∃ signals, install no_failure plain_process = (served_process, Ok signals)
    ∧ sv_phase (poll_turn (PollReady true) signalled_serving) = Stopped (Ok tt)
    ∧ ps_fds (drop_signals no_failure signals signalled_process) = ps_fds plain_process.
Proof.
  destruct (install no_failure plain_process) as [p [signals|err]] eqn:H;
    [|vm_compute in H; discriminate].
  assert (p = served_process) as -> by (unfold served_process; rewrite H; reflexivity).
  exists signals. split; [reflexivity|]. split; [vm_compute; reflexivity|].
  apply (serving_until_shutdown no_failure plain_process served_process signals _
    eq_refl eq_refl (λ _, eq_refl) H signalled_reachable).
Defined.
