(* ===== verification/Args.v ===== *)
(** * The arguments of the command line

    [crates/evix-cli/src/args.rs]: the grouping of flags that take several
    values, the values read back from a group, and the plan of a command with
    its configuration. The flags themselves are declared for the argument parser
    of another package, which is an argument here. *)
From S2P Require Import Prelude Types Paths Graph Config.

Definition PACK_SEP : ascii := "031"%char.
Definition equals_sign : ascii := "="%char.
Definition comma : ascii := ","%char.

(** ** Grouping the values of a flag *)

Definition packed_arity (flag : string) : option nat :=
  if existsb (str_eqb flag) ["--arg"; "--argstr"; "--override-input"; "--option"] then Some 2
  else if str_eqb flag "--remote" then Some 3
  else None.

(** The loop of [collect_packed_values], [missing] values before its end. *)
Fixpoint collect_loop (missing : nat) (args : list string) (index : nat) (flag : string)
    (arity : nat) (values : list string) : Result (list string * nat) :=
  match missing with
  | 0 => Ok (values, S index)
  | S missing =>
      let index := S index in
      match args !! index with
      | None => Err (report (flag +:+ " requires " +:+ show_N (N.of_nat arity) +:+ " values"))
      | Some value => collect_loop missing args index flag arity (values ++ [value])
      end
  end.

(** The values of the flag at [index], and the index after them. *)
Definition collect_packed_values (args : list string) (index : nat) (flag : string)
    (arity : nat) (first : option string) : Result (list string * nat) :=
  let values := option_list first in
  collect_loop (arity - length values) args index flag arity values.

Definition pack (values : list string) : Result string :=
  if existsb (str_contains PACK_SEP) values
  then Err (report "argument values cannot contain ASCII unit separator")
  else Ok (str_join (String PACK_SEP EmptyString) values).

(** The flag at [index] with its packed values. *)
Definition packed_argument (args : list string) (index : nat) (flag : string) (arity : nat)
    (first : option string) : Result (string * nat) :=
  '(values, index) ← collect_packed_values args index flag arity first;
  packed ← pack values;
  Ok (flag +:+ "=" +:+ packed, index).

(** One turn of the loop of [normalize_args]. *)
Definition normalize_turn (args : list string) (index : nat) (arg : string)
  : Result (string * nat) :=
  let inline :=
    '(flag, first) ← split_once equals_sign arg;
    arity ← packed_arity flag;
    Some (flag, first, arity) in
  match inline with
  | Some (flag, first, arity) => packed_argument args index flag arity (Some first)
  | None =>
      match packed_arity arg with
      | Some arity => packed_argument args index arg arity None
      | None => Ok (arg, S index)
      end
  end.

Fixpoint normalize_loop (fuel : nat) (args : list string) (index : nat)
    (normalized : list string) : Result (list string) :=
  match fuel with
  | 0 => Ok normalized
  | S fuel =>
      match args !! index with
      | None => Ok normalized
      | Some arg =>
          '(argument, index) ← normalize_turn args index arg;
          normalize_loop fuel args index (normalized ++ [argument])
      end
  end.

(** [normalize_args]; every turn moves the index forward. *)
Definition normalize_args (args : list string) : Result (list string) :=
  normalize_loop (length args) args 0 [].

(** ** The values of a group *)

Record ValueError := mkValueError { ve_value : string; ve_message : string }.

Record Pair := mkPair { pair_name : string; pair_value : string }.

(** [Pair::from_arg] *)
Definition pair_from_arg (s : string) : result ValueError Pair :=
  match split_once PACK_SEP s with
  | None => Err (mkValueError s "expected packed NAME VALUE")
  | Some (name, value) => Ok (mkPair name value)
  end.

Record RemoteArg := mkRemoteArg {
  ra_endpoint : string;
  ra_systems : list string;
  ra_workers : N;
}.

(** [str::splitn]: at most [n] parts, the last one unsplit. *)
Fixpoint str_splitn (n : nat) (c : ascii) (s : string) : list string :=
  match n with
  | 0 => []
  | S n =>
      match n, split_once c s with
      | S _, Some (part, rest) => part :: str_splitn n c rest
      | _, _ => [s]
      end
  end.

(** [Display] of the error of [usize::from_str]: the first bad character or the
    first digit that overflows decides. *)
Fixpoint parse_digits_error (acc : N) (l : list ascii) : string :=
  match l with
  | [] => "cannot parse integer from empty string"
  | c :: l =>
      match digit_value c with
      | None => "invalid digit found in string"
      | Some d =>
          if (acc * 10 + d <=? usize_max)%N then parse_digits_error (acc * 10 + d) l
          else "number too large to fit in target type"
      end
  end.
Definition parse_usize_error (s : string) : string :=
  match str_chars s with
  | [] => "cannot parse integer from empty string"
  | c :: l =>
      if bool_decide (c = "+"%char)
      then match l with [] => "invalid digit found in string" | _ => parse_digits_error 0 l end
      else parse_digits_error 0 (c :: l)
  end.

(** [RemoteArg::from_arg] *)
Definition remote_from_arg (s : string) : result ValueError RemoteArg :=
  let values := str_splitn 3 PACK_SEP s in
  match values !! 0, values !! 1, values !! 2 with
  | None, _, _ => Err (mkValueError s "expected endpoint")
  | Some _, None, _ => Err (mkValueError s "expected systems")
  | Some _, Some _, None => Err (mkValueError s "expected worker count")
  | Some endpoint, Some systems, Some workers =>
      workers ← ok_or (mkValueError s (parse_usize_error workers)) (parse_usize workers);
      if (workers =? 0)%N then Err (mkValueError s "worker count must be greater than zero")
      else Ok (mkRemoteArg endpoint
                 (filter (λ system, str_is_empty system = false) (str_split comma systems))
                 workers)
  end.

(** ** Commands and plans *)

(** The flags shared by the commands that evaluate. *)
Record EvalInput := mkEvalInput {
  ei_flake : option string;
  ei_expr : option string;
  ei_file : option string;
  ei_arg : list Pair;
  ei_argstr : list Pair;
  ei_override_input : list Pair;
  ei_option : list Pair;
  ei_remote : list RemoteArg;
  ei_remote_token : option string;
  ei_insecure_tokenless_remote : bool;
  ei_meta : bool;
  ei_show_input_drvs : bool;
  ei_workers : N;
  ei_max_memory : N;
  ei_item_timeout_seconds : N;
  ei_force_recurse : bool;
  ei_gc_roots_dir : option string;
}.

Inductive Commands : Type :=
  | CmdEval (args : EvalInput) (socket : option string) (no_daemon replay : bool)
  | CmdWatch (args : EvalInput) (socket : option string) (no_daemon : bool)
  | CmdQuery (args : EvalInput) (socket : option string) (system attr_prefix : list string)
      (no_daemon : bool)
  | CmdDiff (args : EvalInput) (socket : option string)
  | CmdDaemon (socket : option string) (foreground : bool)
  | CmdWorker (listen : string) (token : option string) (insecure_tokenless_remote : bool).

Record Verbosity := mkVerbosity { verbose : N; quiet : N }.
Record Cli := mkCli { cli_verbosity : Verbosity; command : Commands }.

Inductive CommandPlan : Type :=
  | PlanEval (config : Config) (socket : option string) (use_daemon replay : bool)
  | PlanWatch (config : Config) (socket : option string) (use_daemon : bool)
  | PlanQuery (config : Config) (filter : Filter) (socket : option string)
  | PlanDiff (config : Config) (socket : option string)
  | PlanDaemon (socket : option string) (foreground : bool)
  | PlanWorker (listen : string) (token : option string).

Definition auto_args (expr_args str_args : list Pair) : list (string * AutoArg) :=
  ((λ p, (pair_name p, ArgExpr (pair_value p))) <$> expr_args)
  ++ ((λ p, (pair_name p, ArgStr (pair_value p))) <$> str_args).

Definition pairs (values : list Pair) : list (string * string) :=
  (λ p, (pair_name p, pair_value p)) <$> values.

Definition split_attr_prefix (prefix : string) : list string :=
  filter (λ part, str_is_empty part = false) (str_split "."%char prefix).

(** [filter] *)
Definition query_filter (systems prefixes : list string) : Filter :=
  let attr_prefixes := split_attr_prefix <$> prefixes in
  let '(attr_prefix, attr_prefixes) :=
    match attr_prefixes with
    | [] => (None, None)
    | [prefix] => (Some prefix, None)
    | _ => (None, Some attr_prefixes)
    end in
  mkFilter (match systems with [] => None | _ => Some systems end)
    attr_prefix attr_prefixes None None None None None.

Section plans.
(** [EVIX_REMOTE_TOKEN], when it is set to text. *)
Context (token_env : option string).

Definition remote_token (flag : option string) : Result (option string) :=
  let token := match flag with Some token => Some token | None => token_env end in
  match token with
  | Some EmptyString => Err (report "remote token must not be empty")
  | token => Ok token
  end.

Definition remote_worker_token (flag : option string) (allow_tokenless : bool)
  : Result (option string) :=
  token ← remote_token flag;
  match token with
  | Some token => Ok (Some token)
  | None =>
      if allow_tokenless then Ok None
      else Err (report "remote worker requires --token or EVIX_REMOTE_TOKEN")
  end.

Definition config (args : EvalInput) : Result Config :=
  input ← match ei_flake args, ei_expr args, ei_file args with
          | Some flake, None, None => Ok (Flake flake)
          | None, Some expr, None => Ok (Expr expr)
          | None, None, Some file => Ok (File file)
          | _, _, _ => Err (report "exactly one of --flake, --expr, or --file is required")
          end;
  token ← remote_token (ei_remote_token args);
  if negb (match ei_remote args with [] => true | _ => false end)
     && bool_decide (token = None) && negb (ei_insecure_tokenless_remote args)
  then Err (report "remote evaluation requires --remote-token or EVIX_REMOTE_TOKEN")
  else if (ei_item_timeout_seconds args =? 0)%N
  then Err (report "item timeout must be greater than zero")
  else Ok (mkConfig input (auto_args (ei_arg args) (ei_argstr args)) (ei_force_recurse args)
             (ei_gc_roots_dir args) (ei_workers args) (ei_max_memory args)
             (ei_item_timeout_seconds args) (ei_meta args) (ei_show_input_drvs args)
             (pairs (ei_override_input args)) (pairs (ei_option args))
             ((λ remote, mkRemote (ra_endpoint remote) (ra_systems remote)
                           (ra_workers remote) token) <$> ei_remote args)
             None).

Definition command_plan (command : Commands) : Result CommandPlan :=
  match command with
  | CmdEval args socket no_daemon replay =>
      if replay && no_daemon then Err (report "--replay requires the daemon")
      else
        config ← config args;
        Ok (PlanEval config socket (negb no_daemon) replay)
  | CmdWatch args socket no_daemon =>
      config ← config args;
      match c_input config with
      | Expr _ => Err (report "watch requires --flake or --file input")
      | _ => Ok (PlanWatch config socket (negb no_daemon))
      end
  | CmdQuery args socket system attr_prefix _ =>
      config ← config args;
      Ok (PlanQuery config (query_filter system attr_prefix) socket)
  | CmdDiff args socket =>
      config ← config args;
      Ok (PlanDiff config socket)
  | CmdDaemon socket foreground => Ok (PlanDaemon socket foreground)
  | CmdWorker listen token insecure_tokenless_remote =>
      token ← remote_worker_token token insecure_tokenless_remote;
      Ok (PlanWorker listen token)
  end.

(** [parse_plan_from]: the parser may also end the process, after printing its
    help or version. *)
Inductive ParseFailure : Type := ParseExit | ParseError (message : Report).
Inductive Parsed : Type := Exits | Returns (plan : Result (Verbosity * CommandPlan)).

Definition parse_plan_from (try_parse_from : list string → result ParseFailure Cli)
    (args : list string) : Parsed :=
  match normalize_args args with
  | Err err => Returns (Err err)
  | Ok normalized =>
      match try_parse_from normalized with
      | Err ParseExit => Exits
      | Err (ParseError err) => Returns (Err err)
      | Ok cli =>
          Returns (plan ← command_plan (command cli); Ok (cli_verbosity cli, plan))
      end
  end.
End plans.

(** ** Specification of the grouping *)

(** What a user writes: an argument of its own, or a flag of several values, the
    first of them after [=] or not. *)
Inductive ArgToken : Type :=
  | Plain (arg : string)
  | Packed (flag : string) (inline : bool) (values : list string).

Definition token_wf (t : ArgToken) : Prop :=
  match t with
  | Plain arg =>
      packed_arity arg = None
      ∧ ∀ flag first, split_once equals_sign arg = Some (flag, first) → packed_arity flag = None
  | Packed flag _ values =>
      packed_arity flag = Some (length values)
      ∧ ∀ value, value ∈ values → str_contains PACK_SEP value = false
  end.

Definition token_args (t : ArgToken) : list string :=
  match t with
  | Plain arg => [arg]
  | Packed flag true (value :: values) => (flag +:+ "=" +:+ value) :: values
  | Packed flag _ values => flag :: values
  end.

Definition token_packed (t : ArgToken) : string :=
  match t with
  | Plain arg => arg
  | Packed flag _ values => flag +:+ "=" +:+ str_join (String PACK_SEP EmptyString) values
  end.

(** ** Lemmas: grouping *)

Lemma pack_ok values s :
  pack values = Ok s ↔
  (∀ value, value ∈ values → str_contains PACK_SEP value = false)
  ∧ s = str_join (String PACK_SEP EmptyString) values.
Proof.
  unfold pack. destruct (existsb _ values) eqn:E.
  - apply existsb_elem_of in E as (v & Hv & Hc). split; [done|].
    intros [H _]. rewrite H in Hc; done.
  - split.
    + intros [= <-]. split; [|done]. intros v Hv.
      destruct (str_contains PACK_SEP v) eqn:Hc; [|done].
      apply not_true_iff_false in E. destruct E. apply existsb_elem_of. eauto.
    + by intros [_ ->].
Qed.

Lemma packed_arity_cases flag n :
  packed_arity flag = Some n → (n = 2 ∨ n = 3) ∧ str_contains equals_sign flag = false.
Proof.
  unfold packed_arity. destruct (existsb _ _) eqn:E.
  - intros [= <-]. split; [by left|]. apply existsb_elem_of in E as (s & Hs & ->%str_eqb_true).
    repeat (apply elem_of_cons in Hs as [->|Hs]; [done|]). by apply elem_of_nil in Hs.
  - destruct (str_eqb flag "--remote") eqn:E2; [|done].
    apply str_eqb_true in E2 as ->. intros [= <-]. split; [by right|done].
Qed.

(** The values collected are the arguments after [index]. *)
Lemma collect_loop_ok n args index flag arity values values' index' :
  index < length args →
  collect_loop n args index flag arity values = Ok (values', index')
  ↔ values' = values ++ take n (drop (S index) args) ∧ index' = S index + n
    ∧ index' ≤ length args.
Proof.
  revert index values. induction n as [|n IH]; intros index values Hi; simpl.
  { rewrite take_0, app_nil_r. split; [intros [= <- <-]; split_and!; [done|lia..]|].
    intros (-> & -> & _). do 2 f_equal. lia. }
  destruct (args !! S index) as [v|] eqn:E.
  - pose proof (lookup_lt_Some _ _ _ E). rewrite IH by lia.
    rewrite (drop_S _ _ _ E). simpl. rewrite <-app_assoc. simpl.
    by replace (S (S (index + n))) with (S (index + S n)) by lia.
  - apply lookup_ge_None in E. split; [done|]. intros (_ & -> & ?). lia.
Qed.

Lemma packed_argument_ok args index flag arity first s index' :
  index < length args → length (option_list first) ≤ arity →
  packed_argument args index flag arity first = Ok (s, index')
  ↔ ∃ values, length values = arity
    ∧ (∀ value, value ∈ values → str_contains PACK_SEP value = false)
    ∧ option_list first ++ drop (S index) args = values ++ drop index' args
    ∧ index' = S index + (arity - length (option_list first)) ∧ index' ≤ length args
    ∧ s = flag +:+ "=" +:+ str_join (String PACK_SEP EmptyString) values.
Proof.
  intros Hi Ha. unfold packed_argument, collect_packed_values. cbv zeta.
  set (n := arity - length (option_list first)). rewrite bind_ok. split.
  - intros ([values i] & Hc & Hp). apply collect_loop_ok in Hc as (Hv & Hi' & Hlen); [|done].
    apply bind_ok in Hp as (packed & Hpack & [= <- <-]). apply pack_ok in Hpack as [Hsep ->].
    exists values. split_and!; try done.
    + rewrite Hv, length_app, length_take, length_drop. lia.
    + rewrite Hv, <-app_assoc. f_equal. rewrite <-(take_drop n (drop (S index) args)) at 1.
      by rewrite drop_drop, Hi'.
  - intros (values & Hlen & Hsep & Hargs & -> & Hle & ->). exists (values, S index + n).
    split.
    + apply collect_loop_ok; [done|]. split_and!; [|done..].
      apply (f_equal (take arity)) in Hargs. rewrite (take_app_length' values) in Hargs by lia.
      rewrite <-Hargs, take_app_ge by done. done.
    + rewrite bind_ok. eexists. split; [by apply pack_ok|done].
Qed.

(** One turn of the loop reads one token, and only that one. *)
Lemma normalize_turn_sound args index arg s index' :
  args !! index = Some arg → normalize_turn args index arg = Ok (s, index') →
  ∃ t, token_wf t ∧ drop index args = token_args t ++ drop index' args ∧ s = token_packed t
    ∧ index < index'.
Proof.
  intros Harg. pose proof (lookup_lt_Some _ _ _ Harg) as Hi. unfold normalize_turn. cbv zeta.
  rewrite (drop_S _ _ _ Harg).
  destruct (split_once equals_sign arg) as [[flag first]|] eqn:Hsplit; simpl;
    [destruct (packed_arity flag) as [arity|] eqn:Hflag; simpl|].
  - pose proof (packed_arity_cases _ _ Hflag) as [Harity _].
    intros (values & Hlen & Hsep & Hargs & -> & _ & ->)%packed_argument_ok; [|done|simpl; lia].
    apply split_once_some in Hsplit as [-> _]. exists (Packed flag true values).
    split; [by rewrite <-Hlen in Hflag|]. destruct values as [|v values]; [simpl in Hlen; lia|].
    simpl in *. injection Hargs as <- Hargs. split_and!; [by rewrite Hargs|done|lia].
  - destruct (packed_arity arg) as [arity|] eqn:Harity.
    + exfalso. apply packed_arity_cases in Harity as [_ Hno].
      apply split_once_some in Hsplit as [-> _]. rewrite str_contains_app in Hno.
      simpl in Hno. by rewrite orb_true_r in Hno.
    + intros [= <- <-]. exists (Plain arg). split_and!; try done; [|lia].
      split; [done|]. intros flag' first'. rewrite Hsplit. by intros [= <- <-].
  - destruct (packed_arity arg) as [arity|] eqn:Harity.
    + pose proof (packed_arity_cases _ _ Harity) as [Ha _].
      intros (values & Hlen & Hsep & Hargs & -> & _ & ->)%packed_argument_ok; [|done|simpl; lia].
      exists (Packed arg false values). simpl in *.
      split_and!; [by rewrite <-Hlen in Harity|done|by rewrite Hargs|done|lia].
    + intros [= <- <-]. exists (Plain arg). split_and!; try done; [|lia].
      split; [done|]. by rewrite Hsplit.
Qed.

Lemma normalize_turn_complete args index t rest :
  token_wf t → drop index args = token_args t ++ rest →
  ∃ arg index', args !! index = Some arg ∧ normalize_turn args index arg = Ok (token_packed t, index')
    ∧ rest = drop index' args ∧ index < index'.
Proof.
  intros Hwf Hdrop.
  assert (∃ arg tail, token_args t = arg :: tail) as (arg & tail & Hhd).
  { destruct t as [|? [] []]; simpl; eauto. }
  assert (args !! index = Some arg) as Harg.
  { rewrite <-(Nat.add_0_r index), <-lookup_drop, Hdrop, Hhd. done. }
  pose proof (lookup_lt_Some _ _ _ Harg) as Hi. exists arg.
  assert (length args = index + length (token_args t) + length rest) as Hlen.
  { apply (f_equal length) in Hdrop. rewrite length_drop, length_app in Hdrop. lia. }
  assert (rest = drop (index + length (token_args t)) args) as Hrest.
  { rewrite <-drop_drop, Hdrop. by rewrite drop_app_length. }
  rewrite (drop_S _ _ _ Harg), Hhd in Hdrop. injection Hdrop as Hdrop.
  exists (index + length (token_args t)). split; [done|]. split; [|split; [done|rewrite Hhd; simpl; lia]].
  unfold normalize_turn. cbv zeta.
  destruct t as [a|flag inline values]; simpl in Hwf.
  - injection Hhd as <- <-. destruct Hwf as [Hno Hno']. simpl. rewrite Hno.
    destruct (split_once equals_sign a) as [[f x]|]; simpl; [rewrite (Hno' f x) by done; simpl|];
      do 2 f_equal; lia.
  - destruct Hwf as [Hflag Hsep]. pose proof (packed_arity_cases _ _ Hflag) as [Harity Heq].
    destruct inline; [destruct values as [|v values]; [simpl in Harity; lia|]|]; simpl in Hhd.
    + injection Hhd as <- <-.
      rewrite (proj2 (split_once_some _ _ flag v)) by done. simpl. rewrite Hflag. simpl.
      apply packed_argument_ok; [done|simpl; lia|]. exists (v :: values).
      split_and!; try done; simpl in *; [|lia..]. by rewrite Hdrop, Hrest.
    + injection Hhd as <- <-.
      destruct (split_once equals_sign flag) as [[f x]|] eqn:Hs; simpl.
      { apply split_once_some in Hs as [-> _]. rewrite str_contains_app in Heq.
        simpl in Heq. by rewrite orb_true_r in Heq. }
      rewrite Hflag. apply packed_argument_ok; [done|simpl; lia|]. exists values.
      assert (token_args (Packed flag false values) = flag :: values) as Ht by done.
      rewrite Ht in *. split_and!; try done; simpl in *; [|lia..]. by rewrite Hdrop, Hrest.
Qed.

Lemma normalize_loop_ok fuel args index normalized out :
  length args ≤ fuel + index →
  normalize_loop fuel args index normalized = Ok out
  ↔ ∃ tokens, Forall token_wf tokens ∧ drop index args = concat (token_args <$> tokens)
      ∧ out = normalized ++ (token_packed <$> tokens).
Proof.
  revert index normalized. induction fuel as [|fuel IH]; intros index normalized Hfuel; simpl.
  all: assert ((args !! index = None) → (Ok (E:=Report) normalized = Ok out ↔
      ∃ tokens, Forall token_wf tokens ∧ drop index args = concat (token_args <$> tokens)
      ∧ out = normalized ++ (token_packed <$> tokens))) as Hend.
  1,3: intros Hge%lookup_ge_None; rewrite drop_ge by done; split;
    [ intros [= <-]; exists []; simpl; rewrite app_nil_r; done
    | intros (tokens & _ & Hnil & ->); destruct tokens as [|t tokens];
      [by rewrite app_nil_r|exfalso; by destruct t as [|? [] []]] ].
  { apply Hend, lookup_ge_None. lia. }
  destruct (args !! index) as [arg|] eqn:Harg; [clear Hend|by apply Hend].
  rewrite bind_ok. split.
  - intros ([s i] & Hturn & Hloop).
    destruct (normalize_turn_sound _ _ _ _ _ Harg Hturn) as (t & Hwf & Hdrop & -> & Hlt).
    apply IH in Hloop as (tokens & Hall & Htail & ->); [|lia].
    exists (t :: tokens). split_and!; [by constructor|by rewrite Hdrop, Htail|].
    by rewrite <-app_assoc.
  - intros (tokens & Hall & Hdrop & ->). destruct tokens as [|t tokens].
    { rewrite (drop_S _ _ _ Harg) in Hdrop. done. }
    apply Forall_cons in Hall as [Hwf Hall].
    destruct (normalize_turn_complete args index t _ Hwf Hdrop) as (a & i & Ha & Hturn & Hrest & Hlt).
    assert (a = arg) as -> by congruence. eexists. split; [exact Hturn|]. simpl.
    apply IH; [lia|]. exists tokens. split_and!; [done|done|]. by rewrite <-app_assoc.
Qed.

(** ** Lemmas: the values of a group *)

Definition no_sep (s : string) : Prop := str_contains PACK_SEP s = false.

Lemma str_splitn_step n c s t :
  str_contains c s = false → str_splitn (S (S n)) c (s +:+ String c t) = s :: str_splitn (S n) c t.
Proof. intros Hs. simpl. by rewrite (proj2 (split_once_some c _ s t) (conj eq_refl Hs)). Qed.

Lemma split_list_join systems :
  (∀ s, s ∈ systems → s ≠ EmptyString ∧ str_contains comma s = false) →
  filter (λ s, str_is_empty s = false) (str_split comma (str_join "," systems)) = systems.
Proof.
  intros Hs. destruct systems as [|s systems]; [done|].
  change "," with (String comma EmptyString). rewrite str_split_join.
  - apply filter_all. intros x [Hx _]%Hs. by destruct x.
  - apply Forall_forall. intros x [_ Hx]%Hs. done.
Qed.

Lemma pair_read name value :
  no_sep name →
  pair_from_arg (str_join (String PACK_SEP EmptyString) [name; value]) = Ok (mkPair name value).
Proof.
  intros Hn. unfold pair_from_arg.
  change (str_join _ _) with (name +:+ String PACK_SEP value).
  by rewrite (proj2 (split_once_some PACK_SEP _ name value) (conj eq_refl Hn)).
Qed.

Lemma remote_read endpoint systems workers :
  no_sep endpoint → (∀ s, s ∈ systems → s ≠ EmptyString ∧ str_contains comma s = false) →
  no_sep (str_join "," systems) → (0 < workers ≤ usize_max)%N →
  remote_from_arg (str_join (String PACK_SEP EmptyString)
    [endpoint; str_join "," systems; show_N workers]) = Ok (mkRemoteArg endpoint systems workers).
Proof.
  intros He Hs Hj [Hpos Hmax]. unfold remote_from_arg. cbv zeta.
  change (str_join _ _) with
    (endpoint +:+ String PACK_SEP (str_join "," systems +:+ String PACK_SEP (show_N workers))).
  rewrite !str_splitn_step by done. simpl.
  rewrite parse_usize_show by done. simpl.
  rewrite (proj2 (N.eqb_neq workers 0)) by lia. by rewrite split_list_join.
Qed.

(** C38 (normalize): grouping reads exactly the command lines of the grammar of
    [ArgToken]. [normalize_args] succeeds on a list of arguments if and only if
    it is a sequence of plain arguments and of flags with all their values, none
    of them holding the separator, and it then gives one argument per token; the
    values of a flag are found again behind its name, and [Pair::from_arg] and
    [RemoteArg::from_arg] read back what was grouped. *)
Theorem normalize_args_spec :
  (∀ args out, normalize_args args = Ok out ↔
     ∃ tokens, Forall token_wf tokens ∧ args = concat (token_args <$> tokens)
       ∧ out = token_packed <$> tokens)
  ∧ (∀ flag inline values, token_wf (Packed flag inline values) →
       split_once equals_sign (token_packed (Packed flag inline values))
       = Some (flag, str_join (String PACK_SEP EmptyString) values))
  ∧ (∀ name value, no_sep name →
       pair_from_arg (str_join (String PACK_SEP EmptyString) [name; value])
       = Ok (mkPair name value))
  ∧ (∀ endpoint systems workers,
       no_sep endpoint → no_sep (str_join "," systems) →
       (∀ s, s ∈ systems → s ≠ EmptyString ∧ str_contains comma s = false) →
       (0 < workers ≤ usize_max)%N →
       remote_from_arg (str_join (String PACK_SEP EmptyString)
         [endpoint; str_join "," systems; show_N workers])
       = Ok (mkRemoteArg endpoint systems workers)).
Proof.
  split_and!.
  - intros args out. unfold normalize_args. rewrite normalize_loop_ok by lia. by rewrite drop_0.
  - intros flag inline values [Hflag _]. apply split_once_some. split; [done|].
    by apply packed_arity_cases in Hflag as [_ ?].
  - apply pair_read.
  - intros. by apply remote_read.
Qed.

(** ** Plans *)

Definition plan_config (plan : CommandPlan) : option Config :=
  match plan with
  | PlanEval c _ _ _ | PlanWatch c _ _ | PlanQuery c _ _ | PlanDiff c _ => Some c
  | _ => None
  end.

Definition command_args (command : Commands) : option EvalInput :=
  match command with
  | CmdEval a _ _ _ | CmdWatch a _ _ | CmdQuery a _ _ _ _ | CmdDiff a _ => Some a
  | _ => None
  end.

(** Exactly one input is given, and this one. *)
Definition input_given (args : EvalInput) (input : Input) : Prop :=
  (ei_flake args, ei_expr args, ei_file args)
  = match input with
    | Flake flake => (Some flake, None, None)
    | Expr expr => (None, Some expr, None)
    | File file => (None, None, Some file)
    end.

(** The token of a run: the flag before the environment, never empty. *)
Definition token_given (token_env flag token : option string) : Prop :=
  token = match flag with Some _ => flag | None => token_env end ∧ token ≠ Some EmptyString.

(** What a configuration says of its arguments. *)
Record config_given (token_env : option string) (args : EvalInput) (c : Config) : Prop := {
  cg_input : input_given args (c_input c);
  cg_timeout : c_item_timeout_seconds c = ei_item_timeout_seconds args
               ∧ ei_item_timeout_seconds args ≠ 0%N;
  cg_remotes : ∃ t, token_given token_env (ei_remote_token args) t
    ∧ (ei_remote args ≠ [] → t = None → ei_insecure_tokenless_remote args = true)
    ∧ c_remotes c = (λ r, mkRemote (ra_endpoint r) (ra_systems r) (ra_workers r) t) <$> ei_remote args;
  cg_rest : c = mkConfig (c_input c) (auto_args (ei_arg args) (ei_argstr args))
    (ei_force_recurse args) (ei_gc_roots_dir args) (ei_workers args) (ei_max_memory args)
    (c_item_timeout_seconds c) (ei_meta args) (ei_show_input_drvs args)
    (pairs (ei_override_input args)) (pairs (ei_option args)) (c_remotes c) None;
}.

Lemma remote_token_ok token_env flag t :
  remote_token token_env flag = Ok t ↔ token_given token_env flag t.
Proof.
  unfold remote_token, token_given. cbv zeta.
  set (token := match flag with Some token => Some token | None => token_env end).
  replace (match flag with Some _ => flag | None => token_env end) with token
    by (unfold token; by destruct flag).
  destruct token as [[|a s]|]; split; try (intros [= <-]; by split); try (by intros [-> ?]).
Qed.

Lemma config_ok token_env args c :
  config token_env args = Ok c ↔ config_given token_env args c.
Proof.
  unfold config. rewrite bind_ok. split.
  - intros (input & Hin & H). apply bind_ok in H as (t & Ht%remote_token_ok & H).
    case_match eqn:Hguard; [done|]. case_match eqn:Htime; [done|].
    apply N.eqb_neq in Htime. injection H as <-. split; simpl; [| done | | done].
    + unfold input_given. repeat case_match; by simplify_eq.
    + exists t. split; [done|]. split; [|done]. intros Hne Hnone. subst t.
      destruct (ei_remote args) as [|r rs]; [done|]. simpl in Hguard.
      by destruct (ei_insecure_tokenless_remote args).
  - intros [Hin [Ht Htime] (t & Htoken & Hsecure & Hremotes) Hrest].
    exists (c_input c). split.
    + unfold input_given in Hin. destruct (c_input c); injection Hin as -> -> ->; done.
    + rewrite bind_ok. exists t. split; [by apply remote_token_ok|].
      case_match eqn:Hguard.
      * exfalso. rewrite !andb_true_iff, !negb_true_iff, bool_decide_eq_true in Hguard.
        destruct Hguard as [[Hne ->] Hins]. rewrite Hsecure in Hins; [done| |done].
        by intros Hnil; rewrite Hnil in Hne.
      * rewrite (proj2 (N.eqb_neq _ _)) by done. f_equal.
        etransitivity; [|symmetry; exact Hrest]. by rewrite Ht, Hremotes.
Qed.

(** The plan of a command. *)
Definition plan_given (token_env : option string) (command : Commands) (plan : CommandPlan)
  : Prop :=
  match command, plan with
  | CmdEval args socket no_daemon replay, PlanEval c socket' use_daemon replay' =>
      config_given token_env args c ∧ socket' = socket ∧ use_daemon = negb no_daemon
      ∧ replay' = replay ∧ (replay = true → use_daemon = true)
  | CmdWatch args socket no_daemon, PlanWatch c socket' use_daemon =>
      config_given token_env args c ∧ socket' = socket ∧ use_daemon = negb no_daemon
      ∧ ∀ expr, c_input c ≠ Expr expr
  | CmdQuery args socket system attr_prefix _, PlanQuery c f socket' =>
      config_given token_env args c ∧ f = query_filter system attr_prefix ∧ socket' = socket
  | CmdDiff args socket, PlanDiff c socket' =>
      config_given token_env args c ∧ socket' = socket
  | CmdDaemon socket foreground, PlanDaemon socket' foreground' =>
      socket' = socket ∧ foreground' = foreground
  | CmdWorker listen token insecure, PlanWorker listen' token' =>
      listen' = listen ∧ token_given token_env token token' ∧ (token' = None → insecure = true)
  | _, _ => False
  end.

Lemma command_plan_ok token_env command plan :
  command_plan token_env command = Ok plan ↔ plan_given token_env command plan.
Proof.
  destruct command as [a s nd r|a s nd|a s sys pre nd|a s|s f|l t ins]; simpl.
  - case_match eqn:Hr.
    { apply andb_true_iff in Hr as [-> ->]. split; [done|]. destruct plan; naive_solver. }
    rewrite bind_ok. setoid_rewrite config_ok. split.
    + intros (c & Hc & [= <-]). simpl. split_and!; try done. intros ->. by destruct nd.
    + destruct plan; try done. intros (Hc & -> & -> & -> & _). eauto.
  - rewrite bind_ok. setoid_rewrite config_ok. split.
    + intros (c & Hc & H). destruct (c_input c) eqn:Hi; [|done|]; injection H as <-; simpl;
        (split_and!; [done..|by rewrite Hi]).
    + destruct plan as [|c ? ?| | | |]; try done. intros (Hc & -> & -> & Hne). exists c.
      split; [done|]. destruct (c_input c); [done|by destruct (Hne expr)|done].
  - rewrite bind_ok. setoid_rewrite config_ok. split.
    + by intros (c & Hc & [= <-]).
    + destruct plan; try done. intros (Hc & -> & ->). eauto.
  - rewrite bind_ok. setoid_rewrite config_ok. split.
    + by intros (c & Hc & [= <-]).
    + destruct plan; try done. intros (Hc & ->). eauto.
  - split; [by intros [= <-]|]. destruct plan; try done. by intros [-> ->].
  - unfold remote_worker_token. rewrite bind_ok. setoid_rewrite bind_ok.
    setoid_rewrite remote_token_ok. split.
    + intros (t' & (t0 & Ht & H) & [= <-]). simpl. split; [done|].
      destruct t0; [by injection H as <-|]. destruct ins; [by injection H as <-|done].
    + destruct plan as [| | | | |l' t']; try done. intros (-> & Ht & Hins). exists t'. split; [|done].
      exists t'. split; [done|]. destruct t'; [done|]. by rewrite Hins.
Qed.

Lemma remote_from_arg_workers s r : remote_from_arg s = Ok r → ra_workers r ≠ 0%N.
Proof.
  unfold remote_from_arg. cbv zeta. repeat (case_match; [done|]) || case_match; try done.
  intros (w & Hw & Hr)%bind_ok. case_match eqn:Hz; [done|]. injection Hr as <-. simpl.
  by apply N.eqb_neq.
Qed.


(** The parts of the filter that [query_filter] leaves unset accept everything. *)
Lemma opt_systems (systems : list string) (d : string) :
  opt_any (λ s, s = d) (match systems with [] => None | _ => Some systems end)
  ↔ systems = [] ∨ d ∈ systems.
Proof.
  unfold opt_any. destruct systems as [|s systems]; [split; [by left|done]|]. split.
  - intros (x & Hx & ->). by right.
  - intros [?|H]; [done|]. eauto.
Qed.

Definition prefix_part (prefixes : list string) (path : list string) : Prop :=
  match split_attr_prefix <$> prefixes with
  | [] => True
  | [prefix] => prefix `prefix_of` path
  | prefixes => ∃ p, p ∈ prefixes ∧ p `prefix_of` path
  end.

Lemma opt_prefixes prefixes path :
  prefix_part prefixes path
  ↔ prefixes = [] ∨ ∃ prefix, prefix ∈ prefixes ∧ split_attr_prefix prefix `prefix_of` path.
Proof.
  unfold prefix_part. destruct prefixes as [|p [|q prefixes]]; simpl; [split; [by left|done]|..].
  - split.
    + intros H. right. exists p. split; [by left|done].
    + intros [?|(r & ->%list_elem_of_singleton & H)]; done.
  - fold_lists. change (split_attr_prefix p :: split_attr_prefix q :: (split_attr_prefix <$> prefixes))
      with (split_attr_prefix <$> (p :: q :: prefixes)). split.
    + intros (l & (r & -> & Hr)%list_elem_of_fmap & Hl). right. eauto.
    + intros [?|(r & Hr & Hl)]; [done|]. exists (split_attr_prefix r).
      split; [apply list_elem_of_fmap; eauto|done].
Qed.

Lemma query_filter_accepts systems prefixes d :
  filter_accepts (query_filter systems prefixes) d
  ↔ opt_any (λ s, s = d_system d) (match systems with [] => None | _ => Some systems end)
    ∧ prefix_part prefixes (d_attr_path d).
Proof.
  unfold filter_accepts, query_filter, prefix_part, opt_any. cbv zeta.
  destruct (split_attr_prefix <$> prefixes) as [|p [|q ps]]; simpl; naive_solver.
Qed.

Lemma query_filter_selects systems prefixes drv :
  matches_filter drv (query_filter systems prefixes) = true
  ↔ (systems = [] ∨ d_system drv ∈ systems)
    ∧ (prefixes = [] ∨ ∃ prefix, prefix ∈ prefixes
         ∧ split_attr_prefix prefix `prefix_of` d_attr_path drv).
Proof.
  rewrite matches_filter_iff, query_filter_accepts.
  by rewrite opt_systems, opt_prefixes.
Qed.


(** A run with one remote worker. *)
Definition remote_text : string :=
  str_join (String PACK_SEP EmptyString) ["worker:7357"; "x86_64-linux"; "2"].
Definition remote_args : EvalInput :=
  mkEvalInput None (Some "{}") None [] [] [] [] [mkRemoteArg "worker:7357" ["x86_64-linux"] 2]
    (Some "secret") false false false 1 4096 1800 false None.
Definition remote_config : Config :=
  (config_expr "{}") <| c_remotes := [mkRemote "worker:7357" ["x86_64-linux"] 2 (Some "secret")] |>.

Lemma remote_text_read : remote_from_arg remote_text = Ok (mkRemoteArg "worker:7357" ["x86_64-linux"] 2).
Proof. reflexivity. Qed.

