(* ===== verification/Client.v ===== *)
(** * The client of the daemon and the local commands

    [crates/evix-cli/src/main.rs]: what each plan of [Args.v] runs, in this
    process or through the daemon, how inputs are made independent of the
    client's directory, and what is printed. *)
From S2P Require Import Prelude Types Paths Config JsonWire WorkerProcess Scheduler Session SessionCache Daemon Args.

(** ** Standard output *)

Inductive OutputWrite : Type := Continue | Closed.

(** Lines of a stream, as [BufRead::lines] gives them: without the line feed and
    a carriage return before it, and an error for a line that is not text. *)
Definition line_text (bytes : list ascii) : Result string :=
  if utf8_valid_bytes bytes then Ok (str_of_chars (strip_line_end bytes))
  else Err (report "stream did not contain valid UTF-8").

Fixpoint buf_lines (line : list ascii) (bytes : list ascii) : list (Result string) :=
  match bytes with
  | [] => match line with [] => [] | _ => [line_text line] end
  | c :: bytes =>
      if decide (c = newline) then line_text (line ++ [c]) :: buf_lines [] bytes
      else buf_lines (line ++ [c]) bytes
  end.

(** A connection: sending a request may fail, or gives the lines that follow. *)
Abbreviation Connection := (Request → Result (list (Result string))).

Section client.
(** What writing a line does after the lines already written, the text of a JSON
    value, the JSON of responses, and [Display] and [Debug] of paths. *)
Context (stdout : list string → result IoError unit).
Context (to_string : Json → string).
Context (parse_response : string → Result Response).
Context (display_path debug_path : string → string).

Definition write_output_line (out : list string) (line : string)
  : list string * Result OutputWrite :=
  match stdout out with
  | Ok _ => (out ++ [line], Ok Continue)
  | Err err =>
      match io_kind err with
      | BrokenPipe => (out, Ok Closed)
      | _ => (out, Err (context "writing stdout" (io_report err)))
      end
  end.

(** ** A request to the daemon *)

(** How the loop over the response lines of [run_daemon_request] ends. *)
Inductive LoopEnd : Type := OutputClosed | SawDone | EndOfStream.

Fixpoint response_loop (lines : list (Result string)) (out : list string)
  : list string * Result LoopEnd :=
  match lines with
  | [] => (out, Ok EndOfStream)
  | Err err :: _ => (out, Err err)
  | Ok line :: lines =>
      if is_blank line then response_loop lines out
      else
        let print text :=
          match write_output_line out text with
          | (out, Err err) => (out, Err err)
          | (out, Ok Closed) => (out, Ok OutputClosed)
          | (out, Ok Continue) => response_loop lines out
          end in
        match parse_response line with
        | Err err => (out, Err err)
        | Ok (RespEvent event) => print (event_line to_string event)
        | Ok (RespDiff diff) => print (diff_line to_string diff)
        | Ok RespDone => (out, Ok SawDone)
        | Ok (RespError message) => (out, Err (report message))
        end
  end.

Definition is_watch (request : Request) : bool :=
  match request with ReqWatch _ _ => true | _ => false end.

Definition run_daemon_request (stream : Connection) (request : Request) (out : list string)
  : list string * Result unit :=
  match stream request with
  | Err err => (out, Err err)
  | Ok lines =>
      let expect_done := negb (is_watch request) in
      match response_loop lines out with
      | (out, Err err) => (out, Err err)
      | (out, Ok EndOfStream) =>
          if expect_done
          then (out, Err (report "daemon closed connection before completing request"))
          else (out, Ok tt)
      | (out, Ok _) => (out, Ok tt)
      end
  end.

(** ** Inputs that do not depend on the client's directory *)

Definition hash_sign : ascii := "#"%char.

Definition split_flake_fragment (reference : string) : string * string :=
  match split_once hash_sign reference with
  | Some (path, fragment) => (path, "#" +:+ fragment)
  | None => (reference, EmptyString)
  end.

Definition is_relative_flake_path (path : string) : bool :=
  str_is_empty path || str_eqb path "." || starts_with "./" path || starts_with "../" path
  || (str_contains "/"%char path && negb (str_contains ":"%char path)
      && negb (is_absolute path)).

(** [fs::canonicalize] *)
Context (canonicalize : string → Result string).

Definition canonical_flake_path (path : string) : Result string :=
  let path := if str_is_empty path then "." else path in
  canonical ← with_context ("canonicalizing flake path " +:+ debug_str path) (canonicalize path);
  ok_or (report ("flake path " +:+ debug_path canonical +:+ " is not valid UTF-8"))
    (to_str canonical).

Definition daemon_flake_ref (reference : string) : Result string :=
  match strip_prefix "path:" reference with
  | Some path_ref =>
      let '(path, fragment) := split_flake_fragment path_ref in
      path ← canonical_flake_path path;
      Ok ("path:" +:+ path +:+ fragment)
  | None =>
      let '(path, fragment) := split_flake_fragment reference in
      if is_relative_flake_path path || is_absolute path
      then path ← canonical_flake_path path;
           Ok ("path:" +:+ path +:+ fragment)
      else Ok reference
  end.

Definition daemon_config (config : WireConfig) : Result WireConfig :=
  input ← match w_input config with
          | File path =>
              File <$> with_context ("canonicalizing input file " +:+ display_path path)
                         (canonicalize path)
          | Flake reference => Flake <$> daemon_flake_ref reference
          | input => Ok input
          end;
  Ok (config <| w_input := input |>).

Definition daemon_request (request : Request) : Result Request :=
  match request with
  | ReqEval _ config => request_eval <$> daemon_config config
  | ReqReplay _ config => request_replay <$> daemon_config config
  | ReqWatch _ config => request_watch <$> daemon_config config
  | ReqQuery _ config filter => (λ config, request_query config filter) <$> daemon_config config
  | ReqDiff _ config => request_diff <$> daemon_config config
  end.

Definition wire_config (config : Config) : WireConfig := wire_from_config config.

(** ** Local commands *)

(** The loop over a session's stream: an item that is an error ends it. *)
Fixpoint local_loop {A} (text : A → string) (items : list (result Error A)) (out : list string)
  : list string * Result unit :=
  match items with
  | [] => (out, Ok tt)
  | Err err :: _ => (out, Err (report (show_error err)))
  | Ok item :: items =>
      match write_output_line out (text item) with
      | (out, Err err) => (out, Err err)
      | (out, Ok Closed) => (out, Ok tt)
      | (out, Ok Continue) => local_loop text items out
      end
  end.

(** [with_runtime]: building the runtime may fail. *)
Definition with_runtime (built : Result unit) (future : list string → list string * Result unit)
    (out : list string) : list string * Result unit :=
  match with_context "building CLI runtime" built with
  | Err err => (out, Err err)
  | Ok _ => future out
  end.

(** What the commands find around them: the runtime, the runs and watches of
    sessions, the sockets, and the servers. *)
Record Surroundings := mkSurroundings {
  built_runtime : Result unit;
  session_run : Config → Run;
  session_diffs : Config → list (result Error Diff);
  socket_env : option string;
  effective_uid : N;
  connect_socket : string → result IoError Connection;
  daemon_run : string → bool → Result unit;
  serve_worker : string → option string → Result unit;
}.

#[export] Instance eta_surroundings : EtaRecord Surroundings := λ e,
  mkSurroundings (built_runtime e) (session_run e) (session_diffs e) (socket_env e)
    (effective_uid e) (connect_socket e) (daemon_run e) (serve_worker e).

Section commands.
Context (env : Surroundings).
(** [Display] of a report. *)
Context (display : Report → string).

Definition run_local_eval (config : Config) : list string → list string * Result unit :=
  with_runtime (built_runtime env)
    (local_loop (event_line to_string)
       (stream_items display (open_session config) (session_run env config))).

Definition run_local_watch (config : Config) : list string → list string * Result unit :=
  with_runtime (built_runtime env)
    (local_loop (diff_line to_string) (session_diffs env config)).

(** ** Reaching the daemon *)

Definition allows_local_fallback (err : IoError) : bool :=
  match io_kind err with NotFound => true | _ => false end.

Definition daemon_connect_error (socket : string) (err : IoError) : Report :=
  context ("connecting to evix daemon at " +:+ display_path socket) (io_report err).

Definition run_client_or_local (request : Request) (socket : option string)
    (fallback : list string → list string * Result unit) (out : list string)
  : list string * Result unit :=
  let socket := socket_path socket (socket_env env) (effective_uid env) in
  match connect_socket env socket with
  | Ok stream => run_daemon_request stream request out
  | Err err =>
      if allows_local_fallback err then fallback out
      else (out, Err (daemon_connect_error socket err))
  end.

Definition run_daemon_only (request : Request) (socket : option string) (out : list string)
  : list string * Result unit :=
  let socket := socket_path socket (socket_env env) (effective_uid env) in
  match connect_socket env socket with
  | Ok stream => run_daemon_request stream request out
  | Err err => (out, Err (daemon_connect_error socket err))
  end.

(** ** Running a plan *)

(** [let request = daemon_request(..)?] before what follows. *)
Definition with_request (request : Request)
    (next : Request → list string → list string * Result unit) (out : list string)
  : list string * Result unit :=
  match daemon_request request with
  | Err err => (out, Err err)
  | Ok request => next request out
  end.

Definition run_plan (plan : CommandPlan) (out : list string) : list string * Result unit :=
  match plan with
  | PlanEval config socket use_daemon replay =>
      if use_daemon then
        with_request (if replay then request_replay (wire_config config)
                      else request_eval (wire_config config))
          (λ request,
             if replay then run_daemon_only request socket
             else run_client_or_local request socket (run_local_eval config)) out
      else run_local_eval config out
  | PlanWatch config socket use_daemon =>
      if use_daemon then
        with_request (request_watch (wire_config config))
          (λ request, run_client_or_local request socket (run_local_watch config)) out
      else run_local_watch config out
  | PlanQuery config filter socket =>
      with_request (request_query (wire_config config) filter)
        (λ request, run_daemon_only request socket) out
  | PlanDiff config socket =>
      with_request (request_diff (wire_config config))
        (λ request, run_daemon_only request socket) out
  | PlanDaemon socket foreground =>
      (out, daemon_run env (socket_path socket (socket_env env) (effective_uid env)) foreground)
  | PlanWorker listen token =>
      with_runtime (built_runtime env) (λ out, (out, serve_worker env listen token)) out
  end.
End commands.
End client.

(** [init_tracing_subscriber]: the level of [-v] and [-q]. *)
Definition log_level (verbosity : Verbosity) : string :=
  let level := (Z.of_N (verbose verbosity) - Z.of_N (quiet verbosity))%Z in
  if (level <=? -2)%Z then "off"
  else if (level =? -1)%Z then "error"
  else if (level =? 0)%Z then "warn"
  else if (level =? 1)%Z then "info"
  else if (level =? 2)%Z then "debug"
  else "trace".

(** ** Lemmas: lines *)

Lemma strip_line_end_newline bytes :
  last bytes ≠ Some carriage_return → strip_line_end (bytes ++ [newline]) = bytes.
Proof.
  intros Hcr. unfold strip_line_end. rewrite last_snoc, decide_True, removelast_last by done.
  destruct (last bytes) as [c|]; [|done]. rewrite decide_False by congruence. done.
Qed.

Lemma line_text_wire line :
  wire_line line → line_text (str_chars line ++ [newline]) = Ok line.
Proof.
  intros [Htext _ Hcr _ _]. unfold line_text. rewrite utf8_valid_bytes_app by done. simpl.
  by rewrite strip_line_end_newline, str_of_chars_chars.
Qed.

Lemma buf_lines_line cur l k :
  newline ∉ l → buf_lines cur (l ++ newline :: k) = line_text (cur ++ l ++ [newline]) :: buf_lines [] k.
Proof.
  revert cur. induction l as [|c l IH]; intros cur Hl; simpl.
  - done.
  - rewrite decide_False by (intros ->; apply Hl; by left).
    rewrite IH by (intros Hin; apply Hl; by right). by rewrite <-app_assoc.
Qed.

Definition unlines (lines : list string) : string :=
  foldr (λ line text, as_line line +:+ text) EmptyString lines.

Lemma buf_lines_unlines lines :
  Forall wire_line lines → buf_lines [] (str_chars (unlines lines)) = Ok <$> lines.
Proof.
  induction 1 as [|line lines Hl _ IH]; [done|]. simpl. fold_lists. rewrite <-IH.
  unfold as_line. rewrite !str_chars_app, <-app_assoc. simpl.
  rewrite buf_lines_line by apply Hl. simpl. by rewrite line_text_wire.
Qed.

Lemma unlines_snoc lines line : unlines (lines ++ [line]) = unlines lines +:+ as_line line.
Proof.
  induction lines as [|l lines IH]; simpl; [by rewrite str_app_nil|].
  by rewrite IH, str_app_assoc.
Qed.

Lemma read_one_line line :
  wire_line line → S (length (str_chars line)) ≤ MAX_REQUEST_BYTES →
  read_request_line (Ok tt) [Ok (str_chars (as_line line))] = Ok line.
Proof.
  intros Hl Hlen. pose proof Hl as [Htext Hnl Hcr _ _].
  set (bytes := str_chars (as_line line)).
  assert (bytes = str_chars line ++ [newline]) as Hbytes by apply str_chars_app.
  assert (read_limited_line MAX_REQUEST_BYTES [] [Ok bytes] = Ok bytes) as Hread.
  { assert (line_end (str_chars line) = None) as Hnone.
    { clear -Hnl. induction (str_chars line) as [|c l IH]; [done|]. simpl.
      rewrite decide_False by (intros ->; apply Hnl; by left).
      rewrite IH; [done|]. intros ?. apply Hnl. by right. }
    assert (length bytes = S (length (str_chars line))) as Hlb
      by (rewrite Hbytes, length_app; simpl; lia).
    assert (line_end bytes = Some (length bytes)) as Hend.
    { rewrite Hlb, Hbytes, line_end_app, Hnone. simpl. f_equal. lia. }
    rewrite read_limited_line_step by (rewrite Hbytes; by destruct (str_chars line)).
    cbv zeta. rewrite Hend. cbn [default from_option id].
    rewrite (proj2 (Nat.ltb_ge _ _)) by (simpl; lia). by rewrite firstn_all. }
  unfold read_request_line. cbn [mbind result_bind]. rewrite Hread.
  cbn [with_context map_err mbind result_bind]. rewrite Hbytes, strip_line_end_newline by done.
  unfold utf8_valid in Htext. by rewrite Htext, str_of_chars_chars.
Qed.

(** ** Lemmas: the daemon's answer to an evaluation *)

Definition response_of (item : result Error Event) : Response :=
  match item with
  | Ok event => response_event event
  | Err err => response_error (show_error err)
  end.

Section answer.
Context (to_json : SessionKeyConfig → Result string).
Context (encode_response : Response → Result string).

Lemma eval_loop_total items lines recorded h :
  Forall2 (λ item line, encode_response (response_of item) = Ok line) items lines →
  length items ≤ h_budget h →
  ∃ recorded', eval_loop encode_response items recorded h
    = (mkHandling (h_state h) (h_written h +:+ unlines lines) (h_budget h - length items),
       Ok recorded').
Proof.
  intros Hall. revert recorded h.
  induction Hall as [|item line items lines Hline _ IH]; intros recorded h Hb; simpl.
  { exists recorded. rewrite str_app_nil, Nat.sub_0_r. by destruct h. }
  simpl in Hb. unfold response_line.
  destruct item as [ev|err]; simpl in Hline; rewrite Hline; simpl; unfold write_all;
    destruct (h_budget h) as [|b] eqn:Hbudget; try lia;
    match goal with |- context [eval_loop _ items ?r ?h] =>
      destruct (IH r h) as (r' & ->); [simpl; lia|]; exists r' end;
    simpl; unfold as_line; by rewrite ?str_app_assoc.
Qed.

Lemma handle_eval_total others config key items lines done_line h :
  session_key to_json config = Ok key →
  Forall2 (λ item line, encode_response (response_of item) = Ok line) items lines →
  encode_response RespDone = Ok done_line → length items < h_budget h →
  ∃ h', handle_eval to_json encode_response others config items h = (h', Ok tt)
    ∧ h_written h' = h_written h +:+ unlines (lines ++ [done_line]).
Proof.
  intros Hk Hall Hdone Hb. unfold handle_eval.
  assert (∃ d session, replace_session to_json (h_state h) config = (d, Ok session))
    as (d & session & ->).
  { unfold replace_session. rewrite Hk. eauto. }
  destruct (eval_loop_total items lines (Some EmptyString) (set_state d h) Hall)
    as (recorded & ->); [simpl; lia|].
  set (replay := match recorded with Some _ => _ | None => _ end).
  assert (∀ d', ∃ d'', settle_replay to_json d' config session replay = (d'', Ok tt)) as Hsettle.
  { intros d'. unfold settle_replay. rewrite Hk. eauto. }
  destruct (Hsettle (others d)) as (d'' & Hs). simpl. rewrite Hs.
  unfold write_response, response_line. rewrite Hdone. simpl. unfold write_all. simpl.
  destruct (h_budget h - length items) eqn:Hleft; [lia|]. eexists. split; [done|]. simpl.
  by rewrite unlines_snoc, str_app_assoc.
Qed.
End answer.

(** ** Lemmas: printing *)

Section printing.
Context (stdout : list string → result IoError unit).
Context (to_string : Json → string).
Context (encode_response : Response → Result string).
Context (parse_response : string → Result Response).
Context `{!Wire encode_response parse_response}.

(** The client prints what the local loop prints, and ends the same way. *)
Lemma response_loop_local items lines done_line out :
  Forall2 (λ item line, encode_response (response_of item) = Ok line) items lines →
  encode_response RespDone = Ok done_line →
  let printed := local_loop stdout (event_line to_string) items out in
  ∃ ended, response_loop stdout to_string parse_response (Ok <$> (lines ++ [done_line])) out
             = (printed.1, ended)
    ∧ printed.2 = (λ _, tt) <$> ended ∧ ended ≠ Ok EndOfStream.
Proof.
  intros Hall Hdone. cbv zeta. revert out.
  induction Hall as [|item line items lines Hline _ IH]; intros out; cbn [app fmap list_fmap].
  { cbn [response_loop]. rewrite (wl_visible _ (wire_lines _ _ Hdone)), (wire_reads _ _ Hdone).
    eexists. split; [done|]. split; [done|discriminate]. }
  cbn [response_loop]. rewrite (wl_visible _ (wire_lines _ _ Hline)), (wire_reads _ _ Hline).
  destruct item as [ev|err]; simpl.
  - unfold write_output_line. destruct (stdout out) as [[]|err]; [apply IH|].
    destruct (io_kind err); (eexists; split; [done|]; split; [done|discriminate]).
  - eexists. split; [done|]. split; [done|discriminate].
Qed.
End printing.

(** ** The client and the daemon together *)

(** A connection to a daemon of the same user that handles one request. *)
Definition daemon_connection (to_json : SessionKeyConfig → Result string)
    (encode_response : Response → Result string) (display : Report → string)
    (others : DaemonState → DaemonState) (session_at : nat → Session)
    (encode_request : Request → Result string) (parse_request : string → Result Request)
    (uid : N) (activity : Activity) (state : DaemonState) (budget : nat)
    (request : Request) : Result (list (Result string)) :=
  line ← encode_request request;
  let handled :=
    handle_connection to_json encode_response display others session_at parse_request
      (Ok uid) uid (Ok tt) [Ok (str_chars (as_line line))] activity
      (mkHandling state EmptyString budget) in
  Ok (buf_lines [] (str_chars (h_written handled.1))).

Lemma daemon_connection_eval to_json encode_response display others session_at encode_request
    parse_request uid activity state budget config line key lines done_line :
  encode_request (request_eval config) = Ok line → parse_request line = Ok (request_eval config) →
  wire_line line → S (length (str_chars line)) ≤ MAX_REQUEST_BYTES →
  session_key to_json (config_from_wire config) = Ok key →
  Forall2 (λ item line, encode_response (response_of item) = Ok line) (a_events activity) lines →
  encode_response RespDone = Ok done_line → Forall wire_line (lines ++ [done_line]) →
  length (a_events activity) < budget →
  daemon_connection to_json encode_response display others session_at encode_request parse_request
    uid activity state budget (request_eval config) = Ok (Ok <$> (lines ++ [done_line])).
Proof.
  intros Henc Hparse Hline Hlen Hk Hall Hdone Hwire Hb. unfold daemon_connection. rewrite Henc.
  cbn [mbind result_bind]. cbv zeta. unfold handle_connection, authorize_peer.
  cbn [with_context map_err mbind result_bind]. rewrite N.eqb_refl, read_one_line by done.
  rewrite (wl_visible _ Hline), (wl_trim _ Hline), Hparse. cbn [with_context map_err].
  unfold validate_protocol. simpl.
  destruct (handle_eval_total to_json encode_response others (config_from_wire config) key
    (a_events activity) lines done_line (mkHandling state EmptyString budget) Hk Hall Hdone)
    as (h' & -> & Hw); [done|].
  change (h_written h' = unlines (lines ++ [done_line])) in Hw.
  simpl. by rewrite Hw, buf_lines_unlines.
Qed.

(** ** Lemmas: reading the daemon's answer *)

(** The lines that print the given texts, blank ones apart. *)
Inductive shows (to_string : Json → string) (parse_response : string → Result Response)
  : list (Result string) → list string → Prop :=
  | shows_nil : shows to_string parse_response [] []
  | shows_blank line lines texts :
      is_blank line = true → shows to_string parse_response lines texts →
      shows to_string parse_response (Ok line :: lines) texts
  | shows_event line event lines texts :
      is_blank line = false → parse_response line = Ok (RespEvent event) →
      shows to_string parse_response lines texts →
      shows to_string parse_response (Ok line :: lines) (event_line to_string event :: texts)
  | shows_diff line diff lines texts :
      is_blank line = false → parse_response line = Ok (RespDiff diff) →
      shows to_string parse_response lines texts →
      shows to_string parse_response (Ok line :: lines) (diff_line to_string diff :: texts).

(** The final response of an answer. *)
Definition is_done (parse_response : string → Result Response) (line : Result string) : Prop :=
  ∃ text, line = Ok text ∧ is_blank text = false ∧ parse_response text = Ok RespDone.

Section reading.
Context (to_string : Json → string).
Context (parse_response : string → Result Response).

Abbreviation open_stdout := (λ _ : list string, Ok (E:=IoError) tt).
Abbreviation loop := (response_loop open_stdout to_string parse_response).
Abbreviation shown := (shows to_string parse_response).

Lemma shows_loop lines texts rest out :
  shown lines texts → loop (lines ++ rest) out = loop rest (out ++ texts).
Proof.
  intros Hs. revert out. induction Hs as [|line lines texts Hb _ IH|line ev lines texts Hb Hp _ IH
    |line d lines texts Hb Hp _ IH]; intros out; simpl.
  - by rewrite app_nil_r.
  - by rewrite Hb.
  - rewrite Hb, Hp. simpl. by rewrite IH, <-app_assoc.
  - rewrite Hb, Hp. simpl. by rewrite IH, <-app_assoc.
Qed.

Lemma loop_shows lines out out' ended :
  loop lines out = (out', Ok ended) →
  ∃ before texts, out' = out ++ texts ∧ shown before texts
    ∧ ((ended = EndOfStream ∧ lines = before)
       ∨ (ended = SawDone ∧ ∃ done rest, lines = before ++ done :: rest
            ∧ is_done parse_response done)).
Proof.
  revert out. induction lines as [|[line|err] lines IH]; intros out; simpl; [| |done].
  { intros [= <- <-]. exists [], []. rewrite app_nil_r. split_and!; [done|constructor|by left]. }
  assert (∀ out1 text, (∀ before texts, shown before texts → shown (Ok line :: before) (text ++ texts)) →
    out1 = out ++ text → loop lines out1 = (out', Ok ended) →
    ∃ before texts, out' = out ++ texts ∧ shown before texts
    ∧ ((ended = EndOfStream ∧ Ok line :: lines = before)
       ∨ (ended = SawDone ∧ ∃ done rest, Ok line :: lines = before ++ done :: rest
            ∧ is_done parse_response done))) as Hstep.
  { intros out1 text Hcons -> (before & texts & -> & Hs & Hend)%IH.
    exists (Ok line :: before), (text ++ texts). rewrite <-app_assoc.
    split_and!; [done|by apply Hcons|]. destruct Hend as [[-> ->]|(-> & d & rest & -> & Hd)]; [by left|].
    right. split; [done|]. by exists d, rest. }
  destruct (is_blank line) eqn:Hb.
  { apply (Hstep out []); [|by rewrite app_nil_r]. intros. by apply shows_blank. }
  destruct (parse_response line) as [[ev|d| |msg]|err] eqn:Hp; [| | |done|done]; simpl.
  - apply (Hstep _ [event_line to_string ev]); [|done]. intros. by apply shows_event.
  - apply (Hstep _ [diff_line to_string d]); [|done]. intros. by apply shows_diff.
  - intros [= <- <-]. exists [], []. rewrite app_nil_r. split_and!; [done|constructor|].
    right. split; [done|]. exists (Ok line), lines. split; [done|]. by exists line.
Qed.

Lemma loop_ends lines out out' ended :
  loop lines out = (out', Ok ended) ↔
  ∃ before texts, out' = out ++ texts ∧ shown before texts
    ∧ ((ended = EndOfStream ∧ lines = before)
       ∨ (ended = SawDone ∧ ∃ done rest, lines = before ++ done :: rest
            ∧ is_done parse_response done)).
Proof.
  split; [apply loop_shows|].
  intros (before & texts & -> & Hs & [[-> ->]|(-> & d & rest & -> & text & -> & Hb & Hp)]).
  - rewrite <-(app_nil_r before) at 1. by rewrite (shows_loop _ _ _ _ Hs).
  - rewrite (shows_loop _ _ _ _ Hs). simpl. by rewrite Hb, Hp.
Qed.
End reading.

(** C24 (complete): a truncated answer is never taken for a complete one. While
    standard output accepts lines, a request succeeds exactly when the daemon's
    lines are events and diffs, all of them printed in order, up to a final
    [Done]; only a watch may also end with the stream. Any error response, bad
    line or early end of the stream makes the request fail. *)
Theorem run_daemon_request_complete to_string parse_response stream request out out' :
  run_daemon_request (λ _, Ok tt) to_string parse_response stream request out = (out', Ok tt) ↔
  ∃ lines before texts, stream request = Ok lines ∧ out' = out ++ texts
    ∧ shows to_string parse_response before texts
    ∧ ((is_watch request = true ∧ lines = before)
       ∨ ∃ done rest, lines = before ++ done :: rest ∧ is_done parse_response done).
Proof.
  unfold run_daemon_request. split.
  - destruct (stream request) as [lines|err]; [|done].
    destruct (response_loop _ _ _ lines out) as [out1 [ended|err]] eqn:Hloop; [|done].
    apply loop_shows in Hloop as (before & texts & -> & Hs & Hend). intros Hres.
    exists lines, before, texts. destruct Hend as [[-> ->]|(-> & Hd)].
    + destruct (is_watch request); simpl in Hres; [|done]. injection Hres as <-.
      split_and!; [done..|by left].
    + injection Hres as <-. split_and!; [done..|by right].
  - intros (lines & before & texts & -> & -> & Hs & Hend).
    destruct Hend as [[Hw ->]|Hd].
    + rewrite (proj2 (loop_ends _ _ before out (out ++ texts) EndOfStream)) by eauto 10.
      by rewrite Hw.
    + rewrite (proj2 (loop_ends _ _ lines out (out ++ texts) SawDone)) by eauto 10. done.
Qed.

(** ** Lemmas: canonical inputs *)

(** A fragment is nothing, or follows a [#]. *)
Definition fragment_wf (fragment : string) : Prop :=
  fragment = EmptyString ∨ ∃ name, fragment = "#" +:+ name.

Lemma split_flake_fragment_spec reference path fragment :
  split_flake_fragment reference = (path, fragment) →
  reference = path +:+ fragment ∧ fragment_wf fragment.
Proof.
  unfold split_flake_fragment. destruct (split_once _ _) as [[p f]|] eqn:H.
  - intros [= <- <-]. apply split_once_some in H as [-> _]. split; [done|]. right. by exists f.
  - intros [= <- <-]. split; [by rewrite str_app_nil|by left].
Qed.

Lemma split_flake_fragment_join path fragment :
  str_contains hash_sign path = false → fragment_wf fragment →
  split_flake_fragment (path +:+ fragment) = (path, fragment).
Proof.
  intros Hpath [->|[name ->]]; unfold split_flake_fragment.
  - by rewrite str_app_nil, (proj2 (split_once_none _ _)).
  - change (path +:+ "#" +:+ name) with (path +:+ String hash_sign name).
    by rewrite (proj2 (split_once_some hash_sign _ path name)).
Qed.

Section canonical.
Context (debug_path : string → string).
Context (canonicalize : string → Result string).
(** What [realpath] promises: an absolute path, which is its own. *)
Context (canonical_absolute : ∀ p c, canonicalize p = Ok c → is_absolute c = true).
Context (canonical_fixed : ∀ p c, canonicalize p = Ok c → canonicalize c = Ok c).

Abbreviation flake_ref := (daemon_flake_ref debug_path canonicalize).
Abbreviation flake_path := (canonical_flake_path debug_path canonicalize).

Definition path_or_dot (path : string) : string := if str_is_empty path then "." else path.

Lemma canonical_flake_path_ok path c :
  flake_path path = Ok c ↔ canonicalize (path_or_dot path) = Ok c ∧ utf8_valid c = true.
Proof.
  unfold canonical_flake_path, path_or_dot. cbv zeta. rewrite bind_ok.
  setoid_rewrite with_context_ok. setoid_rewrite ok_or_ok. setoid_rewrite to_str_some. naive_solver.
Qed.

Lemma canonical_flake_path_again path c : flake_path path = Ok c → flake_path c = Ok c.
Proof.
  intros [Hc Hu]%canonical_flake_path_ok. apply canonical_flake_path_ok. split; [|done].
  pose proof (canonical_absolute _ _ Hc) as Habs. unfold path_or_dot.
  destruct c as [|x c]; [done|]. simpl. by apply canonical_fixed in Hc.
Qed.

(** A reference to a path becomes one to its canonical path. *)
Inductive canonical_ref (reference : string) : string → Prop :=
  | ref_kept :
      strip_prefix "path:" reference = None →
      is_relative_flake_path (split_flake_fragment reference).1 = false →
      is_absolute (split_flake_fragment reference).1 = false →
      canonical_ref reference reference
  | ref_path path fragment c :
      reference = path +:+ fragment ∨ reference = "path:" +:+ path +:+ fragment →
      fragment_wf fragment → canonicalize (path_or_dot path) = Ok c →
      utf8_valid c = true → is_absolute c = true →
      canonical_ref reference ("path:" +:+ c +:+ fragment).

Lemma daemon_flake_ref_ok reference r :
  flake_ref reference = Ok r →
  canonical_ref reference r
  ∧ ((∀ p c, canonicalize p = Ok c → str_contains hash_sign c = false) → flake_ref r = Ok r).
Proof.
  assert (∀ path fragment c, reference = path +:+ fragment ∨ reference = "path:" +:+ path +:+ fragment →
    fragment_wf fragment → flake_path path = Ok c →
    canonical_ref reference ("path:" +:+ c +:+ fragment)
    ∧ ((∀ p c, canonicalize p = Ok c → str_contains hash_sign c = false) →
       flake_ref ("path:" +:+ c +:+ fragment) = Ok ("path:" +:+ c +:+ fragment))) as Hpath.
  { intros path fragment c Href Hwf Hc. pose proof Hc as [Hcan Hu]%canonical_flake_path_ok. split.
    - apply (ref_path _ path); [done..|by eapply canonical_absolute].
    - intros Hhash. unfold daemon_flake_ref.
      rewrite (proj2 (strip_prefix_some "path:" _ (c +:+ fragment)) eq_refl).
      rewrite split_flake_fragment_join; [|by eapply Hhash|done].
      by rewrite (canonical_flake_path_again _ _ Hc). }
  unfold daemon_flake_ref at 1. destruct (strip_prefix "path:" reference) as [rest|] eqn:Hstrip.
  - apply strip_prefix_some in Hstrip as ->.
    destruct (split_flake_fragment rest) as [path fragment] eqn:Hsplit.
    apply split_flake_fragment_spec in Hsplit as [-> Hwf].
    intros (c & Hc & [= <-])%bind_ok. by apply (Hpath path); [right| |].
  - destruct (split_flake_fragment reference) as [path fragment] eqn:Hsplit.
    destruct (is_relative_flake_path path || is_absolute path) eqn:Hlocal.
    + apply split_flake_fragment_spec in Hsplit as [Href Hwf].
      intros (c & Hc & [= <-])%bind_ok. by apply (Hpath path); [left| |].
    + intros [= <-]. pose proof Hlocal as [Hr Ha]%orb_false_iff. split.
      * apply ref_kept; [done|by rewrite Hsplit..].
      * intros _. unfold daemon_flake_ref. by rewrite Hstrip, Hsplit, Hlocal.
Qed.
End canonical.

(** The input of a request, independent of the client's directory. *)
Definition canonical_input (canonicalize : string → Result string) (input input' : Input) : Prop :=
  match input, input' with
  | Expr expr, Expr expr' => expr' = expr
  | File path, File path' => canonicalize path = Ok path' ∧ is_absolute path' = true
  | Flake reference, Flake reference' => canonical_ref canonicalize reference reference'
  | _, _ => False
  end.

(** A request to the daemon does not depend on the client's
    directory. Where [fs::canonicalize] gives absolute paths that are their own
    canonical form, a prepared configuration differs from the given one in its
    input only: an expression is kept, a file becomes its canonical path, a path
    reference becomes [path:] with its canonical path and the same fragment, and
    a reference is kept only when it names no path in one of the forms
    recognised; and preparing it again changes nothing, as long as no canonical
    path holds a [#]. *)
Theorem daemon_config_canonical display_path debug_path canonicalize config config' :
  (∀ p c, canonicalize p = Ok c → is_absolute c = true) →
  (∀ p c, canonicalize p = Ok c → canonicalize c = Ok c) →
  daemon_config display_path debug_path canonicalize config = Ok config' →
  config' = config <| w_input := w_input config' |>
  ∧ canonical_input canonicalize (w_input config) (w_input config')
  ∧ ((∀ p c, canonicalize p = Ok c → str_contains hash_sign c = false) →
     daemon_config display_path debug_path canonicalize config' = Ok config').
Proof.
  intros Habs Hfix. unfold daemon_config at 1. intros (input & Hin & [= <-])%bind_ok.
  destruct config as [input0 ???????????]. simpl in *. split; [done|].
  unfold daemon_config. simpl. destruct input0 as [reference|expr|path].
  - apply fmap_ok in Hin as (r & Hr & ->). simpl.
    apply (daemon_flake_ref_ok debug_path _ Habs Hfix) in Hr as [Hcan Hagain].
    split; [done|]. intros Hhash. by rewrite (Hagain Hhash).
  - injection Hin as <-. done.
  - apply fmap_ok in Hin as (c & Hc & ->). apply with_context_ok in Hc. simpl.
    split; [split; [done|by eapply Habs]|]. intros _. by rewrite (Hfix _ _ Hc).
Qed.

(** Two ways out of the canonical form: the parent directory is not recognised as
    a path, and a [#] in a canonical path starts a fragment. *)
Lemma parent_reference_kept debug_path canonicalize :
  daemon_flake_ref debug_path canonicalize "..#checks" = Ok "..#checks".
Proof. done. Qed.

Lemma hash_in_directory_splits debug_path canonicalize :
  canonicalize "." = Ok "/src/a#b" →
  daemon_flake_ref debug_path canonicalize "." = Ok "path:/src/a#b"
  ∧ split_flake_fragment "/src/a#b" = ("/src/a", "#b").
Proof.
  intros H. split; [|done]. unfold daemon_flake_ref, canonical_flake_path. simpl. by rewrite H.
Qed.

(** A file system whose canonical paths are those below [/src]. *)
Definition src_canonicalize (path : string) : Result string :=
  if str_eqb path "." then Ok "/src"
  else if str_eqb path "/src" then Ok "/src"
  else if str_eqb path "jobs.nix" then Ok "/src/jobs.nix"
  else if str_eqb path "/src/jobs.nix" then Ok "/src/jobs.nix"
  else Err (report "No such file or directory").

Lemma src_canonical p c : src_canonicalize p = Ok c → c = "/src" ∨ c = "/src/jobs.nix".
Proof. unfold src_canonicalize. repeat case_match; intros [= <-]; auto. Qed.

Lemma src_canonical_absolute p c : src_canonicalize p = Ok c → is_absolute c = true.
Proof. by intros [-> | ->]%src_canonical. Qed.

Lemma src_canonical_fixed p c : src_canonicalize p = Ok c → src_canonicalize c = Ok c.
Proof. by intros [-> | ->]%src_canonical. Qed.

Lemma daemon_config_canonical_witness :
  canonical_ref src_canonicalize ".#hydraJobs" "path:/src#hydraJobs".
Proof.
  exact (proj1 (proj2 (daemon_config_canonical id id src_canonicalize
    (wire_config_flake ".#hydraJobs") (wire_config_flake "path:/src#hydraJobs")
    src_canonical_absolute src_canonical_fixed eq_refl))).
Defined.

(** ** Who evaluates *)

(** The answer to connecting to the daemon. *)
Definition connection (env : Surroundings) (socket : option string) : result IoError Connection :=
  connect_socket env (socket_path socket (socket_env env) (effective_uid env)).

Definition daemon_missing (env : Surroundings) (socket : option string) : Prop :=
  ∃ err, connection env socket = Err err ∧ io_kind err = NotFound.

(** The plans that evaluate in the process of the command. *)
Definition evaluates_here (env : Surroundings) (plan : CommandPlan) : Prop :=
  match plan with
  | PlanEval _ socket use_daemon replay =>
      use_daemon = false ∨ (replay = false ∧ daemon_missing env socket)
  | PlanWatch _ socket use_daemon => use_daemon = false ∨ daemon_missing env socket
  | _ => False
  end.

(** The plans that ask the daemon, with the socket they name. *)
Definition asks_daemon (plan : CommandPlan) : option (option string) :=
  match plan with
  | PlanEval _ socket true _ | PlanWatch _ socket true | PlanQuery _ _ socket
  | PlanDiff _ socket => Some socket
  | _ => None
  end.

Section routes.
Context (stdout : list string → result IoError unit).
Context (to_string : Json → string).
Context (parse_response : string → Result Response).
Context (display_path debug_path : string → string).
Context (canonicalize : string → Result string).
Context (display : Report → string).

Abbreviation run env :=
  (run_plan stdout to_string parse_response display_path debug_path canonicalize env display).
Abbreviation ask env :=
  (run_client_or_local stdout to_string parse_response display_path env).
Abbreviation only env :=
  (run_daemon_only stdout to_string parse_response display_path env).

Lemma ask_missing env request socket fallback out :
  daemon_missing env socket → ask env request socket fallback out = fallback out.
Proof.
  intros (err & Hc & Hk). unfold run_client_or_local, allows_local_fallback. cbv zeta.
  unfold connection in Hc. by rewrite Hc, Hk.
Qed.

Lemma ask_present env request socket fallback out :
  ¬ daemon_missing env socket → ask env request socket fallback out = only env request socket out.
Proof.
  intros Hno. unfold run_client_or_local, run_daemon_only, allows_local_fallback. cbv zeta.
  destruct (connect_socket _ _) as [stream|err] eqn:Hc; [done|].
  destruct (io_kind err) eqn:Hk; [|done..]. destruct Hno. by exists err.
Qed.

Lemma daemon_missing_dec env socket : {daemon_missing env socket} + {¬ daemon_missing env socket}.
Proof.
  unfold daemon_missing. destruct (connection env socket) as [stream|err].
  - right. by intros (? & ? & _).
  - destruct (io_kind err) eqn:Hk; [left; eauto|right; intros (? & [= <-] & H); congruence..].
Qed.

(** A plan that does not evaluate here only asks the daemon, or runs a server. *)
Lemma run_plan_elsewhere env plan socket :
  ¬ evaluates_here env plan → asks_daemon plan = Some socket →
  ∃ request, ∀ out, run env plan out = with_request display_path debug_path canonicalize request
    (λ request, only env request socket) out.
Proof.
  intros Hno Hask. destruct plan as [c s ud rp|c s ud|c f s|c s|s f|l t]; simpl in Hno, Hask; try done.
  - destruct ud; [injection Hask as <-|done]. destruct rp; [by exists (request_replay (wire_config c))|].
    exists (request_eval (wire_config c)). intros out. simpl. unfold with_request.
    destruct (daemon_request _ _ _ _); [|done]. apply ask_present. intros Hm. apply Hno. by right.
  - destruct ud; [injection Hask as <-|done].
    exists (request_watch (wire_config c)). intros out. simpl. unfold with_request.
    destruct (daemon_request _ _ _ _); [|done]. apply ask_present. intros Hm. apply Hno. by right.
  - injection Hask as <-. by exists (request_query (wire_config c) f).
  - injection Hask as <-. by exists (request_diff (wire_config c)).
Qed.

(** Nix runs in the process of the command only when it must. A plan
    that names the daemon evaluates here only for [eval] without [--replay] and
    for [watch], and only if there is no socket; then it does what the same plan
    without the daemon does. Otherwise its result does not depend on what an
    evaluation here would give, and a failure to connect is an error with nothing
    printed. A plan without the daemon does not depend on any socket. *)
Theorem run_plan_routes env plan out :
  (¬ evaluates_here env plan → ∀ runs diffs,
     run (env <| session_run := runs |> <| session_diffs := diffs |>) plan out = run env plan out)
  ∧ (∀ c socket, daemon_missing env socket →
       let request := daemon_request display_path debug_path canonicalize
                        (request_eval (wire_config c)) in
       is_err request = false →
       run env (PlanEval c socket true false) out = run env (PlanEval c socket false false) out)
  ∧ (∀ c socket, daemon_missing env socket →
       let request := daemon_request display_path debug_path canonicalize
                        (request_watch (wire_config c)) in
       is_err request = false →
       run env (PlanWatch c socket true) out = run env (PlanWatch c socket false) out)
  ∧ (¬ evaluates_here env plan → ∀ socket err, asks_daemon plan = Some socket →
       connection env socket = Err err → ∃ report, run env plan out = (out, Err report))
  ∧ (asks_daemon plan = None → ∀ connect,
       run (env <| connect_socket := connect |>) plan out = run env plan out).
Proof.
  split_and!.
  - intros Hno runs diffs. destruct plan as [c s ud rp|c s ud|c f s|c s|s f|l t]; simpl in Hno |- *;
      try done; (destruct ud; [|destruct Hno; by left]); unfold with_request;
      destruct (daemon_request _ _ _ _); try done.
    + destruct rp; [done|]. rewrite !ask_present; [done|..]; intros Hm; apply Hno; by right.
    + rewrite !ask_present; [done|..]; intros Hm; apply Hno; by right.
  - intros c socket Hm. cbv zeta. unfold run_plan, with_request.
    destruct (daemon_request _ _ _ _) as [request|err]; [|intros [=]].
    intros _. by apply ask_missing.
  - intros c socket Hm. cbv zeta. unfold run_plan, with_request.
    destruct (daemon_request _ _ _ _) as [request|err]; [|intros [=]].
    intros _. by apply ask_missing.
  - intros Hno socket err Hask Hc.
    assert (∃ request, run env plan out = with_request display_path debug_path canonicalize request
      (λ request, only env request socket) out) as (request & ->).
    { destruct (run_plan_elsewhere env plan socket Hno Hask) as (request & ->). eauto. }
    unfold with_request. destruct (daemon_request _ _ _ _); [|eauto].
    unfold run_daemon_only. cbv zeta. unfold connection in Hc. rewrite Hc. eauto.
  - intros Hask connect. destruct plan as [c s [] rp|c s []|c f s|c s|s f|l t]; simpl in Hask; done || reflexivity.
Qed.
End routes.


(** A wire for the requests and responses of one session. *)
Definition small_request : Request := request_eval wire_config_default.
Definition encode_small_request (r : Request) : Result string :=
  match r with
  | ReqEval 2%N c => if decide (c = wire_config_default) then Ok "eval" else Err (report "too big")
  | _ => Err (report "too big")
  end.
Definition parse_small_request (line : string) : Result Request :=
  if str_eqb line "eval" then Ok small_request else Err (report "expected value").
Definition encode_small_response (r : Response) : Result string :=
  match r with
  | RespDone => Ok "done"
  | RespEvent (EvAttrSet attr [] []) =>
      if str_eqb attr "root" then Ok "root" else Err (report "too big")
  | _ => Err (report "too big")
  end.
Definition parse_small_response (line : string) : Result Response :=
  if str_eqb line "done" then Ok RespDone
  else if str_eqb line "root" then Ok (RespEvent (EvAttrSet "root" [] []))
  else Err (report "expected value").

Lemma small_wire_line line : line ∈ ["eval"; "done"; "root"] → wire_line line.
Proof.
  intros Hl. repeat (apply elem_of_cons in Hl as [->|Hl]; [|]); [| | |by apply elem_of_nil in Hl].
  all: split; [done| |done|done|done].
  all: intros Hin; repeat (apply elem_of_cons in Hin as [Hc|Hin]; [discriminate Hc|]);
    by apply elem_of_nil in Hin.
Qed.

#[export] Instance small_requests : Wire encode_small_request parse_small_request.
Proof.
  assert (∀ r line, encode_small_request r = Ok line → r = small_request ∧ line = "eval") as H.
  { intros [v c|v c|v c|v c f|v c] line; try done. simpl. repeat case_match; try done.
    intros [= <-]. by subst. }
  split; intros r line [-> ->]%H; [done|apply small_wire_line; by left].
Qed.

#[export] Instance small_responses : Wire encode_small_response parse_small_response.
Proof.
  assert (∀ r line, encode_small_response r = Ok line →
    (r = RespDone ∧ line = "done") ∨ (r = RespEvent (EvAttrSet "root" [] []) ∧ line = "root")) as H.
  { intros [ev|d| |m] line; try done; simpl.
    - destruct ev as [d|attr [|? ?] [|? ?]|e]; try done.
      destruct (str_eqb attr "root") eqn:E; [|done]. apply str_eqb_true in E as ->.
      intros [= <-]. by right.
    - intros [= <-]. by left. }
  split; intros r line [[-> ->]|[-> ->]]%H; try done;
    apply small_wire_line; [right; by left|right; right; by left].
Qed.

Definition small_run : Run := mkRun [EvAttrSet "root" [] []] (Ok Completed).
Definition small_activity : Activity :=
  mkActivity [Ok (EvAttrSet "root" [] [])] [] small_run.
Definition small_daemon : Connection :=
  daemon_connection plain_key encode_small_response (λ _, EmptyString) id (λ _, open_session config_default)
    encode_small_request parse_small_request 1000 small_activity daemon_init 4.
Definition small_surroundings : Surroundings :=
  mkSurroundings (Ok tt) (λ _, small_run) (λ _, []) None 1000 (λ _, Ok small_daemon)
    (λ _ _, Ok tt) (λ _ _, Ok tt).

Lemma small_request_fits : S (length (str_chars "eval")) ≤ MAX_REQUEST_BYTES.
Proof. unfold MAX_REQUEST_BYTES. simpl length. lia. Qed.

