(* ===== verification/Program.v ===== *)
(** * The programs and their entry points

    [crates/evix/src/lib.rs], the start of a run in [async_master.rs], [main] of
    [crates/evix-cli/src/main.rs], and the whole of a local [evix eval]: from its
    arguments, over the configuration, the pool of workers and their set-up, to
    the lines it prints and its exit status. *)
From S2P Require Import Prelude Types Graph Paths Config Traversal Fork WorkerProcess RemoteProto Eval Flake Worker RemoteWorker RemoteStart JsonWire Scheduler Pool Coordination Shutdown Session Evaluation Typing Args SessionCache Daemon Client.

(** ** Entry points of the library *)

Definition DEFAULT_STREAM_BUFFER_CAPACITY : N := 1024.

Section entry.
Context (display : Report → string).

(** [Result<()>] of the crate to the library's. *)
Definition run_worker (worker : Result unit) : result Error unit :=
  map_err (error_from display) worker.

Definition run_worker_if_requested (worker_env : option string) (worker : Result unit)
  : result Error bool :=
  match worker_env with
  | None => Ok false
  | Some _ => _ ← run_worker worker; Ok true
  end.

(** The two servers: [serve] returns only with an error. *)
Definition serve_remote_worker (addr token : string) (bound : Result unit) (turns : list AcceptTurn)
  : list nat * list nat * option Error :=
  let '(served, dropped, e) := serve addr (Some token) bound turns in
  (served, dropped, error_from display <$> e).
Definition serve_tokenless_remote_worker (addr : string) (bound : Result unit)
    (turns : list AcceptTurn) : list nat * list nat * option Error :=
  let '(served, dropped, e) := serve addr None bound turns in
  (served, dropped, error_from display <$> e).

(** ** The program [evix] *)

(** What a process has written, as messages of the worker protocol or as lines,
    and its exit status once it ended. *)
Record ProcessRun := mkProcessRun {
  pr_messages : list ServerMsg;
  pr_lines : list string;
  pr_stderr : list string;
  pr_exit : option N;
}.

Definition worker_return (e : WorkerEnd) : option (Result unit) :=
  match e with Returned r => Some r | _ => None end.

(** [Debug] of the two kinds of errors. *)
Context (debug_error : Error → string) (debug_report : Report → string).

(** [run_cli], with the effects of a plan; the parser exits with status 0. *)
Definition run_cli (parsed : Parsed) (run : CommandPlan → list string → list string * Result unit)
  : ProcessRun :=
  match parsed with
  | Exits => mkProcessRun [] [] [] (Some 0%N)
  | Returns (Err err) => mkProcessRun [] [] [debug_report err] (Some 1%N)
  | Returns (Ok (_, plan)) =>
      match run plan [] with
      | (lines, Ok _) => mkProcessRun [] lines [] (Some 0%N)
      | (lines, Err err) => mkProcessRun [] lines [debug_report err] (Some 1%N)
      end
  end.

(** [main]; [conversation] is what the worker would do on its standard input. *)
Definition cli_main (worker_env : option string) (conversation : list ServerMsg * WorkerEnd)
    (parsed : Parsed) (run : CommandPlan → list string → list string * Result unit)
  : ProcessRun :=
  let '(messages, worker) :=
    match worker_env with
    | Some _ => (conversation.1, worker_return conversation.2)
    | None => ([], Some (Ok tt))
    end in
  match worker with
  | None => mkProcessRun messages [] [] None
  | Some worker =>
      match run_worker_if_requested worker_env worker with
      | Ok true => mkProcessRun messages [] [] (Some 0%N)
      | Err err => mkProcessRun messages [] ["Error: " +:+ debug_error err] (Some 1%N)
      | Ok false => run_cli parsed run
      end
  end.
End entry.

(** ** A run *)

Section run.
Context (display : Report → string) (debug_path : string → string).
Context (absolute : string → Result string).
Context (export_locked_flake : Config → Result (option string)).
Context (unix_pair io_pipe : nat → Result (N * N)).

(** [run] of [async_master.rs] up to its workers: what they are told, and who they
    are. *)
Definition run_start (config : Config) : Result (WorkerConfig * list WorkerSpec) :=
  _ ← validate_config debug_path config;
  worker_config ← worker_config absolute export_locked_flake config;
  specs ← worker_specs unix_pair io_pipe config;
  if match specs with [] => true | _ => false end
  then Err (report "evaluation requires at least one local or remote worker")
  else Ok (worker_config, specs).

Context (on_event : list Event → Event → Result unit).
Context (answers : WorkerConfig → WorkerSpec → list string →
                   option (Result (Event * WorkerStatus)) → Prop).

(** What [run] may do: be refused, or return after its coordinator finished in a
    reachable state and its workers were ended from there. *)
Inductive runs (config : Config) : Run → Prop :=
  | run_refused err :
      run_start config = Err err → runs config (mkRun [] (Err err))
  | run_ended worker_config specs s r e res :
      run_start config = Ok (worker_config, specs) →
      reachable display on_event (c_item_timeout_seconds config) (answers worker_config) specs s →
      s_phase s = Finished r →
      rtc (end_step display (c_item_timeout_seconds config) (answers worker_config))
        (ending_of s r) e →
      en_phase e = RunReturned res →
      runs config (mkRun (s_emitted s) res).
End run.

(** ** Lemmas *)

(** Standard output that takes every line. *)
Definition open_stdout (out : list string) : result IoError unit := Ok tt.

Lemma local_loop_open {A} (text : A → string) (items : list A) (rest : list (result Error A)) out :
  local_loop open_stdout text ((Ok <$> items) ++ rest) out
  = local_loop open_stdout text rest (out ++ (text <$> items)).
Proof.
  revert out. induction items as [|item items IH]; intros out; simpl; [by rewrite app_nil_r|].
  rewrite IH. by rewrite <-(assoc_L (++)).
Qed.

(** A local evaluation prints the events of its run, and fails unless it completed. *)
Lemma run_local_eval_open to_string env display config :
  built_runtime env = Ok tt →
  let run := session_run env config in
  ∃ r, run_local_eval open_stdout to_string env display config []
       = (event_line to_string <$> run_events run, r)
     ∧ (r = Ok tt ↔ run_outcome run = Ok Completed).
Proof.
  intros Hbuilt run. unfold run_local_eval, with_runtime. rewrite Hbuilt.
  cbn [with_context map_err]. unfold stream_items. fold run. rewrite local_loop_open.
  unfold initial_task, evaluate_initial, evaluate.
  destruct (run_outcome run) as [[|]|err]; cbn [mbind result_bind];
    eexists; (split; [reflexivity|done]).
Qed.

Lemma collect_results_fmap {E A B C} (f : B → result E C) (g : A → B) (h : A → C) l :
  (∀ a, a ∈ l → f (g a) = Ok (h a)) → collect_results f (g <$> l) = Ok (h <$> l).
Proof.
  induction l as [|a l IH]; intros Hf; [done|]. cbn [fmap list_fmap collect_results].
  rewrite Hf by by left. fold (g <$> l). rewrite IH by (intros; apply Hf; by right). done.
Qed.

(** Ending the workers never makes a run complete. *)
Lemma ended_run_completed display timeout answers s r e :
  rtc (end_step display timeout answers) (ending_of s r) e →
  en_phase e = RunReturned (Ok Completed) → r = Ok Completed.
Proof.
  intros Hsteps Hphase. pose proof (end_steps_outcome _ _ _ _ _ Hsteps) as Hout.
  apply end_steps_inv in Hsteps; [|apply ending_of_inv].
  destruct (ending_result e _ Hsteps Hphase) as [_ [[H _]|(slot & err & i & _ & _ & [=])]].
  by rewrite H, Hout.
Qed.

Lemma run_start_ok debug_path absolute export_locked_flake unix_pair io_pipe config wc specs :
  run_start debug_path absolute export_locked_flake unix_pair io_pipe config = Ok (wc, specs) →
  validate_config debug_path config = Ok tt
  ∧ worker_config absolute export_locked_flake config = Ok wc
  ∧ specs ≠ [] ∧ ∀ i spec, specs !! i = Some spec → spec_id spec = i.
Proof.
  unfold run_start. intros ([] & Hvalid & H)%bind_ok.
  apply bind_ok in H as (wc' & Hwc & H). apply bind_ok in H as (specs' & Hspecs & H).
  destruct specs' as [|spec specs']; [done|]. injection H as <- <-. split_and!; [done..|].
  destruct (worker_specs_kinds _ _ _ _ Hspecs) as [Hids _].
  intros i s. by apply ids_lookup.
Qed.

(** ** The command [evix eval] *)

Section command.
Context {V P D : Type} `{NixApi V P D}.
Context (display : Report → string) (debug debug_path display_path : string → string).
Context (debug_server : ServerMessage → string) (debug_list : list string → string).
Context (json_to_string : Json → Result string) (json_from_str : string → Result Json).
Context (strings_to_string : list string → Result string).
Context (strings_from_str : string → Result (list string)).
Context (absolute canonicalize : string → Result string).
Context (export_locked_flake : Config → Result (option string)).
Context (unix_pair io_pipe : nat → Result (N * N)) (on_event : list Event → Event → Result unit).
(** What a worker makes of its set-up message, and what surrounds the workers. *)
Context (setup : WorkerConfig → Result (V * @EvalEnv V * Forker)).
Context (world : WorkerWorld) (remains : Remains).

Abbreviation run_start :=
  (run_start debug_path absolute export_locked_flake unix_pair io_pipe).

(** What a worker that was set up answers. *)
Definition setup_answers (wc : WorkerConfig) (spec : WorkerSpec) (path : list string)
    (answer : option (Result (Event * WorkerStatus))) : Prop :=
  ∃ root env f, setup wc = Ok (root, env, f)
    ∧ worker_answers display debug debug_path debug_server debug_list json_to_string json_from_str
        strings_to_string strings_from_str root env (wc_max_memory_size wc) world remains
        spec path answer.

Abbreviation runs :=
  (runs display debug_path absolute export_locked_flake unix_pair io_pipe on_event setup_answers).

Context (parent : stays_parent world).
Context (memory_known : ∀ k, is_err (ww_max_rss_kb world k) = false).

(** A completed run had workers that were set up, and emitted their tree. *)
Lemma completed_run_tree config run :
  runs config run → run_outcome run = Ok Completed →
  (∀ wc specs, run_start config = Ok (wc, specs) → (N.of_nat (length specs) < usize_modulus)%N) →
  ∃ wc specs root env f,
    run_start config = Ok (wc, specs) ∧ setup wc = Ok (root, env, f)
    ∧ run_events run ≡ₚ traverse (outcome display debug root env) MAX_ATTR_DEPTH [].
Proof.
  intros Hrun Hcompleted Hsmall. 
  destruct Hrun as [err|wc specs s r e res Hstart Hreach Hphase Hend Hres]; [done|].
  simpl in Hcompleted. subst res. pose proof (ended_run_completed _ _ _ _ _ _ Hend Hres) as ->.
  destruct (run_start_ok _ _ _ _ _ _ _ _ Hstart) as (_ & _ & Hne & Hids).
  pose proof (Hsmall _ _ Hstart) as Hlen.
  destruct (setup wc) as [[[root env] f]|err] eqn:Hsetup.
  - exists wc, specs, root, env, f. split_and!; [done|done|].
    etrans; [eapply (completed_subtree display _ _ (setup_answers wc) (outcome display debug root env) MAX_ATTR_DEPTH specs)|].
    + by split_and!.
    + apply outcome_depth_bounded.
    + intros spec path answer (root' & env' & f' & Hsetup' & Hanswer).
      rewrite Hsetup in Hsetup'. injection Hsetup' as <- <- <-.
      by eapply worker_answers_outcome.
    + done.
    + done.
    + unfold subtree. by rewrite Nat.sub_0_r.
  - destruct (reachable_completed _ _ _ _ _ Hids Hlen Hne _ Hreach Hphase) as (w & Hw & Hdone & _).
    exfalso. apply rtc_inv in Hw as [<-|(w' & Hvisit & _)]; [done|].
    destruct Hvisit as [w0 path rest event w' _ Hproduces _ _].
    destruct Hproduces as (spec & answer & _ & Hanswer & _).
    destruct Hanswer as (root & env & f & Hsetup' & _). congruence.
Qed.

(** C1 (command): what [evix eval] prints is what the input holds. The process of a
    local evaluation prints one line per event of its run and nothing else, and
    exits with 0 exactly when the run completed, else with 1 and an error. When it
    exits with 0, its workers were set up with the configuration of its arguments,
    and the lines, parsed, are the events of the traversal of their root value,
    each once, whatever the pool. The same program started as a worker prints no
    line and reads no argument: it speaks the protocol and nothing else. *)
Theorem eval_command_end_to_end to_string from_str parse_response debug_error debug_report
    conversation verbosity config socket replay env :
  built_runtime env = Ok tt →
  runs config (session_run env config) →
  (∀ wc specs, run_start config = Ok (wc, specs) → (N.of_nat (length specs) < usize_modulus)%N) →
  (∀ event, event ∈ run_events (session_run env config) →
     from_str (to_string (event_value event)) = Ok (event_value event)) →
  let run := session_run env config in
  let commands := run_plan open_stdout to_string parse_response display_path debug_path
                    canonicalize env display in
  let main worker_env parsed :=
    cli_main display debug_error debug_report worker_env conversation parsed commands in
  let p := main None (Returns (Ok (verbosity, PlanEval config socket false replay))) in
  pr_messages p = [] ∧ pr_lines p = event_line to_string <$> run_events run
  ∧ match run_outcome run with
    | Ok Completed => pr_exit p = Some 0%N ∧ pr_stderr p = []
    | _ => pr_exit p = Some 1%N ∧ pr_stderr p ≠ []
    end
  ∧ (pr_exit p = Some 0%N → ∃ wc specs root eval_env f events,
       run_start config = Ok (wc, specs) ∧ setup wc = Ok (root, eval_env, f)
       ∧ collect_results (parse_event_line debug from_str) (pr_lines p) = Ok events
       ∧ events ≡ₚ traverse (outcome display debug root eval_env) MAX_ATTR_DEPTH [])
  ∧ ∀ v parsed, pr_messages (main (Some v) parsed) = conversation.1
      ∧ pr_lines (main (Some v) parsed) = [].
Proof.
  intros Hbuilt Hrun Hsmall Hjson run commands main p.
  destruct (run_local_eval_open to_string env display config Hbuilt) as (r & Hlocal & Hr).
  fold run in Hlocal, Hr.
  assert (p = match r with
    | Ok _ => mkProcessRun [] (event_line to_string <$> run_events run) [] (Some 0%N)
    | Err err =>
        mkProcessRun [] (event_line to_string <$> run_events run) [debug_report err] (Some 1%N)
    end) as Hp.
  { unfold p, main, cli_main, run_cli, commands. cbn -[run_local_eval]. rewrite Hlocal. by destruct r. }
  split_and!.
  - rewrite Hp. by destruct r.
  - rewrite Hp. by destruct r.
  - rewrite Hp. destruct r as [[]|err].
    + rewrite (proj1 Hr eq_refl). done.
    + destruct (run_outcome run) as [[|]|e]; [|done..].
      by discriminate (proj2 Hr eq_refl).
  - intros Hexit. rewrite Hp in Hexit. destruct r as [[]|err]; [|done].
    destruct (completed_run_tree config run Hrun (proj1 Hr eq_refl) Hsmall)
      as (wc & specs & root & eval_env & f & Hstart & Hsetup & Hperm).
    exists wc, specs, root, eval_env, f, (run_events run). split_and!; [done|done| |done].
    rewrite Hp. cbn [pr_lines]. rewrite <-(list_fmap_id (run_events run)) at 2.
    apply collect_results_fmap. intros event Hevent. by apply event_line_parses, Hjson.
  - intros v parsed. unfold main, cli_main. destruct conversation as [messages [|[[]|err]|slot]]; done.
Qed.
End command.

(** ** A concrete command *)

#[export] Instance small_nix_state : NixState Small := {
  eval_from_string _ _ := Ok SmallRoot;
  eval_from_file _ := Ok SmallRoot;
  make_string _ := Ok SmallText;
  make_attrs _ := Ok SmallRoot;
}.

Definition small_flake : FlakeApi Small unit unit unit unit unit :=
  mkFlakeApi (Ok tt) (Ok tt) (Ok "/home/user") (Ok tt) (λ _ _, Ok tt) (λ _ _, Ok (tt, EmptyString))
    (Ok tt) (λ _ _, Ok tt) (λ _ _ _, Ok tt) (λ _ _, Ok tt) (λ _, Ok SmallRoot) (λ _, Ok "graph")
    (λ _, Ok tt) (λ _, Ok tt) (λ _ _, Ok SmallRoot).

Definition small_setup : WorkerConfig → Result (Small * @EvalEnv Small * Forker) :=
  worker_setup id small_flake parse_tree (Ok tt) (Ok tt) (Ok []) (Ok "daemon") tree_world.

Definition small_worker : WorkerConfig := worker_config_from small_config.
Definition small_specs : list WorkerSpec := [mkWorkerSpec 0 "local" (LocalWorker None ForkNone)].
Definition small_eval_env : @EvalEnv Small :=
  mkEvalEnv None (eval_options_from small_worker) (mkEvalHelpers SmallRoot "/nix/store") tree_world.

Definition small_outcome (path : list string) : Event :=
  outcome quiet_display id SmallRoot small_eval_env path.

Definition small_run_state (n : nat) : Sys :=
  Nat.iter n (drive quiet_display demo_sink DEFAULT_ITEM_TIMEOUT_SECONDS
    (λ _ item, Some (Ok (small_outcome (item_path item), Ready)))) (sys_init small_specs false).

Definition small_setup_answers : WorkerConfig → WorkerSpec → list string →
    option (Result (Event * WorkerStatus)) → Prop :=
  setup_answers quiet_display id id (λ _, "message") (str_join ".") print_tree parse_tree print_list
    parse_list small_setup calm_world (mkRemains None EmptyString).

(** The items of this run are at the two paths of the tree. *)
Definition small_paths (s : Sys) : bool :=
  forallb (λ w, match ws_task w with
                | Working item => bool_decide (item_path item ∈ [[]; ["hello"]])
                | _ => true
                end) (s_workers s).

Lemma small_answers_sound spec path :
  path ∈ [[]; ["hello"]] → small_setup_answers small_worker spec path (Some (Ok (small_outcome path, Ready))).
Proof.
  intros Hpath. exists SmallRoot, small_eval_env, (mkForker [] 0 [] (4096 * 1024)). split; [reflexivity|].
  assert (texts_wf path) as Hwf.
  { repeat (apply elem_of_cons in Hpath as [->|Hpath]; [by apply short_texts_wf|]).
    by apply elem_of_nil in Hpath. }
  apply (worker_answers_carried _ _ _ _ _ _ _ _ _ _ _ (wc_max_memory_size small_worker) calm_world);
    [apply calm_world_parent|apply calm_world_memory|]. split; [done|].
  apply (process_attr_typed quiet_display no_number id print_tree parse_tree print_list parse_list
    print_tree_wf (λ l _, print_list_wf l)). exact Hwf.
Qed.

Lemma small_run_reachable :
  reachable quiet_display demo_sink DEFAULT_ITEM_TIMEOUT_SECONDS (small_setup_answers small_worker)
    small_specs (small_run_state 13).
Proof.
  apply drive_reachable_at. intros k Hk w item Hw Htask. apply small_answers_sound.
  assert (forallb (λ k, small_paths (small_run_state k)) (seq 0 13) = true) as Hall
    by (vm_compute; reflexivity).
  rewrite forallb_forall in Hall. specialize (Hall k). rewrite in_seq in Hall.
  specialize (Hall ltac:(lia)). unfold small_paths in Hall. rewrite forallb_forall in Hall.
  apply list_elem_of_In in Hw. specialize (Hall _ Hw). rewrite Htask in Hall.
  by apply bool_decide_eq_true in Hall.
Qed.

(** Its end; no item is in evaluation any more. *)
Definition small_ending (n : nat) : Ending :=
  Nat.iter n (end_drive quiet_display DEFAULT_ITEM_TIMEOUT_SECONDS
    (λ _ item, Some (Ok (small_outcome (item_path item), Ready))))
    (ending_of (small_run_state 13) (Ok Completed)).

Definition small_run : Run := mkRun (s_emitted (small_run_state 13)) (Ok Completed).

Definition small_surroundings : Surroundings :=
  mkSurroundings (Ok tt) (λ _, small_run) (λ _, []) None 1000
    (λ _, Err (mkIoError NotFound (report "no socket"))) (λ _ _, Ok tt) (λ _ _, Ok tt).

Lemma small_runs config :
  config = small_config →
  runs quiet_display id (λ path, Ok path) (λ _, Ok None) demo_pair demo_pair demo_sink
    small_setup_answers config (session_run small_surroundings config).
Proof.
  intros ->. change (session_run small_surroundings small_config)
    with (mkRun (s_emitted (small_run_state 13)) (Ok Completed)).
  eapply (run_ended _ _ _ _ _ _ _ _ _ small_worker small_specs _ _ (small_ending 10));
    [vm_compute; reflexivity|exact small_run_reachable|vm_compute; reflexivity| |vm_compute; reflexivity].
  apply end_drive_steps. intros k Hk w item Hw Htask. exfalso.
  assert (forallb (λ k, forallb (λ w, match w with
      | Some w => match ws_task w with Working _ => false | _ => true end
      | None => true
      end) (en_workers (small_ending k))) (seq 0 10) = true) as Hall by (vm_compute; reflexivity).
  rewrite forallb_elem_of in Hall. specialize (Hall k). rewrite elem_of_seq in Hall.
  specialize (Hall ltac:(lia)). rewrite forallb_elem_of in Hall. specialize (Hall _ Hw).
  simpl in Hall. by rewrite Htask in Hall.
Qed.

Definition small_text (json : Json) : string := print_any (json_tree json).

Lemma small_text_parses event :
  event ∈ run_events small_run →
  parse_tree (small_text (event_value event)) = Ok (event_value event).
Proof.
  intros Hin. unfold parse_tree, small_text. rewrite (proj2 (print_any_wf _)).
  cbn [fmap result_fmap]. f_equal. vm_compute in Hin.
  repeat (apply elem_of_cons in Hin as [->|Hin]; [vm_compute; reflexivity|]). by apply elem_of_nil in Hin.
Qed.

Lemma eval_command_end_to_end_witness :
  let p := cli_main quiet_display show_error quiet_display None ([], Returned (Ok tt))
    (Returns (Ok (mkVerbosity 0 0, PlanEval small_config None false false)))
    (run_plan open_stdout small_text (λ _, Ok RespDone) id id (λ path, Ok path) small_surroundings
       quiet_display) in
  pr_exit p = Some 0%N ∧ ∃ events,
    collect_results (parse_event_line id parse_tree) (pr_lines p) = Ok events
    ∧ events ≡ₚ [small_outcome []; small_outcome ["hello"]].
Proof.
  intros p.
  destruct (eval_command_end_to_end quiet_display id id id (λ _, "message") (str_join ".") print_tree
    parse_tree print_list parse_list (λ path, Ok path) (λ path, Ok path) (λ _, Ok None) demo_pair
    demo_pair demo_sink small_setup calm_world (mkRemains None EmptyString) calm_world_parent
    calm_world_memory small_text parse_tree (λ _, Ok RespDone) show_error quiet_display ([], Returned (Ok tt))
    (mkVerbosity 0 0) small_config None false small_surroundings eq_refl
    (small_runs small_config eq_refl)) as (_ & _ & [Hexit _] & Hevents & _).
  - intros wc specs Hstart. vm_compute in Hstart. injection Hstart as _ <-. vm_compute. reflexivity.
  - exact small_text_parses.
  - split; [exact Hexit|].
    destruct (Hevents Hexit) as (wc & specs & root & eval_env & f & events & Hstart & Hsetup & Hlines & Hperm).
    exists events. split; [exact Hlines|]. vm_compute in Hstart. injection Hstart as <- _.
    vm_compute in Hsetup. injection Hsetup as <- <- _. rewrite Hperm. vm_compute. reflexivity.
Defined.
