(* ===== verification/CoreTests.v ===== *)
(** * The unit tests of the evaluator's crates, run on the model

    The tests that [crates/evix/src/] and [crates/evix-protocol/src/lib.rs] hold
    beside their code, with their inputs and assertions: each is a statement
    under the name of the test, decided by computation. Tests of sockets,
    processes and the runtime have no counterpart here, and the text of JSON is
    not parsed: such a test begins with the value. *)
From S2P Require Import Prelude Types Paths Graph Config WorkerProcess RemoteProto Capnp Schema Wire Eval Flake LocalProcess RemoteWorker JsonWire Scheduler Session Watch.

(** ** Assertions *)

(** [str::contains(&str)] *)
Fixpoint contains (needle s : string) : bool :=
  starts_with needle s || match s with EmptyString => false | String _ s => contains needle s end.

(** A message of the error contains the text. *)
Fixpoint report_contains (needle : string) (r : Report) : bool :=
  match r with
  | report message => contains needle message
  | context note source => contains needle note || report_contains needle source
  end.
Definition fails_with {A} (needle : string) (r : Result A) : bool :=
  match r with Ok _ => false | Err err => report_contains needle err end.

Ltac run_test := repeat split; vm_compute; reflexivity.

#[export] Instance eta_filter : EtaRecord Filter := λ f,
  mkFilter (f_systems f) (f_attr_prefix f) (f_attr_prefixes f) (f_attrs f) (f_names f)
    (f_drv_paths f) (f_include_patterns f) (f_exclude_patterns f).
#[export] Instance eta_derivation : EtaRecord Derivation := λ d,
  mkDerivation (d_attr d) (d_attr_path d) (d_name d) (d_system d) (d_drv_path d) (d_outputs d)
    (d_meta d) (d_input_drvs d) (d_constituents d) (d_gc_root_error d).

(** ** [state.rs] *)

Definition drv (system : string) (attr_path : list string) : Derivation :=
  mkDerivation (str_join "." attr_path) attr_path "job" system "/nix/store/job.drv" ∅ None ∅
    None None.

Definition filter_matches_system_and_attr_prefix : Prop :=
  let job := drv "x86_64-linux" ["hydraJobs"; "release"] in
  let filter system :=
    filter_default <| f_systems := Some [system] |> <| f_attr_prefix := Some ["hydraJobs"] |> in
  matches_filter job (filter "x86_64-linux") = true
  ∧ matches_filter job (filter "aarch64-linux") = false.

Definition filter_matches_expanded_fields : Prop :=
  let job := (drv "x86_64-linux" ["hydraJobs"; "release"])
               <| d_name := "release-job" |> <| d_drv_path := "/nix/store/release-job.drv" |> in
  matches_filter job (filter_default
    <| f_attr_prefixes := Some [["packages"]; ["hydraJobs"]] |>
    <| f_attrs := Some [["hydraJobs"; "release"]] |>
    <| f_names := Some ["release-job"] |>
    <| f_drv_paths := Some ["/nix/store/release-job.drv"] |>
    <| f_include_patterns := Some ["hydraJobs.*"] |>
    <| f_exclude_patterns := Some ["*.debug"] |>) = true
  ∧ matches_filter job (filter_default <| f_include_patterns := Some ["packages.*"] |>) = false
  ∧ matches_filter job (filter_default <| f_exclude_patterns := Some ["hydraJobs.*"] |>) = false.

Definition diff_treats_drv_path_changes_as_remove_and_add : Prop :=
  let old := drv "x86_64-linux" ["job"] in
  let new := old <| d_drv_path := "/nix/store/new-job.drv" |> in
  let diff := diff_graphs {[d_attr_path old := old]} {[d_attr_path new := new]} [] in
  d_drv_path <$> head (removed diff) = Some (d_drv_path old)
  ∧ d_drv_path <$> head (added diff) = Some (d_drv_path new).

Example state_tests :
  filter_matches_system_and_attr_prefix ∧ filter_matches_expanded_fields
  ∧ diff_treats_drv_path_changes_as_remove_and_add.
Proof. run_test. Qed.

(** ** [async_master/tests.rs] *)

Definition scheduler_with_work : Scheduler := mkScheduler [mkWorkItem ["job"]] 0 None.
Definition derivation (system : string) : Event := EvDerivation (drv system ["job"]).
Definition local_worker (id : nat) : WorkerSpec :=
  mkWorkerSpec id ("local#" +:+ show_N (N.of_nat id)) (LocalWorker None ForkNone).
Definition remote_worker (id : nat) (systems : list string) : WorkerSpec :=
  mkWorkerSpec id ("remote#" +:+ show_N (N.of_nat id))
    (RemoteKind (mkRemote ("h" +:+ show_N (N.of_nat id) +:+ ":7357") systems 1 None)).

(** The worker 0 evaluates the only item to a derivation for aarch64. *)
Definition place_derivation (workers : list WorkerSpec) : option (CompletedWork * NextWork) :=
  worker ← head workers;
  match next_for scheduler_with_work (spec_id worker) with
  | (scheduler, Dispatch item) =>
      let '(scheduler, completed) :=
        complete scheduler worker workers item (derivation "aarch64-linux") in
      Some (completed, (next_for scheduler 1).2)
  | _ => None
  end.

Definition scheduler_reuses_derivation_when_pool_owns_system : Prop :=
  place_derivation [remote_worker 0 ["x86_64-linux"]; remote_worker 1 ["aarch64-linux"]]
  = Some (mkCompletedWork true None, Done).

Definition scheduler_reuses_derivation_when_local_worker_owns_system : Prop :=
  place_derivation [remote_worker 0 ["x86_64-linux"]; local_worker 1]
  = Some (mkCompletedWork true None, Done).

Definition scheduler_fails_when_no_worker_accepts_derivation_system : Prop :=
  match place_derivation [remote_worker 0 ["x86_64-linux"]] with
  | Some (mkCompletedWork emit (Some error), _) =>
      emit = false ∧ contains "aarch64-linux" error = true
  | _ => False
  end.

Definition remotes_of (workers : N) : Config :=
  config_default <| c_remotes := [mkRemote "worker:7357" ["x86_64-linux"] workers None] |>.

Definition config_rejects_zero_remote_workers : Prop :=
  fails_with "must be greater than zero" (validate_config id (remotes_of 0)) = true.
Definition config_allows_tokenless_remote : Prop := validate_config id (remotes_of 1) = Ok tt.
Definition config_rejects_zero_item_timeout : Prop :=
  fails_with "item timeout"
    (validate_config id (config_default <| c_item_timeout_seconds := 0%N |>)) = true.

Definition display_report (r : Report) : string :=
  match r with report message => message | context note _ => note end.

Definition worker_failure_becomes_non_fatal_attribute_error : Prop :=
  match worker_failure_event display_report (local_worker 0) (mkWorkItem ["jobs"; "bad"])
          (report "process died") with
  | EvError error =>
      e_attr error = "jobs.bad" ∧ e_attr_path error = ["jobs"; "bad"]
      ∧ contains "worker local#0 failed" (e_error error) = true
      ∧ contains "process died" (e_error error) = true
      ∧ e_fatal error = false
  | _ => False
  end.

Definition abort_workers_cancels_in_flight_worker_tasks : Prop :=
  abort_workers [JoinAborted] = Ok tt.

Example scheduler_tests :
  scheduler_reuses_derivation_when_pool_owns_system
  ∧ scheduler_reuses_derivation_when_local_worker_owns_system
  ∧ scheduler_fails_when_no_worker_accepts_derivation_system
  ∧ config_rejects_zero_remote_workers ∧ config_allows_tokenless_remote
  ∧ config_rejects_zero_item_timeout ∧ worker_failure_becomes_non_fatal_attribute_error
  ∧ abort_workers_cancels_in_flight_worker_tasks.
Proof. run_test. Qed.

(** *** The simulated runs of [tests.rs] *)

Definition u64 (n : N) : N := n `mod` 2 ^ 64.

(** [Rng]: xorshift on 64 bits; an operation gives the state after it. *)
Definition rng_new (seed : N) : N := N.lor seed 1.
Definition next_u64 (x : N) : N :=
  let x := N.lxor x (u64 (N.shiftl x 13)) in
  let x := N.lxor x (N.shiftr x 7) in
  N.lxor x (u64 (N.shiftl x 17)).
Definition below (rng n : N) : N * N := let rng := next_u64 rng in (rng, rng `mod` n)%N.
Definition chance (rng pct : N) : N * bool :=
  let rng := next_u64 rng in (rng, (rng `mod` 100 <? pct)%N).

Inductive Node : Type := NodeSet (names : list string) | NodeDrv (system : string) | NodeErr.
Abbreviation Tree := (list (list string * Node)).

Definition SYSTEMS : list string := ["x86_64-linux"; "aarch64-linux"; "riscv64-linux"].

(** [build_node], whose depth is at most 3: [fuel] is what is left of it. *)
Fixpoint build_node (fuel : nat) (tree : Tree) (path : list string) (rng : N) : N * Tree :=
  let '(rng, n) := below rng 4 in
  let names := (λ i, "a" +:+ show_N (N.of_nat i)) <$> seq 0 (N.to_nat (1 + n)) in
  let '(rng, tree) :=
    foldl (λ '(rng, tree) name,
      let child := path ++ [name] in
      let inner rng :=
        match fuel with
        | O => None
        | S fuel =>
            let '(rng, leaf) := chance rng 55 in
            if leaf then None else Some (build_node fuel tree child rng)
        end in
      match inner rng with
      | Some result => result
      | None =>
          let rng := match fuel with O => rng | S _ => next_u64 rng end in
          let '(rng, err) := chance rng 10 in
          if err then (rng, (child, NodeErr) :: tree)
          else
            let '(rng, i) := below rng 3 in
            (rng, (child, NodeDrv (default "" (SYSTEMS !! N.to_nat i))) :: tree)
      end) (rng, tree) names in
  (rng, (path, NodeSet names) :: tree).

Definition gen_tree (seed : N) : Tree := (build_node 3 [] [] (rng_new seed)).2.

Definition tree_get (tree : Tree) (path : list string) : option Node :=
  snd <$> find (λ entry, path_eqb entry.1 path) tree.

Definition expected_drvs (tree : Tree) : list (list string) :=
  omap (λ '(path, node), match node with NodeDrv _ => Some path | _ => None end) tree.
Definition systems_present (tree : Tree) : list string :=
  omap (λ '(_, node), match node with NodeDrv system => Some system | _ => None end) tree.

Definition produce (tree : Tree) (path : list string) : option Event :=
  (λ node,
     match node with
     | NodeSet names => EvAttrSet (display_attr path) path names
     | NodeDrv system =>
         EvDerivation (mkDerivation (display_attr path) path (str_join "-" path) system
           ("/nix/store/" +:+ str_join "-" path +:+ ".drv") ∅ None ∅ None None)
     | NodeErr => EvError (mkEvalError (display_attr path) path "synthetic non-fatal error" false)
     end) <$> tree_get tree path.

Inductive SimResult : Type := SimDone (emitted : list (list string)) | SimFatal (error : string).

(** [run_sim]; [None] is a failed assertion or the cap of its steps. *)
Fixpoint sim_loop (steps : nat) (tree : Tree) (workers : list WorkerSpec) (scheduler : Scheduler)
    (emitted : list (list string)) (cursor waits : nat) : option SimResult :=
  match steps with
  | O => None
  | S steps =>
      worker ← workers !! (cursor `mod` length workers);
      match next_for scheduler (spec_id worker) with
      | (scheduler, Dispatch item) =>
          event ← produce tree (item_path item);
          let is_drv := match event with EvDerivation _ => true | _ => false end in
          let '(scheduler, completed) := complete scheduler worker workers item event in
          let emitted := if emit completed && is_drv then emitted ++ [item_path item] else emitted in
          match fatal_error completed with
          | Some error => Some (SimFatal error)
          | None => sim_loop steps tree workers scheduler emitted 0 0
          end
      | (scheduler, Wait) =>
          if S waits <=? length workers
          then sim_loop steps tree workers scheduler emitted (S cursor) (S waits) else None
      | (_, Done) => Some (SimDone emitted)
      | (_, Fatal error) => Some (SimFatal error)
      end
  end.
Definition run_sim (tree : Tree) (workers : list WorkerSpec) : option SimResult :=
  let cap := (length tree + 1) * (length workers + 1) * 64 + 1024 in
  sim_loop (cap - 1) tree workers scheduler_init [] 0 0.

Definition covered_topologies : list (list WorkerSpec) :=
  [ [local_worker 0];
    [local_worker 0; local_worker 1; local_worker 2];
    [remote_worker 0 ["x86_64-linux"]; remote_worker 1 ["aarch64-linux"];
     remote_worker 2 ["riscv64-linux"]];
    [remote_worker 0 ["x86_64-linux"; "aarch64-linux"];
     remote_worker 1 ["aarch64-linux"; "riscv64-linux"];
     remote_worker 2 ["riscv64-linux"; "x86_64-linux"]];
    [local_worker 0; remote_worker 1 ["x86_64-linux"]; remote_worker 2 []] ].

Definition paths_subset (l k : list (list string)) : bool :=
  forallb (λ path, existsb (path_eqb path) k) l.
Fixpoint no_duplicates (l : list (list string)) : bool :=
  match l with [] => true | path :: l => negb (existsb (path_eqb path) l) && no_duplicates l end.

(** One seed of [distributed_eval_is_topology_invariant] *)
Definition topology_invariant (seed : N) : bool :=
  let tree := gen_tree (u64 (seed * 11400714819323198485)) in
  let expected := expected_drvs tree in
  forallb (λ workers,
    match run_sim tree workers with
    | Some (SimDone emitted) =>
        no_duplicates emitted && paths_subset emitted expected && paths_subset expected emitted
    | _ => false
    end) covered_topologies.

(** One seed of [distributed_eval_fails_when_a_system_is_unowned], if it is
    [exercised] *)
Definition unowned_tree (seed : N) : Tree := gen_tree (u64 (seed * 1099511628211)).
Definition exercised (seed : N) : bool :=
  existsb (str_eqb "riscv64-linux") (systems_present (unowned_tree seed)).
Definition unowned_fails (seed : N) : bool :=
  let tree := unowned_tree seed in
  negb (exercised seed)
  || match run_sim tree [remote_worker 0 ["x86_64-linux"]; remote_worker 1 ["aarch64-linux"]] with
     | Some (SimFatal error) => contains "no worker accepted" error
     | _ => false
     end.

(** The tests, for the first [n] of their seeds: a few of their 300 and 200 are
    enough here, since the theorems about [Scheduler.v] hold of any tree. *)
Definition seeds (n : nat) : list N := N.of_nat <$> seq 1 n.
Definition distributed_eval_is_topology_invariant (n : nat) : Prop :=
  forallb topology_invariant (seeds n) = true.
Definition distributed_eval_fails_when_a_system_is_unowned (n : nat) : Prop :=
  forallb unowned_fails (seeds n) = true ∧ existsb exercised (seeds n) = true.

Example distributed_tests :
  distributed_eval_is_topology_invariant 2 ∧ distributed_eval_fails_when_a_system_is_unowned 3.
Proof. run_test. Qed.

(** ** [remote_proto.rs], on the tree of objects of [Capnp.v] *)

Definition setup_rejects_mismatched_protocol_version : Prop :=
  fails_with "unsupported worker protocol version"
    (message ← client_message.init_setup (H := Tree.tree_capnp)
       (λ setup, Ok (setup.set_protocol_version (WORKER_PROTOCOL_VERSION + 1) setup))
       (new_struct client_message.STRUCT_SIZE);
     Wire.decode_client message) = true.

Definition setup_preserves_item_timeout_seconds : Prop :=
  let lock := "{" +:+ String quote_char ("lockFile" +:+ String quote_char ":{}}") in
  let config := (worker_config_from config_default)
    <| wc_item_timeout_seconds := 3600%N |> <| wc_locked_flake_json := Some lock |> in
  match
    (bytes ← Wire.write_client (H := Tree.tree_capnp) id (Setup config None None);
     Wire.decode_client bytes)
  with
  | Ok (Setup config _ _) =>
      wc_item_timeout_seconds config = 3600%N ∧ wc_locked_flake_json config = Some lock
  | _ => False
  end.

Example remote_proto_tests :
  setup_rejects_mismatched_protocol_version ∧ setup_preserves_item_timeout_seconds.
Proof. run_test. Qed.

(** ** [remote_worker.rs] *)

Definition nix_option (key value : string) : WorkerConfig :=
  worker_config_from (config_default <| c_nix_options := [(key, value)] |>).

Definition remote_config_rejects_unsupported_nix_options : Prop :=
  fails_with "unsupported nix option" (validate_remote_config id
    (nix_option "allow-unsafe-native-code-during-evaluation" "true")) = true.
Definition remote_config_accepts_allowlisted_nix_options : Prop :=
  validate_remote_config id (nix_option "restrict-eval" "true") = Ok tt.
Definition store_dir_validation_accepts_absent_expectation : Prop :=
  validate_store_dir (Ok "/nix/store") None = Ok tt.
Definition store_dir_validation_rejects_mismatch : Prop :=
  fails_with "store dir mismatch"
    (validate_store_dir_against "/not-the-local-store" "/nix/store") = true.
Definition token_match_requires_exact_shared_secret : Prop :=
  token_matches (Some "secret") (Some "secret") = true
  ∧ token_matches None None = true
  ∧ token_matches (Some "secret") (Some "SECRET") = false
  ∧ token_matches (Some "secret-extra") (Some "secret") = false
  ∧ token_matches None (Some "secret") = false
  ∧ token_matches (Some "secret") None = false.

Example remote_worker_tests :
  remote_config_rejects_unsupported_nix_options ∧ remote_config_accepts_allowlisted_nix_options
  ∧ store_dir_validation_accepts_absent_expectation ∧ store_dir_validation_rejects_mismatch
  ∧ token_match_requires_exact_shared_secret.
Proof. run_test. Qed.

(** ** [eval.rs] and [worker.rs] *)

Definition gc_root_dir_accepts_nix_gcroot_subdir : Prop :=
  validate_gc_roots_dir_path "/nix/var/nix/gcroots/./evix/../evix" = Ok "/nix/var/nix/gcroots/evix".
Definition gc_root_dir_rejects_paths_outside_nix_gcroot_tree : Prop :=
  fails_with NIX_GCROOTS_DIR (validate_gc_roots_dir_path "/tmp/evix-gcroots") = true.
Definition gc_root_dir_rejects_parent_escape_from_nix_gcroot_tree : Prop :=
  fails_with NIX_GCROOTS_DIR (validate_gc_roots_dir_path "/nix/var/nix/gcroots/../bad") = true.
Definition gc_root_dir_rejects_relative_path : Prop :=
  fails_with "absolute" (validate_gc_roots_dir_path "gcroots") = true.

(** The file system of the test: links are made and found, also dangling ones. *)
Definition linked (links : list string) : GcWorld := mkGcWorld (λ _, Ok tt) Ok
  (λ link, if existsb (str_eqb link) links then Ok tt
           else Err (mkIoError NotFound (report "not found")))
  (λ _ link, if existsb (str_eqb link) links then Err (report "file exists") else Ok tt).
Definition gc_root_link_treats_dangling_symlink_as_existing : Prop :=
  let drv_path := "/nix/store/00000000000000000000000000000000-evix.drv" in
  let link := "/tmp/evix/00000000000000000000000000000000-evix.drv" in
  create_gc_root_link (linked []) "/tmp/evix" drv_path = ([GcSymlink drv_path link], Ok tt)
  ∧ create_gc_root_link (linked [link]) "/tmp/evix" drv_path = ([], Ok tt).

Definition local_flake_refs_require_checked_locks : Prop :=
  flake_lock_mode true = LockCheck
  ∧ is_local_flake_reference ".#hydraJobs" = true
  ∧ is_local_flake_reference "#hydraJobs" = true
  ∧ is_local_flake_reference "path:/tmp/evix-fixture#hydraJobs" = true
  ∧ is_local_flake_reference "../fixture#jobs" = true.
Definition non_path_flake_refs_keep_virtual_locks : Prop :=
  flake_lock_mode false = LockVirtual
  ∧ is_local_flake_reference "github:NixOS/nixpkgs#hello" = false.

Example evaluator_tests :
  gc_root_dir_accepts_nix_gcroot_subdir ∧ gc_root_dir_rejects_paths_outside_nix_gcroot_tree
  ∧ gc_root_dir_rejects_parent_escape_from_nix_gcroot_tree ∧ gc_root_dir_rejects_relative_path
  ∧ gc_root_link_treats_dangling_symlink_as_existing
  ∧ local_flake_refs_require_checked_locks ∧ non_path_flake_refs_keep_virtual_locks.
Proof. run_test. Qed.

(** ** [json.rs], from the values of its texts *)

(** The attribute [pkg]. *)
Definition pkg_derivation (gc_root_error : option string) : Derivation :=
  mkDerivation "pkg" ["pkg"] "pkg" "x86_64-linux" "/nix/store/pkg.drv" {["out" := None]} None
    {["/nix/store/input.drv" := ["out"]]} None gc_root_error.
Definition pkg_fields : list (string * Json) :=
  [("attr", JString "pkg"); ("attrPath", json_strings ["pkg"]); ("name", JString "pkg");
   ("system", JString "x86_64-linux"); ("drvPath", JString "/nix/store/pkg.drv");
   ("outputs", JObject [("out", JNull)]);
   ("inputDrvs", JObject [("/nix/store/input.drv", json_strings ["out"])])].

Definition parses_flat_derivation_event : Prop :=
  match parse_event_value id (JObject (jmap_of (pkg_fields ++ [("gcRootError", JString "link failed")]))) with
  | Ok (EvDerivation drv) =>
      d_attr drv = "pkg" ∧ d_system drv = "x86_64-linux"
      ∧ d_outputs drv !! "out" = Some None
      ∧ d_input_drvs drv !! "/nix/store/input.drv" = Some ["out"]
      ∧ d_gc_root_error drv = Some "link failed"
  | _ => False
  end.
Definition cli_event_value_flattens_derivation_event : Prop :=
  event_value (EvDerivation (pkg_derivation None)) = JObject (jmap_of pkg_fields).
Definition serde_event_shape_is_not_cli_flat_shape : Prop :=
  event_value (EvAttrSet "packages" ["packages"] ["hello"])
  = JObject (jmap_of [("attr", JString "packages"); ("attrPath", json_strings ["packages"]);
                      ("attrs", json_strings ["hello"])]).
Definition parses_flat_error_event : Prop :=
  match parse_event_value id (JObject (jmap_of
          [("attr", JString "bad"); ("attrPath", json_strings ["bad"]);
           ("error", JString "boom"); ("fatal", JBool false)])) with
  | Ok (EvError error) => e_error error = "boom" ∧ e_fatal error = false
  | _ => False
  end.

Example json_tests :
  parses_flat_derivation_event ∧ cli_event_value_flattens_derivation_event
  ∧ serde_event_shape_is_not_cli_flat_shape ∧ parses_flat_error_event.
Proof. run_test. Qed.

(** ** [lib.rs], and the requests of [evix-protocol] *)

Definition config_constructors_set_input_and_defaults : Prop :=
  c_input (config_expr "{}") = Expr "{}"
  ∧ c_workers (config_expr "{}") = c_workers config_default
  ∧ c_input (config_file "default.nix") = File "default.nix"
  ∧ c_input (config_flake ".#checks") = Flake ".#checks".

Definition config_builder_sets_library_options : Prop :=
  let config := foldl config_builder_call (config_flake ".#hydraJobs")
    ((Shared <$>
      [SetWorkers 4; SetMaxMemorySize 1024; SetItemTimeoutSeconds 60; SetMeta true;
       SetShowInputDrvs true; SetForceRecurse true; SetGcRootsDir "gcroots";
       AddAutoArgExpr "pkgs" "import <nixpkgs> {}"; AddAutoArgStr "system" "x86_64-linux";
       AddOverrideInput "nixpkgs" "github:NixOS/nixpkgs/nixos-unstable";
       AddNixOption "allow-import-from-derivation" "false";
       AddRemote (mkRemote "127.0.0.1:9000" ["x86_64-linux"] 2 (Some "secret"))])
     ++ [SetWorkerExe "evix-worker"]) in
  (c_workers config, c_max_memory_size config, c_item_timeout_seconds config) = (4, 1024, 60)%N
  ∧ (c_meta config, c_show_input_drvs config, c_force_recurse config) = (true, true, true)
  ∧ c_gc_roots_dir config = Some "gcroots"
  ∧ length (c_auto_args config) = 2 ∧ length (c_override_inputs config) = 1
  ∧ length (c_nix_options config) = 1 ∧ length (c_remotes config) = 1
  ∧ c_worker_exe config = Some "evix-worker".

Definition request_rejects_mismatched_protocol_version : Prop :=
  match validate_protocol (ReqEval (DAEMON_PROTOCOL_VERSION + 1) wire_config_default) with
  | Err error =>
      contains "unsupported daemon protocol version" (show_protocol_version_error error) = true
  | Ok _ => False
  end.

(** Serde's text of a request or configuration is left out: the inputs and
    arguments go through their wire forms. *)
Definition config_uses_daemon_wire_shape : Prop :=
  let auto_args := [("pkgs", ArgExpr "import <nixpkgs> {}"); ("name", ArgStr "hello")] in
  let json := auto_args_serialize auto_args in
  input_serialize (Flake ".#jobs") = WireFlake ".#jobs"
  ∧ json = [mkAutoArgWire "pkgs" KindExpr "import <nixpkgs> {}"; mkAutoArgWire "name" KindStr "hello"]
  ∧ input_deserialize (WireFlake ".#jobs") = Flake ".#jobs"
  ∧ length (auto_args_deserialize json) = 2.
Definition file_input_roundtrips : Prop :=
  input_serialize (File "default.nix") = WireFile "default.nix"
  ∧ input_deserialize (WireFile "default.nix") = File "default.nix".

Example configuration_tests :
  config_constructors_set_input_and_defaults ∧ config_builder_sets_library_options
  ∧ request_rejects_mismatched_protocol_version ∧ config_uses_daemon_wire_shape
  ∧ file_input_roundtrips.
Proof. run_test. Qed.

(** ** [watch.rs] *)

Definition local_flake_root_accepts_path_refs_and_fragments : Prop :=
  local_flake_root ".#hydraJobs" = Some "."
  ∧ local_flake_root "path:/repo#jobs" = Some "/repo"
  ∧ local_flake_root "github:owner/repo#jobs" = None.

Definition watched_paths_rejects_expression_input : Prop :=
  fails_with "watch requires a file or local flake input"
    (watched_paths (λ _, None) (λ _, Err (report "not JSON"))
       (config_default <| c_input := Expr "{}" |>)) = true.

(** Both kinds of sender behave as one here. *)
Definition watch_eval_error_is_reported_without_replacing_warm_state : Prop :=
  let drv := mkDerivation "old" ["old"] "old" "x86_64-linux" "/nix/store/old.drv" ∅ None ∅ None None in
  let graph : EvalGraph := {[d_attr_path drv := drv]} in
  let session := (open_session config_default) <| ss_state := completed_state graph [] |> in
  match apply_watch_evaluation_result display_report session
          (mkRun [] (Err (report "broken eval"))) graph true with
  | (session, [Err (Internal error)], Ok action) =>
      action = WatchContinue ∧ contains "broken eval" error = true
      ∧ d_drv_path <$> ws_graph (ss_state session) !! d_attr_path drv = Some (d_drv_path drv)
      ∧ ws_completed (ss_state session) = true ∧ ws_error (ss_state session) = None
  | _ => False
  end.

Example watch_tests :
  local_flake_root_accepts_path_refs_and_fragments ∧ watched_paths_rejects_expression_input
  ∧ watch_eval_error_is_reported_without_replacing_warm_state.
Proof. run_test. Qed.

(** ** [worker_process.rs] *)

(** The calls on a stub worker, the program [cat]: only the first of them awaits
    the task that drains its standard error. *)
Definition lifecycle_calls_are_idempotent_after_stderr_is_drained : Prop :=
  awaits (call_all [CallAbort; CallStop; CallWaitForRestart]
            (mkLocalProcess "idempotent" Spawned true None [])).2 = 1.

(** With the limit of the test as an argument. *)
Definition captured_stderr_keeps_only_bounded_tail (tail_limit : N) : Prop :=
  match capture_stderr tail_limit STDERR_LINE_LIMIT
          [Ok (repeat "a"%char 10); Ok (repeat "b"%char (N.to_nat tail_limit)); Ok []] with
  | Ok captured =>
      N.of_nat (length (cap_tail captured)) = tail_limit
      ∧ forallb (Ascii.eqb "b") (cap_tail captured) = true
  | Err _ => False
  end.

Definition rejects_newlines_in_nix_option_parts : Prop :=
  is_err (validate_nix_option_part "key" ("foo" +:+ String newline "bar")) = true
  ∧ is_err (validate_nix_option_part "value" ("foo" +:+ String carriage_return "bar")) = true.
Definition rejects_include_directive_nix_option_parts : Prop :=
  is_err (validate_nix_option_part "key" " include /tmp/nix.conf") = true
  ∧ is_err (validate_nix_option_part "value" "!include /tmp/nix.conf") = true
  ∧ is_err (validate_nix_option_part "value" "allowed-uris") = false.

(** The parent's environment is read, and no effect of the model writes it. *)
Definition nix_options_prepare_child_env_without_mutating_parent_env : Prop :=
  match prepare_nix_options_env
          (mkNixEnv (Some "/tmp/nix-a.conf:/tmp/nix-b.conf") None None (λ _, false)
             "/tmp/evix-nix-options.conf" (Ok tt)) [("restrict-eval", "true")] with
  | Ok (Some file) =>
      str_split ":" (no_conf_files file) = [no_path file; "/tmp/nix-a.conf"; "/tmp/nix-b.conf"]
      ∧ drop_options (Some file) = [RemoveOptions (no_path file)]
  | _ => False
  end.
Definition nix_options_include_default_user_conf_file_when_env_is_absent : Prop :=
  let default_config := "/tmp/xdg/nix/nix.conf" in
  str_split ":" <$> nix_user_conf_files
    (mkNixEnv None (Some "/tmp/xdg") None (str_eqb default_config) "" (Ok tt)) "/tmp/generated.conf"
  = Ok ["/tmp/generated.conf"; default_config].

Example worker_process_tests :
  lifecycle_calls_are_idempotent_after_stderr_is_drained
  ∧ captured_stderr_keeps_only_bounded_tail 64
  ∧ rejects_newlines_in_nix_option_parts ∧ rejects_include_directive_nix_option_parts
  ∧ nix_options_prepare_child_env_without_mutating_parent_env
  ∧ nix_options_include_default_user_conf_file_when_env_is_absent.
Proof. run_test. Qed.

(** ** [session.rs] *)

(** A stream whose runtime is missing: [spawn_session_task]. *)
Definition spawn_without_runtime_records_initial_error : Prop :=
  let session := (open_session config_default) <| ss_initial := Running |> in
  let '(session, _) := spawn_session_task session false true in
  ss_initial session = InitialFinished
  ∧ ws_error (ss_state session) = Some "Session streams require an active Tokio runtime".

Definition query_before_initial_eval_uses_matchable_error : Prop :=
  query_snapshot (open_session config_default) filter_default
  = Err (InitialEvaluationIncomplete "query_snapshot").

(** The evaluation fails as that of a missing worker executable does. *)
Definition failed_initial_evaluation_is_reported_after_stream_consumed : Prop :=
  let run := mkRun [] (Err (context "spawning worker process" (report "No such file"))) in
  let '(session, start) := stream (open_session config_default) true true true in
  let items := stream_items display_report session run in
  let '(session, _) := initial_task display_report session run in
  let message := "spawning worker process" in
  start = StreamSpawned ∧ items = [Err (Internal message)]
  ∧ (stream session true true true).2 = StreamRefused (EvaluationFailed message)
  ∧ query_snapshot session filter_default = Err (EvaluationFailed message)
  ∧ (diff_once display_report session run).2 = Err (EvaluationFailed message).

(** A stream and a bounded one start alike. *)
Definition duplicate_stream_uses_matchable_error : Prop :=
  (stream ((open_session config_default) <| ss_initial := InitialFinished |>) true true true).2
  = StreamRefused SessionStreamConsumed.
Definition bounded_capacity_has_minimum_one : Prop :=
  bounded_capacity 0 = 1%N ∧ bounded_capacity 8 = 8%N.
Definition cancel_sets_session_cancellation_flag : Prop :=
  ss_cancel (cancel (open_session config_default)) = true.

Example session_tests :
  spawn_without_runtime_records_initial_error ∧ query_before_initial_eval_uses_matchable_error
  ∧ failed_initial_evaluation_is_reported_after_stream_consumed
  ∧ duplicate_stream_uses_matchable_error ∧ bounded_capacity_has_minimum_one
  ∧ cancel_sets_session_cancellation_flag.
Proof. run_test. Qed.
