(* ===== verification/CommandTests.v ===== *)
(** * The unit tests of the programs' crates, run on the model

    The tests of [crates/evix-cli/src/args.rs] and [main.rs], and those of
    [crates/evix-daemon/src/tests.rs], as in [CoreTests.v]. The argument parser is
    a function that answers the one grouped command line of its test, so that the
    grouping before it and the plan after it are what is tested; the tests of its
    counted flags are left out. Sockets and files answer as the test sets them up. *)
From S2P Require Import Prelude Types Paths Config WorkerProcess Session SessionCache Daemon Signals Lifecycle Args Client CoreTests.

(** ** [args.rs] *)

#[export] Instance eta_eval_input : EtaRecord EvalInput := λ a,
  mkEvalInput (ei_flake a) (ei_expr a) (ei_file a) (ei_arg a) (ei_argstr a) (ei_override_input a)
    (ei_option a) (ei_remote a) (ei_remote_token a) (ei_insecure_tokenless_remote a) (ei_meta a)
    (ei_show_input_drvs a) (ei_workers a) (ei_max_memory a) (ei_item_timeout_seconds a)
    (ei_force_recurse a) (ei_gc_roots_dir a).

(** The flags of a command with [--expr] alone. *)
Definition expr_input (expr : string) : EvalInput :=
  mkEvalInput None (Some expr) None [] [] [] [] [] None false false false DEFAULT_WORKERS
    DEFAULT_MAX_MEMORY_MB DEFAULT_ITEM_TIMEOUT_SECONDS false None.

(** The parser's answer to the arguments it expects, and to others. *)
Definition parser (expected : list string) (command : Commands) (args : list string)
  : result ParseFailure Cli :=
  if bool_decide (args = expected) then Ok (mkCli (mkVerbosity 0 0) command)
  else Err (ParseError (report "unexpected arguments")).

Definition plan_of (token_env : option string) (args packed : list string) (command : Commands)
  : Result CommandPlan :=
  match parse_plan_from token_env (parser packed command) args with
  | Returns plan => snd <$> plan
  | Exits => Err (report "exit")
  end.

(** The texts of grouped values, and the values read from them. *)
Definition grouped (flag : string) (values : list string) : string :=
  flag +:+ "=" +:+ str_join (String PACK_SEP EmptyString) values.
Definition pairs_read (texts : list (list string)) : list Pair :=
  omap (λ text, ok (pair_from_arg (str_join (String PACK_SEP EmptyString) text))) texts.
Definition remotes_read (texts : list (list string)) : list RemoteArg :=
  omap (λ text, ok (remote_from_arg (str_join (String PACK_SEP EmptyString) text))) texts.

Definition eval_accepts_nix_style_argstr_pairs : Prop :=
  let expr := "{ label }: { inherit label; }" in
  match plan_of None ["eval"; "--expr"; expr; "--argstr"; "label"; "fallback"]
          ["eval"; "--expr"; expr; grouped "--argstr" ["label"; "fallback"]]
          (CmdEval ((expr_input expr) <| ei_argstr := pairs_read [["label"; "fallback"]] |>)
             None false false) with
  | Ok (PlanEval config _ _ _) => c_auto_args config = [("label", ArgStr "fallback")]
  | _ => False
  end.

Definition eval_accepts_nix_style_remote_triples : Prop :=
  let remote := ["worker:7357"; "x86_64-linux,aarch64-linux"; "2"] in
  match plan_of None (["eval"; "--expr"; "{}"; "--remote"] ++ remote ++ ["--remote-token"; "secret"])
          ["eval"; "--expr"; "{}"; grouped "--remote" remote; "--remote-token"; "secret"]
          (CmdEval ((expr_input "{}") <| ei_remote := remotes_read [remote] |>
                      <| ei_remote_token := Some "secret" |>) None false false) with
  | Ok (PlanEval config _ _ _) =>
      c_remotes config
      = [mkRemote "worker:7357" ["x86_64-linux"; "aarch64-linux"] 2 (Some "secret")]
  | _ => False
  end.

(** One remote worker, without a token. *)
Definition tokenless (insecure : bool) : Result CommandPlan :=
  let remote := ["worker:7357"; "x86_64-linux"; "1"] in
  let flags := if insecure then ["--insecure-tokenless-remote"] else [] in
  plan_of None (["eval"; "--expr"; "{}"] ++ flags ++ "--remote" :: remote)
    (["eval"; "--expr"; "{}"] ++ flags ++ [grouped "--remote" remote])
    (CmdEval ((expr_input "{}") <| ei_remote := remotes_read [remote] |>
                <| ei_insecure_tokenless_remote := insecure |>) None false false).
Definition eval_rejects_remote_without_token : Prop :=
  fails_with "remote evaluation requires --remote-token" (tokenless false) = true.
Definition eval_accepts_explicit_tokenless_remote : Prop :=
  match tokenless true with
  | Ok (PlanEval config _ _ _) => token <$> c_remotes config = [None]
  | _ => False
  end.

Definition item_timeout (text : string) (seconds : N) : Result CommandPlan :=
  let args := ["eval"; "--expr"; "{}"; "--item-timeout-seconds"; text] in
  plan_of None args args
    (CmdEval ((expr_input "{}") <| ei_item_timeout_seconds := seconds |>) None false false).
Definition eval_accepts_item_timeout_seconds : Prop :=
  match item_timeout "7" 7 with
  | Ok (PlanEval config _ _ _) => c_item_timeout_seconds config = 7%N
  | _ => False
  end.
Definition eval_rejects_zero_item_timeout_seconds : Prop :=
  fails_with "item timeout" (item_timeout "0" 0) = true.

Definition eval_replay_requires_daemon : Prop :=
  let plan (no_daemon : bool) :=
    let args := ["eval"; "--expr"; "{}"; "--replay"]
                ++ (if no_daemon then ["--no-daemon"] else []) in
    plan_of None args args (CmdEval (expr_input "{}") None no_daemon true) in
  match plan false with Ok (PlanEval _ _ _ replay) => replay = true | _ => False end
  ∧ fails_with "--replay requires the daemon" (plan true) = true.

Definition grouped_values_may_start_with_dashes : Prop :=
  let expr := "{ label }: label" in
  match plan_of None ["eval"; "--expr"; expr; "--argstr"; "label"; "--not-a-flag"]
          ["eval"; "--expr"; expr; grouped "--argstr" ["label"; "--not-a-flag"]]
          (CmdEval ((expr_input expr) <| ei_argstr := pairs_read [["label"; "--not-a-flag"]] |>)
             None false false) with
  | Ok (PlanEval config _ _ _) => snd <$> c_auto_args config = [ArgStr "--not-a-flag"]
  | _ => False
  end.

Definition watch_rejects_expr_input : Prop :=
  let args := ["watch"; "--expr"; "{}"] in
  fails_with "watch requires --flake or --file input"
    (plan_of None args args (CmdWatch (expr_input "{}") None false)) = true.

Definition query_prefixes (prefixes : list string) : option Filter :=
  let args := ["query"; "--expr"; "{}"] ++ (prefixes ≫= λ prefix, ["--attr-prefix"; prefix]) in
  match plan_of None args args (CmdQuery (expr_input "{}") None [] prefixes false) with
  | Ok (PlanQuery _ filter _) => Some filter
  | _ => None
  end.
Definition query_single_attr_prefix_uses_legacy_filter_field : Prop :=
  (λ filter, (f_attr_prefix filter, f_attr_prefixes filter)) <$> query_prefixes ["hydraJobs.release"]
  = Some (Some ["hydraJobs"; "release"], None).
Definition query_repeated_attr_prefix_uses_structured_filter_field : Prop :=
  (λ filter, (f_attr_prefix filter, f_attr_prefixes filter))
    <$> query_prefixes ["packages.x86_64-linux"; "hydraJobs.release"]
  = Some (None, Some [["packages"; "x86_64-linux"]; ["hydraJobs"; "release"]]).

Definition worker_plan (listen : string) (token : option string) (insecure : bool)
  : Result CommandPlan :=
  let args := ["worker"; "--listen"; listen]
    ++ (match token with Some token => ["--token"; token] | None => [] end)
    ++ (if insecure then ["--insecure-tokenless-remote"] else []) in
  plan_of None args args (CmdWorker listen token insecure).
Definition worker_rejects_missing_token : Prop :=
  fails_with "remote worker requires --token" (worker_plan "0.0.0.0:7357" None false) = true.
Definition worker_accepts_explicit_tokenless_remote : Prop :=
  worker_plan "127.0.0.1:7357" None true = Ok (PlanWorker "127.0.0.1:7357" None).

Example args_tests :
  eval_accepts_nix_style_argstr_pairs ∧ eval_accepts_nix_style_remote_triples
  ∧ eval_rejects_remote_without_token ∧ eval_accepts_explicit_tokenless_remote
  ∧ eval_accepts_item_timeout_seconds ∧ eval_rejects_zero_item_timeout_seconds
  ∧ eval_replay_requires_daemon ∧ grouped_values_may_start_with_dashes
  ∧ watch_rejects_expr_input ∧ query_single_attr_prefix_uses_legacy_filter_field
  ∧ query_repeated_attr_prefix_uses_structured_filter_field
  ∧ worker_rejects_missing_token ∧ worker_accepts_explicit_tokenless_remote.
Proof. run_test. Qed.

(** ** [main.rs] *)

(** The standard output takes every line. *)
Definition open_output (out : list string) : result IoError unit := Ok tt.
Definition no_text (json : Json) : string := "{}".
Definition no_response (line : string) : Result Response := Err (report "no response").
Definition test_query : Request := request_query (wire_config config_default) filter_default.

(** A daemon that reads the request and closes the connection. *)
Definition read_request_and_close : Connection := λ _, Ok [].

Definition finite_daemon_request_rejects_eof_before_done : Prop :=
  fails_with "daemon closed connection before completing request"
    (run_daemon_request open_output no_text no_response read_request_and_close test_query []).2
  = true.
Definition watch_daemon_request_allows_eof_without_done : Prop :=
  (run_daemon_request open_output no_text no_response read_request_and_close
     (request_watch (wire_config config_default)) []).2 = Ok tt.

(** No daemon: connecting to its socket fails. *)
Definition unreachable (err : IoError) : Surroundings :=
  mkSurroundings (Ok tt) (λ _, mkRun [] (Ok Scheduler.Completed)) (λ _, []) None 1000
    (λ _, Err err) (λ _ _, Ok tt) (λ _ _, Ok tt).
Definition missing_socket : IoError :=
  mkIoError NotFound (report "No such file or directory (os error 2)").
Definition refused_connection : IoError :=
  mkIoError ConnectionRefused (report "Connection refused (os error 111)").
Definition permission_denied : IoError := mkIoError OtherKind (report "permission denied").

(** The first message names the socket, a later one the cause. *)
Definition connect_failure (socket cause : string) (r : Result unit) : bool :=
  match r with
  | Err (context message source) =>
      contains ("connecting to evix daemon at " +:+ socket) message && report_contains cause source
  | _ => false
  end.
Definition daemon_only (socket : string) (err : IoError) : Result unit :=
  (run_daemon_only open_output no_text no_response id (unreachable err) test_query
     (Some socket) []).2.
Definition daemon_only_reports_missing_socket_source : Prop :=
  connect_failure "/tmp/missing.sock" "No such file or directory"
    (daemon_only "/tmp/missing.sock" missing_socket) = true.
Definition daemon_only_reports_connection_refused_source : Prop :=
  connect_failure "/tmp/refused.sock" "Connection refused"
    (daemon_only "/tmp/refused.sock" refused_connection) = true.
Definition daemon_only_reports_permission_denied_source : Prop :=
  connect_failure "/tmp/permission-denied.sock" "permission denied"
    (Err (daemon_connect_error id "/tmp/permission-denied.sock" permission_denied)) = true.

(** The fallback prints, so that its run shows. *)
Definition client_or_local (socket : string) (err : IoError) : list string * Result unit :=
  run_client_or_local open_output no_text no_response id (unreachable err)
    (request_eval (wire_config config_default)) (Some socket)
    (λ out, (out ++ ["fell back"], Ok tt)) [].
Definition client_or_local_falls_back_for_missing_socket : Prop :=
  client_or_local "/tmp/fallback-missing.sock" missing_socket = (["fell back"], Ok tt).
Definition client_or_local_reports_connection_refused_source : Prop :=
  let '(out, r) := client_or_local "/tmp/fallback-refused.sock" refused_connection in
  out = [] ∧ connect_failure "/tmp/fallback-refused.sock" "Connection refused" r = true.
Definition local_fallback_rejects_permission_denied : Prop :=
  allows_local_fallback permission_denied = false.

Definition output_line_treats_broken_pipe_as_closed : Prop :=
  write_output_line (λ _, Err (mkIoError BrokenPipe (report "closed"))) [] "{}" = ([], Ok Closed).
Definition output_line_writes_complete_line : Prop :=
  write_output_line open_output [] "{}" = (["{}"], Ok Continue).

(** A checkout in [/evix]. *)
Definition checkout (path : string) : Result string :=
  if str_eqb path "." then Ok "/evix"
  else if existsb (str_eqb path) ["Cargo.toml"; "src/main.rs"] then Ok ("/evix/" +:+ path)
  else Err (report "No such file or directory").

Definition daemon_request_canonicalizes_file_input : Prop :=
  match daemon_request id id checkout (request_eval (wire_config (config_file "Cargo.toml"))) with
  | Ok (ReqEval _ config) => w_input config = File "/evix/Cargo.toml"
  | _ => False
  end.
Definition daemon_request_rewrites_current_dir_flake_ref : Prop :=
  match daemon_request id id checkout (request_eval (wire_config (config_flake ".#hydraJobs"))) with
  | Ok (ReqEval _ config) => w_input config = Flake "path:/evix#hydraJobs"
  | _ => False
  end.
Definition daemon_request_rewrites_path_flake_ref : Prop :=
  daemon_flake_ref id checkout "path:.#packages" = Ok "path:/evix#packages".
Definition daemon_request_rewrites_relative_path_flake_ref : Prop :=
  daemon_flake_ref id checkout "path:Cargo.toml" = Ok "path:/evix/Cargo.toml".
Definition daemon_request_rewrites_slash_relative_flake_ref : Prop :=
  daemon_flake_ref id checkout "src/main.rs#packages" = Ok "path:/evix/src/main.rs#packages".
Definition daemon_request_preserves_non_path_flake_ref : Prop :=
  daemon_flake_ref id checkout "github:NixOS/nixpkgs#hello" = Ok "github:NixOS/nixpkgs#hello".

Example client_tests :
  finite_daemon_request_rejects_eof_before_done ∧ watch_daemon_request_allows_eof_without_done
  ∧ daemon_only_reports_missing_socket_source ∧ daemon_only_reports_connection_refused_source
  ∧ daemon_only_reports_permission_denied_source ∧ client_or_local_falls_back_for_missing_socket
  ∧ client_or_local_reports_connection_refused_source ∧ local_fallback_rejects_permission_denied
  ∧ output_line_treats_broken_pipe_as_closed ∧ output_line_writes_complete_line.
Proof. run_test. Qed.

Example daemon_request_tests :
  daemon_request_canonicalizes_file_input ∧ daemon_request_rewrites_current_dir_flake_ref
  ∧ daemon_request_rewrites_path_flake_ref ∧ daemon_request_rewrites_relative_path_flake_ref
  ∧ daemon_request_rewrites_slash_relative_flake_ref
  ∧ daemon_request_preserves_non_path_flake_ref.
Proof. run_test. Qed.

(** ** [tests.rs] of the daemon *)

(** A text for keys in which every field shows. *)
Definition key_text (k : SessionKeyConfig) : Result string :=
  let pair_text (p : string * string) := p.1 +:+ "=" +:+ p.2 in
  let flag (b : bool) := if b then "true" else "false" in
  let list_text (l : list string) := str_join "," l in
  Ok (str_join ";"
    [match k_input k with Flake s => "flake " +:+ s | Expr s => "expr " +:+ s | File s => "file " +:+ s end;
     list_text ((λ arg, match arg.2 with ArgExpr s => "expr " +:+ arg.1 +:+ "=" +:+ s
                                       | ArgStr s => "str " +:+ arg.1 +:+ "=" +:+ s end)
                  <$> k_auto_args k);
     flag (k_force_recurse k); default "null" (k_gc_roots_dir k);
     show_N (k_workers k); show_N (k_max_memory_size k); show_N (k_item_timeout_seconds k);
     flag (k_meta k); flag (k_show_input_drvs k);
     list_text (pair_text <$> k_override_inputs k); list_text (pair_text <$> k_nix_options k);
     list_text ((λ r, endpoint r +:+ list_text (systems r) +:+ show_N (remote_workers r)
                      +:+ default "null" (token r)) <$> k_remotes k)]).
Definition same_session (a b : Config) : bool :=
  match session_key key_text a, session_key key_text b with
  | Ok a, Ok b => str_eqb a b
  | _, _ => false
  end.
Definition changed (field : Config → Config) : bool :=
  negb (same_session (config_expr "{}") (field (config_expr "{}"))).

Definition session_key_includes_daemon_protocol_fields : Prop :=
  forallb changed
    [λ c, c <| c_gc_roots_dir := Some "/nix/var/nix/gcroots/evix" |>;
     λ c, c <| c_workers := 16%N |>; λ c, c <| c_max_memory_size := 8192%N |>;
     λ c, c <| c_item_timeout_seconds := 7%N |>; λ c, c <| c_meta := true |>;
     λ c, c <| c_show_input_drvs := true |>;
     λ c, c <| c_remotes := [mkRemote "127.0.0.1:7357" ["x86_64-linux"] 4 (Some "secret")] |>]
  = true.
Definition session_key_ignores_local_worker_executable : Prop :=
  changed (λ c, c <| c_worker_exe := Some "/bin/evix-worker" |>) = false.
Definition session_key_keeps_evaluation_fields : Prop :=
  forallb changed
    [λ c, c <| c_input := Expr "{ changed = true; }" |>;
     λ c, c <| c_auto_args := [("name", ArgStr "value")] |>;
     λ c, c <| c_force_recurse := true |>;
     λ c, c <| c_override_inputs := [("nixpkgs", "github:NixOS/nixpkgs")] |>;
     λ c, c <| c_nix_options := [("accept-flake-config", "true")] |>]
  = true.

(** A connection of the daemon's own user that sends one request. *)
Definition ask (request : Request) : Handling * Result unit :=
  handle_connection key_text (λ r, Ok match r with RespError message => message | _ => "other" end)
    display_report id (λ _, open_session config_default) (λ _, Ok request) (Ok 1000%N) 1000 (Ok tt)
    [Ok (str_chars (as_line "request"))] (mkActivity [] [] (mkRun [] (Ok Scheduler.Completed)))
    (mkHandling daemon_init EmptyString 10).
Definition answers_error (message : string) (request : Request) : bool :=
  let '(h, r) := ask request in contains message (h_written h) && fails_with message r.
Definition missing_warm_session_returns_protocol_error : Prop :=
  answers_error "no warm session for requested daemon config" test_query = true.
Definition mismatched_protocol_version_returns_protocol_error : Prop :=
  answers_error "unsupported daemon protocol version"
    (ReqQuery (DAEMON_PROTOCOL_VERSION + 1) (wire_config config_default) filter_default) = true.

Definition session_registry_evicts_least_recently_used_entry : Prop :=
  let registry := registry_insert "b" 2 (registry_insert "a" 1 (registry_new 2)) in
  let '(registry, a) := registry_get "a" registry in
  let registry := registry_insert "c" 3 registry in
  let '(registry, b) := registry_get "b" registry in
  let '(registry, a') := registry_get "a" registry in
  let '(registry, c) := registry_get "c" registry in
  (a, b, a', c) = (Some 1, None, Some 1, Some 3).

Definition connection_limiter_releases_slots_on_drop : Prop :=
  let '(limiter, first) := acquire (limiter_new 1) in
  let '(limiter, second) := acquire limiter in
  let '(limiter, third) := acquire (release limiter) in
  (first, second, third) = (true, false, true).

Definition warm_session_rejects_daemon_protocol_field_variants : Prop :=
  let base := config_expr "{}" in
  let '(state, _) := replace_session key_text daemon_init base in
  fails_with "requested daemon config"
    (warm_session key_text state (base <| c_workers := 8%N |> <| c_meta := true |>)).2 = true.
Definition missing_warm_session_names_matching_fields : Prop :=
  fails_with "all daemon-protocol config values"
    (warm_session key_text daemon_init (config_expr "{}")).2 = true.

Definition request_reader_rejects_oversized_line : Prop :=
  fails_with "daemon request exceeds 4 bytes"
    (read_limited_line 4 [] [Ok (str_chars (as_line "abcdef"))]) = true.
Definition request_reader_accepts_line_at_limit : Prop :=
  read_limited_line 4 [] [Ok (str_chars (as_line "abc"))] = Ok (str_chars (as_line "abc")).

Example daemon_session_tests :
  session_key_includes_daemon_protocol_fields ∧ session_key_ignores_local_worker_executable
  ∧ session_key_keeps_evaluation_fields ∧ missing_warm_session_returns_protocol_error
  ∧ mismatched_protocol_version_returns_protocol_error
  ∧ session_registry_evicts_least_recently_used_entry ∧ connection_limiter_releases_slots_on_drop
  ∧ warm_session_rejects_daemon_protocol_field_variants
  ∧ missing_warm_session_names_matching_fields
  ∧ request_reader_rejects_oversized_line ∧ request_reader_accepts_line_at_limit.
Proof. run_test. Qed.

(** *** The socket *)

(** A socket path in a directory of the test, where nothing is yet. *)
Definition test_socket : string := "/tmp/evix-daemon/evix.sock".
Definition absent : SocketProbe :=
  mkSocketProbe (Some "/tmp/evix-daemon") (Ok tt) (Err missing_socket) (Err missing_socket)
    (Ok tt) (Ok tt) (Ok tt).
#[export] Instance eta_socket_probe : EtaRecord SocketProbe := λ p,
  mkSocketProbe (p_parent p) (p_create_dir p) (p_metadata p) (p_connect p) (p_remove p) (p_bind p)
    (p_chmod p).

Definition removes (effects : list SocketEffect) : bool :=
  existsb (λ e, match e with RemoveFile path => str_eqb path test_socket | _ => false end) effects.

Definition socket_startup_refuses_non_socket_path : Prop :=
  let '(effects, r) := prepare_socket_path test_socket (absent <| p_metadata := Ok false |>) in
  fails_with "refusing to remove non-socket path" r = true ∧ removes effects = false.
Definition socket_startup_reports_live_socket : Prop :=
  let '(effects, r) := prepare_socket_path test_socket
    (absent <| p_metadata := Ok true |> <| p_connect := Ok tt |>) in
  fails_with "live daemon socket already exists" r = true ∧ removes effects = false.
Definition socket_startup_removes_stale_socket : Prop :=
  let '(effects, r) := prepare_socket_path test_socket
    (absent <| p_metadata := Ok true |> <| p_connect := Err refused_connection |>) in
  r = Ok tt ∧ removes effects = true.

(** The files after starting to listen, with the reports and the result. *)
Definition listening (p : SocketProbe) (ready : Result unit)
  : gmap string N * list Report * nat * Result unit :=
  let '(effects, r) := bind_listener 18 test_socket p ready in
  let errors := omap (λ e, match e with ReportError err => Some err | _ => None end) effects in
  let readies := omap (λ e, match e with ReportReady => Some tt | _ => None end) effects in
  (rf_files (run_effects plain_world (OnSocket <$> effects) (no_files plain_world)),
   errors, length readies, r).

Definition socket_startup_sets_private_permissions : Prop :=
  let '(files, _, _, r) := listening absent (Ok tt) in
  r = Ok tt ∧ files !! test_socket = Some (6 * 8 * 8)%N.
Definition readiness_reports_bind_failure : Prop :=
  let '(_, errors, _, r) :=
    listening (absent <| p_bind := Err (report "path must be shorter than SUN_LEN") |>) (Ok tt) in
  fails_with "binding" r = true ∧ report_contains "binding" <$> errors = [true].
Definition readiness_reports_successful_background_startup : Prop :=
  let '(files, errors, readies, r) := listening absent (Ok tt) in
  r = Ok tt ∧ readies = 1 ∧ errors = [] ∧ bool_decide (is_Some (files !! test_socket)) = true.
Definition readiness_failure_removes_bound_socket : Prop :=
  let '(files, _, _, r) := listening absent (Err (report "ready failed")) in
  fails_with "ready failed" r = true ∧ files !! test_socket = None.

Definition pipe_startup_reporter_writes_pid_when_ready : Prop :=
  let '(effects, r) := reporter_ready encode_startup plain_world (PipeStartupReporter "/tmp/evix.pid") in
  r = Ok tt
  ∧ (line ← read_line (sent effects); parse_startup (str_trim line)) = Ok RespDone
  ∧ bool_decide (is_Some
      (rf_files (run_effects plain_world effects (no_files plain_world)) !! "/tmp/evix.pid")) = true.
Definition runtime_cleanup_removes_owned_socket_and_pid_file : Prop :=
  rf_files (run_effects plain_world (runtime_cleanup test_socket (Some "/tmp/evix.pid"))
    (mkRunFiles 18 {[test_socket := 384%N; "/tmp/evix.pid" := 420%N]})) = ∅.

Example daemon_socket_tests :
  socket_startup_refuses_non_socket_path ∧ socket_startup_reports_live_socket
  ∧ socket_startup_removes_stale_socket ∧ socket_startup_sets_private_permissions
  ∧ readiness_reports_bind_failure ∧ readiness_reports_successful_background_startup
  ∧ readiness_failure_removes_bound_socket ∧ pipe_startup_reporter_writes_pid_when_ready
  ∧ runtime_cleanup_removes_owned_socket_and_pid_file.
Proof. run_test. Qed.
